(* ===== verification/_CoqProject ===== *)
-Q . S2P
Prelude.v
Text.v
Errors.v
Ids.v
External.v
Stateful.v
JsonSchema.v
JsonSchemaProps.v
Host.v
Digest.v
WasmHost.v
WasmHostProps.v
WasmHostInvariant.v
Model.v
Permission.v
Glob.v
Grant.v
GrantProps.v
Instance.v
Contribution.v
ContributionProps.v
ContributionStore.v
ContributionCall.v
ContributionCallProps.v
Manifest.v
ManifestProps.v
Evolution.v
EvolutionProps.v
Observation.v
ObservationProps.v
ViewerDocument.v
ViewerDocumentProps.v
PluginNetwork.v
PluginNetworkProps.v
ProjectRoot.v
WorkspaceInspection.v
WorkspaceInspectionProps.v
LifecycleRecords.v
LifecycleDatabase.v
StoreLifecycle.v
StoreService.v
StoreInvariant.v
StoreTriples.v
StoreOperations.v
StoreProps.v
StoreServiceProps.v
StoreReplacement.v
Broker.v
Async.v
Lifecycle.v
LifecycleProps.v
EffectTimeline.v
Graph.v
Resolver.v
ScopeManager.v
ManagerShape.v
ManagerInvariant.v
ManagerSteps.v
ManagerPublish.v
ManagerOperations.v
ManagerProps.v
Reference.v
ResolverExamples.v
LifecycleExamples.v
GrantExamples.v
ContributionExamples.v
WasmExamples.v
ObservationExamples.v
BrokerServiceExamples.v
StoreExamples.v
PluginExamples.v
