(* ===== verification/Prelude.v ===== *)
(** * A verification development for Rho's extension runtime and plugin broker

    Rho runs third-party plugins beside an R session.  What decides which plugin may
    run, what it may touch and when it stops is the crate
    [crates/rho-extension-runtime]; this development models that crate, all of its
    files but [discovery.rs], and proves what makes each part correct.  Around it, it
    models the durable record of plugin lifecycles in [crates/rho-store] and the
    services of [crates/rho-server] by which the broker gives a plugin the network and
    the workspace.

    ** The program and its parts

    A package on disk carries a manifest.  [manifest.rs] validates it and turns it
    into a descriptor; [digest.rs] names the package by the digest of its contents.
    [resolver.rs] orders the descriptors of a scope into an activation plan, under the
    host's scope-kind policy of [model.rs].  [lifecycle.rs] activates the plan: it
    builds a scope candidate, publishes it by compare-and-swap, and disposes of the
    scope that was published before.  [instance.rs] keeps the state of each plugin,
    [wasm_host.rs] runs its module, speaking the frames of [host.rs].  A plugin offers
    contributions ([contribution.rs]) whose inputs and outputs are checked against
    bounded schemas ([json_schema.rs]); [contribution_call.rs] calls one over the
    host.  What a guest asks of the broker in a call ([broker.rs]) is admitted by the
    permission grants of [grant.rs].  What it shows is a document of
    [viewer_document.rs].  [evolution.rs], [evaluation.rs], [builder.rs] and
    [gardener.rs] decide which new version of a plugin may become the accepted one,
    and [observation.rs] what may be learnt from a project's traces.

    In [rho-store], [plugin_lifecycle.rs] keeps for each project which package of a
    plugin is accepted, the transition it is in, its journal and its trash, in four
    tables of [migration.rs]; [plugin_lifecycle_service.rs] is its interface, and
    [plugin_retention.rs] of [rho-server] purges the trash through it.  A granted
    request for the network is fetched by [plugin_network.rs], one for an object of the
    R session answered through [plugin_workspace.rs].

    ** Files

    Foundations.
    - [Prelude]: [Result] with its loops and early returns, checks that may panic,
      Rust's ordering and sorted maps, list lemmas, the tactics that run them.
    - [Text]: [str] and [String] as UTF-8 bytes.
    - [Errors], [Ids]: [error.rs], [id.rs].
    - [External]: what other crates do ([semver], SHA-256, [serde_json]), as classes
      with the documented laws.
    - [Stateful]: [&mut self] methods that may fail, with a postcondition calculus.
    - [Async]: [async] methods that a caller may drop at any wait, with a weakest
      precondition.

    Components; a file [XProps] holds the theorems about [X].
    - [Model], [Digest], [Permission], [Manifest], [ManifestProps]: [model.rs],
      [digest.rs], [manifest.rs].
    - [Graph], [Resolver]: [resolver.rs]; the strongly connected components are
      [petgraph]'s, a parameter with its law.
    - [Lifecycle], [LifecycleProps], [EffectTimeline]: the lower half of
      [lifecycle.rs], registries, calls, effects, tasks, scope snapshots and their
      disposal.
    - [ScopeManager] and [ManagerShape], [ManagerInvariant], [ManagerSteps],
      [ManagerPublish], [ManagerOperations], [ManagerProps]: its upper half, candidates,
      slots, publication, clearing and shutdown.  [ManagerShape] is the abstract
      machine, the other files show that the worlds of [ScopeManager] move as it does.
    - [Instance]: [instance.rs].
    - [Host]: [host.rs].  [WasmHost], [WasmHostProps], [WasmHostInvariant]:
      [wasm_host.rs] over [wasmtime], a parameter.
    - [JsonSchema], [JsonSchemaProps]: [json_schema.rs].
    - [Contribution], [ContributionProps], [ContributionStore]: [contribution.rs].
      [ContributionCall], [ContributionCallProps]: [contribution_call.rs].
    - [Glob], [Grant], [GrantProps]: [grant.rs].  [Broker]: [broker.rs].
    - [Evolution], [EvolutionProps]: [evolution.rs], [evaluation.rs], [builder.rs],
      [gardener.rs].  [Observation], [ObservationProps]: [observation.rs].
    - [ViewerDocument], [ViewerDocumentProps]: [viewer_document.rs].
    - [PluginNetwork], [PluginNetworkProps]: [plugin_network.rs].  [ProjectRoot]:
      [normalize_project_root] of [rho-store].  [WorkspaceInspection],
      [WorkspaceInspectionProps]: [plugin_workspace.rs].
    - [LifecycleRecords], [LifecycleDatabase], [StoreLifecycle]: the data and checks of
      [plugin_lifecycle.rs], the tables with their constraints, its operations.
      [StoreService]: [plugin_lifecycle_service.rs] and [plugin_retention.rs].
      [StoreInvariant] states the invariant and the history of the tables, [StoreTriples]
      is the calculus in which [StoreOperations] shows that each operation keeps them;
      [StoreProps], [StoreReplacement] and [StoreServiceProps] hold the theorems.

    Concrete input.  [Reference] implements the external classes; the files
    [XExamples] evaluate the models on the inputs of the source's tests and apply the
    theorems there.

    ** How code is modelled

    A struct is a [Record], an enum an [Inductive] with the same variants, a method a
    [Definition] of the same name.  An operation with [&mut self] returns the state it
    leaves also when it fails.  Integers are [Z] with checked or saturating arithmetic
    as the code has it; strings are bytes, read as characters only where the code does.
    Clocks, generated identifiers and answers of plugin code are inputs of an
    operation.  [BTreeMap] and [HashMap] are [gmap]s, iterated in sorted order where the
    code iterates.  Scopes shared by [Arc] lie in a heap of the world, and a pointer is
    an index; what several owners see of a scope is one cell.  A cancellation handle of
    the Wasm host works on another thread: its calls are inputs at the moments at which
    they may land.  A table of the database is a [gmap] by primary key, a statement a
    function on the tables with the checks of the schema, which may also fail; a
    transaction commits or restores them, and other connections work between
    transactions.

    Recursion that is not structural takes fuel, and a theorem says that it is enough.
    A schema has at most nine levels, and a tenth is refused before the fuel ends
    ([JsonSchemaProps]); a disposal visits a scope below another at most as often as
    there are scopes ([LifecycleProps.quiesce_and_dispose_correct] gives it one more
    than that); a broker call takes at most eight answers
    ([WasmHostInvariant.broker_call_ends]) and a contribution call with its admission
    and outcome fits in ten steps ([ContributionCallProps.contribution_call_ends]).  A
    fetch makes at most four requests, the first and one for each of three redirects
    ([PluginNetworkProps.fetch_answers]).

    ** What is shown

    - The resolver returns a plan exactly when there is one; a plan is a topological
      order, the same for every order of the input; each error is justified.
    - A disposal ends within its deadlines, stops the whole tree and reports success
      only when nothing is left over; effects settle as a timeline says.  What a scope
      manager can reach keeps its invariant, even with operations dropped at any wait;
      publication is a compare-and-swap, for a project and its workspace at once; only
      completions of the published scope are accepted; a shutdown stops everything.
    - A Wasm host keeps its invariant whatever its guest answers, refines the abstract
      host of [Host], reads guest memory in bounds, and ends every broker call.  A
      contribution call is admitted only for the published contribution, has one
      outcome at most, in time and of the declared shape, and comes to an end.
    - A use is admitted only by a live grant for this plugin, session, project, package
      and resource; revoked and consumed grants stay dead; allow-once admits one use
      at a time.  The glob matcher agrees with a declarative matching relation.
    - The plugin manager keeps its invariant and generations identify sessions; the
      contribution store changes as a whole or not at all and isolates projects.
    - Schema validation decides conformance, and accepted schemas and values are
      bounded; manifest validation decides well-formedness; a valid manifest yields a
      valid descriptor.
    - Evidence is accepted exactly when complete and passing; a seal binds its plan; a
      lineage's accepted digest moves by compare-and-swap.
    - Observation isolates projects, an excluded trace is never used again, and an
      accepted viewer document meets its contract.
    - A fetch sends only to public addresses of allowed hosts, authorized anew before
      each request, and always answers; an address is public exactly when it is in no
      special-purpose block.  An inspection discloses only the object its reference was
      issued for, in bounds.
    - The lifecycle tables keep their invariant and rows only move forward, in every
      interleaving of connections and with any statements failing; a call is atomic and
      journaled; a replacement is a compare-and-swap; files of the trash are purged only
      with a durable request.

    ** Not modelled

    - [discovery.rs]: it walks a package directory guarding against links and races;
      its decisions are those of the file system's answers.
    - The rest of [rho-store]: rows of runs, plots, audits, evidence and permission
      decisions, written and read back, and the migrations.  That decisions on
      permissions are honoured is shown at the grants made from them ([GrantProps]).
    - [plugin_fs.rs], [plugin_package_cache.rs] and [plugin_package_trash.rs] of
      [rho-server]: work on the file system guarded against links and races, as
      [discovery.rs]; the purge of files is an input of [StoreService].
    - SQLite itself: a statement is atomic, a failed one changes nothing, a commit that
      fails is rolled back; reading rows back yields what was written.
    - [rho-server]'s coordinator, the R kernel and protocol crates, command line, MCP
      server and desktop application: processes, channels, windows and transport.
    - [Debug] output, serialisation derived by [serde], and the async facade trait of
      the broker. *)
From stdpp Require Export base tactics option list strings gmap sorting numbers pretty.
From Stdlib Require Export Ascii ZArith Lia.

#[global] Set Default Goal Selector "!".
#[export] Set Warnings "-clear-no-such-hyp".
#[local] Set Warnings "-clear-no-such-hyp".

(** ** Results *)

(** [Result<A, E>]: the error type comes first so that [result E] is a monad. *)
Inductive result (E A : Type) : Type :=
| Ok (a : A)
| Err (e : E).
Arguments Ok {E A} a.
Arguments Err {E A} e.

#[global] Instance result_eq_dec `{EqDecision E, EqDecision A} : EqDecision (result E A).
Proof. solve_decision. Defined.
#[global] Instance result_ret {E} : MRet (result E) := fun A a => Ok a.
#[global] Instance result_bind {E} : MBind (result E) := fun A B f m =>
  match m with Ok a => f a | Err e => Err e end.
#[global] Instance result_fmap {E} : FMap (result E) := fun A B f m =>
  match m with Ok a => Ok (f a) | Err e => Err e end.

Definition vec_len {A} (l : list A) : Z := Z.of_nat (length l).
Definition vec_is_empty {A} (l : list A) : bool := match l with [] => true | _ => false end.
Definition is_some {A} (o : option A) : bool := match o with Some _ => true | None => false end.
(** [o.is_some_and(p)]. *)
Definition is_some_and {A} (p : A → bool) (o : option A) : bool :=
  match o with Some a => p a | None => false end.
Definition is_ok {E A} (r : result E A) : bool :=
  match r with Ok _ => true | Err _ => false end.
Definition map_err {E F A} (f : E -> F) (r : result E A) : result F A :=
  match r with Ok a => Ok a | Err e => Err (f e) end.
Definition ok_or {E A} (o : option A) (e : E) : result E A :=
  match o with Some a => Ok a | None => Err e end.

(** [if c { return Err(e); }]. *)
Definition fail_if {E} (c : bool) (e : E) : result E () :=
  if c then Err e else Ok ().
(** [if let Some(x) = o { return Err(f(x)); }]. *)
Definition fail_with {E A} (o : option A) (f : A -> E) : result E () :=
  match o with Some a => Err (f a) | None => Ok () end.
(** [for x in l { body(x)?; }]. *)
Fixpoint for_each {E A} (body : A -> result E ()) (l : list A) : result E () :=
  match l with
  | [] => Ok ()
  | x :: l => _ ← body x; for_each body l
  end.
(** [for x in l { s = body(s, x)?; }]. *)
Fixpoint try_fold {E A S} (body : S -> A -> result E S) (s : S) (l : list A) : result E S :=
  match l with
  | [] => Ok s
  | x :: l => s ← body s x; try_fold body s l
  end.

(** How a call can fail to return a value: the function's own error, or a panic. *)
Inductive fault (E : Type) := Failed (e : E) | Panic.
Arguments Failed {E} e.
Arguments Panic {E}.

Definition returns {E A} (r : result E A) : result (fault E) A := map_err Failed r.

Lemma is_some_not_None {A} (o : option A) : is_some o = true ↔ o ≠ None.
Proof. by destruct o. Qed.

Lemma is_some_false {A} (o : option A) : is_some o = false ↔ o = None.
Proof. by destruct o. Qed.
Lemma vec_is_empty_true {A} (l : list A) : vec_is_empty l = true ↔ l = [].
Proof. by destruct l. Qed.
Lemma vec_is_empty_false {A} (l : list A) : vec_is_empty l = false ↔ l ≠ [].
Proof. by destruct l. Qed.

Section result_bind_unit.
Context {E B : Type}.
Lemma Ok_inj (a b : B) : Ok (E:=E) a = Ok b → a = b.
Proof. by intros [= ->]. Qed.
Lemma bind_fail_if_false (e : E) (k : () → result E B) : (fail_if false e ≫= k) = k ().
Proof. done. Qed.
Lemma bind_unit_Ok_iff (r : result E ()) (k : result E B) b :
  (r ≫= λ _, k) = Ok b ↔ r = Ok () ∧ k = Ok b.
Proof. destruct r as [[]|]; simpl; naive_solver. Qed.
End result_bind_unit.

Section result_lemmas.
Context {E A B : Type}.
Implicit Types (r : result E A).

Lemma bind_Ok_iff r (f : A -> result E B) b :
  r ≫= f = Ok b ↔ ∃ a, r = Ok a ∧ f a = Ok b.
Proof. destruct r; simpl; naive_solver. Qed.

Lemma bind_Err_iff r (f : A -> result E B) e :
  r ≫= f = Err e ↔ r = Err e ∨ ∃ a, r = Ok a ∧ f a = Err e.
Proof. destruct r; simpl; naive_solver. Qed.

Lemma fail_if_Ok c (e : E) u : fail_if c e = Ok u ↔ c = false.
Proof. destruct c, u; simpl; naive_solver. Qed.
Lemma fail_if_Err c (e e' : E) : fail_if c e = Err e' ↔ c = true ∧ e = e'.
Proof. destruct c; simpl; naive_solver. Qed.
Lemma fail_with_Ok (o : option A) (f : A -> E) u : fail_with o f = Ok u ↔ o = None.
Proof. destruct o, u; simpl; naive_solver. Qed.
Lemma ok_or_Ok (o : option A) (e : E) a : ok_or o e = Ok a ↔ o = Some a.
Proof. destruct o; simpl; naive_solver. Qed.
Lemma ok_or_Err (o : option A) (e e' : E) : ok_or o e = Err e' ↔ o = None ∧ e = e'.
Proof. destruct o; simpl; naive_solver. Qed.
Lemma map_err_Ok {F} r (f : E -> F) a : map_err f r = Ok a ↔ r = Ok a.
Proof. destruct r; simpl; naive_solver. Qed.

Lemma is_ok_bind r (f : A -> result E B) :
  is_ok (r ≫= f) = true ↔ ∃ a, r = Ok a ∧ is_ok (f a) = true.
Proof. destruct r; simpl; naive_solver. Qed.

Lemma for_each_Ok (body : A -> result E ()) l :
  for_each body l = Ok () ↔ Forall (λ x, body x = Ok ()) l.
Proof.
  induction l as [|x l IH]; simpl; [split; auto|].
  by rewrite bind_unit_Ok_iff, Forall_cons, <-IH.
Qed.

Lemma for_each_Err (body : A -> result E ()) l e :
  for_each body l = Err e → ∃ x, x ∈ l ∧ body x = Err e.
Proof.
  induction l as [|x l IH]; simpl; [done|].
  destruct (body x) eqn:Hx; simpl.
  - intros H. destruct (IH H) as (y & ? & ?). exists y. split; [by right|done].
  - intros [= ->]. exists x. split; [by left|done].
Qed.

Lemma try_fold_snoc {S} (body : S → A → result E S) s l x :
  try_fold body s (l ++ [x]) = (s1 ← try_fold body s l; body s1 x).
Proof.
  revert s. induction l as [|y l IH]; intros s; simpl.
  - by destruct (body s x).
  - destruct (body s y); simpl; [apply IH|done].
Qed.
(** A property of the accumulator that every successful iteration preserves
    holds of the result of the loop. *)
Lemma try_fold_inv {S} (I : list A → S → Prop) (body : S → A → result E S) l s s' :
  I [] s →
  (∀ done x rest s1 s2, l = done ++ x :: rest → I done s1 → body s1 x = Ok s2 → I (done ++ [x]) s2) →
  try_fold body s l = Ok s' → I l s'.
Proof.
  intros H0 Hstep.
  assert (Hgen : ∀ rest pre s1, l = pre ++ rest → I pre s1 → try_fold body s1 rest = Ok s' → I l s').
  { induction rest as [|x rest IH]; intros pre s1 Hl HI; simpl.
    - intros [= <-]. rewrite app_nil_r in Hl. by subst.
    - destruct (body s1 x) as [s2|] eqn:Hb; simpl; [|done].
      intros Hf. apply (IH (pre ++ [x]) s2); [by rewrite <-app_assoc| |done].
      eapply Hstep; eauto. }
  by apply (Hgen l [] s).
Qed.

(** A failing loop failed in one iteration, from a state satisfying the invariant. *)
Lemma try_fold_Err {S} (I : list A → S → Prop) (body : S → A → result E S) l s e :
  I [] s →
  (∀ done x rest s1 s2, l = done ++ x :: rest → I done s1 → body s1 x = Ok s2 → I (done ++ [x]) s2) →
  try_fold body s l = Err e → ∃ done x rest s1, l = done ++ x :: rest ∧ I done s1 ∧ body s1 x = Err e.
Proof.
  intros H0 Hstep.
  assert (Hgen : ∀ rest pre s1, l = pre ++ rest → I pre s1 → try_fold body s1 rest = Err e →
            ∃ done x rest s1, l = done ++ x :: rest ∧ I done s1 ∧ body s1 x = Err e).
  { induction rest as [|x rest IH]; intros pre s1 Hl HI; simpl; [done|].
    destruct (body s1 x) as [s2|e'] eqn:Hb; simpl.
    - apply (IH (pre ++ [x])); [by rewrite <-app_assoc|]. eapply Hstep; eauto.
    - intros [= ->]. by exists pre, x, rest, s1. }
  by apply (Hgen l [] s).
Qed.

(** The iterations before the failing one. *)
Lemma try_fold_Err_prefix {S} (body : S → A → result E S) l s e :
  try_fold body s l = Err e →
  ∃ pre x post s1, l = pre ++ x :: post ∧ try_fold body s pre = Ok s1 ∧ body s1 x = Err e.
Proof.
  intros Hf. apply (try_fold_Err (λ pre s1, try_fold body s pre = Ok s1)) in Hf; [done..|].
  intros pre x post s1 s2 _ Hpre Hx. by rewrite try_fold_snoc, Hpre.
Qed.

(** A loop runs to its end when the invariant makes every iteration succeed. *)
Lemma try_fold_total {S} (I : list A → S → Prop) (body : S → A → result E S) l s :
  I [] s →
  (∀ done x rest s1, l = done ++ x :: rest → I done s1 →
     ∃ s2, body s1 x = Ok s2 ∧ I (done ++ [x]) s2) →
  ∃ s', try_fold body s l = Ok s' ∧ I l s'.
Proof.
  intros H0 Hstep.
  assert (Hgen : ∀ rest pre s1, l = pre ++ rest → I pre s1 →
            ∃ s', try_fold body s1 rest = Ok s' ∧ I l s').
  { induction rest as [|x rest IH]; intros pre s1 Hl HI; simpl.
    - exists s1. rewrite app_nil_r in Hl. by subst.
    - destruct (Hstep pre x rest s1 Hl HI) as (s2 & -> & HI2). simpl.
      apply (IH (pre ++ [x])); [by rewrite <-app_assoc|done]. }
  by apply (Hgen l []).
Qed.
End result_lemmas.

(** A call's state and result, once its result is known. *)
Lemma pair_result {A B} (p : A * B) (b : B) : p.2 = b → p = (p.1, b).
Proof. by destruct p; simpl; intros ->. Qed.

(** ** Panics *)

Definition no_panic {E A} (r : result (fault E) A) : Prop := r ≠ Err Panic.

Section no_panic.
Context {E A B : Type}.
Implicit Types (r : result (fault E) A).

Lemma no_panic_bind r (k : A → result (fault E) B) :
  no_panic r → (∀ a, r = Ok a → no_panic (k a)) → no_panic (r ≫= k).
Proof. destruct r; simpl; unfold no_panic; [|congruence]. auto. Qed.
Lemma no_panic_Ok (a : A) : no_panic (E:=E) (Ok a).
Proof. done. Qed.
Lemma no_panic_Failed (e : E) : no_panic (A:=A) (Err (Failed e)).
Proof. done. Qed.
Lemma no_panic_fail_if c (e : E) : no_panic (fail_if c (Failed e)).
Proof. by destruct c. Qed.
Lemma no_panic_fail_with (o : option A) (f : A → E) : no_panic (fail_with o (λ a, Failed (f a))).
Proof. by destruct o. Qed.
Lemma no_panic_ok_or (o : option A) (e : E) : no_panic (ok_or o (Failed e)).
Proof. by destruct o. Qed.
Lemma no_panic_ok_or_panic (o : option A) : o ≠ None → no_panic (E:=E) (ok_or o Panic).
Proof. by destruct o. Qed.
Lemma no_panic_map_err {F} (f : F → E) (s : result F A) : no_panic (map_err (λ e, Failed (f e)) s).
Proof. by destruct s. Qed.
Lemma no_panic_for_each (body : A → result (fault E) ()) l :
  (∀ x, x ∈ l → no_panic (body x)) → no_panic (for_each body l).
Proof.
  intros Hb Hp. apply for_each_Err in Hp as (x & Hx & Hp). by apply (Hb x Hx).
Qed.
Lemma no_panic_try_fold {S} (body : S → A → result (fault E) S) s l :
  (∀ s x, x ∈ l → no_panic (body s x)) → no_panic (try_fold body s l).
Proof.
  intros Hb Hp.
  destruct (try_fold_Err (λ _ _, True) body l s Panic) as (pre & x & post & s1 & -> & _ & Hx);
    [done..|].
  apply (Hb s1 x); [|done]. apply elem_of_app. right. by left.
Qed.
Lemma no_panic_fmap r (f : A → B) : no_panic r → no_panic (f <$> r).
Proof. unfold no_panic. destruct r; simpl; congruence. Qed.
End no_panic.
Create HintDb panics.
#[export] Hint Resolve no_panic_Ok no_panic_Failed no_panic_fail_if no_panic_fail_with
  no_panic_ok_or no_panic_map_err no_panic_fmap : panics.
(** One step per bind; the goals left are about calls. *)
Ltac panic_step :=
  first [ solve [auto with panics]
        | lazymatch goal with
          | |- no_panic (_ ≫= _) => apply no_panic_bind; [|intros; cbn beta in *]
          | |- no_panic (for_each _ _) => apply no_panic_for_each; intros
          | |- no_panic (try_fold _ _ _) => apply no_panic_try_fold; intros
          | |- no_panic (_ <$> _) => apply no_panic_fmap
          end ].

(** [decides r P]: the check [r] passes exactly when [P] holds, and it never
    panics. *)
Definition decides {E} (r : result (fault E) ()) (P : Prop) : Prop :=
  (r = Ok () ↔ P) ∧ no_panic r.

Section decides.
Context {E : Type}.
Implicit Types (r : result (fault E) ()) (P Q : Prop).

Lemma decides_iff P Q r : (P ↔ Q) → decides r P → decides r Q.
Proof. intros HPQ [Hr Hn]. split; [by rewrite Hr|done]. Qed.
Lemma decides_Ok : decides (E:=E) (Ok ()) True.
Proof. by split. Qed.
Lemma decides_Failed (e : E) P : ¬ P → decides (Err (Failed e)) P.
Proof. by split. Qed.
Lemma decides_fail_if c (e : E) P : (c = false ↔ P) → decides (fail_if c (Failed e)) P.
Proof. intros Hc. split; [by rewrite fail_if_Ok|auto with panics]. Qed.
Lemma decides_bind r k P Q : decides r P → (P → decides k Q) → decides (_ ← r; k) (P ∧ Q).
Proof.
  intros [Hr Hn] Hk. split.
  - rewrite bind_unit_Ok_iff, Hr. split; intros [HP ?]; (split; [done|]); by apply Hk.
  - apply no_panic_bind; [done|]. intros [] E1. by apply Hk, Hr.
Qed.
Lemma decides_for_each {A} (body : A → result (fault E) ()) (P : A → Prop) l :
  (∀ x, x ∈ l → decides (body x) (P x)) → decides (for_each body l) (∀ x, x ∈ l → P x).
Proof.
  intros Hb. split.
  - rewrite for_each_Ok, Forall_forall. split; intros Hall x Hx; by apply Hb, Hall.
  - apply no_panic_for_each. intros x Hx. by apply Hb.
Qed.
End decides.

(** [result_inv H] turns [H : m = Ok _] for a chain of binds and early returns
    into one hypothesis per step. *)
Ltac result_inv_step H :=
  lazymatch type of H with
  | (fail_if _ _ ≫= _) = Ok _ =>
      let Hg := fresh "Hguard" in
      apply bind_unit_Ok_iff in H as [Hg H]; apply fail_if_Ok in Hg
  | (fail_with _ _ ≫= _) = Ok _ =>
      let Hg := fresh "Hguard" in
      apply bind_unit_Ok_iff in H as [Hg H]; apply fail_with_Ok in Hg
  | (@ok_or _ _ _ _ ≫= _) = Ok _ =>
      let x := fresh "x" in let Hg := fresh "Hsome" in
      apply bind_Ok_iff in H as (x & Hg & H); apply ok_or_Ok in Hg
  | (_ ≫= _) = Ok _ =>
      let x := fresh "x" in let Hg := fresh "Hok" in
      apply bind_Ok_iff in H as (x & Hg & H)
  | fail_if _ _ = Ok _ => apply fail_if_Ok in H
  | Ok _ = Ok _ => apply Ok_inj in H
  end.
Ltac result_inv H := repeat (result_inv_step H; simpl in H).

(** [result_err H] turns [H : m = Err e] for a chain of guards into one goal per
    guard that may have failed. *)
Ltac result_err H :=
  lazymatch type of H with
  | (fail_if _ _ ≫= _) = Err _ =>
      let Hg := fresh "Hguard" in
      apply bind_Err_iff in H as [[Hg <-]%fail_if_Err|(_ & _ & H)]; [|result_err H]
  | (fail_with ?o _ ≫= _) = Err _ =>
      let Hg := fresh "Hguard" in
      apply bind_Err_iff in H as [H|(_ & _ & H)];
        [destruct o eqn:Hg; simpl in H; [injection H as <-|discriminate H]|result_err H]
  | (ok_or _ _ ≫= _) = Err _ =>
      let Hg := fresh "Hnone" in
      apply bind_Err_iff in H as [[Hg <-]%ok_or_Err|(? & _ & H)]; [|result_err H]
  | fail_if _ _ = Err _ => apply fail_if_Err in H as [? <-]
  | _ => idtac
  end.

(** ** Booleans *)

(** [bool_prop] turns boolean guards in the context into propositions. *)
Ltac bool_prop :=
  repeat match goal with
  | H : _ && _ = true |- _ => apply andb_true_iff in H as [? ?]
  | H : _ || _ = false |- _ => apply orb_false_iff in H as [? ?]
  | H : negb _ = true |- _ => apply negb_true_iff in H
  | H : negb _ = false |- _ => apply negb_false_iff in H
  | H : bool_decide _ = true |- _ => apply bool_decide_eq_true in H
  | H : bool_decide _ = false |- _ => apply bool_decide_eq_false in H
  | H : (_ <? _)%Z = true |- _ => apply Z.ltb_lt in H
  | H : (_ <? _)%Z = false |- _ => apply Z.ltb_ge in H
  | H : (_ <=? _)%Z = true |- _ => apply Z.leb_le in H
  | H : (_ <=? _)%Z = false |- _ => apply Z.leb_gt in H
  | H : (_ =? _)%Z = true |- _ => apply Z.eqb_eq in H
  | H : (_ =? _)%Z = false |- _ => apply Z.eqb_neq in H
  end.

(** [iter().all(p)], [iter().any(p)] on lists are Stdlib's [forallb] and [existsb];
    these are their stdpp readings. *)
Lemma forallb_True {A} (p : A → bool) l : forallb p l = true ↔ ∀ x, x ∈ l → p x = true.
Proof. rewrite forallb_forall. by setoid_rewrite list_elem_of_In. Qed.
Lemma existsb_True {A} (p : A → bool) l : existsb p l = true ↔ ∃ x, x ∈ l ∧ p x = true.
Proof. rewrite existsb_exists. by setoid_rewrite list_elem_of_In. Qed.
Lemma existsb_False {A} (p : A → bool) l : existsb p l = false ↔ ∀ x, x ∈ l → p x = false.
Proof.
  rewrite <-not_true_iff_false, existsb_True. split.
  - intros H x Hx. destruct (p x) eqn:E; [exfalso; eauto|done].
  - intros H (x & Hx & Hp). specialize (H x Hx). congruence.
Qed.
Lemma find_Some_iff {A} (p : A → bool) l x : List.find p l = Some x → x ∈ l ∧ p x = true.
Proof. intros [??]%find_some. by rewrite list_elem_of_In. Qed.
Lemma find_None_iff {A} (p : A → bool) l : List.find p l = None ↔ ∀ x, x ∈ l → p x = false.
Proof.
  split.
  - intros H x Hx. eapply find_none; [done|]. by apply list_elem_of_In.
  - intros H. induction l as [|y l IH]; simpl; [done|].
    rewrite (H y) by (by left). apply IH. intros; apply H; by right.
Qed.

(** ** Machine integers *)

Definition u64_max : Z := 2 ^ 64 - 1.
(** [a.checked_add(b)] on [u64]. *)
Definition checked_add_u64 (a b : Z) : option Z :=
  if (a + b <=? u64_max)%Z then Some (a + b)%Z else None.
(** [a.saturating_sub(b)] on an unsigned type. *)
Definition saturating_sub (a b : Z) : Z := Z.max 0 (a - b).

(** ** Orders *)

(** Rust's [Ord]: a comparison, with the laws the trait documents. *)
Class RustOrd (A : Type) := rcmp : A → A → comparison.
#[global] Hint Mode RustOrd ! : typeclass_instances.
Class RustOrdLaws (A : Type) `{RustOrd A} : Prop := {
  rcmp_eq (x y : A) : rcmp x y = Eq ↔ x = y;
  rcmp_antisym (x y : A) : rcmp y x = CompOpp (rcmp x y);
  rcmp_trans (x y z : A) : rcmp x y = Lt → rcmp y z = Lt → rcmp x z = Lt
}.

(** [#[derive(Ord)]] through an injective view of the type. *)
Definition rcmp_on {A B} `{RustOrd B} (f : A → B) : RustOrd A := λ x y, rcmp (f x) (f y).
Lemma rcmp_on_laws {A B} `{RustOrdLaws B} (f : A → B) (Hf : Inj (=) (=) f) :
  @RustOrdLaws A (rcmp_on f).
Proof.
  split; unfold rcmp, rcmp_on; intros.
  - rewrite rcmp_eq. split; [apply Hf|by intros ->].
  - apply rcmp_antisym.
  - by eapply rcmp_trans.
Qed.

Definition cmp_then (c d : comparison) : comparison :=
  match c with Eq => d | _ => c end.

#[global] Instance Z_ord : RustOrd Z := Z.compare.
#[global] Instance Z_ord_laws : RustOrdLaws Z.
Proof.
  split; unfold rcmp, Z_ord; intros.
  - apply Z.compare_eq_iff.
  - apply Z.compare_antisym.
  - rewrite Z.compare_lt_iff in *. lia.
Qed.

#[global] Instance ascii_ord : RustOrd ascii := rcmp_on (λ c, Z.of_N (N_of_ascii c)).
#[global] Instance ascii_ord_laws : RustOrdLaws ascii.
Proof.
  apply rcmp_on_laws. intros c d H%N2Z.inj.
  by rewrite <-(ascii_N_embedding c), <-(ascii_N_embedding d), H.
Qed.

#[global] Instance prod_ord `{RustOrd A, RustOrd B} : RustOrd (A * B) := λ p q,
  cmp_then (rcmp p.1 q.1) (rcmp p.2 q.2).
#[global] Instance option_ord `{RustOrd A} : RustOrd (option A) := λ o p,
  match o, p with
  | None, None => Eq
  | None, Some _ => Lt
  | Some _, None => Gt
  | Some x, Some y => rcmp x y
  end.
#[global] Instance list_ord `{RustOrd A} : RustOrd (list A) :=
  fix go l k :=
    match l, k with
    | [], [] => Eq
    | [], _ :: _ => Lt
    | _ :: _, [] => Gt
    | x :: l, y :: k => cmp_then (rcmp x y) (go l k)
    end.

Section ord_lemmas.
Context `{RustOrdLaws A}.
Implicit Types x y z : A.

Lemma rcmp_refl x : rcmp x x = Eq.
Proof. by apply rcmp_eq. Qed.
Lemma rcmp_gt_lt x y : rcmp x y = Gt ↔ rcmp y x = Lt.
Proof. rewrite (rcmp_antisym x y). destruct (rcmp x y); simpl; naive_solver. Qed.
Lemma cmp_then_Eq c d : cmp_then c d = Eq ↔ c = Eq ∧ d = Eq.
Proof. destruct c; simpl; naive_solver. Qed.

Definition rle x y : Prop := rcmp x y ≠ Gt.
Definition rlt x y : Prop := rcmp x y = Lt.
#[global] Instance rle_dec : RelDecision rle.
Proof. intros x y. unfold rle. apply _. Defined.
#[global] Instance rlt_dec : RelDecision rlt.
Proof. intros x y. unfold rlt. apply _. Defined.

Lemma rle_lteq x y : rle x y ↔ rlt x y ∨ x = y.
Proof. unfold rle, rlt. rewrite <-rcmp_eq. destruct (rcmp x y); naive_solver. Qed.
#[global] Instance rle_refl : Reflexive rle.
Proof. intros x. apply rle_lteq. by right. Qed.
#[global] Instance rle_trans : Transitive rle.
Proof.
  intros x y z. rewrite !rle_lteq. unfold rlt.
  intros [?| ->] [?| ->]; auto. left. by eapply rcmp_trans.
Qed.
#[global] Instance rle_antisymm : AntiSymm (=) rle.
Proof.
  intros x y. unfold rle. rewrite (rcmp_antisym x y).
  destruct (rcmp x y) eqn:E; simpl; intros; try done. by apply rcmp_eq.
Qed.
#[global] Instance rle_total : Total rle.
Proof.
  intros x y. unfold rle. rewrite (rcmp_antisym x y).
  destruct (rcmp x y) eqn:E; simpl; auto.
Qed.
Lemma rlt_irrefl x : ¬ rlt x x.
Proof. unfold rlt. by rewrite rcmp_refl. Qed.
End ord_lemmas.
#[global] Typeclasses Opaque rle rlt.

#[global] Instance prod_ord_laws `{RustOrdLaws A, RustOrdLaws B} : RustOrdLaws (A * B).
Proof.
  split; unfold rcmp, prod_ord.
  - intros [x1 y1] [x2 y2]; simpl. rewrite cmp_then_Eq, !rcmp_eq. naive_solver.
  - intros [x1 y1] [x2 y2]; simpl.
    rewrite (rcmp_antisym x1 x2), (rcmp_antisym y1 y2). by destruct (rcmp x1 x2).
  - intros [x1 y1] [x2 y2] [x3 y3]; simpl.
    destruct (rcmp x1 x2) eqn:E1, (rcmp x2 x3) eqn:E2; simpl; try done;
      rewrite ?rcmp_eq in *; subst; rewrite ?E1, ?E2, ?rcmp_refl; simpl; auto.
    + apply rcmp_trans.
    + by rewrite (rcmp_trans _ _ _ E1 E2).
Qed.
#[global] Instance option_ord_laws `{RustOrdLaws A} : RustOrdLaws (option A).
Proof.
  split; unfold rcmp, option_ord.
  - intros [x|] [y|]; rewrite ?rcmp_eq; naive_solver.
  - intros [x|] [y|]; simpl; auto using rcmp_antisym.
  - intros [x|] [y|] [z|]; try done. apply rcmp_trans.
Qed.
#[global] Instance list_ord_laws `{RustOrdLaws A} : RustOrdLaws (list A).
Proof.
  split; unfold rcmp.
  - induction x as [|x l IH]; intros [|y k]; simpl; try naive_solver.
    rewrite cmp_then_Eq, rcmp_eq, IH. naive_solver.
  - induction x as [|x l IH]; intros [|y k]; simpl; try done.
    rewrite IH, (rcmp_antisym x y). by destruct (rcmp x y).
  - induction x as [|x l IH]; intros [|y k] [|z m]; simpl; try done.
    destruct (rcmp x y) eqn:E1, (rcmp y z) eqn:E2; simpl; try done;
      rewrite ?rcmp_eq in *; subst; rewrite ?E1, ?E2, ?rcmp_refl; simpl; auto.
    + apply IH.
    + by rewrite (rcmp_trans _ _ _ E1 E2).
Qed.

#[global] Instance string_ord : RustOrd string := rcmp_on String.list_ascii_of_string.
#[global] Instance string_ord_laws : RustOrdLaws string.
Proof.
  apply rcmp_on_laws. intros s t H.
  by rewrite <-(String.string_of_list_ascii_of_string s),
    <-(String.string_of_list_ascii_of_string t), H.
Qed.

(** ** Sorting

    [sort()] on a [Vec]: the elements in ascending order. Under the order laws
    equal elements are identical, so stability is not observable. *)
Definition rsort `{RustOrdLaws A} (l : list A) : list A := merge_sort rle l.

Section sorting.
Context `{RustOrdLaws A}.
Implicit Types (x y : A) (l k : list A).

Lemma rsort_perm l : rsort l ≡ₚ l.
Proof. apply merge_sort_Permutation. Qed.
Lemma rsort_sorted l : StronglySorted rle (rsort l).
Proof. apply StronglySorted_merge_sort; apply _. Qed.
Lemma rsort_unique l k : l ≡ₚ k → rsort l = rsort k.
Proof.
  intros Hp. apply (StronglySorted_unique rle); [apply rsort_sorted..|].
  by rewrite !rsort_perm.
Qed.
Lemma elem_of_rsort x l : x ∈ rsort l ↔ x ∈ l.
Proof. by rewrite rsort_perm. Qed.
Lemma rsort_length l : length (rsort l) = length l.
Proof. by rewrite rsort_perm. Qed.
Lemma rsort_id l : StronglySorted rle l → rsort l = l.
Proof.
  intros. apply (StronglySorted_unique rle); [apply rsort_sorted|done|apply rsort_perm].
Qed.
Lemma rsort_NoDup l : NoDup (rsort l) ↔ NoDup l.
Proof. by rewrite rsort_perm. Qed.
End sorting.

(** [sort_by] comparing a key: a stable sort. *)
Definition rle_on `{RustOrdLaws K} {A} (key : A → K) (x y : A) : Prop := rle (key x) (key y).
#[global] Instance rle_on_dec `{RustOrdLaws K} {A} (key : A → K) : RelDecision (rle_on key).
Proof. intros x y. unfold rle_on. apply _. Defined.
Definition sort_by_key `{RustOrdLaws K} {A} (key : A → K) (l : list A) : list A :=
  merge_sort (rle_on key) l.
Lemma sort_by_key_perm `{RustOrdLaws K} {A} (key : A → K) l : sort_by_key key l ≡ₚ l.
Proof. apply merge_sort_Permutation. Qed.

(** [values.windows(2).find(|w| key(w[0]) == key(w[1]))]: the second component
    of the first pair of neighbours with equal keys, with the first. *)
Fixpoint find_adjacent {A K} `{EqDecision K} (key : A → K) (l : list A) : option (A * A) :=
  match l with
  | x :: ((y :: _) as l') =>
      if decide (key x = key y) then Some (x, y) else find_adjacent key l'
  | _ => None
  end.

Section adjacent.
Context `{RustOrdLaws K, EqDecision K} {A : Type} (key : A → K).
Implicit Types l : list A.

Lemma find_adjacent_Some l x y :
  find_adjacent key l = Some (x, y) → key x = key y ∧ ∃ l1 l2, l = l1 ++ x :: y :: l2.
Proof.
  induction l as [|a [|b l] IH]; [done..|].
  change (find_adjacent key (a :: b :: l)) with
    (if decide (key a = key b) then Some (a, b) else find_adjacent key (b :: l)).
  case_decide as Hk.
  - intros [= <- <-]. split; [done|]. by exists [], l.
  - intros (? & l1 & l2 & Heq)%IH. split; [done|].
    exists (a :: l1), l2. by rewrite Heq.
Qed.

(** On a list sorted by its key, looking at neighbours finds every duplicate. *)
Lemma find_adjacent_None_NoDup l :
  StronglySorted rle (key <$> l) → find_adjacent key l = None ↔ NoDup (key <$> l).
Proof.
  induction l as [|a [|b l] IH]; intros Hs.
  - simpl. split; [constructor|done].
  - simpl. split; [intros; apply NoDup_singleton|done].
  - change (find_adjacent key (a :: b :: l)) with
      (if decide (key a = key b) then Some (a, b) else find_adjacent key (b :: l)).
    rewrite !fmap_cons in Hs. apply StronglySorted_cons in Hs as [Hall Hs].
    rewrite fmap_cons, NoDup_cons, fmap_cons.
    case_decide as Hk.
    + split; [done|]. intros [Hni _]. exfalso. apply Hni. rewrite Hk. by left.
    + rewrite IH by (by rewrite fmap_cons).
      rewrite fmap_cons. split; [|by intros [_ ?]]. intros Hnd. split; [|done].
      intros [|Hin]%elem_of_cons; [done|].
      apply StronglySorted_cons in Hs as [Hall2 _].
      rewrite Forall_forall in Hall, Hall2.
      apply Hk, (anti_symm rle); [apply Hall; by left|by apply Hall2].
Qed.
End adjacent.

(** ** Ordered maps and sets

    [BTreeMap]/[BTreeSet] are stdpp's [gmap]/[gset]; where the code iterates over
    one, the model walks the keys in ascending order. *)
Definition sorted_keys `{Countable K, !RustOrd K, !RustOrdLaws K} {V} (m : gmap K V) : list K :=
  rsort (elements (dom m)).
Definition sorted_elements `{Countable K, !RustOrd K, !RustOrdLaws K} (X : gset K) : list K :=
  rsort (elements X).

(** [map.values()], in key order. *)
Definition btree_values `{Countable K, !RustOrd K, !RustOrdLaws K} {V} (m : gmap K V) : list V :=
  omap (λ k, m !! k) (sorted_keys m).

Section btree.
Context `{Countable K, !RustOrd K, !RustOrdLaws K}.

Lemma elem_of_sorted_keys {V} (m : gmap K V) k : k ∈ sorted_keys m ↔ is_Some (m !! k).
Proof. unfold sorted_keys. by rewrite elem_of_rsort, elem_of_elements, elem_of_dom. Qed.
Lemma sorted_keys_NoDup {V} (m : gmap K V) : NoDup (sorted_keys m).
Proof. unfold sorted_keys. rewrite rsort_NoDup. apply NoDup_elements. Qed.
Lemma elem_of_btree_values {V} (m : gmap K V) v : v ∈ btree_values m ↔ ∃ k, m !! k = Some v.
Proof.
  unfold btree_values. rewrite list_elem_of_omap. split; [naive_solver|]. intros (k & Hk).
  exists k. split; [by apply elem_of_sorted_keys|done].
Qed.
Lemma elem_of_sorted_elements (X : gset K) k : k ∈ sorted_elements X ↔ k ∈ X.
Proof. unfold sorted_elements. by rewrite elem_of_rsort, elem_of_elements. Qed.
Lemma sorted_elements_NoDup (X : gset K) : NoDup (sorted_elements X).
Proof. unfold sorted_elements. rewrite rsort_NoDup. apply NoDup_elements. Qed.
End btree.

(** [let mut seen = BTreeSet::new(); values.iter().any(|v| !seen.insert(key(v)))]. *)
Fixpoint any_reinserted `{Countable K} {A} (key : A → K) (seen : gset K) (l : list A) : bool :=
  match l with
  | [] => false
  | x :: l =>
      if decide (key x ∈ seen) then true else any_reinserted key ({[key x]} ∪ seen) l
  end.

Lemma any_reinserted_false `{Countable K} {A} (key : A → K) seen (l : list A) :
  any_reinserted key seen l = false ↔ NoDup (key <$> l) ∧ ∀ x, x ∈ l → key x ∉ seen.
Proof.
  revert seen. induction l as [|x l IH]; intros seen; simpl.
  - split; [|done]. intros _. split; [constructor|]. intros x Hx. by apply not_elem_of_nil in Hx.
  - case_decide as Hin.
    + split; [done|]. intros [_ Hn]. exfalso. apply (Hn x); [by left|done].
    + rewrite IH, NoDup_cons. split.
      * intros [Hnd Hn]. split_and!; [|done|].
        -- intros (y & Hy & Hyl)%list_elem_of_fmap. apply (Hn y Hyl). set_solver.
        -- intros y [->|Hy]%elem_of_cons; [done|]. specialize (Hn y Hy). set_solver.
      * intros [[Hx Hnd] Hn]. split; [done|]. intros y Hy.
        specialize (Hn y (list_elem_of_further _ _ _ Hy)).
        assert (key y ≠ key x); [|set_solver].
        intros Heq. apply Hx. rewrite <-Heq. by apply list_elem_of_fmap_2.
Qed.

(** A map update of every entry that satisfies a test ([for v in m.values_mut()]). *)
Definition update_where `{Countable K} {V} (p : V → bool) (f : V → V) (m : gmap K V) : gmap K V :=
  (λ v, if p v then f v else v) <$> m.
(** [iter().filter(p)] with a boolean test, as a filter of stdpp. *)
Lemma list_filter_bool {A} (p : A → bool) (l : list A) : List.filter p l = filter (λ x, p x = true) l.
Proof.
  induction l as [|x l IH]; [done|]. simpl. rewrite filter_cons, IH.
  destruct (p x) eqn:Hp; [by rewrite decide_True|]. by rewrite decide_False by congruence.
Qed.
(** Counting the keys of a map that satisfy a test. *)
Lemma filter_keys_length `{Countable K, !RustOrd K, !RustOrdLaws K} {V} (p : K → bool) (m : gmap K V) :
  length (List.filter p (sorted_keys m)) = size (filter (λ kv : K * V, p kv.1 = true) m).
Proof.
  rewrite list_filter_bool, <-size_dom.
  rewrite <-(size_list_to_set (C:=gset K)) by (apply NoDup_filter, sorted_keys_NoDup).
  f_equal. apply set_eq. intros k. rewrite elem_of_list_to_set, list_elem_of_filter,
    elem_of_sorted_keys, elem_of_dom. unfold is_Some. setoid_rewrite map_lookup_filter_Some.
  naive_solver.
Qed.
Definition count_where `{Countable K} {V} (p : V → bool) (m : gmap K V) : Z :=
  Z.of_nat (size (filter (λ kv : K * V, p kv.2 = true) m)).

Lemma lookup_update_where `{Countable K} {V} p (f : V → V) (m : gmap K V) k :
  update_where p f m !! k = (λ v, if p v then f v else v) <$> m !! k.
Proof. apply lookup_fmap. Qed.

(** ** Loops with a set of keys already seen *)

(** A loop whose iterations check an element and insert its key into a set,
    refusing a key that is there already. *)
Lemma seen_loop_Ok `{Countable K} {E A} (key : A → K) (P : A → Prop)
    (body : gset K → A → result E (gset K)) seen l :
  (∀ seen a s, body seen a = Ok s ↔ P a ∧ key a ∉ seen ∧ s = {[ key a ]} ∪ seen) →
  is_ok (try_fold body seen l) = true ↔
  (∀ a, a ∈ l → P a ∧ key a ∉ seen) ∧ NoDup (key <$> l).
Proof.
  intros Hbody. revert seen. induction l as [|a l IH]; intros seen; cbn [try_fold].
  - split; [|done]. intros _. split; [by intros ? ?%not_elem_of_nil|constructor].
  - rewrite is_ok_bind. setoid_rewrite Hbody. rewrite fmap_cons, NoDup_cons. split.
    + intros (? & (Ha & Hs & ->) & (Hall & Hnd)%IH). split; [|split; [|done]].
      * intros b [->|Hin]%elem_of_cons; [done|]. destruct (Hall b Hin) as [? Hn]. split; [done|].
        set_solver +Hn.
      * intros (b & Heq & Hin)%list_elem_of_fmap. destruct (Hall b Hin) as [_ Hn]. set_solver +Hn Heq.
    + intros (Hall & Ha & Hnd). destruct (Hall a) as [HP Hs]; [by left|].
      exists ({[ key a ]} ∪ seen). split; [done|]. apply IH. split; [|done].
      intros b Hin. destruct (Hall b) as [? Hn]; [by right|]. split; [done|].
      rewrite elem_of_union, elem_of_singleton. intros [Heq|?]; [|done].
      apply Ha. rewrite <-Heq. by apply list_elem_of_fmap_2.
Qed.
Lemma seen_loop_empty_Ok `{Countable K} {E A} (key : A → K) (P : A → Prop)
    (body : gset K → A → result E (gset K)) l :
  (∀ seen a s, body seen a = Ok s ↔ P a ∧ key a ∉ seen ∧ s = {[ key a ]} ∪ seen) →
  is_ok (try_fold body ∅ l) = true ↔ (∀ a, a ∈ l → P a) ∧ NoDup (key <$> l).
Proof.
  intros Hbody. rewrite (seen_loop_Ok key P) by done. split; intros [Hall ?]; (split; [|done]);
    intros a Ha; [by apply Hall|]. split; [auto|apply not_elem_of_empty].
Qed.
(** [for x in l { body(x)?; }] for a body with a value that is dropped. *)
Lemma drop_Ok {E A} (r : result E A) : (_ ← r; Ok ()) = Ok () ↔ is_ok r = true.
Proof. by destruct r. Qed.
Lemma drop_bind_Ok {E A B} (r : result E A) (k : result E B) b :
  (_ ← r; k) = Ok b ↔ is_ok r = true ∧ k = Ok b.
Proof. destruct r; simpl; naive_solver. Qed.

(** ** Step sequences *)

(** Reflexive transitive closure of a step relation, with the steps' labels. *)
Inductive steps {S L : Type} (step : S → L → S → Prop) : S → list L → S → Prop :=
| steps_nil s : steps step s [] s
| steps_cons s1 s2 s3 l ls : step s1 l s2 → steps step s2 ls s3 → steps step s1 (l :: ls) s3.

Section steps_lemmas.
Context {S L : Type} (step : S → L → S → Prop).

Lemma steps_invariant (I : S → Prop) s ls s' :
  (∀ s1 l s2, I s1 → step s1 l s2 → I s2) → steps step s ls s' → I s → I s'.
Proof. intros Hstep. induction 1; eauto. Qed.

Lemma steps_app s1 s2 s3 l1 l2 :
  steps step s1 l1 s2 → steps step s2 l2 s3 → steps step s1 (l1 ++ l2) s3.
Proof. induction 1; simpl; eauto using @steps. Qed.

Lemma steps_app_inv s1 s3 l1 l2 :
  steps step s1 (l1 ++ l2) s3 → ∃ s2, steps step s1 l1 s2 ∧ steps step s2 l2 s3.
Proof.
  revert s1. induction l1 as [|l l1 IH]; simpl; intros s1 H.
  - exists s1. split; [constructor|done].
  - inversion H; subst. edestruct IH as (s2' & ? & ?); [done|].
    exists s2'. split; [by econstructor|done].
Qed.
End steps_lemmas.
