(* ===== verification/Text.v ===== *)
(** * Text

    Rust's [str] and [String] as byte strings, with the string methods the code
    calls.  A [string] is the sequence of UTF-8 bytes of the Rust string; the
    methods that look at characters go through [chars], the UTF-8 decoder.  All
    separators and patterns the code searches for are ASCII, so searching bytes
    and searching characters agree. *)
From S2P Require Import Prelude.
#[local] Open Scope Z_scope.

(** ** Bytes *)

Definition str_bytes (s : string) : list ascii := String.list_ascii_of_string s.
Definition of_bytes (l : list ascii) : string := String.string_of_list_ascii l.
(** The value of a byte. *)
Definition code (c : ascii) : Z := Z.of_N (N_of_ascii c).
Definition byte_of (z : Z) : ascii := ascii_of_N (Z.to_N z).

(** [s.len()], in bytes. *)
Definition str_len (s : string) : Z := Z.of_nat (length (str_bytes s)).
Definition str_is_empty (s : string) : bool := bool_decide (s = "").

Definition str_eq (s t : string) : bool := bool_decide (s = t).

Definition in_range (lo hi : Z) (c : ascii) : bool := (lo <=? code c) && (code c <=? hi).
Definition is_ascii (c : ascii) : bool := code c <? 128.
Definition is_ascii_lowercase (c : ascii) : bool := in_range 97 122 c.
Definition is_ascii_uppercase (c : ascii) : bool := in_range 65 90 c.
Definition is_ascii_digit (c : ascii) : bool := in_range 48 57 c.
(** Space, tab, line feed, form feed and carriage return. *)
Definition is_ascii_whitespace (c : ascii) : bool :=
  bool_decide (code c = 32 ∨ code c = 9 ∨ code c = 10 ∨ code c = 12 ∨ code c = 13).
Definition is_ascii_control (c : ascii) : bool := (code c <? 32) || (code c =? 127).

Definition one_of (cs : list ascii) (c : ascii) : bool := bool_decide (c ∈ cs).

(** ** Searching *)

Definition str_contains (c : ascii) (s : string) : bool := existsb (one_of [c]) (str_bytes s).
Definition starts_with_char (c : ascii) (s : string) : bool :=
  match str_bytes s with d :: _ => bool_decide (d = c) | [] => false end.
Definition ends_with_char (c : ascii) (s : string) : bool :=
  match last (str_bytes s) with Some d => bool_decide (d = c) | None => false end.

Fixpoint strip_bytes (p l : list ascii) : option (list ascii) :=
  match p, l with
  | [], _ => Some l
  | _ :: _, [] => None
  | c :: p, d :: l => if decide (c = d) then strip_bytes p l else None
  end.
(** [s.strip_prefix(p)]. *)
Definition strip_prefix (p s : string) : option string :=
  of_bytes <$> strip_bytes (str_bytes p) (str_bytes s).
Definition starts_with (p s : string) : bool :=
  match strip_prefix p s with Some _ => true | None => false end.
(** [s.contains(p)] for a string. *)
Fixpoint contains_bytes (p l : list ascii) : bool :=
  is_some (strip_bytes p l) || match l with [] => false | _ :: l => contains_bytes p l end.
Definition str_contains_str (p s : string) : bool := contains_bytes (str_bytes p) (str_bytes s).
(** [s.split_once(c)]. *)
Fixpoint split_once_bytes (c : ascii) (l : list ascii) : option (list ascii * list ascii) :=
  match l with
  | [] => None
  | d :: l =>
      if decide (d = c) then Some ([], l)
      else (λ p, (d :: p.1, p.2)) <$> split_once_bytes c l
  end.
Definition split_once (c : ascii) (s : string) : option (string * string) :=
  (λ p, (of_bytes p.1, of_bytes p.2)) <$> split_once_bytes c (str_bytes s).
(** [s.matches(c).count()]. *)
Definition count_char (c : ascii) (s : string) : Z :=
  Z.of_nat (length (filter (λ d, d = c) (str_bytes s))).
(** [s.ends_with(suffix)]. *)
Definition ends_with (suffix s : string) : bool :=
  match strip_bytes (reverse (str_bytes suffix)) (reverse (str_bytes s)) with
  | Some _ => true
  | None => false
  end.

(** [s.split(p)] for a set of separator characters. *)
Fixpoint split_bytes (p : ascii → bool) (l : list ascii) : list (list ascii) :=
  match l with
  | [] => [[]]
  | c :: l =>
      if p c then [] :: split_bytes p l
      else match split_bytes p l with
           | h :: t => (c :: h) :: t
           | [] => [[c]]
           end
  end.
Definition str_split (p : ascii → bool) (s : string) : list string :=
  of_bytes <$> split_bytes p (str_bytes s).

(** ** Characters *)

Definition replacement : Z := 65533.

Definition utf8_char (c : Z) : list ascii :=
  if c <? 128 then [byte_of c]
  else if c <? 2048 then [byte_of (192 + c / 64); byte_of (128 + c mod 64)]
  else if c <? 65536 then
    [byte_of (224 + c / 4096); byte_of (128 + c / 64 mod 64); byte_of (128 + c mod 64)]
  else
    [byte_of (240 + c / 262144); byte_of (128 + c / 4096 mod 64);
     byte_of (128 + c / 64 mod 64); byte_of (128 + c mod 64)].
Definition utf8_encode (cs : list Z) : list ascii := cs ≫= utf8_char.

(** The bytes of a Rust string are valid UTF-8; on other input the decoder stops
    at a truncated sequence with the replacement character. *)
Fixpoint utf8_decode (l : list ascii) : list Z :=
  match l with
  | [] => []
  | b0 :: t =>
      if code b0 <? 128 then code b0 :: utf8_decode t
      else if code b0 <? 224 then
        match t with
        | b1 :: t1 => ((code b0 - 192) * 64 + (code b1 - 128)) :: utf8_decode t1
        | _ => [replacement]
        end
      else if code b0 <? 240 then
        match t with
        | b1 :: b2 :: t2 =>
            ((code b0 - 224) * 4096 + (code b1 - 128) * 64 + (code b2 - 128)) :: utf8_decode t2
        | _ => [replacement]
        end
      else
        match t with
        | b1 :: b2 :: b3 :: t3 =>
            ((code b0 - 240) * 262144 + (code b1 - 128) * 4096 + (code b2 - 128) * 64
             + (code b3 - 128)) :: utf8_decode t3
        | _ => [replacement]
        end
  end.

(** [s.chars()] and [chars.collect::<String>()]. *)
Definition chars (s : string) : list Z := utf8_decode (str_bytes s).
Definition of_chars (cs : list Z) : string := of_bytes (utf8_encode cs).

Definition is_scalar (c : Z) : Prop := 0 <= c < 1114112.
Definition is_utf8 (s : string) : Prop :=
  ∃ cs, Forall is_scalar cs ∧ s = of_chars cs.

(** [char::is_control]: the category Cc. *)
Definition is_control (c : Z) : bool := (c <? 32) || ((127 <=? c) && (c <=? 159)).
(** [char::is_whitespace]: the property White_Space. *)
Definition is_whitespace (c : Z) : bool :=
  ((9 <=? c) && (c <=? 13)) || (c =? 32) || (c =? 133) || (c =? 160) || (c =? 5760)
  || ((8192 <=? c) && (c <=? 8202)) || (c =? 8232) || (c =? 8233) || (c =? 8239)
  || (c =? 8287) || (c =? 12288).

(** The bidirectional controls: U+061C, U+200E, U+200F, U+202A to U+202E and
    U+2066 to U+2069. *)
Definition is_bidi_control (c : Z) : bool :=
  (c =? 1564) || (c =? 8206) || (c =? 8207) || ((8234 <=? c) && (c <=? 8238))
  || ((8294 <=? c) && (c <=? 8297)).

Fixpoint drop_while {A} (p : A → bool) (l : list A) : list A :=
  match l with
  | x :: l' => if p x then drop_while p l' else l
  | [] => []
  end.
(** [s.trim()]. *)
Definition str_trim (s : string) : string :=
  of_chars (reverse (drop_while is_whitespace (reverse (drop_while is_whitespace (chars s))))).

(** [s.to_lowercase()], as far as its ASCII characters go: besides the ASCII
    capitals only U+0130 and U+212A have a lowercase with an ASCII character.
    Every other character keeps its place; the code only searches the result for
    ASCII text. *)
Definition lowercase_char (c : Z) : list Z :=
  if (65 <=? c) && (c <=? 90) then [c + 32]
  else if c =? 304 then [105; 775]
  else if c =? 8490 then [107]
  else [c].
Definition str_to_lowercase (s : string) : string := of_chars (chars s ≫= lowercase_char).

(** [str::to_ascii_lowercase]. *)
Definition to_ascii_lowercase (s : string) : string :=
  of_bytes ((λ c, if is_ascii_uppercase c then byte_of (code c + 32) else c) <$> str_bytes s).

(** [s.is_char_boundary(n)]. *)
Definition is_char_boundary (l : list ascii) (n : nat) : bool :=
  match l !! n with
  | Some b => (code b <? 128) || (192 <=? code b)
  | None => bool_decide (n = length l)
  end.
(** [while !s.is_char_boundary(end) { end -= 1; }]: index 0 is always a
    boundary, so the loop stops there at the latest. *)
Fixpoint floor_boundary (l : list ascii) (n : nat) : nat :=
  if is_char_boundary l n then n
  else match n with O => O | S n' => floor_boundary l n' end.

(** ** Formatting *)

Definition hex_digit (n : Z) : ascii :=
  if n <? 10 then byte_of (48 + n) else byte_of (87 + n).
(** [write!(out, "{byte:02x}")] for each byte. *)
Definition hex_bytes (l : list ascii) : list ascii :=
  l ≫= λ b, [hex_digit (code b / 16); hex_digit (code b mod 16)].
Definition is_lower_hex (c : ascii) : bool := is_ascii_digit c || in_range 97 102 c.

(** A double quote, for the [Debug] form of strings. *)
Definition quote : string := of_bytes [byte_of 34].

(** ** Lemmas *)

Lemma of_bytes_str_bytes s : of_bytes (str_bytes s) = s.
Proof. apply String.string_of_list_ascii_of_string. Qed.
Lemma str_bytes_of_bytes l : str_bytes (of_bytes l) = l.
Proof. apply String.list_ascii_of_string_of_list_ascii. Qed.
#[global] Instance str_bytes_inj : Inj (=) (=) str_bytes.
Proof. intros s t H. by rewrite <-(of_bytes_str_bytes s), H, of_bytes_str_bytes. Qed.
#[global] Instance of_bytes_inj : Inj (=) (=) of_bytes.
Proof. intros s t H. by rewrite <-(str_bytes_of_bytes s), H, str_bytes_of_bytes. Qed.
#[export] Hint Rewrite of_bytes_str_bytes str_bytes_of_bytes : text.

Lemma str_bytes_app s t : str_bytes (s +:+ t) = str_bytes s ++ str_bytes t.
Proof. induction s as [|c s IH]; simpl; [done|]. by f_equal. Qed.

Lemma code_bound c : 0 <= code c < 256.
Proof. unfold code. pose proof (N_ascii_bounded c). lia. Qed.
Lemma code_byte_of z : 0 <= z < 256 → code (byte_of z) = z.
Proof. intros. unfold code, byte_of. rewrite N_ascii_embedding; lia. Qed.
Lemma byte_of_code c : byte_of (code c) = c.
Proof. unfold code, byte_of. by rewrite N2Z.id, ascii_N_embedding. Qed.
#[global] Instance code_inj : Inj (=) (=) code.
Proof. intros c d H. by rewrite <-(byte_of_code c), H, byte_of_code. Qed.

Lemma str_len_nonneg s : 0 <= str_len s.
Proof. unfold str_len. lia. Qed.
Lemma str_is_empty_len s : str_is_empty s = true ↔ str_len s = 0.
Proof.
  unfold str_is_empty, str_len. rewrite bool_decide_eq_true. split; [by intros ->|].
  intros H. apply (inj str_bytes). destruct (str_bytes s); [done|]. simpl in H. lia.
Qed.

Lemma str_eq_true s t : str_eq s t = true ↔ s = t.
Proof. apply bool_decide_eq_true. Qed.
Lemma str_eq_false s t : str_eq s t = false ↔ s ≠ t.
Proof. apply bool_decide_eq_false. Qed.

Lemma one_of_true cs c : one_of cs c = true ↔ c ∈ cs.
Proof. apply bool_decide_eq_true. Qed.
Lemma str_contains_true c s : str_contains c s = true ↔ c ∈ str_bytes s.
Proof.
  unfold str_contains. rewrite existsb_True. setoid_rewrite one_of_true.
  setoid_rewrite list_elem_of_singleton. naive_solver.
Qed.
Lemma str_contains_false c s : str_contains c s = false ↔ c ∉ str_bytes s.
Proof. by rewrite <-not_true_iff_false, str_contains_true. Qed.

Lemma strip_bytes_Some p l k : strip_bytes p l = Some k ↔ l = p ++ k.
Proof.
  revert l. induction p as [|c p IH]; intros l; simpl; [naive_solver|].
  destruct l as [|d l]; [naive_solver|]. case_decide; subst.
  - rewrite IH. naive_solver.
  - naive_solver.
Qed.
Lemma contains_bytes_true p l : contains_bytes p l = true ↔ ∃ a b, l = a ++ p ++ b.
Proof.
  induction l as [|c l IH]; cbn [contains_bytes].
  - rewrite orb_false_r, is_some_not_None. split.
    + destruct (strip_bytes p []) as [k|] eqn:E; [|done]. intros _.
      apply strip_bytes_Some in E. by exists [], k.
    + intros (a & b & Hab). symmetry in Hab. apply app_nil in Hab as [-> Hab].
      intros E. assert (strip_bytes p [] = Some b) as Hs; [|congruence]. by apply strip_bytes_Some.
  - rewrite orb_true_iff, is_some_not_None, IH. split.
    + intros [E|(a & b & ->)]; [|by exists (c :: a), b].
      destruct (strip_bytes p (c :: l)) as [k|] eqn:Ek; [|done].
      apply strip_bytes_Some in Ek. by exists [], k.
    + intros ([|d a] & b & Hab); simpl in Hab.
      * left. assert (strip_bytes p (c :: l) = Some b) as ->; [|done]. by apply strip_bytes_Some.
      * right. injection Hab as -> ->. by exists a, b.
Qed.
Lemma str_contains_str_true p s :
  str_contains_str p s = true ↔ ∃ a b, str_bytes s = a ++ str_bytes p ++ b.
Proof. apply contains_bytes_true. Qed.
Lemma split_once_bytes_Some c l a b :
  split_once_bytes c l = Some (a, b) ↔ l = a ++ c :: b ∧ c ∉ a.
Proof.
  revert a. induction l as [|d l IH]; intros a; simpl.
  - split; [done|]. intros [Hl _]. by destruct a.
  - destruct (decide (d = c)) as [->|Hd].
    + split; [intros [= <- <-]; split; [done|apply not_elem_of_nil]|].
      intros [Hl Ha]. destruct a as [|e a]; simplify_eq/=; [done|]. set_solver.
    + destruct (split_once_bytes c l) as [[p q]|] eqn:E; simpl; split.
      * intros [= <- <-]. destruct (IH p) as [Hi _]. destruct (Hi eq_refl) as [-> Hp].
        split; [done|]. set_solver.
      * intros [Hl Ha]. destruct a as [|e a]; simplify_eq/=.
        assert (Some (p, q) = Some (a, b)) as [= -> ->]; [|done]. apply IH. set_solver.
      * done.
      * intros [Hl Ha]. destruct a as [|e a]; simplify_eq/=.
        exfalso. assert (None = Some (a, b)); [|done]. apply IH. set_solver.
Qed.
Lemma strip_bytes_None p l : strip_bytes p l = None ↔ ¬ p `prefix_of` l.
Proof.
  rewrite eq_None_not_Some. unfold is_Some, prefix.
  by setoid_rewrite strip_bytes_Some.
Qed.
Lemma strip_prefix_Some p s t :
  strip_prefix p s = Some t ↔ str_bytes s = str_bytes p ++ str_bytes t.
Proof.
  unfold strip_prefix. rewrite fmap_Some. setoid_rewrite strip_bytes_Some. split.
  - intros (k & -> & ->). by rewrite str_bytes_of_bytes.
  - intros ->. exists (str_bytes t). by rewrite of_bytes_str_bytes.
Qed.
Lemma strip_prefix_None p s :
  strip_prefix p s = None ↔ ¬ str_bytes p `prefix_of` str_bytes s.
Proof. unfold strip_prefix. by rewrite fmap_None, strip_bytes_None. Qed.
Lemma ends_with_true p s :
  ends_with p s = true ↔ str_bytes p `suffix_of` str_bytes s.
Proof.
  unfold ends_with. destruct (strip_bytes _ _) as [k|] eqn:E.
  - split; [|done]. intros _. apply strip_bytes_Some in E.
    exists (reverse k). by rewrite <-(reverse_involutive (str_bytes s)), E, reverse_app, reverse_involutive.
  - split; [done|]. intros (k & Hk). apply strip_bytes_None in E. destruct E.
    exists (reverse k). by rewrite Hk, reverse_app.
Qed.

Lemma starts_with_char_true c s :
  starts_with_char c s = true ↔ ∃ l, str_bytes s = c :: l.
Proof.
  unfold starts_with_char. destruct (str_bytes s); [naive_solver|].
  rewrite bool_decide_eq_true. naive_solver.
Qed.

Lemma starts_with_char_false c s : starts_with_char c s = false ↔ head (str_bytes s) ≠ Some c.
Proof.
  unfold starts_with_char. destruct (str_bytes s); [done|]. rewrite bool_decide_eq_false.
  simpl. naive_solver.
Qed.
Lemma ends_with_char_false c s : ends_with_char c s = false ↔ last (str_bytes s) ≠ Some c.
Proof.
  unfold ends_with_char. destruct (last (str_bytes s)); [|done]. rewrite bool_decide_eq_false.
  naive_solver.
Qed.

(** Splitting keeps every non-separator and joins back to the input. *)
Lemma split_bytes_not_nil p l : split_bytes p l ≠ [].
Proof. destruct l; simpl; [done|]. destruct (p a); [done|]. by destruct (split_bytes p l). Qed.
Lemma split_bytes_no_sep p l k c : k ∈ split_bytes p l → c ∈ k → p c = false.
Proof.
  revert k. induction l as [|d l IH]; intros k; simpl.
  - intros ->%list_elem_of_singleton. by intros ?%not_elem_of_nil.
  - destruct (p d) eqn:Hd.
    + intros [->|?]%elem_of_cons; [by intros ?%not_elem_of_nil|eauto].
    + destruct (split_bytes p l) as [|h t] eqn:E; [by destruct (split_bytes_not_nil p l)|].
      intros [->|?]%elem_of_cons.
      * intros [->|?]%elem_of_cons; [done|]. eapply IH; [by left|done].
      * eapply IH. by right.
Qed.
Lemma split_bytes_elem p l c : p c = false → c ∈ l → ∃ k, k ∈ split_bytes p l ∧ c ∈ k.
Proof.
  intros Hc. induction l as [|d l IH]; simpl; [by intros ?%not_elem_of_nil|].
  intros Hin. destruct (p d) eqn:Hd.
  - apply elem_of_cons in Hin as [->|Hin]; [congruence|].
    destruct (IH Hin) as (k & ? & ?). exists k. split; [by right|done].
  - destruct (split_bytes p l) as [|h t] eqn:E; [by destruct (split_bytes_not_nil p l)|].
    apply elem_of_cons in Hin as [->|Hin].
    + exists (d :: h). split; by left.
    + destruct (IH Hin) as (k & [->|Hk]%elem_of_cons & ?).
      * exists (d :: h). split; [by left|by right].
      * exists k. split; [by right|done].
Qed.
Lemma split_bytes_sub p l k c : k ∈ split_bytes p l → c ∈ k → c ∈ l.
Proof.
  revert k. induction l as [|d l IH]; intros k; simpl.
  - intros ->%list_elem_of_singleton. done.
  - destruct (p d) eqn:Hd.
    + intros [->|?]%elem_of_cons; [by intros ?%not_elem_of_nil|]. right. eauto.
    + destruct (split_bytes p l) as [|h t] eqn:E; [by destruct (split_bytes_not_nil p l)|].
      intros [->|?]%elem_of_cons.
      * intros [->|?]%elem_of_cons; [by left|]. right. eapply IH; [by left|done].
      * right. eapply IH; [by right|done].
Qed.
Lemma split_bytes_ext p q l :
  (∀ c, c ∈ l → p c = q c) → split_bytes p l = split_bytes q l.
Proof.
  induction l as [|d l IH]; intros H; simpl; [done|].
  rewrite (H d), IH; [done| |by left]. intros; apply H; by right.
Qed.

(** *** UTF-8 *)

Lemma utf8_encode_app l k : utf8_encode (l ++ k) = utf8_encode l ++ utf8_encode k.
Proof. apply bind_app. Qed.

(** One step of the encoder, by length of the encoding. *)
Ltac utf8_cases c :=
  unfold utf8_char;
  destruct (Z.ltb_spec c 128); [|destruct (Z.ltb_spec c 2048); [|destruct (Z.ltb_spec c 65536)]].
Ltac euclid := Z.to_euclidean_division_equations; lia.

Lemma utf8_decode_char c l : is_scalar c → utf8_decode (utf8_char c ++ l) = c :: utf8_decode l.
Proof.
  unfold is_scalar. intros Hc. utf8_cases c; simpl;
    rewrite !code_byte_of by euclid.
  - rewrite (proj2 (Z.ltb_lt _ _)) by lia. done.
  - rewrite (proj2 (Z.ltb_ge _ _)) by euclid.
    rewrite (proj2 (Z.ltb_lt _ _)) by euclid. f_equal. euclid.
  - rewrite (proj2 (Z.ltb_ge _ 128)) by euclid.
    rewrite (proj2 (Z.ltb_ge _ 224)) by euclid.
    rewrite (proj2 (Z.ltb_lt _ _)) by euclid. f_equal. euclid.
  - rewrite (proj2 (Z.ltb_ge _ 128)) by euclid.
    rewrite (proj2 (Z.ltb_ge _ 224)) by euclid.
    rewrite (proj2 (Z.ltb_ge _ 240)) by euclid. f_equal. euclid.
Qed.

Lemma utf8_decode_encode cs : Forall is_scalar cs → utf8_decode (utf8_encode cs) = cs.
Proof.
  induction 1 as [|c cs Hc Hcs IH]; [done|].
  change (utf8_encode (c :: cs)) with (utf8_char c ++ utf8_encode cs).
  by rewrite utf8_decode_char, IH.
Qed.
Lemma chars_of_chars cs : Forall is_scalar cs → chars (of_chars cs) = cs.
Proof. intros. unfold chars, of_chars. by rewrite str_bytes_of_bytes, utf8_decode_encode. Qed.
Lemma of_chars_chars s : is_utf8 s → of_chars (chars s) = s.
Proof. intros (cs & Hcs & ->). by rewrite chars_of_chars. Qed.
Lemma chars_scalar s : is_utf8 s → Forall is_scalar (chars s).
Proof. intros (cs & Hcs & ->). by rewrite chars_of_chars. Qed.

(** A character's encoding is a lead byte and at most three continuation bytes. *)
Lemma utf8_char_shape c :
  is_scalar c →
  ∃ b k, utf8_char c = b :: k ∧ (length k ≤ 3)%nat ∧
         (code b < 128 ∨ 192 <= code b) ∧ Forall (λ d, 128 <= code d < 192) k.
Proof.
  unfold is_scalar. intros Hc. utf8_cases c; do 2 eexists; split_and!; try done.
  all: repeat constructor; rewrite ?code_byte_of by euclid; euclid.
Qed.

Lemma boundary_split cs n :
  Forall is_scalar cs →
  is_char_boundary (utf8_encode cs) n = true →
  ∃ cs1 cs2, cs = cs1 ++ cs2 ∧ n = length (utf8_encode cs1).
Proof.
  intros Hcs. revert n. induction Hcs as [|c cs Hc Hcs IH]; intros n Hb.
  - exists [], []. split; [done|]. simpl in *. unfold is_char_boundary in Hb. simpl in Hb.
    by apply bool_decide_eq_true in Hb.
  - change (utf8_encode (c :: cs)) with (utf8_char c ++ utf8_encode cs) in Hb.
    destruct (utf8_char_shape c Hc) as (b & k & Hs & _ & _ & Hk).
    destruct (decide (n = 0)%nat) as [->|Hn]; [by exists [], (c :: cs)|].
    destruct (decide (n < length (utf8_char c))%nat) as [Hlt|Hge].
    + exfalso. unfold is_char_boundary in Hb. rewrite lookup_app_l in Hb by done.
      rewrite Hs in Hb, Hlt. destruct n as [|n]; [done|]. simpl in Hb, Hlt.
      destruct (lookup_lt_is_Some_2 k n) as [d Hd]; [lia|]. rewrite Hd in Hb.
      pose proof (Forall_lookup_1 _ _ _ _ Hk Hd) as Hr. simpl in Hr.
      apply orb_true_iff in Hb as [Hb|Hb]; bool_prop; lia.
    + destruct (IH (n - length (utf8_char c))%nat) as (cs1 & cs2 & -> & Hn').
      { unfold is_char_boundary in *. rewrite lookup_app_r in Hb by lia.
        destruct (_ !! _); [done|]. apply bool_decide_eq_true in Hb.
        rewrite length_app in Hb. apply bool_decide_eq_true. lia. }
      exists (c :: cs1), cs2. split; [done|].
      change (utf8_encode (c :: cs1)) with (utf8_char c ++ utf8_encode cs1).
      rewrite length_app. lia.
Qed.

(** Truncating at the last boundary not after [n] keeps whole characters. *)
Lemma floor_boundary_split cs n :
  Forall is_scalar cs →
  ∃ cs1 cs2, cs = cs1 ++ cs2 ∧
    take (floor_boundary (utf8_encode cs) n) (utf8_encode cs) = utf8_encode cs1.
Proof.
  intros Hcs. induction n as [|n IH]; simpl;
    destruct (is_char_boundary _ _) eqn:E; try done.
  - by exists [], cs.
  - by exists [], cs.
  - destruct (boundary_split cs _ Hcs E) as (cs1 & cs2 & -> & Hn).
    exists cs1, cs2. split; [done|]. rewrite utf8_encode_app, Hn. by rewrite take_app_length.
Qed.
Lemma floor_boundary_le l n : (floor_boundary l n ≤ n)%nat.
Proof. induction n; simpl; destruct (is_char_boundary _ _); lia. Qed.

(** No more than three bytes are given up, since a character has at most four. *)
Lemma floor_boundary_ge cs n :
  Forall is_scalar cs → (n ≤ length (utf8_encode cs))%nat →
  (n ≤ floor_boundary (utf8_encode cs) n + 3)%nat.
Proof.
  intros Hcs. revert n. induction Hcs as [|c cs Hc Hcs IH]; intros n Hn.
  - simpl in *. lia.
  - change (utf8_encode (c :: cs)) with (utf8_char c ++ utf8_encode cs) in *.
    destruct (utf8_char_shape c Hc) as (b & k & Hs & Hlen & Hb & Hk).
    destruct (decide (n ≤ 3)%nat); [lia|].
    assert (Hge : (length (utf8_char c) ≤ n)%nat) by (rewrite Hs; simpl; lia).
    rewrite length_app in Hn. specialize (IH (n - length (utf8_char c))%nat ltac:(lia)).
    set (l := utf8_char c) in *. set (r := utf8_encode cs) in *.
    assert (Hshift : ∀ m, (floor_boundary r m + length l ≤ floor_boundary (l ++ r) (m + length l))%nat);
      [|specialize (Hshift (n - length l)%nat); replace (n - length l + length l)%nat with n in Hshift by lia; lia].
    assert (Hbd : ∀ m, is_char_boundary (l ++ r) (m + length l) = is_char_boundary r m).
    { intros m. unfold is_char_boundary. rewrite lookup_app_r by lia.
      replace (m + length l - length l)%nat with m by lia.
      destruct (r !! m); [done|]. apply bool_decide_ext. rewrite length_app. lia. }
    intros m. induction m as [|m IHm].
    + simpl. destruct l as [|a l'] eqn:El; [congruence|]. simpl.
      pose proof (Hbd 0%nat) as H0. simpl in H0. rewrite H0.
      assert (is_char_boundary r 0 = true) as ->; [|simpl; lia].
      unfold is_char_boundary. destruct (r !! 0%nat) eqn:Er; [|by apply bool_decide_eq_true; destruct r].
      subst r. destruct Hcs as [|c2 cs2 Hc2 _]; [done|].
      destruct (utf8_char_shape c2 Hc2) as (b2 & k2 & Hs2 & _ & Hb2 & _).
      change (utf8_encode (c2 :: cs2)) with (utf8_char c2 ++ utf8_encode cs2) in Er.
      rewrite Hs2 in Er. simpl in Er. injection Er as <-.
      apply orb_true_iff. destruct Hb2; [left; by apply Z.ltb_lt|right; by apply Z.leb_le].
    + change (S m + length l)%nat with (S (m + length l)). simpl.
      pose proof (Hbd (S m)) as HS. change (S m + length l)%nat with (S (m + length l)) in HS.
      rewrite HS. destruct (is_char_boundary r (S m)); simpl; lia.
Qed.

(** *** Hexadecimal *)

Lemma hex_digit_lower n : 0 <= n < 16 → is_lower_hex (hex_digit n) = true.
Proof.
  intros. unfold is_lower_hex, hex_digit, is_ascii_digit, in_range.
  destruct (Z.ltb_spec n 10); rewrite !code_byte_of by lia; apply orb_true_iff;
    [left|right]; apply andb_true_iff; split; apply Z.leb_le; lia.
Qed.
Lemma hex_digit_inj n m : 0 <= n < 16 → 0 <= m < 16 → hex_digit n = hex_digit m → n = m.
Proof.
  intros Hn Hm H%(f_equal code). revert H. unfold hex_digit.
  destruct (Z.ltb_spec n 10), (Z.ltb_spec m 10); rewrite !code_byte_of by lia; lia.
Qed.
Lemma hex_bytes_cons b l :
  hex_bytes (b :: l) = hex_digit (code b / 16) :: hex_digit (code b mod 16) :: hex_bytes l.
Proof. done. Qed.
Lemma hex_bytes_length l : length (hex_bytes l) = (2 * length l)%nat.
Proof.
  induction l as [|b l IH]; [done|]. rewrite hex_bytes_cons. simpl. lia.
Qed.
Lemma hex_bytes_lower l : Forall (λ c, is_lower_hex c = true) (hex_bytes l).
Proof.
  induction l as [|b l IH]; [constructor|]. rewrite hex_bytes_cons.
  pose proof (code_bound b).
  constructor; [|constructor; [|done]]; apply hex_digit_lower; euclid.
Qed.
#[global] Instance hex_bytes_inj : Inj (=) (=) hex_bytes.
Proof.
  intros l. induction l as [|b l IH]; intros [|d k]; rewrite ?hex_bytes_cons; [done..|].
  intros [= H1 H2 H3]. pose proof (code_bound b). pose proof (code_bound d).
  apply hex_digit_inj in H1; [|euclid..]. apply hex_digit_inj in H2; [|euclid..].
  f_equal; [|by apply IH]. apply (inj code). euclid.
Qed.
