(* ===== verification/Errors.v ===== *)
(** * Errors and diagnostics

    Model of [crates/rho-extension-runtime/src/error.rs], with the carriers its
    error values hold: the validated identifiers of [id.rs] and the scope and
    provider identities of [model.rs].  Every error variant, its message, its
    diagnostic code and the structured diagnostic built from it are here. *)
From S2P Require Import Prelude Text.
#[local] Open Scope Z_scope.

(** ** Identifier carriers *)

Inductive IdentifierKind := Plugin | Capability | Operation | ScopeKind | Scope.

#[global] Instance IdentifierKind_eq_dec : EqDecision IdentifierKind.
Proof. solve_decision. Defined.

(** The macro [validated_id!] declares one newtype over [String] per kind; here
    the kind is an index, so that the five types stay distinct. *)
Record Ident (k : IdentifierKind) := MkIdent { as_str : string }.
Arguments MkIdent {k} as_str.
Arguments as_str {k} i.

Abbreviation PluginId := (Ident Plugin).
Abbreviation CapabilityId := (Ident Capability).
Abbreviation OperationId := (Ident Operation).
Abbreviation ScopeKindId := (Ident ScopeKind).
Abbreviation ScopeId := (Ident Scope).

#[global] Instance as_str_inj k : Inj (=) (=) (@as_str k).
Proof. intros [x] [y]; simpl; congruence. Qed.
#[global] Instance Ident_eq_dec k : EqDecision (Ident k).
Proof. solve_decision. Defined.
#[global] Instance Ident_countable k : Countable (Ident k).
Proof. by apply (inj_countable' as_str MkIdent); intros []. Defined.
#[global] Instance Ident_ord k : RustOrd (Ident k) := rcmp_on as_str.
#[global] Instance Ident_ord_laws k : RustOrdLaws (Ident k).
Proof. apply rcmp_on_laws, _. Qed.

(** A [NonZeroU64]: values are built by [ActivationGeneration_new] only. *)
Record ActivationGeneration := MkGeneration { generation_get : Z }.
#[global] Instance generation_get_inj : Inj (=) (=) generation_get.
Proof. intros [x] [y]; simpl; congruence. Qed.
#[global] Instance ActivationGeneration_eq_dec : EqDecision ActivationGeneration.
Proof. solve_decision. Defined.
#[global] Instance ActivationGeneration_ord : RustOrd ActivationGeneration := rcmp_on generation_get.
#[global] Instance ActivationGeneration_ord_laws : RustOrdLaws ActivationGeneration.
Proof. apply rcmp_on_laws, _. Qed.

Record CapabilityContractMajor := MkMajor { major_get : Z }.
#[global] Instance major_get_inj : Inj (=) (=) major_get.
Proof. intros [x] [y]; simpl; congruence. Qed.
#[global] Instance CapabilityContractMajor_eq_dec : EqDecision CapabilityContractMajor.
Proof. solve_decision. Defined.
#[global] Instance CapabilityContractMajor_ord : RustOrd CapabilityContractMajor := rcmp_on major_get.
#[global] Instance CapabilityContractMajor_ord_laws : RustOrdLaws CapabilityContractMajor.
Proof. apply rcmp_on_laws, _. Qed.

Record ScopeIdentity := MkScope {
  scope_kind : ScopeKindId;
  scope_id : ScopeId;
  scope_parent_id : option ScopeId;
  scope_generation : ActivationGeneration
}.
Definition scope_tuple (s : ScopeIdentity) :=
  (scope_kind s, (scope_id s, (scope_parent_id s, scope_generation s))).
#[global] Instance scope_tuple_inj : Inj (=) (=) scope_tuple.
Proof. intros [] []; unfold scope_tuple; simpl; congruence. Qed.
#[global] Instance ScopeIdentity_eq_dec : EqDecision ScopeIdentity.
Proof. solve_decision. Defined.
#[global] Instance ScopeIdentity_ord : RustOrd ScopeIdentity := rcmp_on scope_tuple.
#[global] Instance ScopeIdentity_ord_laws : RustOrdLaws ScopeIdentity.
Proof. apply rcmp_on_laws, _. Qed.

Record ProviderIdentity := MkProvider {
  provider_plugin : PluginId;
  provider_scope : ScopeIdentity;
  provider_major : CapabilityContractMajor
}.
Definition provider_tuple (p : ProviderIdentity) :=
  (provider_plugin p, (provider_scope p, provider_major p)).
#[global] Instance provider_tuple_inj : Inj (=) (=) provider_tuple.
Proof. intros [] []; unfold provider_tuple; simpl; congruence. Qed.
#[global] Instance ProviderIdentity_eq_dec : EqDecision ProviderIdentity.
Proof. solve_decision. Defined.
#[global] Instance ProviderIdentity_ord : RustOrd ProviderIdentity := rcmp_on provider_tuple.
#[global] Instance ProviderIdentity_ord_laws : RustOrdLaws ProviderIdentity.
Proof. apply rcmp_on_laws, _. Qed.

(** ** Error values *)

Inductive IdentifierCharacterClass :=
| NonAscii | PathSeparator | Whitespace | Control | Uppercase | OtherAscii.

Inductive IdentifierErrorReason :=
| Empty
| TooLong (actual_bytes max_bytes : Z)
| InvalidCharacter (byte_index : Z) (class : IdentifierCharacterClass).

Inductive DescriptorErrorReason :=
| NoAllowedScopes
| DuplicateAllowedScope (k : ScopeKindId)
| DuplicateProvidedCapability (c : CapabilityId)
| DuplicateRequiredCapability (c : CapabilityId)
| DuplicateOptionalCapability (c : CapabilityId)
| RequiredAndOptionalCapability (c : CapabilityId)
| ScopeNotAllowed (k : ScopeKindId).

Inductive LimitKind :=
| PluginsPerScope | ProvidesPerPlugin | RequiredPerPlugin | OptionalPerPlugin | ResolvedEdges.

Inductive InvalidScopeReason := UnknownKind.

Inductive InvalidParentReason :=
| MissingParent | UnexpectedParent | ParentIdentityMissing | ParentIdMismatch | ParentKindMismatch.

Inductive InvalidScopePolicyReason := DuplicateKind | MissingParentKind | ParentCycle.

Record InvalidParentContext := MkParentContext {
  ctx_scope_id : ScopeId;
  ctx_scope_kind : ScopeKindId;
  ctx_parent_scope_id : option ScopeId;
  ctx_parent_scope_kind : option ScopeKindId;
  ctx_expected_parent_kind : option ScopeKindId
}.

Inductive ExtensionError :=
| InvalidIdentifier (kind : IdentifierKind) (reason : IdentifierErrorReason)
| ZeroActivationGeneration
| ActivationGenerationExhausted
| InvalidPluginVersion
| InvalidDescriptor (plugin_id : PluginId) (reason : DescriptorErrorReason)
| LimitExceeded (limit : LimitKind) (plugin_id : option PluginId) (actual maximum : Z)
| DuplicatePlugin (plugin_id : PluginId)
| DuplicateProvider (capability_id : CapabilityId) (providers : list ProviderIdentity)
| MissingRequiredCapability (plugin_id : PluginId) (capability_id : CapabilityId)
    (required_major : Z)
| IncompatibleCapabilityMajor (plugin_id : PluginId) (capability_id : CapabilityId)
    (required_major provided_major : Z) (provider_plugin_id : PluginId)
| InvalidScope (id : ScopeId) (kind : ScopeKindId) (reason : InvalidScopeReason)
| InvalidParent (context : InvalidParentContext) (reason : InvalidParentReason)
| InvalidScopePolicy (kind : ScopeKindId) (reason : InvalidScopePolicyReason)
| DependencyCycle (path : list PluginId)
| ManifestTooLarge (actual_bytes maximum_bytes : Z)
| ManifestParse (message : string)
| ManifestValidation (reason : string)
| UnsupportedManifestSchema (actual supported : Z)
| UnsupportedRuntimeKind (runtime_kind : string)
| DiscoveryFailure (reason : string)
| InvalidPackageTree (reason : string).

(** ** Display *)

Class Display (A : Type) := display : A → string.
Class RustDebug (A : Type) := debug : A → string.
#[global] Instance Z_display : Display Z := λ z, pretty z.
#[global] Instance Ident_display k : Display (Ident k) := as_str.
(** Identifiers hold no character that [Debug] escapes. *)
#[global] Instance Ident_debug k : RustDebug (Ident k) := λ i,
  (match k with
   | Plugin => "PluginId" | Capability => "CapabilityId" | Operation => "OperationId"
   | ScopeKind => "ScopeKindId" | Scope => "ScopeId"
   end) +:+ "(" +:+ quote +:+ as_str i +:+ quote +:+ ")".

#[global] Instance IdentifierKind_display : Display IdentifierKind := λ k,
  match k with
  | Plugin => "plugin"
  | Capability => "capability"
  | Operation => "operation"
  | ScopeKind => "scope_kind"
  | Scope => "scope"
  end.
#[global] Instance IdentifierCharacterClass_debug : RustDebug IdentifierCharacterClass := λ c,
  match c with
  | NonAscii => "NonAscii" | PathSeparator => "PathSeparator" | Whitespace => "Whitespace"
  | Control => "Control" | Uppercase => "Uppercase" | OtherAscii => "OtherAscii"
  end.
#[global] Instance IdentifierErrorReason_display : Display IdentifierErrorReason := λ r,
  match r with
  | Empty => "empty"
  | TooLong actual_bytes max_bytes =>
      "too_long(" +:+ display actual_bytes +:+ "_bytes,max_" +:+ display max_bytes +:+ "_bytes)"
  | InvalidCharacter byte_index class =>
      "invalid_character(" +:+ debug class +:+ ",byte_" +:+ display byte_index +:+ ")"
  end.
#[global] Instance DescriptorErrorReason_display : Display DescriptorErrorReason := λ r,
  match r with
  | NoAllowedScopes => "no_allowed_scopes"
  | DuplicateAllowedScope k => "duplicate_allowed_scope(" +:+ display k +:+ ")"
  | DuplicateProvidedCapability c => "duplicate_provided_capability(" +:+ display c +:+ ")"
  | DuplicateRequiredCapability c => "duplicate_required_capability(" +:+ display c +:+ ")"
  | DuplicateOptionalCapability c => "duplicate_optional_capability(" +:+ display c +:+ ")"
  | RequiredAndOptionalCapability c => "required_and_optional_capability(" +:+ display c +:+ ")"
  | ScopeNotAllowed k => "scope_not_allowed(" +:+ display k +:+ ")"
  end.
#[global] Instance LimitKind_display : Display LimitKind := λ l,
  match l with
  | PluginsPerScope => "plugins_per_scope"
  | ProvidesPerPlugin => "provides_per_plugin"
  | RequiredPerPlugin => "required_per_plugin"
  | OptionalPerPlugin => "optional_per_plugin"
  | ResolvedEdges => "resolved_edges"
  end.
#[global] Instance InvalidScopeReason_debug : RustDebug InvalidScopeReason := λ r,
  match r with UnknownKind => "UnknownKind" end.
#[global] Instance InvalidParentReason_debug : RustDebug InvalidParentReason := λ r,
  match r with
  | MissingParent => "MissingParent" | UnexpectedParent => "UnexpectedParent"
  | ParentIdentityMissing => "ParentIdentityMissing" | ParentIdMismatch => "ParentIdMismatch"
  | ParentKindMismatch => "ParentKindMismatch"
  end.
#[global] Instance InvalidScopePolicyReason_debug : RustDebug InvalidScopePolicyReason := λ r,
  match r with
  | DuplicateKind => "DuplicateKind" | MissingParentKind => "MissingParentKind"
  | ParentCycle => "ParentCycle"
  end.
#[global] Instance InvalidParentContext_display : Display InvalidParentContext := λ c,
  display (ctx_scope_id c) +:+ " (" +:+ display (ctx_scope_kind c) +:+ ")".

Fixpoint comma_separated (l : list string) : string :=
  match l with
  | [] => ""
  | [s] => s
  | s :: l => s +:+ ", " +:+ comma_separated l
  end.
#[global] Instance list_debug `{RustDebug A} : RustDebug (list A) := λ l,
  "[" +:+ comma_separated (debug <$> l) +:+ "]".

(** The [#[error("...")]] messages. *)
#[global] Instance ExtensionError_display : Display ExtensionError := λ e,
  match e with
  | InvalidIdentifier kind reason =>
      "invalid " +:+ display kind +:+ " identifier: " +:+ display reason
  | ZeroActivationGeneration => "activation generation must be non-zero"
  | ActivationGenerationExhausted => "activation generation space is exhausted"
  | InvalidPluginVersion => "invalid semantic plugin version"
  | InvalidDescriptor plugin_id reason =>
      "invalid descriptor for plugin " +:+ display plugin_id +:+ ": " +:+ display reason
  | LimitExceeded limit _ actual maximum =>
      display limit +:+ " limit exceeded: " +:+ display actual +:+ " > " +:+ display maximum
  | DuplicatePlugin plugin_id => "duplicate plugin " +:+ display plugin_id
  | DuplicateProvider capability_id _ =>
      "duplicate provider for capability " +:+ display capability_id
  | MissingRequiredCapability plugin_id capability_id required_major =>
      "plugin " +:+ display plugin_id +:+ " requires missing capability "
      +:+ display capability_id +:+ "@" +:+ display required_major
  | IncompatibleCapabilityMajor plugin_id capability_id required_major provided_major
      provider_plugin_id =>
      "plugin " +:+ display plugin_id +:+ " requires capability "
      +:+ display capability_id +:+ "@" +:+ display required_major
      +:+ ", but provider " +:+ display provider_plugin_id
      +:+ " declares @" +:+ display provided_major
  | InvalidScope id kind reason =>
      "invalid scope " +:+ display id +:+ " (" +:+ debug kind +:+ "): " +:+ debug reason
  | InvalidParent context reason =>
      "invalid parent for scope " +:+ display context +:+ ": " +:+ debug reason
  | InvalidScopePolicy kind reason =>
      "invalid host scope policy for " +:+ display kind +:+ ": " +:+ debug reason
  | DependencyCycle path => "dependency cycle: " +:+ debug path
  | ManifestTooLarge actual_bytes maximum_bytes =>
      "manifest exceeds " +:+ display maximum_bytes +:+ " bytes: " +:+ display actual_bytes
  | ManifestParse message => "manifest parse failed: " +:+ message
  | ManifestValidation reason => "manifest validation failed: " +:+ reason
  | UnsupportedManifestSchema actual supported =>
      "unsupported manifest schema " +:+ display actual +:+ "; supported " +:+ display supported
  | UnsupportedRuntimeKind runtime_kind => "unsupported runtime kind " +:+ runtime_kind
  | DiscoveryFailure reason => "workspace plugin discovery failed: " +:+ reason
  | InvalidPackageTree reason => "package file tree is invalid: " +:+ reason
  end.

(** ** Diagnostics *)

Inductive DiagnosticSeverity := Info | Error | Warning.

Module DiagnosticCode.
Inductive t :=
| InvalidIdentifier | ZeroActivationGeneration | ActivationGenerationExhausted
| InvalidPluginVersion | InvalidDescriptor | LimitExceeded | DuplicatePlugin
| DuplicateProvider | MissingRequiredCapability | IncompatibleCapabilityMajor
| InvalidScope | InvalidParent | InvalidScopePolicy | DependencyCycle
| OptionalCapabilityAbsent | ManifestInvalid | ManifestUnsupportedSchema
| UnsupportedRuntimeKind | WorkspaceDiscoveryFailed | InvalidPackageTree
| InvalidRuntimeMode | ActivationStarted | ActivationSucceeded | ActivationFailed
| ActivationRollbackFailed | CandidatePublished | CandidateCasRejected
| QuiesceStarted | QuiesceTimeout | EffectDisposeFailed | ScopeDisposed
| ScopeDisposeFailed | ContributionFallback | SourceCallFailed.
End DiagnosticCode.

Record ExtensionDiagnostic := MkDiagnostic {
  diag_code : DiagnosticCode.t;
  diag_severity : DiagnosticSeverity;
  diag_plugin_id : option PluginId;
  diag_capability_id : option CapabilityId;
  diag_scope_kind : option ScopeKindId;
  diag_scope_id : option ScopeId;
  diag_activation_generation : option ActivationGeneration;
  diag_effect_order : option Z;
  diag_related_plugins : list PluginId;
  diag_cycle_path : list PluginId;
  diag_message : string
}.

Definition diagnostic_code (e : ExtensionError) : DiagnosticCode.t :=
  match e with
  | InvalidIdentifier _ _ => DiagnosticCode.InvalidIdentifier
  | ZeroActivationGeneration => DiagnosticCode.ZeroActivationGeneration
  | ActivationGenerationExhausted => DiagnosticCode.ActivationGenerationExhausted
  | InvalidPluginVersion => DiagnosticCode.InvalidPluginVersion
  | InvalidDescriptor _ _ => DiagnosticCode.InvalidDescriptor
  | LimitExceeded _ _ _ _ => DiagnosticCode.LimitExceeded
  | DuplicatePlugin _ => DiagnosticCode.DuplicatePlugin
  | DuplicateProvider _ _ => DiagnosticCode.DuplicateProvider
  | MissingRequiredCapability _ _ _ => DiagnosticCode.MissingRequiredCapability
  | IncompatibleCapabilityMajor _ _ _ _ _ => DiagnosticCode.IncompatibleCapabilityMajor
  | InvalidScope _ _ _ => DiagnosticCode.InvalidScope
  | InvalidParent _ _ => DiagnosticCode.InvalidParent
  | InvalidScopePolicy _ _ => DiagnosticCode.InvalidScopePolicy
  | DependencyCycle _ => DiagnosticCode.DependencyCycle
  | ManifestTooLarge _ _ | ManifestParse _ | ManifestValidation _ =>
      DiagnosticCode.ManifestInvalid
  | UnsupportedManifestSchema _ _ => DiagnosticCode.ManifestUnsupportedSchema
  | UnsupportedRuntimeKind _ => DiagnosticCode.UnsupportedRuntimeKind
  | DiscoveryFailure _ => DiagnosticCode.WorkspaceDiscoveryFailed
  | InvalidPackageTree _ => DiagnosticCode.InvalidPackageTree
  end.

(** [Vec::dedup]: drop each element equal to its predecessor. *)
Fixpoint dedup {A} `{EqDecision A} (l : list A) : list A :=
  match l with
  | x :: ((y :: _) as l') => if decide (x = y) then dedup l' else x :: dedup l'
  | _ => l
  end.
Definition sort_dedup `{RustOrdLaws A, EqDecision A} (l : list A) : list A := dedup (rsort l).

Definition from_error (e : ExtensionError) : ExtensionDiagnostic :=
  let diagnostic plugin_id capability_id scope_kind scope_id related_plugins cycle_path :=
    MkDiagnostic (diagnostic_code e) Error plugin_id capability_id scope_kind scope_id
      None None (sort_dedup related_plugins) cycle_path (display e) in
  match e with
  | InvalidDescriptor plugin_id _ | DuplicatePlugin plugin_id =>
      diagnostic (Some plugin_id) None None None [] []
  | LimitExceeded _ plugin_id _ _ => diagnostic plugin_id None None None [] []
  | DuplicateProvider capability_id providers =>
      diagnostic None (Some capability_id) None None (provider_plugin <$> providers) []
  | MissingRequiredCapability plugin_id capability_id _
  | IncompatibleCapabilityMajor plugin_id capability_id _ _ _ =>
      diagnostic (Some plugin_id) (Some capability_id) None None [] []
  | InvalidScope id kind _ => diagnostic None None (Some kind) (Some id) [] []
  | InvalidParent context _ =>
      diagnostic None None (Some (ctx_scope_kind context)) (Some (ctx_scope_id context)) [] []
  | DependencyCycle path => diagnostic (head path) None None None (sort_dedup path) path
  | InvalidScopePolicy kind _ => diagnostic None None (Some kind) None [] []
  | InvalidIdentifier _ _ | ZeroActivationGeneration | ActivationGenerationExhausted
  | InvalidPluginVersion | ManifestTooLarge _ _ | ManifestParse _ | ManifestValidation _
  | UnsupportedManifestSchema _ _ | UnsupportedRuntimeKind _ | DiscoveryFailure _
  | InvalidPackageTree _ => diagnostic None None None None [] []
  end.

Definition to_diagnostic (e : ExtensionError) : ExtensionDiagnostic := from_error e.

Definition optional_absent (plugin_id : PluginId) (capability_id : CapabilityId)
    (id : ScopeId) : ExtensionDiagnostic :=
  MkDiagnostic DiagnosticCode.OptionalCapabilityAbsent Warning
    (Some plugin_id) (Some capability_id) None (Some id) None None [] []
    ("optional capability " +:+ display capability_id +:+ " is absent for plugin "
     +:+ display plugin_id).

(** ** Properties *)

Lemma dedup_cons {A} `{EqDecision A} (x y : A) l :
  dedup (x :: y :: l) = if decide (x = y) then dedup (y :: l) else x :: dedup (y :: l).
Proof. done. Qed.
Lemma elem_of_dedup {A} `{EqDecision A} (l : list A) z : z ∈ dedup l ↔ z ∈ l.
Proof.
  induction l as [|x [|y l] IH]; [done..|]. rewrite dedup_cons.
  case_decide; [subst|]; rewrite ?elem_of_cons, IH, ?elem_of_cons; naive_solver.
Qed.
Lemma dedup_sorted_NoDup `{RustOrdLaws A, EqDecision A} (l : list A) :
  StronglySorted rle l → NoDup (dedup l).
Proof.
  induction l as [|x [|y l] IH]; intros Hs.
  - constructor.
  - apply NoDup_singleton.
  - apply StronglySorted_cons in Hs as [Hall Hs]. rewrite dedup_cons.
    case_decide as Hxy; [auto|]. apply NoDup_cons. split; [|auto].
    rewrite elem_of_dedup. intros [->|Hin]%elem_of_cons; [done|].
    apply StronglySorted_cons in Hs as [Hy _]. rewrite Forall_forall in Hall, Hy.
    apply Hxy, (anti_symm rle); [apply Hall; by left|by apply Hy].
Qed.
Lemma dedup_sorted `{RustOrdLaws A, EqDecision A} (l : list A) :
  StronglySorted rle l → StronglySorted rle (dedup l).
Proof.
  induction l as [|x [|y l] IH]; intros Hs; [done..|].
  apply StronglySorted_cons in Hs as [Hall Hs]. rewrite dedup_cons.
  case_decide as Hxy; [auto|]. apply StronglySorted_cons. split; [|auto].
  rewrite Forall_forall in Hall |- *. intros z. rewrite elem_of_dedup. auto.
Qed.
