(* ===== verification/Ids.v ===== *)
(** * Validated identifiers

    Model of [crates/rho-extension-runtime/src/id.rs]: the identifier grammar
    shared by plugin, capability, operation, scope-kind and scope identifiers,
    and activation generations. *)
From S2P Require Import Prelude Text Errors.
#[local] Open Scope Z_scope.

Definition MAX_IDENTIFIER_BYTES : Z := 128.

Definition accepted (c : ascii) : bool :=
  is_ascii_lowercase c || is_ascii_digit c || one_of ["."; "_"; "-"]%char c.

Definition character_class (c : ascii) : IdentifierCharacterClass :=
  if negb (is_ascii c) then NonAscii
  else if one_of ["/"; "\"]%char c then PathSeparator
  else if is_ascii_whitespace c then Whitespace
  else if is_ascii_control c then Control
  else if is_ascii_uppercase c then Uppercase
  else OtherAscii.

(** The loop over [char_indices].  The characters before the first rejected one
    are ASCII, so the index of its first byte counts bytes, and its first byte
    tells whether it is ASCII. *)
Fixpoint first_rejected (byte_index : Z) (l : list ascii) : option (Z * ascii) :=
  match l with
  | [] => None
  | c :: l => if accepted c then first_rejected (byte_index + 1) l else Some (byte_index, c)
  end.

Definition validate_identifier (value : string) (kind : IdentifierKind)
    : result ExtensionError () :=
  _ ← fail_if (str_is_empty value) (InvalidIdentifier kind Empty);
  _ ← fail_if (MAX_IDENTIFIER_BYTES <? str_len value)
        (InvalidIdentifier kind (TooLong (str_len value) MAX_IDENTIFIER_BYTES));
  fail_with (first_rejected 0 (str_bytes value))
    (λ r, InvalidIdentifier kind (InvalidCharacter r.1 (character_class r.2))).

Definition Ident_new (k : IdentifierKind) (value : string) : result ExtensionError (Ident k) :=
  _ ← validate_identifier value k; Ok (MkIdent value).

Definition Ident_from_str := Ident_new.
(** [Deserialize]: the error becomes the deserializer's message. *)
Definition Ident_deserialize (k : IdentifierKind) (value : string) : result string (Ident k) :=
  map_err display (Ident_new k value).

Definition ActivationGeneration_new (value : Z) : result ExtensionError ActivationGeneration :=
  if value =? 0 then Err ZeroActivationGeneration else Ok (MkGeneration value).

(** ** Properties *)

(** The identifier grammar: 1 to 128 bytes of [a-z0-9._-]. *)
Definition identifier_wf (s : string) : Prop :=
  0 < str_len s <= 128 ∧ ∀ c, c ∈ str_bytes s → accepted c = true.

Lemma first_rejected_None i l : first_rejected i l = None ↔ ∀ c, c ∈ l → accepted c = true.
Proof.
  revert i. induction l as [|d l IH]; intros i; simpl.
  - split; [|done]. intros _ c ?%not_elem_of_nil. done.
  - destruct (accepted d) eqn:Hd.
    + rewrite IH. setoid_rewrite elem_of_cons. naive_solver.
    + split; [done|]. intros H. rewrite (H d) in Hd; [done|by left].
Qed.
Lemma first_rejected_Some i l j c :
  first_rejected i l = Some (j, c) ↔
  ∃ n, j = i + Z.of_nat n ∧ l !! n = Some c ∧ accepted c = false ∧
       ∀ d, d ∈ take n l → accepted d = true.
Proof.
  revert i. induction l as [|d l IH]; intros i; simpl.
  - split; [done|]. intros (n & _ & H & _). by rewrite lookup_nil in H.
  - destruct (accepted d) eqn:Hd.
    + rewrite IH. split.
      * intros (n & -> & ? & ? & Hp). exists (S n). split_and!; [lia|done..|].
        simpl. intros e [->|?]%elem_of_cons; auto.
      * intros ([|n] & -> & Hl & Hc & Hp); simpl in *; [congruence|].
        exists n. split_and!; [lia|done..|]. intros e ?. apply Hp. by right.
    + split.
      * intros [= -> ->]. exists O. split_and!; [lia|done..|]. intros ? ?%not_elem_of_nil. done.
      * intros ([|n] & -> & Hl & Hc & Hp); simpl in *.
        -- injection Hl as ->. f_equal. f_equal. lia.
        -- rewrite (Hp d) in Hd; [done|by left].
Qed.

Lemma validate_identifier_Ok s k : validate_identifier s k = Ok () ↔ identifier_wf s.
Proof.
  unfold validate_identifier, identifier_wf.
  rewrite !bind_unit_Ok_iff, !fail_if_Ok, fail_with_Ok, first_rejected_None, Z.ltb_ge.
  pose proof (str_is_empty_len s) as He. pose proof (str_len_nonneg s).
  unfold MAX_IDENTIFIER_BYTES. destruct (str_is_empty s); split.
  - by intros (? & _).
  - intros [? _]. assert (str_len s = 0) by (by apply He). lia.
  - intros (_ & ? & ?). split; [|done]. assert (str_len s ≠ 0); [|lia]. by intros ?%He.
  - intros [? ?]. split_and!; [done|lia|done].
Qed.

Lemma Ident_new_Ok k s i : Ident_new k s = Ok i ↔ identifier_wf s ∧ i = MkIdent s.
Proof.
  unfold Ident_new. rewrite bind_unit_Ok_iff, validate_identifier_Ok. naive_solver.
Qed.

(** Identifiers hold neither path separators nor a colon nor a control byte. *)
Lemma identifier_wf_no_special s c :
  identifier_wf s → c ∈ str_bytes s → is_ascii c = true ∧ code c ≠ 47 ∧ code c ≠ 92 ∧ code c ≠ 58
    ∧ 32 < code c.
Proof.
  intros [_ Hall] Hc. specialize (Hall c Hc). unfold accepted, is_ascii in *.
  apply orb_true_iff in Hall as [Hall|Hall]; [apply orb_true_iff in Hall as [Hall|Hall]|].
  - unfold is_ascii_lowercase, in_range in Hall. bool_prop. rewrite Z.ltb_lt. lia.
  - unfold is_ascii_digit, in_range in Hall. bool_prop. rewrite Z.ltb_lt. lia.
  - apply one_of_true in Hall. rewrite !elem_of_cons in Hall.
    destruct Hall as [->|[->|[->|Hn]]]; [by vm_compute..|by apply not_elem_of_nil in Hn].
Qed.

(** [validate_identifier] decides the identifier grammar, and a rejection
    says why: an empty value, a value longer than 128 bytes, or the position
    and class of the first byte outside [a-z0-9._-], all bytes before it being
    accepted. *)
Theorem validate_identifier_correct (s : string) (k : IdentifierKind) :
  match validate_identifier s k with
  | Ok _ => identifier_wf s
  | Err (InvalidIdentifier k' r) =>
      k' = k ∧ ¬ identifier_wf s ∧
      match r with
      | Empty => s = ""
      | TooLong n m => n = str_len s ∧ m = 128 ∧ m < n
      | InvalidCharacter i cls =>
          ∃ c n, i = Z.of_nat n ∧ str_bytes s !! n = Some c ∧ accepted c = false ∧
            cls = character_class c ∧ (∀ d, d ∈ take n (str_bytes s) → accepted d = true)
      end
  | Err _ => False
  end.
Proof.
  destruct (validate_identifier s k) as [[]|e] eqn:E.
  - by apply validate_identifier_Ok in E.
  - assert (Hn : ¬ identifier_wf s) by (rewrite <-(validate_identifier_Ok s k), E; done).
    unfold validate_identifier in E.
    apply bind_Err_iff in E as [[He <-]%fail_if_Err|(_ & _ & E)].
    { split_and!; [done..|]. by apply bool_decide_eq_true in He. }
    apply bind_Err_iff in E as [[Hl <-]%fail_if_Err|(_ & _ & E)].
    { split_and!; [done..|]. by apply Z.ltb_lt in Hl. }
    destruct (first_rejected _ _) as [[i c]|] eqn:Hf; simpl in E; [|done].
    injection E as <-. split_and!; [done..|].
    apply first_rejected_Some in Hf as (n & -> & ? & ? & ?). by exists c, n.
Qed.

Lemma ActivationGeneration_new_Ok v g :
  ActivationGeneration_new v = Ok g ↔ v ≠ 0 ∧ g = MkGeneration v.
Proof. unfold ActivationGeneration_new. destruct (Z.eqb_spec v 0); naive_solver. Qed.
