(* ===== verification/External.v ===== *)
(** * External interfaces

    What the code takes from crates outside the repository, as type classes the
    components are parameterised by.  The laws are the documented behaviour the
    theorems use; nothing else is assumed of these crates. *)
From Stdlib Require Export SpecFloat.
From S2P Require Import Prelude Text.
#[local] Open Scope Z_scope.

(** The [semver] crate: versions are totally ordered; parsing may fail, and a
    requirement that does not parse comes with the crate's message. *)
Class Semver := {
  Version : Type;
  Version_eq_dec :: EqDecision Version;
  Version_ord :: RustOrd Version;
  Version_ord_laws :: RustOrdLaws Version;
  Version_parse : string → option Version;
  VersionReq_parse : string → result string ()
}.

(** The [sha2] crate: a digest is 32 bytes. *)
Class Sha256 := {
  sha256 : list ascii → list ascii;
  sha256_length l : length (sha256 l) = 32%nat
}.

(** ** serde_json

    [Number] is opaque: the code reads it through [as_i64], [as_u64] and
    [as_f64] and compares it with [==].  An [f64] is an IEEE 754 binary64 value
    of the Standard Library's [SpecFloat].  Every number has an [f64] reading,
    as the crate documents for its default features. *)
Class SerdeNumber := {
  Number : Type;
  Number_eqb : Number → Number → bool;
  num_as_i64 : Number → option Z;
  num_as_u64 : Number → option Z;
  num_as_f64 : Number → option spec_float;
  num_as_f64_total n : num_as_f64 n ≠ None
}.

(** [serde_json::Value]; the object's fields in iteration order. *)
Inductive Value `{SerdeNumber} : Type :=
| VNull
| VBool (b : bool)
| VNumber (n : Number)
| VString (s : string)
| VArray (l : list Value)
| VObject (m : list (string * Value)).

Section value.
Context `{SerdeNumber}.
Implicit Types (v : Value).

Definition Map : Type := list (string * Value).

Definition as_object v : option Map := match v with VObject m => Some m | _ => None end.
Definition as_array v : option (list Value) := match v with VArray l => Some l | _ => None end.
Definition as_string v : option string := match v with VString s => Some s | _ => None end.
Definition as_i64 v : option Z := match v with VNumber n => num_as_i64 n | _ => None end.
Definition as_u64 v : option Z := match v with VNumber n => num_as_u64 n | _ => None end.
Definition as_f64 v : option spec_float := match v with VNumber n => num_as_f64 n | _ => None end.
Definition is_number v : bool := match v with VNumber _ => true | _ => false end.
Definition is_boolean v : bool := match v with VBool _ => true | _ => false end.
Definition is_null v : bool := match v with VNull => true | _ => false end.

(** [map.get(key)] and [map.contains_key(key)]. *)
Definition map_get (key : string) (m : Map) : option Value :=
  snd <$> List.find (λ kv, str_eq kv.1 key) m.
Definition contains_key (key : string) (m : Map) : bool := is_some (map_get key m).

(** [a == b]: objects are equal when they have the same fields. *)
Fixpoint Value_eqb (a b : Value) : bool :=
  match a, b with
  | VNull, VNull => true
  | VBool x, VBool y => Bool.eqb x y
  | VNumber x, VNumber y => Number_eqb x y
  | VString x, VString y => str_eq x y
  | VArray l, VArray k =>
      (fix go (l k : list Value) : bool :=
         match l, k with
         | [], [] => true
         | x :: l, y :: k => Value_eqb x y && go l k
         | _, _ => false
         end) l k
  | VObject m, VObject n =>
      (length m =? length n)%nat
      && forallb (λ kv, is_some_and (Value_eqb kv.2) (map_get kv.1 n)) m
  | _, _ => false
  end.
End value.

(** [serde_json::to_vec]: the encoding, or the crate's message. *)
Class SerdeToVec `{SerdeNumber} := to_vec : Value → result string (list ascii).
(** Encoding a [Value] does not fail: the keys of its objects are strings. *)
Class SerdeToVecTotal `{SerdeToVec} : Prop :=
  to_vec_total v : ∃ bytes, to_vec v = Ok bytes.

(** [serde_json::Number::from] for a [u64]. *)
Class SerdeFromU64 `{SerdeNumber} := {
  num_from_u64 : Z → Number;
  num_from_u64_law n : 0 <= n < 2 ^ 64 → num_as_u64 (num_from_u64 n) = Some n
}.
