(* ===== verification/Stateful.v ===== *)
(** * Operations on a state that may fail

    A method [&mut self] that returns a [Result]: the state it leaves, which a
    failing method leaves too, beside the result.  [post] is the postcondition
    calculus of such methods: one postcondition for a value, one for an error. *)
From S2P Require Import Prelude.

Definition stateful (S E A : Type) : Type := S → S * result E A.

#[global] Instance stateful_ret {S E} : MRet (stateful S E) := λ A a s, (s, Ok a).
#[global] Instance stateful_bind {S E} : MBind (stateful S E) := λ A B f m s,
  match m s with (s, Ok a) => f a s | (s, Err e) => (s, Err e) end.

Section operations.
Context {S E : Type}.

Definition gets {A} (f : S → A) : stateful S E A := λ s, (s, Ok (f s)).
Definition modify (f : S → S) : stateful S E () := λ s, (f s, Ok ()).
(** [return Err(e);]. *)
Definition throw {A} (e : E) : stateful S E A := λ s, (s, Err e).
Definition throw_if (c : bool) (e : E) : stateful S E () := if c then throw e else mret ().
(** [r?]. *)
Definition lift {A} (r : result E A) : stateful S E A := λ s, (s, r).
(** [match m { Ok(a) => a, Err(e) => return handler(e) }]. *)
Definition or_else {F A} (m : stateful S F A) (handler : F → stateful S E A) : stateful S E A := λ s,
  match m s with (s, Ok a) => (s, Ok a) | (s, Err e) => handler e s end.
(** [let _ = m;]. *)
Definition ignore {F A} (m : stateful S F A) : stateful S E () := λ s, ((m s).1, Ok ()).
End operations.

(** A method of a field of the state. *)
Definition zoom {S T E A} (get : S → T) (set : T → S → S) (m : stateful T E A) : stateful S E A := λ s,
  let '(t, r) := m (get s) in (set t s, r).

Definition post {S E A} (m : stateful S E A) (s : S) (Q : A → S → Prop) (R : E → S → Prop) : Prop :=
  match m s with (s', Ok a) => Q a s' | (s', Err e) => R e s' end.

Section post_rules.
Context {S E : Type}.
Implicit Types (s : S).

Lemma post_ret {A} (a : A) s Q (R : E → S → Prop) : post (mret a) s Q R ↔ Q a s.
Proof. done. Qed.
Lemma post_bind {A B} (m : stateful S E A) (f : A → stateful S E B) s Q R :
  post (m ≫= f) s Q R ↔ post m s (λ a s, post (f a) s Q R) R.
Proof.
  unfold post, mbind, stateful_bind. by destruct (m s) as [s' [a|e]].
Qed.
Lemma post_gets {A} (f : S → A) s Q (R : E → S → Prop) : post (gets f) s Q R ↔ Q (f s) s.
Proof. done. Qed.
Lemma post_modify f s Q (R : E → S → Prop) : post (modify f) s Q R ↔ Q () (f s).
Proof. done. Qed.
Lemma post_throw {A} e s (Q : A → S → Prop) (R : E → S → Prop) : post (throw e) s Q R ↔ R e s.
Proof. done. Qed.
Lemma post_throw_if c e s Q (R : E → S → Prop) :
  post (throw_if c e) s Q R ↔ if c then R e s else Q () s.
Proof. by destruct c. Qed.
Lemma post_lift {A} (r : result E A) s Q (R : E → S → Prop) :
  post (lift r) s Q R ↔ match r with Ok a => Q a s | Err e => R e s end.
Proof. unfold post, lift. by destruct r. Qed.
Lemma post_or_else {F A} (m : stateful S F A) handler s Q (R : E → S → Prop) :
  post (or_else m handler) s Q R ↔ post m s Q (λ e s, post (handler e) s Q R).
Proof. unfold post, or_else. by destruct (m s) as [s' [a|e]]. Qed.
Lemma post_ignore {F A} (m : stateful S F A) s Q (R : E → S → Prop) :
  post (ignore m) s Q R ↔ post m s (λ _, Q ()) (λ _, Q ()).
Proof. unfold post, ignore. by destruct (m s) as [s' [a|e]]. Qed.

Lemma post_mono {A} (m : stateful S E A) s (Q Q' : A → S → Prop) (R R' : E → S → Prop) :
  post m s Q R → (∀ a s', Q a s' → Q' a s') → (∀ e s', R e s' → R' e s') → post m s Q' R'.
Proof. unfold post. destruct (m s) as [s' [a|e]]; eauto. Qed.
Lemma post_and {A} (m : stateful S E A) s (Q Q' : A → S → Prop) (R R' : E → S → Prop) :
  post m s Q R → post m s Q' R' → post m s (λ a s, Q a s ∧ Q' a s) (λ e s, R e s ∧ R' e s).
Proof. unfold post. destruct (m s) as [s' [a|e]]; auto. Qed.
Lemma post_Ok {A} (m : stateful S E A) s s' a Q R : m s = (s', Ok a) → post m s Q R → Q a s'.
Proof. unfold post. by intros ->. Qed.
Lemma post_Err {A} (m : stateful S E A) s s' e Q R : m s = (s', Err e) → post m s Q R → R e s'.
Proof. unfold post. by intros ->. Qed.
(** What holds of the state whatever the result. *)
Lemma post_state {A} (m : stateful S E A) s (P : S → Prop) :
  post m s (λ _, P) (λ _, P) ↔ P (m s).1.
Proof. unfold post. by destruct (m s) as [s' [a|e]]. Qed.
Lemma post_if {A} (c : bool) (m n : stateful S E A) s Q R :
  post (if c then m else n) s Q R ↔ if c then post m s Q R else post n s Q R.
Proof. by destruct c. Qed.
End post_rules.

Lemma post_zoom {S T E A} (get : S → T) set (m : stateful T E A) (s : S) Q R :
  post (zoom get set m) s Q R ↔ post m (get s) (λ a t, Q a (set t s)) (λ e t, R e (set t s)).
Proof. unfold post, zoom. by destruct (m (get s)) as [t [a|e]]. Qed.

Create Rewrite HintDb post.
#[export] Hint Rewrite @post_ret @post_bind @post_gets @post_modify @post_throw @post_throw_if
  @post_lift @post_or_else @post_ignore : post.
(** Run a method up to the calls that are not of this file. *)
Ltac post_run := autorewrite with post; cbn beta.
