(* ===== verification/JsonSchema.v ===== *)
(** * Bounded JSON schemas

    Model of [crates/rho-extension-runtime/src/json_schema.rs]: the closed schema
    grammar a contribution may use, with its aggregate budgets, and the check of
    a call value against a schema.

    The two recursive functions descend one schema level per call and count the
    levels in [depth]; the fuel only makes the recursion structural.  A call that
    runs out of fuel answers [Panic], like the [expect]s and the [unreachable!];
    [schema_new_correct] and [validate_instance_correct] show that neither
    happens. *)
From S2P Require Import Prelude Text Errors External Ids.
#[local] Open Scope Z_scope.

Definition MAX_CONTRIBUTION_SCHEMA_BYTES : Z := 64 * 1024.
Definition MAX_CONTRIBUTION_SCHEMA_DEPTH : Z := 8.
Definition MAX_CONTRIBUTION_SCHEMA_PROPERTIES : Z := 128.
Definition MAX_CONTRIBUTION_SCHEMA_ENUM_VALUES : Z := 128.

Record JsonSchemaError := MkSchemaError { schema_reason : string }.
#[global] Instance JsonSchemaError_display : Display JsonSchemaError := schema_reason.

Abbreviation schema_result := (result (fault JsonSchemaError)).
Definition invalid (reason : string) : fault JsonSchemaError := Failed (MkSchemaError reason).

(** The schema types, by name. *)
Inductive JsonType := TObject | TArray | TString | TNumber | TInteger | TBoolean | TNull.
#[global] Instance JsonType_eq_dec : EqDecision JsonType.
Proof. solve_decision. Defined.
Definition json_type (s : string) : option JsonType :=
  if str_eq s "object" then Some TObject
  else if str_eq s "array" then Some TArray
  else if str_eq s "string" then Some TString
  else if str_eq s "number" then Some TNumber
  else if str_eq s "integer" then Some TInteger
  else if str_eq s "boolean" then Some TBoolean
  else if str_eq s "null" then Some TNull
  else None.

Definition contains_bidi_override (value : string) : bool := existsb is_bidi_control (chars value).

Definition schema_keywords : list string :=
  ["type"; "required"; "properties"; "items"; "enum"; "minimum"; "maximum"; "minLength";
   "maxLength"; "minItems"; "maxItems"].
Definition keyword_owners : list (string * string) :=
  [("required", "object"); ("properties", "object"); ("items", "array"); ("minLength", "string");
   ("maxLength", "string"); ("minItems", "array"); ("maxItems", "array")].

Record SchemaBudget := MkBudget { budget_properties : Z; budget_enum_values : Z }.
Definition SchemaBudget_default : SchemaBudget := MkBudget 0 0.

Section json_schema.
Context `{SerdeNumber}.

(** A schema that passed [BoundedJsonSchema_new]. *)
Record BoundedJsonSchema := MkSchema { schema_value : Value }.

Definition value_matches_type (value : Value) (schema_type : string) : bool :=
  match json_type schema_type with
  | Some TObject => is_some (as_object value)
  | Some TArray => is_some (as_array value)
  | Some TString => is_some (as_string value)
  | Some TNumber => is_number value
  | Some TInteger => is_some (as_i64 value) || is_some (as_u64 value)
  | Some TBoolean => is_boolean value
  | Some TNull => is_null value
  | None => false
  end.

(** ** Schemas *)

(** [object.get(key).map(|v| read(v).ok_or_else(..)).transpose()?]. *)
Definition read_keyword {A} (object : Map) (key : string) (read : Value → option A)
    (e : fault JsonSchemaError) : schema_result (option A) :=
  match map_get key object with
  | None => Ok None
  | Some v => Some <$> ok_or (read v) e
  end.

Definition validate_unsigned_bounds (object : Map) (minimum_key maximum_key : string)
    : schema_result () :=
  minimum ← read_keyword object minimum_key as_u64 (invalid (minimum_key +:+ " must be an integer"));
  maximum ← read_keyword object maximum_key as_u64 (invalid (maximum_key +:+ " must be an integer"));
  match minimum, maximum with
  | Some minimum, Some maximum =>
      fail_if (maximum <? minimum) (invalid (minimum_key +:+ " must not exceed " +:+ maximum_key))
  | _, _ => Ok ()
  end.

Definition validate_numeric_bounds (object : Map) : schema_result () :=
  minimum ← read_keyword object "minimum" as_f64 (invalid "minimum must be a finite JSON number");
  maximum ← read_keyword object "maximum" as_f64 (invalid "maximum must be a finite JSON number");
  match minimum, maximum with
  | Some minimum, Some maximum =>
      fail_if (SFltb maximum minimum) (invalid "minimum must not exceed maximum")
  | _, _ => Ok ()
  end.

Definition validate_keyword_ownership (object : Map) (schema_type : string) : schema_result () :=
  _ ← for_each (λ ko, fail_if (contains_key ko.1 object && negb (str_eq schema_type ko.2))
        (invalid (ko.1 +:+ " is valid only for " +:+ ko.2 +:+ " schemas"))) keyword_owners;
  fail_if ((contains_key "minimum" object || contains_key "maximum" object)
           && negb (str_eq schema_type "number" || str_eq schema_type "integer"))
    (invalid "minimum/maximum are valid only for numeric schemas").

(** The loop over [required]; [seen] holds the names already read. *)
Definition check_required (properties : Map) (seen : gset string) (item : Value)
    : schema_result (gset string) :=
  name ← ok_or (as_string item) (invalid "required entries must be strings");
  _ ← fail_if (negb (contains_key name properties))
        (invalid ("required property is undeclared: " +:+ name));
  _ ← fail_if (bool_decide (name ∈ seen)) (invalid ("duplicate required property: " +:+ name));
  Ok ({[ name ]} ∪ seen).

Definition unsafe_property_name (name : string) : bool :=
  str_is_empty name || (MAX_IDENTIFIER_BYTES <? str_len name)
  || existsb is_control (chars name) || contains_bidi_override name.

Definition validate_object_schema
    (validate_schema_node : Value → Z → SchemaBudget → schema_result SchemaBudget)
    (object : Map) (depth : Z) (budget : SchemaBudget) : schema_result SchemaBudget :=
  properties ← ok_or (map_get "properties" object ≫= as_object)
                 (invalid "object schema requires properties");
  count ← ok_or (checked_add_u64 (budget_properties budget) (vec_len properties))
            (invalid "schema property budget overflow");
  _ ← fail_if (MAX_CONTRIBUTION_SCHEMA_PROPERTIES <? count)
        (invalid ("schema properties exceed " +:+ display MAX_CONTRIBUTION_SCHEMA_PROPERTIES));
  budget ← try_fold (λ budget ns,
      _ ← fail_if (unsafe_property_name ns.1)
            (invalid "schema property name is empty, oversized, or unsafe");
      validate_schema_node ns.2 (depth + 1) budget)
    (MkBudget count (budget_enum_values budget)) properties;
  required ← read_keyword object "required" as_array (invalid "required must be an array");
  _ ← try_fold (check_required properties) ∅ (default [] required);
  Ok budget.

(** The [enum] keyword. *)
Definition validate_enum (object : Map) (schema_type : string) (budget : SchemaBudget)
    : schema_result SchemaBudget :=
  match map_get "enum" object with
  | None => Ok budget
  | Some values =>
      values ← ok_or (as_array values) (invalid "enum must be an array");
      _ ← fail_if (vec_is_empty values) (invalid "enum must not be empty");
      count ← ok_or (checked_add_u64 (budget_enum_values budget) (vec_len values))
                (invalid "schema enum budget overflow");
      _ ← fail_if (MAX_CONTRIBUTION_SCHEMA_ENUM_VALUES <? count)
            (invalid ("schema enum values exceed " +:+ display MAX_CONTRIBUTION_SCHEMA_ENUM_VALUES));
      _ ← for_each (λ item, fail_if (negb (value_matches_type item schema_type))
            (invalid ("enum value does not match schema type " +:+ schema_type))) values;
      Ok (MkBudget (budget_properties budget) count)
  end.

Fixpoint validate_schema_node (fuel : nat) (value : Value) (depth : Z) (budget : SchemaBudget)
    : schema_result SchemaBudget :=
  _ ← fail_if (MAX_CONTRIBUTION_SCHEMA_DEPTH <? depth)
        (invalid ("schema depth exceeds " +:+ display MAX_CONTRIBUTION_SCHEMA_DEPTH));
  match fuel with
  | O => Err Panic
  | S fuel =>
      object ← ok_or (as_object value) (invalid "every schema node must be an object");
      _ ← for_each (λ kv, fail_if (negb (bool_decide (kv.1 ∈ schema_keywords)))
            (invalid ("unsupported schema keyword: " +:+ kv.1))) object;
      schema_type ← ok_or (map_get "type" object ≫= as_string)
                      (invalid "schema type must be one string");
      _ ← fail_if (negb (is_some (json_type schema_type)))
            (invalid ("unsupported schema type: " +:+ schema_type));
      _ ← validate_keyword_ownership object schema_type;
      budget ←
        match json_type schema_type with
        | Some TObject => validate_object_schema (validate_schema_node fuel) object depth budget
        | Some TArray =>
            items ← ok_or (map_get "items" object) (invalid "array schema requires items");
            budget ← validate_schema_node fuel items (depth + 1) budget;
            _ ← validate_unsigned_bounds object "minItems" "maxItems";
            Ok budget
        | Some TString => _ ← validate_unsigned_bounds object "minLength" "maxLength"; Ok budget
        | Some TNumber | Some TInteger => _ ← validate_numeric_bounds object; Ok budget
        | Some TBoolean | Some TNull => Ok budget
        | None => Err Panic
        end;
      validate_enum object schema_type budget
  end.

(** One call per level, and one for the level that is refused. *)
Definition schema_fuel : nat := S (Z.to_nat MAX_CONTRIBUTION_SCHEMA_DEPTH).

Definition BoundedJsonSchema_new `{!SerdeToVec} (value : Value) : schema_result BoundedJsonSchema :=
  encoded ← map_err (λ error, invalid ("cannot encode schema: " +:+ error)) (to_vec value);
  _ ← fail_if (MAX_CONTRIBUTION_SCHEMA_BYTES <? vec_len encoded)
        (invalid ("schema exceeds " +:+ display MAX_CONTRIBUTION_SCHEMA_BYTES +:+ " bytes"));
  _ ← validate_schema_node schema_fuel value 1 SchemaBudget_default;
  Ok (MkSchema value).

(** ** Instances *)

Definition validate_length_bounds (schema : Map) (actual : Z) (minimum_key maximum_key path : string)
    : schema_result () :=
  fail_if (is_some_and (λ minimum, actual <? minimum) (map_get minimum_key schema ≫= as_u64)
           || is_some_and (λ maximum, maximum <? actual) (map_get maximum_key schema ≫= as_u64))
    (invalid (path +:+ " is outside length bounds")).

Definition validate_object_instance
    (validate_instance_node : Value → Value → string → Z → schema_result ())
    (object : Map) (value : Value) (path : string) (depth : Z) : schema_result () :=
  value ← ok_or (as_object value) Panic;
  properties ← ok_or (map_get "properties" object ≫= as_object) Panic;
  _ ← fail_with (List.find (λ kv, negb (contains_key kv.1 properties)) value)
        (λ unknown, invalid (path +:+ " contains undeclared property " +:+ unknown.1));
  _ ← match map_get "required" object ≫= as_array with
      | Some required =>
          for_each (λ name, fail_if (negb (contains_key name value))
            (invalid (path +:+ " is missing required property " +:+ name))) (omap as_string required)
      | None => Ok ()
      end;
  for_each (λ nc,
    child_schema ← ok_or (map_get nc.1 properties) Panic;
    validate_instance_node child_schema nc.2 (path +:+ "." +:+ nc.1) (depth + 1)) value.

Fixpoint validate_instance_node (fuel : nat) (schema value : Value) (path : string) (depth : Z)
    : schema_result () :=
  _ ← fail_if (MAX_CONTRIBUTION_SCHEMA_DEPTH <? depth)
        (invalid "instance depth exceeds schema budget");
  match fuel with
  | O => Err Panic
  | S fuel =>
      object ← ok_or (as_object schema) (invalid "validated schema node is not an object");
      schema_type ← ok_or (map_get "type" object ≫= as_string)
                      (invalid "validated schema has no type");
      _ ← fail_if (negb (value_matches_type value schema_type))
            (invalid (path +:+ " does not match type " +:+ schema_type));
      _ ← fail_if (is_some_and (λ allowed, negb (existsb (λ a, Value_eqb a value) allowed))
                     (map_get "enum" object ≫= as_array))
            (invalid (path +:+ " is not in enum"));
      match json_type schema_type with
      | Some TObject => validate_object_instance (validate_instance_node fuel) object value path depth
      | Some TArray =>
          values ← ok_or (as_array value) Panic;
          _ ← validate_length_bounds object (vec_len values) "minItems" "maxItems" path;
          items ← ok_or (map_get "items" object) Panic;
          for_each (λ ic, validate_instance_node fuel items ic.2
              (path +:+ "[" +:+ display (Z.of_nat ic.1) +:+ "]") (depth + 1))
            (imap pair values)
      | Some TString =>
          text ← ok_or (as_string value) Panic;
          validate_length_bounds object (vec_len (chars text)) "minLength" "maxLength" path
      | Some TNumber | Some TInteger =>
          number ← ok_or (as_f64 value) Panic;
          fail_if (is_some_and (λ minimum, SFltb number minimum) (map_get "minimum" object ≫= as_f64)
                   || is_some_and (λ maximum, SFltb maximum number) (map_get "maximum" object ≫= as_f64))
            (invalid (path +:+ " is outside numeric bounds"))
      | Some TBoolean | Some TNull => Ok ()
      | None => Err Panic
      end
  end.

Definition validate_instance (schema : BoundedJsonSchema) (value : Value) : schema_result () :=
  validate_instance_node schema_fuel (schema_value schema) value "$" 1.
End json_schema.
