(* ===== verification/JsonSchemaProps.v ===== *)
(** * Properties of bounded JSON schemas

    The grammar of the schemas [BoundedJsonSchema_new] accepts, the values that
    conform to a schema, and the proofs that [json_schema.rs] decides both. *)
From S2P Require Import Prelude Text Errors External Ids JsonSchema.
#[local] Open Scope Z_scope.

Definition type_name (t : JsonType) : string :=
  match t with
  | TObject => "object" | TArray => "array" | TString => "string" | TNumber => "number"
  | TInteger => "integer" | TBoolean => "boolean" | TNull => "null"
  end.

(** The keywords a schema of each type may use, beside [type] and [enum]. *)
Definition type_keywords (t : JsonType) : list string :=
  match t with
  | TObject => ["required"; "properties"]
  | TArray => ["items"; "minItems"; "maxItems"]
  | TString => ["minLength"; "maxLength"]
  | TNumber | TInteger => ["minimum"; "maximum"]
  | TBoolean | TNull => []
  end.

Definition keyword_of (t : JsonType) (k : string) : Prop :=
  k = "type" ∨ k = "enum" ∨ k ∈ type_keywords t.

Definition sumZ {A} (f : A → Z) (l : list A) : Z := foldr (λ x n, f x + n) 0 l.

Section spec.
Context `{SerdeNumber}.

Definition has_type (t : JsonType) (v : Value) : Prop :=
  match t with
  | TObject => ∃ m, v = VObject m
  | TArray => ∃ l, v = VArray l
  | TString => ∃ s, v = VString s
  | TNumber => ∃ n, v = VNumber n
  | TInteger => ∃ n, v = VNumber n ∧ (num_as_i64 n ≠ None ∨ num_as_u64 n ≠ None)
  | TBoolean => ∃ b, v = VBool b
  | TNull => v = VNull
  end.

(** Where the keyword is present, [read] reads it. *)
Definition readable {A} (read : Value → option A) (key : string) (o : Map) : Prop :=
  ∀ v, map_get key o = Some v → read v ≠ None.
Definition keyword {A} (read : Value → option A) (key : string) (o : Map) : option A :=
  map_get key o ≫= read.

Definition unsigned_bounds_ok (kmin kmax : string) (o : Map) : Prop :=
  readable as_u64 kmin o ∧ readable as_u64 kmax o ∧
  ∀ a b, keyword as_u64 kmin o = Some a → keyword as_u64 kmax o = Some b → a <= b.
Definition numeric_bounds_ok (o : Map) : Prop :=
  readable as_f64 "minimum" o ∧ readable as_f64 "maximum" o ∧
  ∀ a b, keyword as_f64 "minimum" o = Some a → keyword as_f64 "maximum" o = Some b →
    SFltb b a = false.
Definition required_ok (o properties : Map) : Prop :=
  ∀ v, map_get "required" o = Some v → ∃ names, v = VArray (VString <$> names) ∧ NoDup names ∧
    ∀ k, k ∈ names → contains_key k properties = true.
Definition enum_ok (t : JsonType) (o : Map) : Prop :=
  ∀ v, map_get "enum" o = Some v → ∃ l, v = VArray l ∧ l ≠ [] ∧ ∀ x, x ∈ l → has_type t x.

(** What each type asks of its keywords; [child] is asked of the schemas below. *)
Definition type_ok (child : Value → Prop) (t : JsonType) (o : Map) : Prop :=
  match t with
  | TObject => ∃ ps, map_get "properties" o = Some (VObject ps) ∧ required_ok o ps ∧
      ∀ ns, ns ∈ ps → unsafe_property_name ns.1 = false ∧ child ns.2
  | TArray => ∃ items, map_get "items" o = Some items ∧ child items ∧
      unsigned_bounds_ok "minItems" "maxItems" o
  | TString => unsigned_bounds_ok "minLength" "maxLength" o
  | TNumber | TInteger => numeric_bounds_ok o
  | TBoolean | TNull => True
  end.
(** The schema grammar, for schemas of at most [levels] levels. *)
Fixpoint schema_ok (levels : nat) (schema : Value) : Prop :=
  match levels with
  | O => False
  | S levels =>
      ∃ o t, schema = VObject o ∧ map_get "type" o = Some (VString (type_name t)) ∧
        (∀ k, k ∈ o.*1 → keyword_of t k) ∧ enum_ok t o ∧
        type_ok (schema_ok levels) t o
  end.

(** What a schema declares, summed over all its levels. *)
Definition own_properties (o : Map) : Z :=
  match map_get "properties" o with Some (VObject ps) => vec_len ps | _ => 0 end.
Definition own_enum (o : Map) : Z :=
  match map_get "enum" o with Some (VArray l) => vec_len l | _ => 0 end.
Definition children (o : Map) : list Value :=
  match map_get "properties" o with Some (VObject ps) => ps.*2 | _ => [] end
  ++ match map_get "items" o with Some items => [items] | None => [] end.
Fixpoint tally (own : Map → Z) (levels : nat) (schema : Value) : Z :=
  match levels, schema with
  | S levels, VObject o => own o + sumZ (tally own levels) (children o)
  | _, _ => 0
  end.

(** ** Conforming values *)

Definition enum_admits (o : Map) (v : Value) : Prop :=
  ∀ l, keyword as_array "enum" o = Some l → ∃ a, a ∈ l ∧ Value_eqb a v = true.
Definition length_within (kmin kmax : string) (o : Map) (n : Z) : Prop :=
  (∀ a, keyword as_u64 kmin o = Some a → a <= n) ∧ (∀ b, keyword as_u64 kmax o = Some b → n <= b).
Definition number_within (o : Map) (f : spec_float) : Prop :=
  (∀ a, keyword as_f64 "minimum" o = Some a → SFltb f a = false) ∧
  (∀ b, keyword as_f64 "maximum" o = Some b → SFltb b f = false).

Inductive conforms : Value → Value → Prop :=
| conforms_object o ps fs :
    map_get "type" o = Some (VString "object") → enum_admits o (VObject fs) →
    map_get "properties" o = Some (VObject ps) →
    (∀ k c, (k, c) ∈ fs → contains_key k ps = true) →
    (∀ l k, map_get "required" o = Some (VArray l) → VString k ∈ l → contains_key k fs = true) →
    (∀ k c s, (k, c) ∈ fs → map_get k ps = Some s → conforms s c) →
    conforms (VObject o) (VObject fs)
| conforms_array o items l :
    map_get "type" o = Some (VString "array") → enum_admits o (VArray l) →
    map_get "items" o = Some items → length_within "minItems" "maxItems" o (vec_len l) →
    (∀ c, c ∈ l → conforms items c) →
    conforms (VObject o) (VArray l)
| conforms_string o s :
    map_get "type" o = Some (VString "string") → enum_admits o (VString s) →
    length_within "minLength" "maxLength" o (vec_len (chars s)) →
    conforms (VObject o) (VString s)
| conforms_number o n f :
    map_get "type" o = Some (VString "number") → enum_admits o (VNumber n) →
    num_as_f64 n = Some f → number_within o f →
    conforms (VObject o) (VNumber n)
| conforms_integer o n f :
    map_get "type" o = Some (VString "integer") → enum_admits o (VNumber n) →
    num_as_i64 n ≠ None ∨ num_as_u64 n ≠ None → num_as_f64 n = Some f → number_within o f →
    conforms (VObject o) (VNumber n)
| conforms_boolean o b :
    map_get "type" o = Some (VString "boolean") → enum_admits o (VBool b) →
    conforms (VObject o) (VBool b)
| conforms_null o :
    map_get "type" o = Some (VString "null") → enum_admits o VNull →
    conforms (VObject o) VNull.

(** ** Keywords *)

Lemma json_type_name t : json_type (type_name t) = Some t.
Proof. by destruct t. Qed.
Lemma json_type_Some s t : json_type s = Some t ↔ s = type_name t.
Proof.
  split; [|intros ->; apply json_type_name]. unfold json_type.
  repeat (destruct (str_eq _ _) eqn:E; [apply str_eq_true in E; intros [= <-]; done|clear E]). done.
Qed.
Lemma type_name_eq s t : str_eq (type_name t) s = true ↔ json_type s = Some t.
Proof. rewrite str_eq_true, json_type_Some. split; congruence. Qed.

Lemma contains_key_elem k (m : Map) : contains_key k m = true ↔ k ∈ m.*1.
Proof.
  unfold contains_key, map_get. destruct (List.find _ m) as [kv|] eqn:E; simpl.
  - apply find_Some_iff in E as [Hkv <-%str_eq_true]. split; [|done]. intros _.
    by apply list_elem_of_fmap_2.
  - rewrite find_None_iff in E. split; [done|]. intros (kv & -> & Hkv)%list_elem_of_fmap.
    apply E in Hkv. by apply str_eq_false in Hkv.
Qed.
Lemma map_get_elem k (m : Map) v : map_get k m = Some v → k ∈ m.*1.
Proof. intros E. apply contains_key_elem. unfold contains_key. by rewrite E. Qed.
Lemma map_get_In k (m : Map) v : map_get k m = Some v → (k, v) ∈ m.
Proof.
  unfold map_get. destruct (List.find _ m) as [[k' v']|] eqn:E; simpl; [|done].
  intros [= <-]. by apply find_Some_iff in E as [? <-%str_eq_true].
Qed.
Lemma map_get_None k (m : Map) : k ∉ m.*1 → map_get k m = None.
Proof. intros Hk. destruct (map_get k m) eqn:E; [by apply map_get_elem in E|done]. Qed.

Lemma value_matches_type_name v t : value_matches_type v (type_name t) = true ↔ has_type t v.
Proof.
  unfold value_matches_type. rewrite json_type_name.
  destruct t; destruct v; simpl; try (split; [done|intros (?&?); done]); try (split; [done|by intros []]);
    try (split; [by eauto|done]); try (split; [done|by intros (?&?&?)]); try done.
  rewrite orb_true_iff, !is_some_not_None. naive_solver.
Qed.

Lemma read_keyword_Ok {A} (read : Value → option A) o k e r :
  read_keyword o k read e = Ok r ↔ readable read k o ∧ r = keyword read k o.
Proof.
  unfold read_keyword, readable, keyword. destruct (map_get k o) as [v|]; simpl.
  - destruct (read v) eqn:E; simpl.
    + split; [intros [= <-]; split; [intros ? [= <-]; congruence|done]|by intros [_ ->]].
    + split; [done|]. intros [Hr _]. by destruct (Hr v).
  - split; [by intros [= <-]|by intros [_ ->]].
Qed.

Lemma validate_unsigned_bounds_Ok o kmin kmax :
  validate_unsigned_bounds o kmin kmax = Ok () ↔ unsigned_bounds_ok kmin kmax o.
Proof.
  unfold validate_unsigned_bounds, unsigned_bounds_ok. rewrite bind_Ok_iff.
  setoid_rewrite bind_Ok_iff. setoid_rewrite read_keyword_Ok.
  destruct (keyword as_u64 kmin o) as [a|], (keyword as_u64 kmax o) as [b|]; try naive_solver.
  split.
  - intros (? & [? ->] & ? & [? ->] & Hf). rewrite fail_if_Ok, Z.ltb_ge in Hf. naive_solver.
  - intros (? & ? & Hab). do 2 (eexists; split; [by split|]). rewrite fail_if_Ok, Z.ltb_ge. auto.
Qed.
Lemma validate_numeric_bounds_Ok o : validate_numeric_bounds o = Ok () ↔ numeric_bounds_ok o.
Proof.
  unfold validate_numeric_bounds, numeric_bounds_ok. rewrite bind_Ok_iff.
  setoid_rewrite bind_Ok_iff. setoid_rewrite read_keyword_Ok.
  destruct (keyword as_f64 "minimum" o) as [a|], (keyword as_f64 "maximum" o) as [b|];
    try naive_solver.
  split.
  - intros (? & [? ->] & ? & [? ->] & Hf). rewrite fail_if_Ok in Hf. naive_solver.
  - intros (? & ? & Hab). do 2 (eexists; split; [by split|]). rewrite fail_if_Ok. auto.
Qed.

(** What the ownership checks say of one keyword. *)
Definition owned (t : JsonType) (k : string) : bool :=
  forallb (λ ko, negb (str_eq k ko.1) || str_eq (type_name t) ko.2) keyword_owners
  && (negb (str_eq k "minimum" || str_eq k "maximum")
      || (str_eq (type_name t) "number" || str_eq (type_name t) "integer")).

Lemma owned_table t :
  forallb (λ k, Bool.eqb (owned t k) (bool_decide (keyword_of t k))) schema_keywords = true.
Proof. by destruct t; vm_compute. Qed.
Lemma keyword_of_known t k : keyword_of t k → k ∈ schema_keywords.
Proof.
  intros [->|[->|Hk]]; [by apply (bool_decide_unpack _); vm_compute..|].
  assert (Ht : forallb (λ k, bool_decide (k ∈ schema_keywords)) (type_keywords t) = true)
    by (by destruct t; vm_compute).
  rewrite forallb_True in Ht. by apply Ht, bool_decide_eq_true in Hk.
Qed.
Lemma owned_spec t k : k ∈ schema_keywords ∧ owned t k = true ↔ keyword_of t k.
Proof.
  pose proof (owned_table t) as Ht. rewrite forallb_True in Ht. split.
  - intros [Hk Ho]. apply Ht, Bool.eqb_prop in Hk. rewrite Ho in Hk.
    by symmetry in Hk; apply bool_decide_eq_true in Hk.
  - intros Hk. pose proof (keyword_of_known _ _ Hk) as Hs. split; [done|].
    apply Ht, Bool.eqb_prop in Hs. rewrite Hs. by apply bool_decide_eq_true.
Qed.

Lemma validate_keyword_ownership_Ok (o : Map) t :
  validate_keyword_ownership o (type_name t) = Ok () ↔ ∀ k, k ∈ o.*1 → owned t k = true.
Proof.
  unfold validate_keyword_ownership, owned.
  rewrite bind_unit_Ok_iff, for_each_Ok, Forall_forall, fail_if_Ok.
  setoid_rewrite fail_if_Ok. setoid_rewrite andb_true_iff. setoid_rewrite forallb_True.
  setoid_rewrite andb_false_iff. setoid_rewrite negb_false_iff. split.
  - intros [Ho Hn] k Hk. apply contains_key_elem in Hk. split.
    + intros ko Hko. destruct (str_eq k ko.1) eqn:E; [|done]. apply str_eq_true in E as ->.
      destruct (Ho ko Hko) as [?|?]; [congruence|done].
    + destruct Hn as [[Hn1 Hn2]%orb_false_iff| ->]; [|by rewrite orb_true_r].
      destruct (str_eq k "minimum") eqn:E; [apply str_eq_true in E; congruence|].
      destruct (str_eq k "maximum") eqn:E'; [apply str_eq_true in E'; congruence|done].
  - intros Hall. split.
    + intros ko Hko. destruct (contains_key ko.1 o) eqn:Hc; [right|by left].
      apply contains_key_elem in Hc. destruct (Hall _ Hc) as [Hf _]. specialize (Hf ko Hko).
      by rewrite (proj2 (str_eq_true _ _) eq_refl) in Hf.
    + destruct (contains_key "minimum" o || contains_key "maximum" o) eqn:Hc; [right|by left].
      by apply orb_true_iff in Hc as [Hc|Hc]; apply contains_key_elem, Hall in Hc as [_ Hc].
Qed.

(** The keywords of an accepted object are those of its type. *)
Lemma keyword_checks_Ok (o : Map) t :
  for_each (λ kv, fail_if (negb (bool_decide (kv.1 ∈ schema_keywords)))
    (invalid ("unsupported schema keyword: " +:+ kv.1))) o = Ok () ∧
  validate_keyword_ownership o (type_name t) = Ok () ↔
  ∀ k, k ∈ o.*1 → keyword_of t k.
Proof.
  rewrite validate_keyword_ownership_Ok, for_each_Ok, Forall_forall.
  setoid_rewrite fail_if_Ok. setoid_rewrite negb_false_iff. setoid_rewrite bool_decide_eq_true.
  setoid_rewrite <-owned_spec. split.
  - intros [Hk Ho] k Hin. split; [|auto]. by apply list_elem_of_fmap in Hin as (kv & -> & ?); auto.
  - intros Hall. split; [|naive_solver]. intros kv Hkv. by apply Hall, list_elem_of_fmap_2.
Qed.

(** ** Budgets *)

Lemma sumZ_cons {A} (f : A → Z) x l : sumZ f (x :: l) = f x + sumZ f l.
Proof. done. Qed.
Lemma sumZ_nonneg {A} (f : A → Z) l : (∀ x, 0 <= f x) → 0 <= sumZ f l.
Proof. intros Hf. induction l as [|x l IH]; simpl; [lia|]. specialize (Hf x). lia. Qed.
Lemma tally_nonneg own n v : (∀ o, 0 <= own o) → 0 <= tally own n v.
Proof.
  intros Ho. revert v. induction n as [|n IH]; intros [| | | | |o]; simpl; try lia.
  specialize (Ho o). pose proof (sumZ_nonneg (tally own n) (children o) IH). lia.
Qed.
Lemma own_properties_nonneg o : 0 <= own_properties o.
Proof. unfold own_properties, vec_len. destruct (map_get _ _) as [[]|]; lia. Qed.
Lemma own_enum_nonneg o : 0 <= own_enum o.
Proof. unfold own_enum, vec_len. destruct (map_get _ _) as [[]|]; lia. Qed.

Definition within (b : SchemaBudget) : Prop :=
  0 <= budget_properties b <= 128 ∧ 0 <= budget_enum_values b <= 128.
Definition spend (b : SchemaBudget) (p e : Z) : SchemaBudget :=
  MkBudget (budget_properties b + p) (budget_enum_values b + e).
(** The budget after a schema node. *)
Definition spent (n : nat) (v : Value) (b : SchemaBudget) : SchemaBudget :=
  spend b (tally own_properties n v) (tally own_enum n v).

Lemma spend_spend b p e p' e' : spend (spend b p e) p' e' = spend b (p + p') (e + e').
Proof. unfold spend. simpl. f_equal; lia. Qed.
Lemma spend_0 b : spend b 0 0 = b.
Proof. destruct b. unfold spend. simpl. f_equal; lia. Qed.

Lemma checked_add_u64_Some a b c :
  checked_add_u64 a b = Some c ↔ a + b <= u64_max ∧ c = a + b.
Proof. unfold checked_add_u64. case_match eqn:E; rewrite ?Z.leb_le, ?Z.leb_gt in E; naive_solver lia. Qed.

(** [node f n]: [f] decides the grammar of [n] levels and charges the budget. *)
Definition charges (n : nat) (f : SchemaBudget → schema_result SchemaBudget) (v : Value) : Prop :=
  ∀ b b', within b → f b = Ok b' ↔ schema_ok n v ∧ b' = spent n v b ∧ within b'.

Lemma properties_loop_Ok n (f : Value → SchemaBudget → schema_result SchemaBudget) ps b b' :
  (∀ v, charges n (f v) v) → within b →
  try_fold (λ b (ns : string * Value),
      _ ← fail_if (unsafe_property_name ns.1)
            (invalid "schema property name is empty, oversized, or unsafe");
      f ns.2 b) b ps = Ok b' ↔
  (∀ ns, ns ∈ ps → unsafe_property_name ns.1 = false ∧ schema_ok n ns.2) ∧
  b' = spend b (sumZ (tally own_properties n) ps.*2) (sumZ (tally own_enum n) ps.*2) ∧ within b'.
Proof.
  intros Hf. revert b. induction ps as [|[k v] ps IH]; intros b Hb.
  - simpl. rewrite spend_0. split; [intros [= ->]|by intros (_ & -> & _)].
    split_and!; [|done..]. by intros ? ?%not_elem_of_nil.
  - rewrite fmap_cons, !sumZ_cons. cbn [try_fold fst snd].
    rewrite bind_Ok_iff. setoid_rewrite bind_unit_Ok_iff. setoid_rewrite fail_if_Ok.
    pose proof (tally_nonneg own_properties n v own_properties_nonneg).
    pose proof (tally_nonneg own_enum n v own_enum_nonneg).
    pose proof (sumZ_nonneg (tally own_properties n) ps.*2 (λ v, tally_nonneg _ n v own_properties_nonneg)).
    pose proof (sumZ_nonneg (tally own_enum n) ps.*2 (λ v, tally_nonneg _ n v own_enum_nonneg)).
    split.
    + intros (b1 & [Hk Hv] & Hps). apply Hf in Hv as (Hv & -> & Hb1); [|done].
      apply IH in Hps as (Hps & -> & Hb'); [|done]. unfold spent in *. rewrite spend_spend in *.
      split_and!; [|done..]. intros ns [->|?]%elem_of_cons; auto.
    + intros (Hall & -> & Hb'). destruct (Hall (k, v)) as [Hk Hv]; [by left|]. cbn [fst snd] in Hk, Hv.
      assert (Hb1 : within (spent n v b)).
      { revert Hb Hb'. unfold within, spent, spend. cbn [budget_properties budget_enum_values]. lia. }
      exists (spent n v b). split; [split; [done|]; by apply Hf|].
      apply IH; [done|]. unfold spent. rewrite spend_spend. split_and!; [|done..].
      intros ns ?. apply Hall. by right.
Qed.

Lemma check_required_step ps seen v s :
  check_required ps seen v = Ok s ↔
  ∃ k, v = VString k ∧ contains_key k ps = true ∧ k ∉ seen ∧ s = {[ k ]} ∪ seen.
Proof.
  unfold check_required. rewrite bind_Ok_iff.
  setoid_rewrite ok_or_Ok. setoid_rewrite bind_unit_Ok_iff. setoid_rewrite bind_unit_Ok_iff.
  setoid_rewrite fail_if_Ok. setoid_rewrite negb_false_iff. setoid_rewrite bool_decide_eq_false.
  destruct v; naive_solver.
Qed.
Lemma check_required_loop_Ok ps l seen :
  is_ok (try_fold (check_required ps) seen l) = true ↔
  ∃ names, l = VString <$> names ∧ NoDup names ∧
    ∀ k, k ∈ names → contains_key k ps = true ∧ k ∉ seen.
Proof.
  revert seen. induction l as [|v l IH]; intros seen; cbn [try_fold].
  - split; [|done]. intros _. exists []. split_and!; [done|constructor|].
    by intros ? ?%not_elem_of_nil.
  - rewrite is_ok_bind. setoid_rewrite check_required_step. setoid_rewrite IH. split.
    + intros (? & (k & -> & Hk & Hs & ->) & names & -> & Hnd & Hall).
      exists (k :: names). split_and!; [done| |].
      * constructor; [|done]. intros Hin. destruct (Hall k Hin). set_solver.
      * intros k' [->|Hin]%elem_of_cons; [done|]. destruct (Hall k' Hin). set_solver.
    + intros ([|k names] & Hl & Hnd & Hall); simplify_eq/=. apply NoDup_cons in Hnd as [Hk' Hnd].
      destruct (Hall k) as [? ?]; [by left|].
      exists ({[ k ]} ∪ seen). split; [by exists k|]. exists names. split_and!; [done..|].
      intros k' Hin. destruct (Hall k') as [? ?]; [by right|]. split; [done|]. set_solver.
Qed.
Lemma check_required_Ok o ps e :
  is_ok (required ← read_keyword o "required" as_array e;
         try_fold (check_required ps) ∅ (default [] required)) = true ↔ required_ok o ps.
Proof.
  unfold read_keyword, required_ok. destruct (map_get "required" o) as [v|]; simpl; [|naive_solver].
  destruct (as_array v) as [l|] eqn:Hv; simpl; cycle 1.
  { split; [done|]. intros Hr. destruct (Hr v) as (names & -> & _); done. }
  destruct v; simplify_eq/=. rewrite check_required_loop_Ok. split.
  - intros (names & -> & ? & Hall) ? [= <-]. exists names. split_and!; [done..|]. naive_solver.
  - intros Hr. destruct (Hr _ eq_refl) as (names & [= ->] & ? & Hall). exists names.
    split_and!; [done..|]. intros k Hk. split; [auto|]. set_solver.
Qed.

Lemma as_object_Some v (m : Map) : as_object v = Some m ↔ v = VObject m.
Proof. destruct v; naive_solver. Qed.
Lemma keyword_object_Some k (o ps : Map) :
  map_get k o ≫= as_object = Some ps ↔ map_get k o = Some (VObject ps).
Proof. rewrite bind_Some. setoid_rewrite as_object_Some. naive_solver. Qed.
Lemma as_string_Some v s : as_string v = Some s ↔ v = VString s.
Proof. destruct v; naive_solver. Qed.
Lemma keyword_string_Some k (o : Map) s :
  map_get k o ≫= as_string = Some s ↔ map_get k o = Some (VString s).
Proof. rewrite bind_Some. setoid_rewrite as_string_Some. naive_solver. Qed.
Lemma is_ok_true {E A} (r : result E A) : is_ok r = true ↔ ∃ a, r = Ok a.
Proof. destruct r; naive_solver. Qed.

Lemma validate_object_schema_Ok n f o depth b b' :
  (∀ v, charges n (f v (depth + 1)) v) → within b →
  validate_object_schema f o depth b = Ok b' ↔
  ∃ ps, map_get "properties" o = Some (VObject ps) ∧ required_ok o ps ∧
    (∀ ns, ns ∈ ps → unsafe_property_name ns.1 = false ∧ schema_ok n ns.2) ∧
    b' = spend b (vec_len ps + sumZ (tally own_properties n) ps.*2)
           (sumZ (tally own_enum n) ps.*2) ∧ within b'.
Proof.
  intros Hf Hb. unfold validate_object_schema. rewrite bind_Ok_iff.
  setoid_rewrite ok_or_Ok. setoid_rewrite keyword_object_Some. apply exist_proper. intros ps.
  rewrite bind_Ok_iff. setoid_rewrite ok_or_Ok. setoid_rewrite checked_add_u64_Some.
  setoid_rewrite bind_unit_Ok_iff. setoid_rewrite fail_if_Ok. setoid_rewrite Z.ltb_ge.
  pose proof (sumZ_nonneg (tally own_properties n) ps.*2 (λ v, tally_nonneg _ n v own_properties_nonneg)).
  pose proof (sumZ_nonneg (tally own_enum n) ps.*2 (λ v, tally_nonneg _ n v own_enum_nonneg)).
  assert (0 <= vec_len ps) by (unfold vec_len; lia).
  assert (Hloop : ∀ b1 b2, within b1 → _) by (intros b1 b2 Hb1;
    exact (properties_loop_Ok n (λ v, f v (depth + 1)) ps b1 b2 Hf Hb1)).
  unfold within, MAX_CONTRIBUTION_SCHEMA_PROPERTIES, u64_max in *.
  split.
  - intros (Hp & c & [_ ->] & Hc & Hrest).
    apply bind_Ok_iff in Hrest as (b2 & Hl & Hrest). apply Hloop in Hl as (Hall & -> & Hw); [|simpl; lia].
    apply bind_Ok_iff in Hrest as (r & Hr & Hrest). apply bind_Ok_iff in Hrest as (s & Hs & [= <-]).
    split_and!; [done| |done|..].
    1: { apply (check_required_Ok _ _ (invalid "required must be an array")), is_ok_true.
         exists s. by rewrite Hr. }
    1: unfold spend; simpl; f_equal; lia.
    all: unfold spend in *; simpl in *; lia.
  - intros (Hp & Hreq & Hall & -> & Hw). split; [done|].
    eexists. split; [split; [|done]|split].
    + unfold spend in Hw. simpl in Hw. lia.
    + unfold spend in Hw. simpl in Hw. lia.
    + apply (check_required_Ok _ _ (invalid "required must be an array")), is_ok_true in Hreq as (s & Hr).
      apply bind_Ok_iff in Hr as (r & Hr & Hs). rewrite bind_Ok_iff. eexists. split.
      { apply Hloop; [unfold spend in Hw; simpl in *; lia|]. split_and!; [done|done|..];
          unfold spend in *; simpl in *; lia. }
      rewrite Hr. simpl. rewrite Hs. simpl. unfold spend. simpl. do 2 f_equal; lia.
Qed.

Lemma as_array_Some v l : as_array v = Some l ↔ v = VArray l.
Proof. destruct v; naive_solver. Qed.
Lemma validate_enum_Ok o t b b' :
  within b →
  validate_enum o (type_name t) b = Ok b' ↔
  enum_ok t o ∧ b' = spend b 0 (own_enum o) ∧ within b'.
Proof.
  intros Hb. unfold validate_enum, enum_ok, own_enum.
  destruct (map_get "enum" o) as [v|]; simpl; cycle 1.
  { rewrite spend_0. split; [by intros [= <-]|by intros (_ & -> & _)]. }
  rewrite bind_Ok_iff. setoid_rewrite ok_or_Ok. setoid_rewrite as_array_Some.
  setoid_rewrite bind_unit_Ok_iff. setoid_rewrite bind_Ok_iff. setoid_rewrite ok_or_Ok.
  setoid_rewrite checked_add_u64_Some. setoid_rewrite bind_unit_Ok_iff. setoid_rewrite bind_unit_Ok_iff.
  setoid_rewrite fail_if_Ok. setoid_rewrite Z.ltb_ge. setoid_rewrite for_each_Ok.
  setoid_rewrite Forall_forall. setoid_rewrite fail_if_Ok. setoid_rewrite negb_false_iff.
  setoid_rewrite value_matches_type_name.
  unfold within, spend, MAX_CONTRIBUTION_SCHEMA_ENUM_VALUES, u64_max, vec_len in *. split.
  - intros (l & -> & Hne & c & [_ ->] & Hc & Hall & [= <-]). simpl. split_and!; try lia.
    + intros ? [= <-]. exists l. split_and!; [done| |done]. by destruct l.
    + f_equal; lia.
  - intros (Henum & -> & Hw). destruct (Henum _ eq_refl) as (l & -> & Hne & Hall). simpl in *.
    exists l. split_and!; [done|by destruct l|]. eexists. split_and!; [|done|lia|done|]; [lia|].
    do 2 f_equal; lia.
Qed.

(** ** Schema nodes *)

Lemma map_get_keyword_None k (o : Map) t :
  (∀ k, k ∈ o.*1 → keyword_of t k) → ¬ keyword_of t k → map_get k o = None.
Proof. intros Hall Hk. apply map_get_None. auto. Qed.

(** Only objects declare properties, and only arrays items. *)
Lemma properties_None o t :
  (∀ k, k ∈ o.*1 → keyword_of t k) → t ≠ TObject → map_get "properties" o = None.
Proof.
  intros Hall Ht. apply (map_get_keyword_None _ _ t); [done|]. unfold keyword_of.
  destruct t; simpl; set_solver.
Qed.
Lemma items_None o t :
  (∀ k, k ∈ o.*1 → keyword_of t k) → t ≠ TArray → map_get "items" o = None.
Proof.
  intros Hall Ht. apply (map_get_keyword_None _ _ t); [done|]. unfold keyword_of.
  destruct t; simpl; set_solver.
Qed.

Lemma unit_then_Ok {E A} (r : result E ()) (a b : A) :
  (_ ← r; Ok a) = Ok b ↔ r = Ok () ∧ b = a.
Proof. rewrite bind_unit_Ok_iff. naive_solver. Qed.

Lemma node_type_Ok n fuel o t depth b b1 :
  (∀ v, charges n (validate_schema_node fuel v (depth + 1)) v) → within b →
  (∀ k, k ∈ o.*1 → keyword_of t k) →
  match t with
  | TObject => validate_object_schema (validate_schema_node fuel) o depth b
  | TArray =>
      items ← ok_or (map_get "items" o) (invalid "array schema requires items");
      b ← validate_schema_node fuel items (depth + 1) b;
      _ ← validate_unsigned_bounds o "minItems" "maxItems";
      Ok b
  | TString => _ ← validate_unsigned_bounds o "minLength" "maxLength"; Ok b
  | TNumber | TInteger => _ ← validate_numeric_bounds o; Ok b
  | TBoolean | TNull => Ok b
  end = Ok b1 ↔
  type_ok (schema_ok n) t o ∧
  b1 = spend b (own_properties o + sumZ (tally own_properties n) (children o))
         (sumZ (tally own_enum n) (children o)) ∧ within b1.
Proof.
  intros Hchild Hb Hkw. unfold own_properties, children.
  pose proof (properties_None _ _ Hkw) as Hp. pose proof (items_None _ _ Hkw) as Hi.
  destruct t; rewrite ?Hp, ?Hi by done; simpl; rewrite ?spend_0, ?unit_then_Ok,
    ?validate_unsigned_bounds_Ok, ?validate_numeric_bounds_Ok;
    try (split; [intros [? ->]|intros (? & -> & _)]; done);
    try (split; [intros [= <-]|intros (_ & -> & _)]; done).
  - rewrite (validate_object_schema_Ok n) by done. split.
    + intros (ps & Hps & Hreq & Hall & -> & Hw). rewrite Hps, app_nil_r. naive_solver.
    + intros ((ps & Hps & Hreq & Hall) & Hb1 & Hw). rewrite Hps, app_nil_r in Hb1. naive_solver.
  - rewrite bind_Ok_iff. setoid_rewrite ok_or_Ok. setoid_rewrite bind_Ok_iff.
    setoid_rewrite unit_then_Ok. setoid_rewrite validate_unsigned_bounds_Ok. split.
    + intros (items & -> & b2 & (Hok & -> & Hw)%Hchild & Hbd & ->); [|done]. simpl.
      rewrite !Z.add_0_r. split; [|done]. by exists items.
    + intros ((items & Hit & Hok & Hbd) & -> & Hw). exists items. split; [done|].
      rewrite Hit in *. simpl in *. rewrite !Z.add_0_r in *. eexists. split; [by apply Hchild|done].
Qed.

#[local] Opaque validate_keyword_ownership validate_enum.
Lemma validate_schema_node_Ok n fuel depth v :
  (n ≤ fuel)%nat → depth = 9 - Z.of_nat n → charges n (validate_schema_node fuel v depth) v.
Proof.
  revert fuel depth v. induction n as [|n IH]; intros fuel depth v Hfuel -> b b' Hb.
  { destruct fuel; simpl; naive_solver. }
  destruct fuel as [|fuel]; [lia|]. cbn [validate_schema_node schema_ok].
  rewrite bind_unit_Ok_iff, fail_if_Ok, Z.ltb_ge, bind_Ok_iff.
  setoid_rewrite ok_or_Ok. setoid_rewrite as_object_Some. setoid_rewrite bind_unit_Ok_iff.
  setoid_rewrite bind_Ok_iff. setoid_rewrite ok_or_Ok. setoid_rewrite keyword_string_Some.
  setoid_rewrite bind_unit_Ok_iff. setoid_rewrite bind_unit_Ok_iff.
  setoid_rewrite fail_if_Ok. setoid_rewrite negb_false_iff. setoid_rewrite bind_Ok_iff.
  assert (Hchild : ∀ v, charges n (validate_schema_node fuel v (9 - Z.of_nat (S n) + 1)) v)
    by (intros v'; apply IH; lia).
  set (depth := 9 - Z.of_nat (S n)) in *.
  split.
  - intros (_ & o & -> & Hkeys & s & Htype & Hs & Hown & b1 & Hnode & Henum).
    destruct (json_type s) as [t|] eqn:Hjt; [|done]. apply json_type_Some in Hjt as ->.
    assert (Hkw : ∀ k, k ∈ o.*1 → keyword_of t k) by exact (proj1 (keyword_checks_Ok o t) (conj Hkeys Hown)).
    apply (node_type_Ok n) in Hnode as (Hok & -> & Hb1); [|done..].
    apply validate_enum_Ok in Henum as (He & -> & Hw); [|done].
    split; [by exists o, t|]. split; [|done]. unfold spent. simpl. rewrite spend_spend.
    f_equal; lia.
  - intros ((o & t & -> & Htype & Hkw & He & Hok) & -> & Hw).
    split; [unfold MAX_CONTRIBUTION_SCHEMA_DEPTH; lia|]. exists o. split; [done|].
    pose proof (proj2 (keyword_checks_Ok o t) Hkw) as [Hk Hown]. split; [done|].
    exists (type_name t). rewrite json_type_name. split_and!; [done..|].
    pose proof (sumZ_nonneg (tally own_enum n) (children o) (λ v, tally_nonneg _ n v own_enum_nonneg)).
    pose proof (own_enum_nonneg o).
    eexists. split.
    + apply (node_type_Ok n); [done..|]. split_and!; [done|done|..];
        unfold within, spent, spend in *; simpl in *; lia.
    + apply validate_enum_Ok; unfold within, spent, spend in *; simpl in *; [lia|].
      split_and!; [done| |lia..]. f_equal; lia.
Qed.
#[local] Transparent validate_keyword_ownership validate_enum.

#[local] Hint Extern 1 (no_panic _) => progress unfold invalid : panics.
Lemma validate_unsigned_bounds_no_panic o kmin kmax : no_panic (validate_unsigned_bounds o kmin kmax).
Proof.
  unfold validate_unsigned_bounds, read_keyword. repeat (panic_step || case_match).
Qed.
Lemma validate_numeric_bounds_no_panic o : no_panic (validate_numeric_bounds o).
Proof.
  unfold validate_numeric_bounds, read_keyword. repeat (panic_step || case_match).
Qed.
Lemma validate_keyword_ownership_no_panic o s : no_panic (validate_keyword_ownership o s).
Proof. unfold validate_keyword_ownership. repeat panic_step. Qed.
Lemma validate_enum_no_panic o s b : no_panic (validate_enum o s b).
Proof. unfold validate_enum. repeat (panic_step || case_match). Qed.
Lemma validate_object_schema_no_panic f o depth b :
  (∀ v b, no_panic (f v (depth + 1) b)) → no_panic (validate_object_schema f o depth b).
Proof.
  intros Hf. unfold validate_object_schema, check_required, read_keyword.
  repeat (panic_step || apply Hf || case_match).
Qed.
#[local] Hint Resolve validate_unsigned_bounds_no_panic validate_numeric_bounds_no_panic
  validate_keyword_ownership_no_panic validate_enum_no_panic : panics.

Lemma validate_schema_node_no_panic fuel v depth b :
  9 - depth <= Z.of_nat fuel → no_panic (validate_schema_node fuel v depth b).
Proof.
  revert v depth b. induction fuel as [|fuel IH]; intros v depth b Hd; cbn [validate_schema_node].
  - unfold MAX_CONTRIBUTION_SCHEMA_DEPTH. destruct (Z.ltb_spec 8 depth); [done|lia].
  - repeat panic_step. destruct (json_type _) as [[]|] eqn:Hjt; repeat panic_step.
    + apply validate_object_schema_no_panic. intros. apply IH. lia.
    + apply IH. lia.
    + match goal with H : fail_if _ _ = Ok _ |- _ => by apply fail_if_Ok in H end.
Qed.

(** A value that [BoundedJsonSchema_new] may accept. *)
Definition bounded_schema `{!SerdeToVec} (v : Value) : Prop :=
  (∃ encoded, to_vec v = Ok encoded ∧ vec_len encoded <= 65536) ∧ schema_ok 8 v ∧
  tally own_properties 8 v <= 128 ∧ tally own_enum 8 v <= 128.

Lemma schema_new_Ok `{!SerdeToVec} (v : Value) s :
  BoundedJsonSchema_new v = Ok s ↔ s = MkSchema v ∧ bounded_schema v.
Proof.
  unfold BoundedJsonSchema_new, bounded_schema. rewrite bind_Ok_iff.
  setoid_rewrite map_err_Ok. setoid_rewrite bind_unit_Ok_iff. setoid_rewrite fail_if_Ok.
  setoid_rewrite Z.ltb_ge. setoid_rewrite bind_Ok_iff.
  setoid_rewrite (validate_schema_node_Ok 8 schema_fuel 1 v ltac:(vm_compute; lia) eq_refl
    SchemaBudget_default _ ltac:(done)).
  pose proof (tally_nonneg own_properties 8 v own_properties_nonneg).
  pose proof (tally_nonneg own_enum 8 v own_enum_nonneg).
  unfold within, spent, spend, MAX_CONTRIBUTION_SCHEMA_BYTES. split.
  - intros (e & ? & ? & b & (? & -> & Hw) & [= <-]). cbn [budget_properties budget_enum_values] in Hw.
    simpl in Hw. naive_solver lia.
  - intros (-> & (e & ? & ?) & ? & ? & ?). exists e. split_and!; [done|lia|].
    eexists. split; [split_and!; [done|done|..]|done];
      cbn [budget_properties budget_enum_values SchemaBudget_default]; lia.
Qed.

(** C24: [BoundedJsonSchema::new] accepts exactly the values that encode to at
    most 64 KiB, follow the closed schema grammar with at most eight levels,
    and declare at most 128 properties and 128 enum values over all levels; a
    refusal is an error of its own, never the [unreachable!]. *)
Theorem schema_new_correct `{!SerdeToVec} (v : Value) :
  match BoundedJsonSchema_new v with
  | Ok s => s = MkSchema v ∧ bounded_schema v
  | Err (Failed _) => ¬ bounded_schema v
  | Err Panic => False
  end.
Proof.
  pose proof (schema_new_Ok v) as Hok.
  destruct (BoundedJsonSchema_new v) as [s|[e|]] eqn:E.
  - by apply Hok.
  - intros Hb. discriminate (proj2 (Hok _) (conj eq_refl Hb)).
  - revert E. change (no_panic (BoundedJsonSchema_new v)). unfold BoundedJsonSchema_new.
    repeat panic_step. by apply validate_schema_node_no_panic.
Qed.

(** ** Instances *)

(** What conforming asks, beside the type and the enum. *)
Definition conforms_type (t : JsonType) (o : Map) (v : Value) : Prop :=
  match t, v with
  | TObject, VObject fs => ∃ ps, map_get "properties" o = Some (VObject ps) ∧
      (∀ k c, (k, c) ∈ fs → contains_key k ps = true) ∧
      (∀ l k, map_get "required" o = Some (VArray l) → VString k ∈ l → contains_key k fs = true) ∧
      (∀ k c s, (k, c) ∈ fs → map_get k ps = Some s → conforms s c)
  | TArray, VArray l => ∃ items, map_get "items" o = Some items ∧
      length_within "minItems" "maxItems" o (vec_len l) ∧ ∀ c, c ∈ l → conforms items c
  | TString, VString s => length_within "minLength" "maxLength" o (vec_len (chars s))
  | (TNumber | TInteger), VNumber n => ∃ f, num_as_f64 n = Some f ∧ number_within o f
  | (TBoolean | TNull), _ => True
  | _, _ => False
  end.

Lemma conforms_iff o t v :
  map_get "type" o = Some (VString (type_name t)) →
  conforms (VObject o) v ↔ has_type t v ∧ enum_admits o v ∧ conforms_type t o v.
Proof.
  intros Ht. split.
  - inversion 1; simplify_eq/=; destruct t; try discriminate; simpl; split_and!; eauto 10.
  - destruct t; destruct v; simpl; intros (Hv & He & Hc);
      try done; try (by destruct Hv);
      repeat match goal with H : ∃ _, _ |- _ => destruct H | H : _ ∧ _ |- _ => destruct H end;
      simplify_eq/=; (econstructor; solve [eauto]).
Qed.

Lemma validate_length_bounds_Ok o n kmin kmax path :
  validate_length_bounds o n kmin kmax path = Ok () ↔ length_within kmin kmax o n.
Proof.
  unfold validate_length_bounds, length_within, keyword. rewrite fail_if_Ok, orb_false_iff.
  destruct (_ ≫= as_u64) as [a|], (map_get kmax o ≫= as_u64) as [b|]; simpl;
    rewrite ?Z.ltb_ge; naive_solver.
Qed.
Lemma enum_check_false o v :
  is_some_and (λ allowed, negb (existsb (λ a, Value_eqb a v) allowed))
    (map_get "enum" o ≫= as_array) = false ↔ enum_admits o v.
Proof.
  unfold enum_admits, keyword. destruct (_ ≫= as_array) as [l|]; simpl; [|naive_solver].
  rewrite negb_false_iff, existsb_True. naive_solver.
Qed.
Lemma number_check_false o f :
  is_some_and (λ minimum, SFltb f minimum) (map_get "minimum" o ≫= as_f64)
  || is_some_and (λ maximum, SFltb maximum f) (map_get "maximum" o ≫= as_f64) = false ↔
  number_within o f.
Proof.
  unfold number_within, keyword. rewrite orb_false_iff.
  destruct (map_get "minimum" o ≫= as_f64), (map_get "maximum" o ≫= as_f64); simpl; naive_solver.
Qed.

Lemma contains_key_get k (m : Map) : contains_key k m = true ↔ ∃ v, map_get k m = Some v.
Proof. unfold contains_key. destruct (map_get k m); naive_solver. Qed.

Lemma required_check_decides o fs path :
  decides
    match map_get "required" o ≫= as_array with
    | Some required =>
        for_each (λ name, fail_if (negb (contains_key name fs))
          (invalid (path +:+ " is missing required property " +:+ name))) (omap as_string required)
    | None => Ok ()
    end
    (∀ l k, map_get "required" o = Some (VArray l) → VString k ∈ l → contains_key k fs = true).
Proof.
  destruct (map_get "required" o ≫= as_array) as [l|] eqn:Hl.
  - apply bind_Some in Hl as (v & Hv & ->%as_array_Some). rewrite Hv.
    apply (decides_iff (∀ k, k ∈ omap as_string l → contains_key k fs = true)).
    + setoid_rewrite list_elem_of_omap. setoid_rewrite as_string_Some. naive_solver.
    + apply decides_for_each. intros k _. apply decides_fail_if, negb_false_iff.
  - apply (decides_iff True); [|apply decides_Ok]. split; [|done]. intros _ l k Hr. by rewrite Hr in Hl.
Qed.

(** The fields of an object are checked against the declared properties. *)
Lemma validate_object_instance_decides f n o ps fs path depth :
  map_get "properties" o = Some (VObject ps) →
  (∀ ns, ns ∈ ps → schema_ok n ns.2) →
  (∀ s v path, schema_ok n s → decides (f s v path (depth + 1)) (conforms s v)) →
  decides (validate_object_instance f o (VObject fs) path depth)
    (conforms_type TObject o (VObject fs)).
Proof.
  intros Hps Hok Hf. unfold validate_object_instance. rewrite Hps. simpl (ok_or _ _).
  apply (decides_iff ((∀ kc, kc ∈ fs → contains_key kc.1 ps = true) ∧
    (∀ l k, map_get "required" o = Some (VArray l) → VString k ∈ l → contains_key k fs = true) ∧
    (∀ kc, kc ∈ fs → ∀ s, map_get kc.1 ps = Some s → conforms s kc.2))).
  { simpl. rewrite Hps. split.
    - intros (Hk & Hr & Hc). exists ps. split_and!; [done| |done|].
      + intros k c Hkc. apply (Hk (k, c) Hkc).
      + intros k c s Hkc. apply (Hc (k, c) Hkc).
    - intros (? & [= <-] & Hk & Hr & Hc). split_and!; [|done|].
      + intros [k c] Hkc. by eapply Hk.
      + intros [k c] Hkc s Hs. by eapply Hc. }
  apply decides_bind.
  { split; [|auto with panics]. rewrite fail_with_Ok, find_None_iff.
    by setoid_rewrite negb_false_iff. }
  intros Hknown. apply decides_bind; [apply required_check_decides|]. intros _.
  apply decides_for_each. intros [k c] Hkc.
  pose proof (Hknown _ Hkc) as (s & Hs)%contains_key_get. simpl in *. rewrite Hs. simpl.
  apply (decides_iff (conforms s c)); [naive_solver|]. apply Hf. by apply (Hok (k, s)), map_get_In.
Qed.

Lemma array_items_decides (f : Value → Value → string → Z → schema_result ()) items l path depth P :
  (∀ v path, decides (f items v path depth) (P v)) →
  decides (for_each (λ ic, f items ic.2 (path +:+ "[" +:+ display (Z.of_nat ic.1) +:+ "]") depth)
             (imap pair l)) (∀ c, c ∈ l → P c).
Proof.
  intros Hf. apply (decides_iff (∀ ic, ic ∈ imap pair l → P ic.2)).
  - split.
    + intros Hall c Hc. apply list_elem_of_lookup in Hc as (i & Hi). apply (Hall (i, c)).
      apply list_elem_of_lookup. exists i. by rewrite list_lookup_imap, Hi.
    + intros Hall [i c] Hic. apply Hall. apply list_elem_of_lookup in Hic as (j & Hj).
      rewrite list_lookup_imap in Hj. apply fmap_Some in Hj as (c' & ? & [= -> ->]).
      by eapply list_elem_of_lookup_2.
  - by apply decides_for_each.
Qed.

Lemma validate_instance_node_decides n fuel schema v path depth :
  (n ≤ fuel)%nat → depth = 9 - Z.of_nat n → schema_ok n schema →
  decides (validate_instance_node fuel schema v path depth) (conforms schema v).
Proof.
  revert fuel schema v path depth.
  induction n as [|n IH]; intros fuel schema v path depth Hfuel -> Hs; [done|].
  destruct fuel as [|fuel]; [lia|]. destruct Hs as (o & t & -> & Htype & Hkw & _ & Hok).
  cbn [validate_instance_node as_object].
  rewrite (proj2 (Z.ltb_ge _ _)) by (unfold MAX_CONTRIBUTION_SCHEMA_DEPTH; lia).
  rewrite bind_fail_if_false. cbn [ok_or mbind result_bind]. rewrite Htype. cbn [ok_or mbind option_bind as_string result_bind].
  eapply decides_iff; [symmetry; by apply conforms_iff|]. rewrite json_type_name.
  apply decides_bind.
  { apply decides_fail_if. by rewrite negb_false_iff, value_matches_type_name. }
  intros Hv. apply decides_bind; [apply decides_fail_if, enum_check_false|]. intros _.
  assert (Hchild : ∀ s v path, schema_ok n s →
    decides (validate_instance_node fuel s v path (9 - Z.of_nat (S n) + 1)) (conforms s v))
    by (intros; apply IH; [lia..|done]).
  destruct t.
  - destruct Hv as (fs & ->), Hok as (ps & Hps & _ & Hall).
    eapply validate_object_instance_decides; [done| |done]. intros ns Hns. by apply Hall.
  - destruct Hv as (l & ->), Hok as (items & Hit & Hi & _). simpl (as_array _). simpl (ok_or _ _).
    cbn [mbind result_bind]. rewrite Hit.
    apply (decides_iff (length_within "minItems" "maxItems" o (vec_len l) ∧ ∀ c, c ∈ l → conforms items c)).
    { simpl. rewrite Hit. naive_solver. }
    apply decides_bind; [split; [apply validate_length_bounds_Ok|unfold validate_length_bounds; auto with panics]|].
    intros _. simpl (ok_or _ _). cbn [mbind result_bind]. by apply array_items_decides; auto.
  - destruct Hv as (s & ->). simpl. split; [apply validate_length_bounds_Ok|].
    unfold validate_length_bounds. auto with panics.
  - destruct Hv as (m & ->). simpl. destruct (num_as_f64 m) as [f|] eqn:Hf; [|by apply num_as_f64_total in Hf].
    simpl. apply (decides_iff (number_within o f)); [naive_solver|]. apply decides_fail_if, number_check_false.
  - destruct Hv as (m & -> & _). simpl. destruct (num_as_f64 m) as [f|] eqn:Hf; [|by apply num_as_f64_total in Hf].
    simpl. apply (decides_iff (number_within o f)); [naive_solver|]. apply decides_fail_if, number_check_false.
  - apply decides_Ok.
  - apply decides_Ok.
Qed.

Lemma validate_instance_decides (s : BoundedJsonSchema) v :
  schema_ok 8 (schema_value s) → decides (validate_instance s v) (conforms (schema_value s) v).
Proof.
  intros Hok. unfold validate_instance.
  by apply (validate_instance_node_decides 8); [vm_compute; lia| |].
Qed.

(** C23: a call value is checked against an accepted schema exactly: the check
    passes when the value conforms to the schema and fails with an error of its
    own otherwise; none of its [expect]s panics, and its depth limit never
    refuses a conforming value. *)
Theorem validate_instance_correct `{!SerdeToVec} (value v : Value) (s : BoundedJsonSchema) :
  BoundedJsonSchema_new value = Ok s →
  match validate_instance s v with
  | Ok _ => conforms value v
  | Err (Failed _) => ¬ conforms value v
  | Err Panic => False
  end.
Proof.
  intros Hs. apply schema_new_Ok in Hs as (-> & _ & Hok & _).
  destruct (validate_instance_decides (MkSchema value) v Hok) as [Hiff Hnp].
  destruct (validate_instance _ _) as [[]|[]]; [by apply Hiff| |done].
  intros Hc. by discriminate (proj2 Hiff Hc).
Qed.
End spec.
