(* ===== verification/Host.v ===== *)
(** * The host protocol

    Model of [crates/rho-extension-runtime/src/host.rs]: opaque host identifiers,
    the state machine of the synthetic echo host, and the heartbeat supervisor.
    Encoding and decoding a frame is [serde_json]'s; the byte bound around it is
    modelled.  The generated identifiers ([generate]) are inputs of the model. *)
From S2P Require Import Prelude Text Errors Ids.
#[local] Open Scope Z_scope.

Definition HOST_PROTOCOL_VERSION : Z := 1.
Definition MAX_HOST_FRAME_BYTES : Z := 64 * 1024.
Definition MAX_ECHO_PAYLOAD_BYTES : Z := 16 * 1024.

(** ** Identifiers *)

Definition validate_opaque_id (value name : string) : result ExtensionError string :=
  _ ← fail_if (str_is_empty value || (MAX_IDENTIFIER_BYTES <? str_len value))
        (ManifestValidation (name +:+ " must contain 1..=" +:+ display MAX_IDENTIFIER_BYTES +:+ " bytes"));
  _ ← fail_if (negb (forallb accepted (str_bytes value)))
        (ManifestValidation (name +:+ " contains invalid characters"));
  Ok value.

Record HostInstanceId := MkHostInstanceId { host_instance_str : string }.
#[global] Instance host_instance_str_inj : Inj (=) (=) host_instance_str.
Proof. intros [] []; simpl; congruence. Qed.
#[global] Instance HostInstanceId_eq_dec : EqDecision HostInstanceId.
Proof. solve_decision. Defined.
Record HostRequestId := MkHostRequestId { host_request_str : string }.
#[global] Instance HostRequestId_eq_dec : EqDecision HostRequestId.
Proof. solve_decision. Defined.
#[global] Instance HostRequestId_countable : Countable HostRequestId.
Proof. by apply (inj_countable' host_request_str MkHostRequestId); intros []. Defined.

Definition HostInstanceId_new (value : string) : result ExtensionError HostInstanceId :=
  MkHostInstanceId <$> validate_opaque_id value "host instance id".
Definition HostRequestId_new (value : string) : result ExtensionError HostRequestId :=
  MkHostRequestId <$> validate_opaque_id value "host request id".

(** ** Messages *)

Inductive HostMessage :=
| Hello (api_version : Z)
| Activate
| Echo (request_id : HostRequestId) (payload : string)
| Heartbeat
| Quiesce
| Dispose
| Cancel (request_id : HostRequestId).

Inductive HostProtocolErrorCode :=
| MalformedFrame | UnknownInstance | VersionMismatch | PayloadTooLarge
| InvalidStateTransition | Timeout | UnknownRequest | ModuleTooLarge | InvalidModule
| ForbiddenImport | MissingExport | InvalidExport | ResourceLimit | FuelExhausted | GuestTrap
| InvalidGuestOutput | InvalidBrokerStep | BrokerSequenceViolation | BrokerStepLimit
| BrokerResultLimit | GuestRejected | Cancelled.
#[global] Instance HostProtocolErrorCode_eq_dec : EqDecision HostProtocolErrorCode.
Proof. solve_decision. Defined.

Record HostProtocolError := MkHostError {
  host_error_code : HostProtocolErrorCode;
  host_error_message : option string
}.

Inductive HostResponse :=
| HostReady (api_version : Z)
| HostActivated
| EchoResult (request_id : HostRequestId) (payload : string)
| HeartbeatAck
| HostQuiesced
| HostDisposed
| HostError (error : HostProtocolError).

Record HostFrame := MkFrame { frame_instance_id : HostInstanceId; frame_message : HostMessage }.

(** [HostFrame::decode]; [from_slice] is [serde_json::from_slice], whose error is
    its message. *)
Definition HostFrame_decode (from_slice : list ascii → result string HostFrame)
    (bytes : list ascii) : result ExtensionError HostFrame :=
  _ ← fail_if (MAX_HOST_FRAME_BYTES <? Z.of_nat (length bytes))
        (ManifestValidation ("host frame exceeds " +:+ display MAX_HOST_FRAME_BYTES +:+ " bytes"));
  map_err ManifestParse (from_slice bytes).
Definition encode_host_frame (to_vec : HostFrame → result string (list ascii)) (frame : HostFrame)
    : result ExtensionError (list ascii) :=
  encoded ← map_err ManifestParse (to_vec frame);
  _ ← fail_if (MAX_HOST_FRAME_BYTES <? Z.of_nat (length encoded))
        (ManifestValidation ("host frame exceeds " +:+ display MAX_HOST_FRAME_BYTES +:+ " bytes"));
  Ok encoded.

(** ** The echo host *)

Module HostInstanceState.
Inductive t := Created | Ready | Active | Quiescing | Disposing | Disposed | Quarantined.
#[global] Instance t_eq_dec : EqDecision t.
Proof. solve_decision. Defined.
#[global] Instance t_debug : RustDebug t := λ s,
  match s with
  | Created => "Created" | Ready => "Ready" | Active => "Active" | Quiescing => "Quiescing"
  | Disposing => "Disposing" | Disposed => "Disposed" | Quarantined => "Quarantined"
  end.
End HostInstanceState.

Record SyntheticEchoHost := MkHost {
  host_id : HostInstanceId;
  host_state : HostInstanceState.t;
  host_negotiated_version : option Z;
  host_inflight : gmap HostRequestId string
}.

Definition with_instance_id (id : HostInstanceId) : SyntheticEchoHost :=
  MkHost id HostInstanceState.Created None ∅.

Definition invalid_state (s : HostInstanceState.t) : HostProtocolError :=
  MkHostError InvalidStateTransition (Some ("invalid transition from " +:+ debug s)).
Definition host_error (c : HostProtocolErrorCode) : HostProtocolError := MkHostError c None.

(** [self.state] is one of [ss]. *)
Definition state_in (h : SyntheticEchoHost) (ss : list HostInstanceState.t) : bool :=
  bool_decide (host_state h ∈ ss).

(** The state after the message and the answer; on an error the state is as it was. *)
Definition handle_message (h : SyntheticEchoHost) (message : HostMessage)
    : result HostProtocolError (SyntheticEchoHost * option HostResponse) :=
  let '(MkHost id state version inflight) := h in
  match message with
  | Hello api_version =>
      _ ← fail_if (negb (state_in h [HostInstanceState.Created])) (invalid_state state);
      _ ← fail_if (negb (api_version =? HOST_PROTOCOL_VERSION)) (host_error VersionMismatch);
      Ok (MkHost id HostInstanceState.Ready (Some api_version) inflight,
          Some (HostReady api_version))
  | Activate =>
      _ ← fail_if (negb (state_in h [HostInstanceState.Ready])) (invalid_state state);
      Ok (MkHost id HostInstanceState.Active version inflight, Some HostActivated)
  | Echo request_id payload =>
      _ ← fail_if (negb (state_in h [HostInstanceState.Active])) (invalid_state state);
      _ ← fail_if (MAX_ECHO_PAYLOAD_BYTES <? str_len payload) (host_error PayloadTooLarge);
      _ ← fail_if (bool_decide (is_Some (inflight !! request_id))) (host_error UnknownRequest);
      let inflight := <[request_id := payload]> inflight in
      let inflight := delete request_id inflight in
      Ok (MkHost id state version inflight, Some (EchoResult request_id payload))
  | Cancel request_id =>
      _ ← fail_if (negb (state_in h [HostInstanceState.Active; HostInstanceState.Quiescing]))
            (invalid_state state);
      _ ← fail_if (bool_decide (inflight !! request_id = None)) (host_error UnknownRequest);
      Ok (MkHost id state version (delete request_id inflight), None)
  | Heartbeat =>
      _ ← fail_if (state_in h [HostInstanceState.Disposed; HostInstanceState.Quarantined])
            (invalid_state state);
      Ok (h, Some HeartbeatAck)
  | Quiesce =>
      _ ← fail_if (negb (state_in h [HostInstanceState.Active; HostInstanceState.Ready]))
            (invalid_state state);
      Ok (MkHost id HostInstanceState.Quiescing version inflight, Some HostQuiesced)
  | Dispose =>
      _ ← fail_if (negb (state_in h [HostInstanceState.Ready; HostInstanceState.Active;
                                     HostInstanceState.Quiescing]))
            (invalid_state state);
      Ok (MkHost id HostInstanceState.Disposed version ∅, Some HostDisposed)
  end.

Definition handle_frame (h : SyntheticEchoHost) (frame : HostFrame)
    : result HostProtocolError (SyntheticEchoHost * option HostResponse) :=
  _ ← fail_if (negb (bool_decide (frame_instance_id frame = host_id h))) (host_error UnknownInstance);
  handle_message h (frame_message frame).

Definition quarantine (h : SyntheticEchoHost) : SyntheticEchoHost :=
  MkHost (host_id h) HostInstanceState.Quarantined (host_negotiated_version h) ∅.

(** One call on a host: a frame, whose error leaves the host as it was, or a
    forced quarantine. *)
Inductive HostCall := Frame (frame : HostFrame) | ForceQuarantine.
Definition host_call (h : SyntheticEchoHost) (c : HostCall) : SyntheticEchoHost :=
  match c with
  | Frame frame => match handle_frame h frame with Ok (h', _) => h' | Err _ => h end
  | ForceQuarantine => quarantine h
  end.

(** ** The heartbeat supervisor *)

(** Times and durations are nanoseconds. *)
Record HeartbeatSupervisor := MkSupervisor {
  last_ack : Z; heartbeat_interval : Z; heartbeat_timeout : Z; sup_quarantined : bool
}.
Definition supervisor_new_at (interval timeout now : Z) : HeartbeatSupervisor :=
  MkSupervisor now interval timeout false.
Definition record_ack_at (s : HeartbeatSupervisor) (now : Z) : HeartbeatSupervisor :=
  MkSupervisor now (heartbeat_interval s) (heartbeat_timeout s) (sup_quarantined s).
(** [checked_duration_since] is [None] when [now] is before the acknowledgement. *)
Definition should_quarantine_at (s : HeartbeatSupervisor) (now : Z) : bool :=
  negb (sup_quarantined s)
  && match (if last_ack s <=? now then Some (now - last_ack s) else None) with
     | Some elapsed => heartbeat_timeout s <? elapsed
     | None => false
     end.
Definition set_quarantined (s : HeartbeatSupervisor) : HeartbeatSupervisor :=
  MkSupervisor (last_ack s) (heartbeat_interval s) (heartbeat_timeout s) true.

(** ** Properties *)

(** How far a host has come; messages never take it back. *)
Definition state_rank (s : HostInstanceState.t) : Z :=
  match s with
  | HostInstanceState.Created => 0
  | HostInstanceState.Ready => 1
  | HostInstanceState.Active => 2
  | HostInstanceState.Quiescing => 3
  | HostInstanceState.Disposing => 4
  | HostInstanceState.Disposed => 5
  | HostInstanceState.Quarantined => 6
  end.

(** What holds of every host: no request is left in flight between calls, a
    version is negotiated in every live state after [Created], and the
    intermediate [Disposing] is never seen. *)
Record host_wf (h : SyntheticEchoHost) : Prop := {
  hw_inflight : host_inflight h = ∅;
  hw_version : host_negotiated_version h = None ∨ host_negotiated_version h = Some HOST_PROTOCOL_VERSION;
  hw_negotiated : 0 < state_rank (host_state h) < 6 → host_negotiated_version h = Some HOST_PROTOCOL_VERSION;
  hw_not_disposing : host_state h ≠ HostInstanceState.Disposing
}.

Lemma state_in_true h ss : state_in h ss = true ↔ host_state h ∈ ss.
Proof. apply bool_decide_eq_true. Qed.
Lemma state_in_false h ss : state_in h ss = false ↔ host_state h ∉ ss.
Proof. apply bool_decide_eq_false. Qed.

(** The states a message is accepted in, and the state it leads to. *)
Definition accepts (m : HostMessage) (s s' : HostInstanceState.t) : Prop :=
  match m with
  | Hello v => s = HostInstanceState.Created ∧ s' = HostInstanceState.Ready ∧ v = HOST_PROTOCOL_VERSION
  | Activate => s = HostInstanceState.Ready ∧ s' = HostInstanceState.Active
  | Echo _ payload => s = HostInstanceState.Active ∧ s' = s ∧ str_len payload <= 16384
  | Heartbeat => s ∉ [HostInstanceState.Disposed; HostInstanceState.Quarantined] ∧ s' = s
  | Quiesce => s ∈ [HostInstanceState.Active; HostInstanceState.Ready] ∧ s' = HostInstanceState.Quiescing
  | Dispose => s ∈ [HostInstanceState.Ready; HostInstanceState.Active; HostInstanceState.Quiescing] ∧
      s' = HostInstanceState.Disposed
  | Cancel _ => False
  end.
Definition answer (m : HostMessage) : HostResponse :=
  match m with
  | Hello v => HostReady v
  | Activate => HostActivated
  | Echo r payload => EchoResult r payload
  | Heartbeat => HeartbeatAck
  | Quiesce => HostQuiesced
  | Dispose => HostDisposed
  | Cancel _ => HostError (host_error UnknownRequest)
  end.

Lemma handle_message_Ok h m h' r :
  host_wf h → handle_message h m = Ok (h', r) →
  host_wf h' ∧ host_id h' = host_id h ∧ accepts m (host_state h) (host_state h') ∧ r = Some (answer m).
Proof.
  destruct h as [id state version inflight]. intros [Hi Hv Hn Hd] Hr. simpl in Hi, Hv, Hn, Hd. subst inflight.
  unfold handle_message in Hr. destruct m; result_inv Hr; injection Hr as <- <-;
    rewrite ?negb_false_iff, ?state_in_true, ?state_in_false in *; simpl in *.
  - apply list_elem_of_singleton in Hguard. bool_prop. subst. split_and!; try done. split; simpl; auto.
  - apply list_elem_of_singleton in Hguard. subst. done.
  - apply list_elem_of_singleton in Hguard. bool_prop. subst. rewrite delete_insert_id by apply lookup_empty. done.
  - done.
  - split_and!; try done. split; simpl; try done. intros _. apply Hn.
    rewrite !elem_of_cons, elem_of_nil in Hguard. destruct Hguard as [->|[->|[]]]; simpl; lia.
  - split_and!; try done. split; simpl; try done. intros _. apply Hn.
    rewrite !elem_of_cons, elem_of_nil in Hguard. destruct Hguard as [->|[->|[->|[]]]]; simpl; lia.
  - rewrite bool_decide_eq_false in Hguard0. by rewrite lookup_empty in Hguard0.
Qed.

Lemma accepts_rank m s s' :
  accepts m s s' → state_rank s <= state_rank s' ∧
    s ∉ [HostInstanceState.Disposed; HostInstanceState.Quarantined].
Proof.
  destruct m, s; simpl; intros Ha; try naive_solver; destruct s'; simpl;
    rewrite ?elem_of_cons, ?elem_of_nil in *; naive_solver lia.
Qed.

Lemma handle_frame_Ok h f h' r :
  host_wf h → handle_frame h f = Ok (h', r) →
  frame_instance_id f = host_id h ∧ host_wf h' ∧ host_id h' = host_id h ∧
  accepts (frame_message f) (host_state h) (host_state h') ∧ r = Some (answer (frame_message f)).
Proof.
  intros Hwf Hr. unfold handle_frame in Hr. apply bind_unit_Ok_iff in Hr as [Hg%fail_if_Ok Hr].
  bool_prop. split; [done|]. by apply handle_message_Ok.
Qed.

Lemma host_call_wf h c : host_wf h → host_wf (host_call h c) ∧ host_id (host_call h c) = host_id h.
Proof.
  intros Hwf. destruct c as [f|]; simpl.
  - destruct (handle_frame h f) as [[h' r]|e] eqn:Hf; [|done].
    by apply handle_frame_Ok in Hf as (_ & ? & ? & _).
  - split; [|done]. destruct Hwf as [Hi Hv Hn Hd]. split; simpl; [done|done|lia|done].
Qed.

Definition run_host (id : HostInstanceId) (calls : list HostCall) : SyntheticEchoHost :=
  foldl host_call (with_instance_id id) calls.

Lemma run_host_wf id calls : host_wf (run_host id calls) ∧ host_id (run_host id calls) = id.
Proof.
  induction calls as [|c calls IH] using rev_ind.
  - split; [split; simpl; [done|by left|lia|done]|done].
  - unfold run_host in *. rewrite foldl_app. simpl.
    destruct (host_call_wf (foldl host_call (with_instance_id id) calls) c) as [? Hid]; [apply IH|].
    split; [done|]. rewrite Hid. apply IH.
Qed.

(** The handshake that must have happened for a host to be in a state. *)
Definition handshake (id : HostInstanceId) (s : HostInstanceState.t) (calls : list HostCall) : Prop :=
  match s with
  | HostInstanceState.Ready =>
      ∃ c1 c2, calls = c1 ++ Frame (MkFrame id (Hello HOST_PROTOCOL_VERSION)) :: c2
  | HostInstanceState.Active =>
      ∃ c1 c2 c3, calls = c1 ++ Frame (MkFrame id (Hello HOST_PROTOCOL_VERSION))
                       :: c2 ++ Frame (MkFrame id Activate) :: c3
  | _ => True
  end.

Lemma handshake_snoc id s calls c : handshake id s calls → handshake id s (calls ++ [c]).
Proof.
  destruct s; simpl; try done.
  - intros (c1 & c2 & ->). exists c1, (c2 ++ [c]). by rewrite <-app_assoc.
  - intros (c1 & c2 & c3 & ->). exists c1, c2, (c3 ++ [c]).
    rewrite <-app_assoc. simpl. by rewrite <-app_assoc.
Qed.

Lemma run_host_handshake id calls : handshake id (host_state (run_host id calls)) calls.
Proof.
  induction calls as [|c calls IH] using rev_ind; [done|].
  destruct (run_host_wf id calls) as [Hwf Hid].
  unfold run_host in *. rewrite foldl_app. simpl. set (h := foldl _ _ calls) in *.
  destruct c as [[fid m]|]; simpl; [|done].
  destruct (handle_frame h (MkFrame fid m)) as [[h' r]|e] eqn:Hf; [|by apply handshake_snoc].
  apply handle_frame_Ok in Hf as (Hfid & _ & _ & Ha & _); [|done]. simpl in Hfid, Ha.
  rewrite Hid in Hfid. subst fid.
  destruct m; simpl in Ha.
  - destruct Ha as (_ & -> & ->). by exists calls, [].
  - destruct Ha as [Hs ->]. rewrite Hs in IH. destruct IH as (c1 & c2 & ->).
    exists c1, c2, []. by rewrite <-app_assoc.
  - destruct Ha as (_ & -> & _). by apply handshake_snoc.
  - destruct Ha as [_ ->]. by apply handshake_snoc.
  - by destruct Ha as [_ ->].
  - by destruct Ha as [_ ->].
  - done.
Qed.

(** whatever frames and quarantines a host has been sent, it keeps its identity
    and is well formed: nothing stays in flight, and every state after the handshake
    has the negotiated version; it is ready only after a [hello] with the protocol
    version and active only after an [activate] that followed, both addressed to it.
    It answers a frame only if it is addressed to it and the state accepts it, the
    state never goes back, and once disposed or quarantined it accepts none. *)
Theorem host_lifecycle (id : HostInstanceId) (calls : list HostCall) :
  let h := run_host id calls in
  host_wf h ∧ host_id h = id ∧ handshake id (host_state h) calls ∧
  ∀ f h' r, handle_frame h f = Ok (h', r) →
    frame_instance_id f = id ∧ accepts (frame_message f) (host_state h) (host_state h') ∧
    r = Some (answer (frame_message f)) ∧
    state_rank (host_state h) <= state_rank (host_state h') ∧
    host_state h ∉ [HostInstanceState.Disposed; HostInstanceState.Quarantined].
Proof.
  intros h. destruct (run_host_wf id calls) as [Hwf Hid]. fold h in Hwf, Hid.
  split_and!; [done|done|apply run_host_handshake|]. intros f h' r Hf.
  apply handle_frame_Ok in Hf as (Hfid & _ & _ & Ha & Hr); [|done].
  destruct (accepts_rank _ _ _ Ha). split_and!; congruence || done.
Qed.

Definition ex_instance : HostInstanceId := MkHostInstanceId "instance.a".
Definition ex_active_host : SyntheticEchoHost :=
  run_host ex_instance [Frame (MkFrame ex_instance (Hello 1)); Frame (MkFrame ex_instance Activate)].

Lemma host_lifecycle_witness :
  host_state ex_active_host = HostInstanceState.Active ∧
  state_rank (host_state ex_active_host) <= state_rank HostInstanceState.Disposed.
Proof.
  split; [reflexivity|].
  refine (proj1 (proj2 (proj2 (proj2 (proj2 (proj2 (proj2 (host_lifecycle ex_instance
    [Frame (MkFrame ex_instance (Hello 1)); Frame (MkFrame ex_instance Activate)])))
    (MkFrame ex_instance Dispose) (MkHost ex_instance HostInstanceState.Disposed (Some 1) ∅)
    (Some HostDisposed) _))))).
  vm_compute. reflexivity.
Defined.
