(* ===== verification/Digest.v ===== *)
(** * Package digests

    Model of [crates/rho-extension-runtime/src/digest.rs] and of the helper
    [sha256_hex] that [grant.rs] shares: a package digest is the hexadecimal
    SHA-256 of a stream in which every path and every file content is preceded
    by its length as eight little-endian bytes. *)
From S2P Require Import Prelude Text Errors External.
#[local] Open Scope Z_scope.

Record PackageDigest := MkPackageDigest { digest_str : string }.
#[global] Instance digest_str_inj : Inj (=) (=) digest_str.
Proof. intros [] []; simpl; congruence. Qed.
#[global] Instance PackageDigest_eq_dec : EqDecision PackageDigest.
Proof. solve_decision. Defined.
#[global] Instance PackageDigest_ord : RustOrd PackageDigest := rcmp_on digest_str.
#[global] Instance PackageDigest_ord_laws : RustOrdLaws PackageDigest.
Proof. apply rcmp_on_laws, _. Qed.

(** [(n as u64).to_le_bytes()], [k] bytes of it. *)
Fixpoint le_bytes (k : nat) (n : Z) : list ascii :=
  match k with
  | O => []
  | S k => byte_of (n mod 256) :: le_bytes k (n / 256)
  end.

(** What [hash_bytes] feeds to the hasher. *)
Definition hash_bytes (bytes : list ascii) : list ascii :=
  le_bytes 8 (Z.of_nat (length bytes)) ++ bytes.
Definition hash_stream (entries : list (list ascii * list ascii)) : list ascii :=
  entries ≫= λ e, hash_bytes e.1 ++ hash_bytes e.2.

Definition hex_encode (bytes : list ascii) : string := of_bytes (hex_bytes bytes).

Section digest.
Context `{Sha256}.

Definition from_inventory (entries : list (list ascii * list ascii)) : PackageDigest :=
  MkPackageDigest (hex_encode (sha256 (hash_stream entries))).

Definition sha256_hex (bytes : list ascii) : string := hex_encode (sha256 bytes).
End digest.

Definition PackageDigest_parse (value : string) : result string PackageDigest :=
  _ ← fail_if (negb (str_len value =? 64) || negb (forallb is_lower_hex (str_bytes value)))
        "package digest must be 64 lowercase hexadecimal characters";
  Ok (MkPackageDigest value).
(** [Deserialize] for [PackageDigest]. *)
Definition PackageDigest_deserialize (value : string) : result string PackageDigest :=
  PackageDigest_parse value.

(** ** Properties *)

Lemma le_bytes_length k n : length (le_bytes k n) = k.
Proof. revert n. induction k as [|k IH]; intros n; simpl; [done|by rewrite IH]. Qed.

Lemma le_bytes_inj k n m :
  0 <= n < 256 ^ Z.of_nat k → 0 <= m < 256 ^ Z.of_nat k → le_bytes k n = le_bytes k m → n = m.
Proof.
  revert n m. induction k as [|k IH]; intros n m Hn Hm.
  - change (256 ^ Z.of_nat 0) with 1 in *. lia.
  - rewrite Nat2Z.inj_succ, Z.pow_succ_r in Hn, Hm by lia. cbn [le_bytes]. intros Heq.
    injection Heq as Hb Ht. apply (f_equal code) in Hb.
    rewrite !code_byte_of in Hb by (apply Z.mod_pos_bound; lia).
    apply IH in Ht; [|split; [apply Z.div_pos|apply Z.div_lt_upper_bound]; lia..].
    pose proof (Z.div_mod n 256). pose proof (Z.div_mod m 256). lia.
Qed.

Definition u64_len (l : list ascii) : Prop := Z.of_nat (length l) <= u64_max.

Lemma hash_bytes_app_inj a b s t :
  u64_len a → u64_len b → hash_bytes a ++ s = hash_bytes b ++ t → a = b ∧ s = t.
Proof.
  unfold hash_bytes, u64_len, u64_max. intros Ha Hb. rewrite <-!app_assoc. intros Heq.
  apply app_inj_1 in Heq as [Hl Heq]; [|by rewrite !le_bytes_length].
  apply le_bytes_inj in Hl; [|change (256 ^ Z.of_nat 8) with (2 ^ 64); lia..].
  apply app_inj_1 in Heq; [done|lia].
Qed.
Lemma hash_bytes_nonempty a s : hash_bytes a ++ s ≠ [].
Proof. unfold hash_bytes. simpl. done. Qed.

Definition u64_entry (e : list ascii * list ascii) : Prop := u64_len e.1 ∧ u64_len e.2.

Lemma hash_stream_cons e es : hash_stream (e :: es) = hash_bytes e.1 ++ hash_bytes e.2 ++ hash_stream es.
Proof. unfold hash_stream. simpl. by rewrite <-app_assoc. Qed.

Lemma hash_stream_inj es es' :
  Forall u64_entry es → Forall u64_entry es' → hash_stream es = hash_stream es' → es = es'.
Proof.
  intros Hes. revert es'. induction Hes as [|[p c] es [Hp Hc] _ IH]; intros es' Hes'.
  - destruct Hes' as [|[p c] es' _ _]; [done|]. rewrite hash_stream_cons. intros Heq.
    by apply eq_sym, hash_bytes_nonempty in Heq.
  - destruct Hes' as [|[p' c'] es' [Hp' Hc'] Hes'].
    { rewrite hash_stream_cons. intros Heq. by apply hash_bytes_nonempty in Heq. }
    rewrite !hash_stream_cons. simpl. intros Heq.
    apply hash_bytes_app_inj in Heq as [-> Heq]; [|done..].
    apply hash_bytes_app_inj in Heq as [-> Heq]; [|done..]. f_equal. by apply IH.
Qed.

Section digest_props.
Context `{Sha256}.

Lemma hex_encode_inj l k : hex_encode l = hex_encode k → l = k.
Proof. intros Heq%(f_equal str_bytes). unfold hex_encode in Heq. rewrite !str_bytes_of_bytes in Heq. by apply hex_bytes_inj. Qed.

Lemma sha256_hex_parses l : PackageDigest_parse (sha256_hex l) = Ok (MkPackageDigest (sha256_hex l)).
Proof.
  unfold PackageDigest_parse, str_len, sha256_hex, hex_encode. rewrite str_bytes_of_bytes.
  rewrite hex_bytes_length, sha256_length.
  rewrite (proj2 (forallb_True _ _)); [done|]. apply Forall_forall, hex_bytes_lower.
Qed.

(** the digest of an inventory is well formed, and two different inventories
    with the same digest exhibit a SHA-256 collision: no file boundary, file
    name or content can be shifted into another inventory with the same stream. *)
Theorem from_inventory_binding (es es' : list (list ascii * list ascii)) :
  Forall u64_entry es → Forall u64_entry es' →
  from_inventory es = from_inventory es' →
  (PackageDigest_parse (digest_str (from_inventory es)) = Ok (from_inventory es)) ∧
  (es = es' ∨ (hash_stream es ≠ hash_stream es' ∧ sha256 (hash_stream es) = sha256 (hash_stream es'))).
Proof.
  intros Hes Hes' Heq. split; [apply sha256_hex_parses|].
  destruct (decide (hash_stream es = hash_stream es')) as [Hs|Hs].
  - left. by apply hash_stream_inj.
  - right. split; [done|]. apply (f_equal digest_str) in Heq. by apply hex_encode_inj.
Qed.
End digest_props.
