(* ===== verification/WasmHost.v ===== *)
(** * The Wasm plugin host

    Model of [crates/rho-extension-runtime/src/wasm_host.rs]: the admission of a
    module, the frames of the host protocol, the broker calls a guest yields in,
    and the cancellation of the request in flight.  [wasmtime] is a parameter, and
    so is the reading of a guest step from JSON; the call id is an input.

    A cancellation handle works on another thread.  The moments at which its calls
    can make a difference while the guest is being called are listed in
    [Interrupts]; at all other times a cancellation is an operation of its own. *)
From S2P Require Import Prelude Text Errors External Ids Digest Host Stateful.
#[local] Open Scope Z_scope.

Definition MAX_WASM_MODULE_BYTES : Z := 4 * 1024 * 1024.
Definition MAX_WASM_MEMORY_BYTES : Z := 2 * 1024 * 1024.
Definition MAX_WASM_TABLE_ELEMENTS : Z := 1024.
Definition DEFAULT_WASM_FUEL : Z := 1000000.
Definition MAX_PENDING_WASM_CANCELLATIONS : Z := 256.
Definition GUEST_ABI_V1 : Z := 1.
Definition GUEST_ABI_V2 : Z := 2.
Definition MAX_GUEST_STEP_BYTES : Z := 64 * 1024.
Definition MAX_GUEST_CONTRIBUTION_ENVELOPE_BYTES : Z := 384 * 1024.
Definition MAX_GUEST_CONTRIBUTION_RETURN_BYTES : Z := 1088 * 1024.
Definition MAX_GUEST_BROKER_STEPS : Z := 8.
Definition MAX_GUEST_BROKER_RESULT_BYTES : Z := 1024 * 1024.
Definition MAX_GUEST_BROKER_RESUME_BYTES : Z := 1536 * 1024.

(** ** wasmtime *)

Record WasmConfig := MkWasmConfig {
  wc_consume_fuel : bool;
  wc_epoch_interruption : bool;
  wc_memory64 : bool;
  wc_multi_memory : bool;
  wc_tail_call : bool;
  wc_simd : bool;
  wc_relaxed_simd : bool;
  wc_bulk_memory : bool;
  wc_max_wasm_stack : Z
}.
Record StoreLimits := MkLimits {
  sl_memory_size : Z;
  sl_table_elements : Z;
  sl_instances : Z;
  sl_tables : Z;
  sl_memories : Z;
  sl_trap_on_grow_failure : bool
}.
Inductive Trap := OutOfFuel | Interrupt | AllocationTooLarge | OtherTrap.
Inductive WasmtimeError := TrapError (t : Trap) | OtherError.
Inductive ValType := I32 | I64.
#[global] Instance ValType_eq_dec : EqDecision ValType.
Proof. solve_decision. Defined.
(** [catch_unwind(..)]. *)
Inductive unwound (A : Type) := Completed (a : A) | Unwound.
Arguments Completed {A} a.
Arguments Unwound {A}.

Inductive Extern (Memory Func : Type) :=
| ExternFunc (params results : list ValType) (f : Func)
| ExternMemory (m : Memory)
| ExternOther.
Arguments ExternFunc {Memory Func}.
Arguments ExternMemory {Memory Func}.
Arguments ExternOther {Memory Func}.

(** The [wasmtime] crate.  A [Store] holds the guest's memory and globals; a call
    is told whether the engine's epoch is advanced while it runs. *)
Class Wasmtime := {
  Engine : Type;
  Module : Type;
  Store : Type;
  Instance : Type;
  Memory : Type;
  Func : Type;
  Engine_new : WasmConfig → option Engine;
  Module_new : Engine → list ascii → unwound (option Module);
  module_imports : Module → list string;
  Store_new : Engine → StoreLimits → Store;
  set_fuel : Store → Z → option Store;
  set_epoch_deadline : Store → Z → Store;
  instantiate : Store → Module → unwound (result WasmtimeError (Store * Instance));
  get_export : Store → Instance → string → option (Extern Memory Func);
  call_func : Store → bool → Func → list Z → unwound (Store * result WasmtimeError Z);
  data_size : Store → Memory → Z;
  memory_read : Store → Memory → Z → Z → option (list ascii);
  memory_write : Store → Memory → Z → list ascii → option Store;
  (** A memory access is in bounds or fails; what is written is there. *)
  memory_read_law s m offset len : 0 <= offset → 0 <= len →
    if offset + len <=? data_size s m
    then ∃ bytes, memory_read s m offset len = Some bytes ∧ Z.of_nat (length bytes) = len
    else memory_read s m offset len = None;
  memory_write_law s m offset bytes : 0 <= offset →
    if offset + Z.of_nat (length bytes) <=? data_size s m
    then ∃ s', memory_write s m offset bytes = Some s'
               ∧ memory_read s' m offset (Z.of_nat (length bytes)) = Some bytes
    else memory_write s m offset bytes = None
}.

(** ** Guest steps *)

Section steps.
Context `{SerdeNumber}.

Inductive GuestStep :=
| BrokerRequestStep (call_id handle_id permission operation : string) (args : Value)
| CompleteStep (call_id : string) (result : Value)
| ErrorStep (call_id code : string).

Definition step_call_id (step : GuestStep) : string :=
  match step with
  | BrokerRequestStep call_id _ _ _ _ | CompleteStep call_id _ | ErrorStep call_id _ => call_id
  end.
Definition step_is_terminal (step : GuestStep) : bool :=
  match step with CompleteStep _ _ | ErrorStep _ _ => true | BrokerRequestStep _ _ _ _ _ => false end.
End steps.

(** [serde_json::from_str] for a [GuestStep], by its derived [Deserialize]. *)
Class GuestStepJson `{SerdeNumber} := guest_step_from_str : string → option GuestStep.

Section decode.
Context `{GuestStepJson}.

Definition brokered_permission (permission : string) : bool :=
  str_eq permission "project.fs.read" || str_eq permission "workspace.r.inspect"
  || str_eq permission "network.fetch".
(** [handle_id.strip_prefix("handle.")] is 64 lowercase hexadecimal digits. *)
Definition malformed_handle (handle_id : string) : bool :=
  let token := default "" (strip_prefix "handle." handle_id) in
  negb (str_len token =? 64) || negb (forallb is_lower_hex (str_bytes token)).
Definition malformed_name (name : string) : bool :=
  str_is_empty name || (128 <? str_len name)
  || negb (forallb (λ c, is_ascii_lowercase c || is_ascii_digit c || one_of ["."; "_"; "-"]%char c)
             (str_bytes name)).

Definition decode_guest_step (encoded expected_call_id : string) (maximum_terminal_bytes : Z)
    : result HostProtocolErrorCode GuestStep :=
  _ ← fail_if (maximum_terminal_bytes <? str_len encoded) PayloadTooLarge;
  step ← ok_or (guest_step_from_str encoded) InvalidBrokerStep;
  _ ← fail_if (negb (str_eq (step_call_id step) expected_call_id)) BrokerSequenceViolation;
  _ ← match step with
      | BrokerRequestStep _ handle_id permission operation args =>
          _ ← fail_if (MAX_GUEST_STEP_BYTES <? str_len encoded) PayloadTooLarge;
          fail_if (malformed_handle handle_id || negb (brokered_permission permission)
                   || malformed_name operation || negb (is_some (as_object args)))
            InvalidBrokerStep
      | CompleteStep _ _ => Ok ()
      | ErrorStep _ code =>
          _ ← fail_if (MAX_GUEST_STEP_BYTES <? str_len encoded) PayloadTooLarge;
          fail_if (malformed_name code) InvalidBrokerStep
      end;
  Ok step.
End decode.

(** [String::from_utf8]: the bytes are the encoding of Unicode scalar values. *)
Definition scalar_value (c : Z) : bool := (0 <=? c) && (c <? 1114112) && negb ((55296 <=? c) && (c <=? 57343)).
Definition from_utf8 (bytes : list ascii) : option string :=
  let cs := utf8_decode bytes in
  if forallb scalar_value cs && bool_decide (utf8_encode cs = bytes) then Some (of_bytes bytes) else None.

(** [format!("call.{n:016x}")]. *)
Definition call_id_of (n : Z) : string := "call." +:+ of_bytes (hex_bytes (rev (le_bytes 8 n))).

(** ** The host *)

Record WasmHostIdentity := MkHostIdentity {
  wi_project_id : ScopeId;
  wi_plugin_id : PluginId;
  wi_package_digest : PackageDigest;
  wi_activation_generation : ActivationGeneration;
  wi_host_instance_id : HostInstanceId
}.

Record GuestBrokerCallState := MkBrokerCall {
  bc_request_id : HostRequestId;
  bc_call_id : string;
  bc_call_id_numeric : Z;
  bc_steps : Z;
  bc_cumulative_result_bytes : Z;
  bc_last_step_digest : string
}.

Record CancellationState := MkCancellation {
  cs_active : option HostRequestId;
  cs_pending : gset HostRequestId;
  cs_cancelled : bool
}.
Definition CancellationState_new : CancellationState := MkCancellation None ∅ false.
Definition set_cancelled (b : bool) (c : CancellationState) : CancellationState :=
  MkCancellation (cs_active c) (cs_pending c) b.

(** [WasmCancellationHandle::cancel_inflight]; when it answers [true] it has also
    advanced the engine's epoch. *)
Definition cancel_inflight (request_id : HostRequestId) (c : CancellationState)
    : CancellationState * bool :=
  if negb (bool_decide (cs_active c = Some request_id)) then (c, false)
  else (set_cancelled true c, true).
Definition is_inflight (request_id : HostRequestId) (c : CancellationState) : bool :=
  bool_decide (cs_active c = Some request_id).

(** Requests cancelled while the guest is called: before the flag is looked at,
    before the epoch deadline is set, and while the guest runs. *)
Record Interrupts := MkInterrupts {
  before_check : list HostRequestId;
  before_deadline : list HostRequestId;
  while_running : list HostRequestId
}.
Definition undisturbed : Interrupts := MkInterrupts [] [] [].
Definition cancel_each (ids : list HostRequestId) (c : CancellationState) : CancellationState :=
  foldl (λ c id, (cancel_inflight id c).1) c ids.

Definition begin_request (request_id : HostRequestId) (c : CancellationState) : CancellationState * bool :=
  if bool_decide (request_id ∈ cs_pending c)
  then (MkCancellation (cs_active c) (cs_pending c ∖ {[request_id]}) false, false)
  else if is_some (cs_active c) then (set_cancelled false c, false)
  else (MkCancellation (Some request_id) (cs_pending c) false, true).
Definition finish_request (request_id : HostRequestId) (c : CancellationState) : CancellationState :=
  MkCancellation (if bool_decide (cs_active c = Some request_id) then None else cs_active c)
    (cs_pending c) false.

Definition protocol_error : HostProtocolErrorCode → HostProtocolError := host_error.

Section host.
Context `{Wasmtime} `{SerdeNumber} `{!SerdeToVec} `{!GuestStepJson} `{Sha256}.

Record GuestBrokerAbi := MkBrokerAbi { abi_begin : Func; abi_resume : Func; abi_cancel : Func }.
Record WasmRuntime := MkRuntime {
  rt_store : Store;
  rt_memory : Memory;
  rt_activate : Func;
  rt_echo : Func;
  rt_heartbeat : Func;
  rt_quiesce : Func;
  rt_dispose : Func;
  rt_broker : option GuestBrokerAbi
}.
Definition set_store (s : Store) (rt : WasmRuntime) : WasmRuntime :=
  MkRuntime s (rt_memory rt) (rt_activate rt) (rt_echo rt) (rt_heartbeat rt) (rt_quiesce rt)
    (rt_dispose rt) (rt_broker rt).

Record WasmPluginHost := MkWasmHost {
  wh_identity : WasmHostIdentity;
  wh_module_digest : PackageDigest;
  wh_runtime : option WasmRuntime;
  wh_state : HostInstanceState.t;
  wh_negotiated_version : option Z;
  wh_guest_abi_version : Z;
  wh_broker_call : option GuestBrokerCallState;
  wh_cancellation : CancellationState
}.
Definition set_runtime (rt : option WasmRuntime) (h : WasmPluginHost) : WasmPluginHost :=
  MkWasmHost (wh_identity h) (wh_module_digest h) rt (wh_state h) (wh_negotiated_version h)
    (wh_guest_abi_version h) (wh_broker_call h) (wh_cancellation h).
Definition set_state (s : HostInstanceState.t) (h : WasmPluginHost) : WasmPluginHost :=
  MkWasmHost (wh_identity h) (wh_module_digest h) (wh_runtime h) s (wh_negotiated_version h)
    (wh_guest_abi_version h) (wh_broker_call h) (wh_cancellation h).
Definition set_negotiated (v : Z) (h : WasmPluginHost) : WasmPluginHost :=
  MkWasmHost (wh_identity h) (wh_module_digest h) (wh_runtime h) (wh_state h) (Some v)
    (wh_guest_abi_version h) (wh_broker_call h) (wh_cancellation h).
Definition set_broker_call (b : option GuestBrokerCallState) (h : WasmPluginHost) : WasmPluginHost :=
  MkWasmHost (wh_identity h) (wh_module_digest h) (wh_runtime h) (wh_state h) (wh_negotiated_version h)
    (wh_guest_abi_version h) b (wh_cancellation h).
Definition set_cancellation (c : CancellationState) (h : WasmPluginHost) : WasmPluginHost :=
  MkWasmHost (wh_identity h) (wh_module_digest h) (wh_runtime h) (wh_state h) (wh_negotiated_version h)
    (wh_guest_abi_version h) (wh_broker_call h) c.

Abbreviation host_m A := (stateful WasmPluginHost HostProtocolError A).
Abbreviation code_m A := (stateful WasmPluginHost HostProtocolErrorCode A).

(** *** Admission of a module *)

Definition engine_config : WasmConfig :=
  MkWasmConfig true true false false false false false false (512 * 1024).
Definition build_engine : result HostProtocolError Engine :=
  ok_or (Engine_new engine_config) (protocol_error InvalidModule).
Definition prepare_store (s : Store) : result HostProtocolError Store :=
  s ← ok_or (set_fuel s DEFAULT_WASM_FUEL) (protocol_error ResourceLimit);
  Ok (set_epoch_deadline s 1).
Definition guest_limits : StoreLimits :=
  MkLimits MAX_WASM_MEMORY_BYTES MAX_WASM_TABLE_ELEMENTS 1 1 1 true.

Definition classify_wasmtime_error (e : WasmtimeError) (cancellation_requested : bool)
    : HostProtocolErrorCode :=
  match e with
  | TrapError OutOfFuel => FuelExhausted
  | TrapError Interrupt => if cancellation_requested then Cancelled else Timeout
  | TrapError AllocationTooLarge => ResourceLimit
  | TrapError OtherTrap => GuestTrap
  | OtherError => ResourceLimit
  end.

Definition typed_export (s : Store) (i : Instance) (params results : list ValType) (name : string)
    : result HostProtocolError Func :=
  match get_export s i name with
  | None => Err (protocol_error MissingExport)
  | Some (ExternFunc params' results' f) =>
      if bool_decide (params' = params ∧ results' = results) then Ok f
      else Err (protocol_error InvalidExport)
  | Some _ => Err (protocol_error InvalidExport)
  end.
Definition get_memory (s : Store) (i : Instance) (name : string) : option Memory :=
  match get_export s i name with Some (ExternMemory m) => Some m | _ => None end.

Definition bind_guest_abi (s : Store) (i : Instance) : result HostProtocolError WasmRuntime :=
  memory ← ok_or (get_memory s i "memory") (protocol_error MissingExport);
  activate ← typed_export s i [I32] [I32] "rho_activate";
  echo ← typed_export s i [I32; I32] [I64] "rho_echo";
  heartbeat ← typed_export s i [] [I32] "rho_heartbeat";
  quiesce ← typed_export s i [] [I32] "rho_quiesce";
  dispose ← typed_export s i [] [I32] "rho_dispose";
  let broker_export_count :=
    vec_len (List.filter (λ name, is_some (get_export s i name)) ["rho_begin"; "rho_resume"; "rho_cancel"]) in
  broker ← (if broker_export_count =? 0 then Ok None
            else if broker_export_count =? 3 then
              b ← typed_export s i [I32; I32] [I64] "rho_begin";
              r ← typed_export s i [I32; I32] [I64] "rho_resume";
              c ← typed_export s i [I32; I32] [I32] "rho_cancel";
              Ok (Some (MkBrokerAbi b r c))
            else Err (protocol_error InvalidExport));
  Ok (MkRuntime s memory activate echo heartbeat quiesce dispose broker).

(** [WasmPluginHost::from_bytes]; with [..._with_call_id_source] it differs in the
    source of call ids alone. *)
Definition from_bytes (identity : WasmHostIdentity) (module_bytes : list ascii)
    : result HostProtocolError WasmPluginHost :=
  _ ← fail_if (MAX_WASM_MODULE_BYTES <? vec_len module_bytes) (protocol_error ModuleTooLarge);
  engine ← build_engine;
  let module_digest := from_inventory [(str_bytes "guest-v1.wasm", module_bytes)] in
  module ← match Module_new engine module_bytes with
           | Completed (Some m) => Ok m
           | _ => Err (protocol_error InvalidModule)
           end;
  _ ← fail_if (negb (vec_is_empty (module_imports module))) (protocol_error ForbiddenImport);
  store ← prepare_store (Store_new engine guest_limits);
  instance ← match instantiate store module with
             | Unwound => Err (protocol_error GuestTrap)
             | Completed r => map_err (λ e, protocol_error (classify_wasmtime_error e false)) r
             end;
  runtime ← bind_guest_abi instance.1 instance.2;
  let guest_abi_version := if is_some (rt_broker runtime) then GUEST_ABI_V2 else GUEST_ABI_V1 in
  Ok (MkWasmHost identity module_digest (Some runtime) HostInstanceState.Created None
        guest_abi_version None CancellationState_new).

(** *** Calling the guest *)

Definition on_cancellation (f : CancellationState → CancellationState) (h : WasmPluginHost)
    : WasmPluginHost := set_cancellation (f (wh_cancellation h)) h.
(** [WasmPluginHost::fail] less the error. *)
Definition quarantined (h : WasmPluginHost) : WasmPluginHost :=
  set_state HostInstanceState.Quarantined
    (set_cancellation CancellationState_new (set_broker_call None (set_runtime None h))).
Definition fail {A} (code : HostProtocolErrorCode) : host_m A :=
  _ ← modify quarantined; throw (protocol_error code).
(** [return Err(invalid_state(self.state))]. *)
Definition refuse {A} : host_m A :=
  state ← gets wh_state; throw (invalid_state state).
Definition require_state (states : list HostInstanceState.t) : host_m () :=
  state ← gets wh_state; throw_if (negb (bool_decide (state ∈ states))) (invalid_state state).

(** [self.call_guest(|runtime| select(runtime).call(&mut runtime.store, args))];
    [None] is the [expect] on a runtime without broker exports. *)
Definition call_guest (interrupts : Interrupts) (select : WasmRuntime → option Func) (args : list Z)
    : host_m Z :=
  _ ← modify (on_cancellation (cancel_each (before_check interrupts)));
  cancelled ← gets (λ h, cs_cancelled (wh_cancellation h));
  if (cancelled : bool) then fail Cancelled else
  runtime ← gets wh_runtime;
  match runtime with
  | None => refuse
  | Some rt =>
      _ ← modify (on_cancellation (cancel_each (before_deadline interrupts)));
      match prepare_store (rt_store rt) with
      | Err _ => fail ResourceLimit
      | Ok store =>
          active ← gets (λ h, cs_active (wh_cancellation h));
          _ ← modify (on_cancellation (cancel_each (while_running interrupts)));
          let epoch_advanced := bool_decide (active ∈ Some <$> while_running interrupts) in
          match (match select rt with
                 | None => Unwound
                 | Some f => call_func store epoch_advanced f args
                 end) with
          | Completed (store, Ok value) => _ ← modify (set_runtime (Some (set_store store rt))); mret value
          | Completed (_, Err error) =>
              cancelled ← gets (λ h, cs_cancelled (wh_cancellation h));
              fail (classify_wasmtime_error error cancelled)
          | Unwound => fail GuestTrap
          end
      end
  end.

Definition require_success (status : Z) : host_m () :=
  if status =? 0 then mret () else fail GuestRejected.

(** A packed [i64] is a pointer in its upper and a length in its lower half. *)
Definition unpack (packed : Z) : Z * Z :=
  let packed := packed mod 2 ^ 64 in (Z.shiftr packed 32, Z.land packed (2 ^ 32 - 1)).
Definition read_guest_utf8 (packed maximum_bytes : Z) : code_m string :=
  let '(pointer, length) := unpack packed in
  _ ← throw_if (maximum_bytes <? length) PayloadTooLarge;
  runtime ← gets wh_runtime;
  match runtime with
  | None => throw InvalidStateTransition
  | Some rt =>
      end_ ← lift (ok_or (checked_add_u64 pointer length) InvalidGuestOutput);
      _ ← throw_if (data_size (rt_store rt) (rt_memory rt) <? end_) InvalidGuestOutput;
      bytes ← lift (ok_or (memory_read (rt_store rt) (rt_memory rt) pointer length) InvalidGuestOutput);
      lift (ok_or (from_utf8 bytes) InvalidGuestOutput)
  end.
Definition i32_max : Z := 2 ^ 31 - 1.
Definition write_guest_input (bytes : list ascii) (maximum_bytes : Z) : code_m () :=
  _ ← throw_if ((maximum_bytes <? vec_len bytes) || (i32_max <? vec_len bytes)) PayloadTooLarge;
  runtime ← gets wh_runtime;
  match runtime with
  | None => throw InvalidStateTransition
  | Some rt =>
      _ ← throw_if (data_size (rt_store rt) (rt_memory rt) <? vec_len bytes) InvalidGuestOutput;
      match memory_write (rt_store rt) (rt_memory rt) 0 bytes with
      | None => throw InvalidGuestOutput
      | Some store => modify (set_runtime (Some (set_store store rt)))
      end
  end.

(** *** Broker calls *)

Definition host_begin_request (request_id : HostRequestId) : host_m bool :=
  c ← gets wh_cancellation;
  _ ← modify (set_cancellation (begin_request request_id c).1);
  mret (begin_request request_id c).2.
Definition host_finish_request {E} (request_id : HostRequestId) : stateful WasmPluginHost E () :=
  modify (on_cancellation (finish_request request_id)).

Definition step_digest (encoded : string) : string := sha256_hex (str_bytes encoded).

Definition begin_broker_call_bounded (interrupts : Interrupts) (next_call_id : Z)
    (request_id : HostRequestId) (request : Value) (maximum_input_bytes maximum_return_bytes : Z)
    : host_m GuestStep :=
  state ← gets wh_state;
  abi ← gets wh_guest_abi_version;
  _ ← throw_if (negb (bool_decide (state = HostInstanceState.Active)) || negb (abi =? GUEST_ABI_V2))
        (invalid_state state);
  busy ← gets (λ h, is_some (wh_broker_call h));
  if (busy : bool) then fail BrokerSequenceViolation else
  admitted ← host_begin_request request_id;
  _ ← throw_if (negb admitted) (protocol_error Cancelled);
  let call_id := call_id_of next_call_id in
  input ← lift (map_err (λ _, protocol_error InvalidBrokerStep)
                  (to_vec (VObject [("call_id", VString call_id); ("request", request)])));
  if maximum_input_bytes <? vec_len input then
    _ ← host_finish_request request_id; throw (protocol_error PayloadTooLarge)
  else
  _ ← or_else (write_guest_input input maximum_input_bytes)
        (λ code, _ ← host_finish_request request_id; fail code);
  packed ← call_guest interrupts (λ rt, abi_begin <$> rt_broker rt) [0; vec_len input];
  encoded ← or_else (read_guest_utf8 packed maximum_return_bytes) fail;
  step ← or_else (lift (decode_guest_step encoded call_id maximum_return_bytes)) fail;
  _ ← (if step_is_terminal step then host_finish_request request_id
       else modify (set_broker_call
              (Some (MkBrokerCall request_id call_id next_call_id 1 0 (step_digest encoded)))));
  mret step.
Definition begin_broker_call (interrupts : Interrupts) (next_call_id : Z)
    (request_id : HostRequestId) (request : Value) : host_m GuestStep :=
  begin_broker_call_bounded interrupts next_call_id request_id request
    MAX_GUEST_STEP_BYTES MAX_GUEST_STEP_BYTES.
Definition begin_contribution_call (interrupts : Interrupts) (next_call_id : Z)
    (request_id : HostRequestId) (request : Value) : host_m GuestStep :=
  begin_broker_call_bounded interrupts next_call_id request_id request
    MAX_GUEST_CONTRIBUTION_ENVELOPE_BYTES MAX_GUEST_CONTRIBUTION_RETURN_BYTES.

Definition resume_broker_call_bounded (interrupts : Interrupts) (request_id : HostRequestId)
    (result : Value) (raw_result_bytes maximum_return_bytes : Z) : host_m GuestStep :=
  active ← gets wh_broker_call;
  match active with
  | None => fail BrokerSequenceViolation
  | Some active =>
      if negb (bool_decide (bc_request_id active = request_id)) then fail BrokerSequenceViolation else
      if MAX_GUEST_BROKER_STEPS <=? bc_steps active then fail BrokerStepLimit else
      match (total ← checked_add_u64 (bc_cumulative_result_bytes active) raw_result_bytes;
             if total <=? MAX_GUEST_BROKER_RESULT_BYTES then Some total else None) with
      | None => fail BrokerResultLimit
      | Some cumulative =>
          encoded_result ← lift (map_err (λ _, protocol_error InvalidBrokerStep) (to_vec result));
          if MAX_GUEST_BROKER_RESUME_BYTES <? vec_len encoded_result then fail BrokerResultLimit else
          _ ← or_else (write_guest_input encoded_result MAX_GUEST_BROKER_RESUME_BYTES) fail;
          packed ← call_guest interrupts (λ rt, abi_resume <$> rt_broker rt) [0; vec_len encoded_result];
          encoded ← or_else (read_guest_utf8 packed maximum_return_bytes) fail;
          step ← or_else (lift (decode_guest_step encoded (bc_call_id active) maximum_return_bytes)) fail;
          let digest := step_digest encoded in
          if negb (step_is_terminal step) && str_eq digest (bc_last_step_digest active)
          then fail BrokerSequenceViolation else
          _ ← (if step_is_terminal step
               then _ ← modify (set_broker_call None); host_finish_request request_id
               else modify (λ h, set_broker_call
                      ((λ active, MkBrokerCall (bc_request_id active) (bc_call_id active)
                          (bc_call_id_numeric active) (bc_steps active + 1) cumulative digest)
                         <$> wh_broker_call h) h));
          mret step
      end
  end.
Definition resume_broker_call (interrupts : Interrupts) (request_id : HostRequestId)
    (result : Value) (raw_result_bytes : Z) : host_m GuestStep :=
  resume_broker_call_bounded interrupts request_id result raw_result_bytes MAX_GUEST_STEP_BYTES.
Definition resume_contribution_call (interrupts : Interrupts) (request_id : HostRequestId)
    (result : Value) (raw_result_bytes : Z) : host_m GuestStep :=
  resume_broker_call_bounded interrupts request_id result raw_result_bytes
    MAX_GUEST_CONTRIBUTION_RETURN_BYTES.

(** [x as u32 as i32]. *)
Definition as_i32 (x : Z) : Z := let u := x mod 2 ^ 32 in if u <? 2 ^ 31 then u else u - 2 ^ 32.
Definition cancel_broker_call (interrupts : Interrupts) (request_id : HostRequestId) : host_m bool :=
  active ← gets wh_broker_call;
  match active with
  | None => mret false
  | Some active =>
      if negb (bool_decide (bc_request_id active = request_id)) then fail BrokerSequenceViolation else
      let numeric := bc_call_id_numeric active in
      status ← call_guest interrupts (λ rt, abi_cancel <$> rt_broker rt)
                 [as_i32 (Z.shiftr numeric 32); as_i32 numeric];
      _ ← require_success status;
      _ ← modify (set_broker_call None);
      _ ← host_finish_request request_id;
      mret true
  end.
(** [WasmPluginHost::quarantine_for_timeout]. *)
Definition quarantine_for_timeout : host_m bool :=
  state ← gets wh_state;
  if bool_decide (state = HostInstanceState.Disposed ∨ state = HostInstanceState.Quarantined)
  then mret false
  else _ ← modify quarantined; mret true.

(** *** Frames *)

Definition hello (api_version : Z) : host_m (option HostResponse) :=
  _ ← require_state [HostInstanceState.Created];
  _ ← throw_if (negb (api_version =? HOST_PROTOCOL_VERSION)) (protocol_error VersionMismatch);
  _ ← modify (set_negotiated api_version);
  _ ← modify (set_state HostInstanceState.Ready);
  mret (Some (HostReady api_version)).
Definition activate (interrupts : Interrupts) : host_m (option HostResponse) :=
  state ← gets wh_state;
  version ← gets wh_negotiated_version;
  _ ← throw_if (negb (bool_decide (state = HostInstanceState.Ready))
                || negb (bool_decide (version = Some HOST_PROTOCOL_VERSION))) (invalid_state state);
  abi ← gets wh_guest_abi_version;
  status ← call_guest interrupts (λ rt, Some (rt_activate rt)) [abi];
  _ ← require_success status;
  _ ← modify (set_state HostInstanceState.Active);
  mret (Some HostActivated).
Definition echo (interrupts : Interrupts) (request_id : HostRequestId) (payload : string)
    : host_m (option HostResponse) :=
  _ ← require_state [HostInstanceState.Active];
  _ ← throw_if (MAX_ECHO_PAYLOAD_BYTES <? str_len payload) (protocol_error PayloadTooLarge);
  admitted ← host_begin_request request_id;
  _ ← throw_if (negb admitted) (protocol_error Cancelled);
  let bytes := str_bytes payload in
  runtime ← gets wh_runtime;
  match runtime with
  | None => refuse
  | Some rt =>
      match memory_write (rt_store rt) (rt_memory rt) 0 bytes with
      | None => _ ← host_finish_request request_id; fail InvalidGuestOutput
      | Some store =>
          _ ← modify (set_runtime (Some (set_store store rt)));
          packed ← or_else (call_guest interrupts (λ rt, Some (rt_echo rt)) [0; vec_len bytes])
                     (λ error, _ ← host_finish_request request_id; throw error);
          _ ← host_finish_request request_id;
          response ← or_else (read_guest_utf8 packed MAX_ECHO_PAYLOAD_BYTES) fail;
          mret (Some (EchoResult request_id response))
      end
  end.
Definition heartbeat (interrupts : Interrupts) : host_m (option HostResponse) :=
  _ ← require_state [HostInstanceState.Active];
  status ← call_guest interrupts (λ rt, Some (rt_heartbeat rt)) [];
  _ ← require_success status;
  mret (Some HeartbeatAck).
Definition cancel_before_dispatch (request_id : HostRequestId) : host_m (option HostResponse) :=
  _ ← require_state [HostInstanceState.Active; HostInstanceState.Quiescing];
  c ← gets wh_cancellation;
  _ ← throw_if ((MAX_PENDING_WASM_CANCELLATIONS <=? Z.of_nat (size (cs_pending c)))
                && negb (bool_decide (request_id ∈ cs_pending c))) (protocol_error ResourceLimit);
  _ ← modify (set_cancellation
                (MkCancellation (cs_active c) ({[request_id]} ∪ cs_pending c) (cs_cancelled c)));
  mret None.
Definition quiesce (interrupts : Interrupts) : host_m (option HostResponse) :=
  _ ← require_state [HostInstanceState.Active; HostInstanceState.Ready];
  status ← call_guest interrupts (λ rt, Some (rt_quiesce rt)) [];
  _ ← require_success status;
  _ ← modify (set_state HostInstanceState.Quiescing);
  mret (Some HostQuiesced).
Definition dispose (interrupts : Interrupts) : host_m (option HostResponse) :=
  _ ← require_state [HostInstanceState.Ready; HostInstanceState.Active; HostInstanceState.Quiescing];
  _ ← modify (set_state HostInstanceState.Disposing);
  _ ← or_else (status ← call_guest interrupts (λ rt, Some (rt_dispose rt)) []; require_success status)
        (λ error, _ ← modify (set_runtime None); throw error);
  _ ← modify (set_runtime None);
  _ ← modify (set_broker_call None);
  _ ← modify (set_cancellation CancellationState_new);
  _ ← modify (set_state HostInstanceState.Disposed);
  mret (Some HostDisposed).

Definition handle_frame (interrupts : Interrupts) (frame : HostFrame) : host_m (option HostResponse) :=
  identity ← gets wh_identity;
  _ ← throw_if (negb (bool_decide (frame_instance_id frame = wi_host_instance_id identity)))
        (protocol_error UnknownInstance);
  state ← gets wh_state;
  _ ← throw_if (bool_decide (state = HostInstanceState.Disposed ∨ state = HostInstanceState.Quarantined))
        (invalid_state state);
  match frame_message frame with
  | Hello api_version => hello api_version
  | Activate => activate interrupts
  | Echo request_id payload => echo interrupts request_id payload
  | Heartbeat => heartbeat interrupts
  | Cancel request_id => cancel_before_dispatch request_id
  | Quiesce => quiesce interrupts
  | Dispose => dispose interrupts
  end.
End host.
