(* ===== verification/WasmHostProps.v ===== *)
(** * Properties of the Wasm plugin host

    Every operation succeeds, refuses without a trace but in the bookkeeping of
    cancellations, or quarantines the host; all that a host can reach keeps its
    invariant; a broker call is bounded in steps and bytes; a guest's output is
    read in bounds and accepted only when it is a well-formed step of this call. *)
From S2P Require Import Prelude Text Errors External Ids Digest Host Stateful WasmHost.
#[local] Open Scope Z_scope.

(** ** Cancellation *)

Lemma cancel_inflight_fst id c :
  (cancel_inflight id c).1
  = set_cancelled (bool_decide (cs_active c = Some id) || cs_cancelled c) c.
Proof. unfold cancel_inflight. destruct c as [a p b]; simpl. by case_bool_decide. Qed.
Lemma cancel_each_shape ids c :
  cancel_each ids c
  = set_cancelled (bool_decide (cs_active c ∈ Some <$> ids) || cs_cancelled c) c.
Proof.
  revert c. induction ids as [|id ids IH]; intros [a p b]; [done|].
  change (cancel_each (id :: ids) (MkCancellation a p b))
    with (cancel_each ids (cancel_inflight id (MkCancellation a p b)).1).
  rewrite cancel_inflight_fst, IH. unfold set_cancelled. cbn. f_equal.
  destruct b; [by rewrite !orb_true_r|rewrite !orb_false_r].
  rewrite <-bool_decide_or. apply bool_decide_ext. rewrite elem_of_cons. naive_solver.
Qed.

(** The flag is set for a request in flight only. *)
Definition flag_ok (c : CancellationState) : Prop := cs_cancelled c = true → is_Some (cs_active c).
Lemma cancel_each_active ids c : cs_active (cancel_each ids c) = cs_active c.
Proof. by rewrite cancel_each_shape. Qed.
Lemma cancel_each_pending ids c : cs_pending (cancel_each ids c) = cs_pending c.
Proof. by rewrite cancel_each_shape. Qed.
Lemma cancel_each_flag ids c : flag_ok c → flag_ok (cancel_each ids c).
Proof.
  rewrite cancel_each_shape. unfold flag_ok. cbn. intros Hf [Hd|Hd]%orb_prop; [|by apply Hf].
  apply bool_decide_eq_true, list_elem_of_fmap in Hd as (? & -> & _). done.
Qed.

Section host.
Context `{Wasmtime} `{SerdeNumber} `{!SerdeToVec} `{!GuestStepJson} `{Sha256}.
Implicit Types (h : WasmPluginHost) (rt : WasmRuntime) (c : CancellationState).

(** ** What an operation can leave behind *)


(** The guest has been called: its store has changed, and the request in flight
    may have been cancelled. *)
Definition called h h' : Prop := ∃ rt s c,
  wh_runtime h = Some rt ∧ h' = set_cancellation c (set_runtime (Some (set_store s rt)) h)
  ∧ cs_active c = cs_active (wh_cancellation h) ∧ cs_pending c = cs_pending (wh_cancellation h)
  ∧ (flag_ok (wh_cancellation h) → flag_ok c).
(** Nothing but the bookkeeping of cancellations has changed. *)
Definition refused h h' : Prop := ∃ c,
  h' = set_cancellation c h ∧ cs_active c = cs_active (wh_cancellation h)
  ∧ cs_pending c ⊆ cs_pending (wh_cancellation h) ∧ (flag_ok (wh_cancellation h) → flag_ok c).
Definition failed (h : WasmPluginHost) : HostProtocolError → WasmPluginHost → Prop :=
  λ _ h', h' = quarantined h.
Definition fails_closed (h : WasmPluginHost) : HostProtocolError → WasmPluginHost → Prop :=
  λ _ h', refused h h' ∨ h' = quarantined h.

Lemma refused_refl h : refused h h.
Proof. exists (wh_cancellation h). by destruct h. Qed.
Lemma called_quarantined h h' : called h h' → quarantined h' = quarantined h.
Proof. by intros (rt & s & c & _ & -> & _). Qed.

Lemma post_fail {A} code h (Q : A → WasmPluginHost → Prop) R :
  post (fail code) h Q R ↔ R (protocol_error code) (quarantined h).
Proof. unfold fail. by post_run. Qed.
Lemma post_refuse {A} h (Q : A → WasmPluginHost → Prop) R :
  post refuse h Q R ↔ R (invalid_state (wh_state h)) h.
Proof. unfold refuse. by post_run. Qed.
Lemma post_require_state states h Q R :
  post (require_state states) h Q R
  ↔ if bool_decide (wh_state h ∈ states) then Q () h else R (invalid_state (wh_state h)) h.
Proof. unfold require_state. post_run. by case_bool_decide. Qed.
Lemma post_finish {E} id h Q (R : E → WasmPluginHost → Prop) :
  post (host_finish_request id) h Q R ↔ Q () (on_cancellation (finish_request id) h).
Proof. unfold host_finish_request. by post_run. Qed.
Lemma post_begin_request id h Q R :
  post (host_begin_request id) h Q R
  ↔ Q (begin_request id (wh_cancellation h)).2
      (set_cancellation (begin_request id (wh_cancellation h)).1 h).
Proof. unfold host_begin_request. by post_run. Qed.

#[local] Hint Rewrite @post_fail @post_refuse @post_require_state @post_finish @post_begin_request : post.

(** A call of a guest that is present returns a value or quarantines the host. *)
Lemma call_guest_post I select args h rt :
  wh_runtime h = Some rt → post (call_guest I select args) h (λ _, called h) (failed h).
Proof.
  intros Hrt. unfold call_guest. post_run.
  destruct (cs_cancelled _) eqn:Hc; post_run; [done|].
  change (wh_runtime (on_cancellation _ h)) with (wh_runtime h). rewrite Hrt. post_run.
  destruct (prepare_store (rt_store rt)) as [st|e]; post_run; [|done].
  destruct (match select rt with Some f => _ | None => _ end) as [[s [v|e]]|];
    post_run; [|done..].
  exists rt, s. eexists. split_and!; [done|reflexivity|..]; unfold on_cancellation; cbn;
    rewrite ?cancel_each_active, ?cancel_each_pending; eauto using cancel_each_flag.
Qed.

(** ** The guest's memory *)

Lemma called_refl h rt : wh_runtime h = Some rt → called h h.
Proof.
  intros Hrt. exists rt, (rt_store rt), (wh_cancellation h). split_and!; [done| |done..].
  destruct h, rt; cbn in *; by simplify_eq.
Qed.
Lemma called_trans h1 h2 h3 : called h1 h2 → called h2 h3 → called h1 h3.
Proof.
  intros (rt & s & c & Hrt & -> & Ha & Hp & Hf) (rt' & s' & c' & Hrt' & -> & Ha' & Hp' & Hf').
  cbn in *. simplify_eq. exists rt, s', c'. split_and!; [done|done|congruence..|auto].
Qed.
Lemma called_runtime h h' : called h h' → ∃ rt, wh_runtime h' = Some rt.
Proof. intros (rt & s & c & _ & -> & _). by eexists. Qed.

Lemma write_guest_input_post bytes m h rt :
  wh_runtime h = Some rt →
  post (write_guest_input bytes m) h (λ _ h', called h h' ∧ vec_len bytes <= m) (λ _ h', h' = h).
Proof.
  intros Hrt. unfold write_guest_input. post_run.
  destruct (_ || _) eqn:Hlen; [done|]. post_run. rewrite Hrt. post_run.
  destruct (data_size _ _ <? _); [done|].
  destruct (memory_write _ _ _ _) as [s|]; post_run; [|done].
  apply orb_false_elim in Hlen as [Hlen _]. split; [|lia].
  exists rt, s, (wh_cancellation h). by destruct h.
Qed.

(** What is read is the stretch of memory the guest named, if it is within the
    memory, within the limit and UTF-8. *)
Definition output_of (rt : WasmRuntime) (packed maximum_bytes : Z) : result HostProtocolErrorCode string :=
  let '(pointer, length) := unpack packed in
  _ ← fail_if (maximum_bytes <? length) PayloadTooLarge;
  _ ← fail_if (data_size (rt_store rt) (rt_memory rt) <? pointer + length) InvalidGuestOutput;
  bytes ← ok_or (memory_read (rt_store rt) (rt_memory rt) pointer length) InvalidGuestOutput;
  ok_or (from_utf8 bytes) InvalidGuestOutput.

Lemma unpack_bounds packed :
  0 <= (unpack packed).1 < 2 ^ 32 ∧ 0 <= (unpack packed).2 < 2 ^ 32.
Proof.
  unfold unpack. cbn. pose proof (Z.mod_pos_bound packed (2 ^ 64) ltac:(lia)).
  change (2 ^ 32 - 1) with (Z.ones 32). rewrite Z.land_ones, Z.shiftr_div_pow2 by lia.
  split; [|apply Z.mod_pos_bound; lia].
  split; [apply Z.div_pos; lia|apply Z.div_lt_upper_bound; lia].
Qed.
Lemma read_guest_utf8_eq packed m h rt :
  wh_runtime h = Some rt → read_guest_utf8 packed m h = (h, output_of rt packed m).
Proof.
  intros Hrt. unfold read_guest_utf8, output_of.
  pose proof (unpack_bounds packed) as [Hp Hl]. destruct (unpack packed) as [pointer len]. cbn in Hp, Hl.
  unfold throw_if, fail_if, mbind, stateful_bind, result_bind, mret, stateful_ret, throw, lift, gets.
  destruct (m <? len); [done|]. rewrite Hrt.
  unfold checked_add_u64, u64_max. rewrite (proj2 (Z.leb_le _ _)) by lia. cbn [ok_or].
  destruct (_ <? pointer + len); [done|].
  destruct (memory_read _ _ _ _) as [bytes|]; [|done]. cbn [ok_or].
  by destruct (from_utf8 bytes).
Qed.
Lemma read_guest_utf8_post packed m h rt :
  wh_runtime h = Some rt →
  post (read_guest_utf8 packed m) h (λ s h', h' = h ∧ output_of rt packed m = Ok s) (λ _ h', h' = h).
Proof. intros Hrt. unfold post. rewrite (read_guest_utf8_eq _ _ _ _ Hrt). by destruct (output_of _ _ _). Qed.

(** ** Frames *)

(** What a frame that is answered does to a host. *)
Inductive frame_effect h : HostMessage → option HostResponse → WasmPluginHost → Prop :=
| HelloEffect :
    wh_state h = HostInstanceState.Created →
    frame_effect h (Hello HOST_PROTOCOL_VERSION) (Some (HostReady HOST_PROTOCOL_VERSION))
      (set_state HostInstanceState.Ready (set_negotiated HOST_PROTOCOL_VERSION h))
| ActivateEffect h' :
    wh_state h = HostInstanceState.Ready → called h h' →
    frame_effect h Activate (Some HostActivated) (set_state HostInstanceState.Active h')
| EchoEffect request_id payload reply h' :
    wh_state h = HostInstanceState.Active → str_len payload <= MAX_ECHO_PAYLOAD_BYTES →
    request_id ∉ cs_pending (wh_cancellation h) → cs_active (wh_cancellation h) = None →
    called (set_cancellation (begin_request request_id (wh_cancellation h)).1 h) h' →
    str_len reply <= MAX_ECHO_PAYLOAD_BYTES →
    frame_effect h (Echo request_id payload) (Some (EchoResult request_id reply))
      (on_cancellation (finish_request request_id) h')
| HeartbeatEffect h' :
    wh_state h = HostInstanceState.Active → called h h' →
    frame_effect h Heartbeat (Some HeartbeatAck) h'
| CancelEffect request_id :
    wh_state h = HostInstanceState.Active ∨ wh_state h = HostInstanceState.Quiescing →
    Z.of_nat (size ({[request_id]} ∪ cs_pending (wh_cancellation h))) <= MAX_PENDING_WASM_CANCELLATIONS →
    frame_effect h (Cancel request_id) None
      (on_cancellation (λ c, MkCancellation (cs_active c) ({[request_id]} ∪ cs_pending c) (cs_cancelled c)) h)
| QuiesceEffect h' :
    wh_state h = HostInstanceState.Active ∨ wh_state h = HostInstanceState.Ready → called h h' →
    frame_effect h Quiesce (Some HostQuiesced) (set_state HostInstanceState.Quiescing h')
| DisposeEffect :
    wh_state h = HostInstanceState.Ready ∨ wh_state h = HostInstanceState.Active
      ∨ wh_state h = HostInstanceState.Quiescing →
    frame_effect h Dispose (Some HostDisposed)
      (set_state HostInstanceState.Disposed
         (set_cancellation CancellationState_new (set_broker_call None (set_runtime None h)))).

(** The guest is loaded as long as the host is neither disposed of nor quarantined. *)
Definition loaded h : Prop :=
  wh_state h ≠ HostInstanceState.Disposed → wh_state h ≠ HostInstanceState.Quarantined →
  is_Some (wh_runtime h).

(** A request that is not admitted leaves only bookkeeping. *)
Lemma begin_request_refused id h :
  (begin_request id (wh_cancellation h)).2 = false →
  refused h (set_cancellation (begin_request id (wh_cancellation h)).1 h).
Proof.
  unfold begin_request. case_bool_decide; cbn.
  { intros _. eexists. split_and!; [reflexivity|done|cbn; set_solver|done]. }
  destruct (cs_active _) eqn:Ha; cbn; [|done]. intros _. eexists.
  split_and!; [reflexivity|cbn; congruence|done|]. intros _ [=].
Qed.
Lemma begin_request_admitted id c :
  (begin_request id c).2 = true →
  id ∉ cs_pending c ∧ cs_active c = None ∧ (begin_request id c).1 = MkCancellation (Some id) (cs_pending c) false.
Proof. unfold begin_request. case_bool_decide; cbn; [done|]. by destruct (cs_active c). Qed.
Lemma begin_finish_refused id c h :
  cs_active (wh_cancellation h) = None → c = MkCancellation (Some id) (cs_pending (wh_cancellation h)) false →
  refused h (set_cancellation (finish_request id c) h).
Proof.
  intros Ha ->. eexists. split_and!; [reflexivity| |done|]; unfold finish_request; cbn.
  - by rewrite bool_decide_eq_true_2.
  - intros _ [=].
Qed.

(** A call of the guest that must answer with status 0. *)
Lemma status_call_post I select args h0 h rt {A} (k : () → stateful WasmPluginHost HostProtocolError A)
    (Q : A → WasmPluginHost → Prop) R :
  wh_runtime h = Some rt → quarantined h = quarantined h0 → (∀ e, R e (quarantined h0)) →
  (∀ h', called h h' → post (k ()) h' Q R) →
  post (call_guest I select args) h (λ v h', post (require_success v ≫= k) h' Q R) R.
Proof.
  intros Hrt Hq HR HQ. eapply post_mono; [by eapply call_guest_post|..].
  - intros v h' Hc. post_run. unfold require_success. destruct (v =? 0); [by apply HQ|].
    post_run. by rewrite (called_quarantined h), Hq.
  - intros e h' ->. by rewrite Hq.
Qed.

Lemma output_of_len rt packed m s : output_of rt packed m = Ok s → str_len s <= m.
Proof.
  unfold output_of. pose proof (unpack_bounds packed) as [Hp Hl].
  destruct (unpack packed) as [pointer len]. cbn in Hp, Hl.
  rewrite bind_Ok_iff. intros (u & Hlen%fail_if_Ok & Hs).
  apply bind_Ok_iff in Hs as (u' & Hsize%fail_if_Ok & Hs). apply bind_Ok_iff in Hs as (bytes & Hr%ok_or_Ok & Hs).
  apply ok_or_Ok in Hs. unfold from_utf8 in Hs. destruct (_ && _); [|done]. injection Hs as <-.
  pose proof (memory_read_law (rt_store rt) (rt_memory rt) pointer len ltac:(lia) ltac:(lia)) as Hm.
  rewrite (proj2 (Z.leb_le _ _)) in Hm by lia. destruct Hm as (bs & Hbs & Hlenb).
  unfold str_len. rewrite str_bytes_of_bytes.
  rewrite Hr in Hbs. injection Hbs as ->. lia.
Qed.

Lemma loaded_in h (ss : list HostInstanceState.t) :
  loaded h → bool_decide (wh_state h ∈ ss) = true →
  HostInstanceState.Disposed ∉ ss → HostInstanceState.Quarantined ∉ ss → ∃ rt, wh_runtime h = Some rt.
Proof.
  intros Hl Hs%bool_decide_eq_true Hd Hq.
  destruct Hl as [rt Hrt]; [by intros E; rewrite E in Hs..|by exists rt].
Qed.

(** The frames a host takes on; the others are refused. *)
Definition acceptable h (m : HostMessage) : Prop :=
  match m with
  | Hello v => wh_state h = HostInstanceState.Created ∧ v = HOST_PROTOCOL_VERSION
  | Activate => wh_state h = HostInstanceState.Ready ∧ wh_negotiated_version h = Some HOST_PROTOCOL_VERSION
  | Echo id payload =>
      wh_state h = HostInstanceState.Active ∧ str_len payload <= MAX_ECHO_PAYLOAD_BYTES
      ∧ id ∉ cs_pending (wh_cancellation h) ∧ cs_active (wh_cancellation h) = None
  | Heartbeat => wh_state h = HostInstanceState.Active
  | Cancel id =>
      (wh_state h = HostInstanceState.Active ∨ wh_state h = HostInstanceState.Quiescing)
      ∧ (Z.of_nat (size (cs_pending (wh_cancellation h))) < MAX_PENDING_WASM_CANCELLATIONS
         ∨ id ∈ cs_pending (wh_cancellation h))
  | Quiesce => wh_state h = HostInstanceState.Active ∨ wh_state h = HostInstanceState.Ready
  | Dispose =>
      wh_state h = HostInstanceState.Ready ∨ wh_state h = HostInstanceState.Active
      ∨ wh_state h = HostInstanceState.Quiescing
  end.

Abbreviation frame_m := (stateful WasmPluginHost HostProtocolError (option HostResponse)).
(** A frame is refused or taken on; then it is answered, or quarantines the host. *)
Definition frame_error h (m : HostMessage) : HostProtocolError → WasmPluginHost → Prop := λ _ h',
  (¬ acceptable h m ∧ refused h h') ∨ (acceptable h m ∧ h' = quarantined h).
Definition frame_post h (m : HostMessage) (op : frame_m) : Prop :=
  post op h (λ r h', acceptable h m ∧ frame_effect h m r h') (frame_error h m).

Lemma refused_frame h m e : ¬ acceptable h m → frame_error h m e h.
Proof. intros Hn. left. split; [done|apply refused_refl]. Qed.

Lemma hello_post v h : frame_post h (Hello v) (hello v).
Proof.
  unfold frame_post, hello. post_run.
  case_bool_decide as Hs; [|apply refused_frame; cbn; set_solver]. post_run.
  destruct (v =? _) eqn:Hv; [|apply refused_frame; cbn; lia]. apply Z.eqb_eq in Hv as ->.
  assert (wh_state h = HostInstanceState.Created) by set_solver. split; [done|by apply HelloEffect].
Qed.
Lemma activate_post I h : loaded h → frame_post h Activate (activate I).
Proof.
  intros Hl. unfold frame_post, activate. post_run.
  destruct (_ || _) eqn:Hs.
  { apply refused_frame. cbn. intros [Es Ev]. by rewrite Es, Ev in Hs. }
  apply orb_false_elim in Hs as [Hs Hv]. apply negb_false_iff, bool_decide_eq_true in Hs, Hv.
  destruct Hl as [rt Hrt]; [by rewrite Hs..|]. post_run.
  eapply status_call_post; [done..|by right|]. intros h' Hc. post_run. split; [done|by apply ActivateEffect].
Qed.
(** A frame the guest answers with a status. *)
Lemma live_call_post I (ss : list HostInstanceState.t) select args (k : frame_m) h m :
  loaded h → HostInstanceState.Disposed ∉ ss → HostInstanceState.Quarantined ∉ ss →
  (acceptable h m ↔ wh_state h ∈ ss) →
  (∀ h', called h h' → wh_state h ∈ ss →
     post k h' (λ r h', acceptable h m ∧ frame_effect h m r h') (frame_error h m)) →
  frame_post h m (_ ← require_state ss; status ← call_guest I select args; _ ← require_success status; k).
Proof.
  intros Hl Hd Hq Hacc Hk. unfold frame_post. post_run.
  destruct (bool_decide _) eqn:Hs.
  2: { apply bool_decide_eq_false in Hs. apply refused_frame. by rewrite Hacc. }
  destruct (loaded_in h _ Hl Hs Hd Hq) as [rt Hrt]. apply bool_decide_eq_true in Hs.
  post_run. eapply status_call_post; [done..|right; by rewrite Hacc|]. intros h' Hc. by apply Hk.
Qed.
Lemma heartbeat_post I h : loaded h → frame_post h Heartbeat (heartbeat I).
Proof.
  intros Hl. apply live_call_post; [done|set_solver..|]. intros h' Hc Hs.
  assert (wh_state h = HostInstanceState.Active) by set_solver. split; [done|by apply HeartbeatEffect].
Qed.
Lemma quiesce_post I h : loaded h → frame_post h Quiesce (quiesce I).
Proof.
  intros Hl. apply live_call_post; [done|set_solver..|]. intros h' Hc Hs.
  assert (acceptable h Quiesce) by (cbn; set_solver). split; [done|by apply QuiesceEffect].
Qed.
Lemma cancel_post id h :
  Z.of_nat (size (cs_pending (wh_cancellation h))) <= MAX_PENDING_WASM_CANCELLATIONS →
  frame_post h (Cancel id) (cancel_before_dispatch id).
Proof.
  intros Hsize. unfold frame_post, cancel_before_dispatch. post_run.
  case_bool_decide as Hs; [|apply refused_frame; cbn; set_solver]. post_run.
  assert (wh_state h = HostInstanceState.Active ∨ wh_state h = HostInstanceState.Quiescing) as Hst by set_solver.
  destruct (_ && _) eqn:Hn.
  { apply andb_prop in Hn as [Hn Hi%negb_true_iff%bool_decide_eq_false]. apply refused_frame. cbn. naive_solver lia. }
  destruct (decide (id ∈ cs_pending (wh_cancellation h))) as [Hi|Hi].
  - split; [cbn; tauto|]. apply (CancelEffect h id); [done|].
    by replace ({[id]} ∪ cs_pending (wh_cancellation h)) with (cs_pending (wh_cancellation h)) by set_solver.
  - rewrite (bool_decide_eq_false_2 _ Hi), andb_true_r in Hn. apply Z.leb_gt in Hn.
    split; [cbn; tauto|]. apply (CancelEffect h id); [done|].
    rewrite size_union, size_singleton by set_solver. lia.
Qed.
Lemma dispose_post I h : loaded h → frame_post h Dispose (dispose I).
Proof.
  intros Hl. unfold frame_post, dispose. post_run.
  destruct (bool_decide _) eqn:Hs.
  2: { apply bool_decide_eq_false in Hs. apply refused_frame. cbn. set_solver. }
  destruct (loaded_in h _ Hl Hs) as [rt Hrt]; [set_solver..|]. apply bool_decide_eq_true in Hs.
  assert (acceptable h Dispose) as Hacc by (cbn; set_solver). post_run.
  eapply post_mono; [by eapply (call_guest_post _ _ _ _ rt)|..].
  - intros v h' (rt' & s & c & _ & -> & _). unfold require_success. destruct (v =? 0); post_run.
    + split; [done|]. by apply (DisposeEffect h).
    + by right.
  - intros e h' ->. post_run. by right.
Qed.
Lemma echo_post I id payload h : loaded h → frame_post h (Echo id payload) (echo I id payload).
Proof.
  intros Hl. unfold frame_post, echo. post_run.
  destruct (bool_decide _) eqn:Hs.
  2: { apply bool_decide_eq_false in Hs. apply refused_frame. cbn. set_solver. }
  destruct (loaded_in h _ Hl Hs) as [rt Hrt]; [set_solver..|]. apply bool_decide_eq_true in Hs. post_run.
  destruct (_ <? _) eqn:Hlen; [apply refused_frame; cbn; lia|]. apply Z.ltb_ge in Hlen. post_run.
  destruct (begin_request id (wh_cancellation h)).2 eqn:Hb; cbn [negb].
  2: { left. split; [|by apply begin_request_refused]. cbn. intros (_ & _ & Hid & Ha).
       unfold begin_request in Hb. by rewrite bool_decide_eq_false_2, Ha in Hb. }
  apply begin_request_admitted in Hb as (Hid & Ha & Hc). rewrite Hc. post_run.
  assert (acceptable h (Echo id payload)) as Hacc by (cbn; set_solver).
  change (wh_runtime (set_cancellation _ h)) with (wh_runtime h). rewrite Hrt.
  destruct (memory_write _ _ _ _) as [s|]; post_run; [|by right].
  eapply post_mono; [by eapply (call_guest_post _ _ _ _ (set_store s rt))|..].
  2: { intros e h' ->. post_run. by right. }
  intros packed h' Hcalled. post_run. destruct (called_runtime _ _ Hcalled) as [rt' Hrt'].
  eapply post_mono; [by eapply (read_guest_utf8_post _ _ _ rt')|..].
  - intros reply h'' [-> Hout]. post_run. split; [done|].
    apply EchoEffect; [by apply Hacc|done..| |by eapply output_of_len].
    rewrite Hc. eapply called_trans; [|exact Hcalled].
    exists rt, s. eexists. split_and!; [done|reflexivity|done..].
  - intros code h'' ->. post_run. right. split; [done|].
    change (quarantined (on_cancellation _ h')) with (quarantined h').
    by rewrite (called_quarantined _ _ Hcalled).
Qed.

(** ** Broker calls *)

(** What the guest may answer in a call: a terminal step, or a request for an
    operation with a handle of the right form. *)
Definition step_wf (encoded : string) (step : GuestStep) : Prop :=
  match step with
  | BrokerRequestStep _ handle_id permission operation args =>
      str_len encoded <= MAX_GUEST_STEP_BYTES ∧ malformed_handle handle_id = false
      ∧ brokered_permission permission = true ∧ malformed_name operation = false
      ∧ is_Some (as_object args)
  | CompleteStep _ _ => True
  | ErrorStep _ code => str_len encoded <= MAX_GUEST_STEP_BYTES ∧ malformed_name code = false
  end.
Lemma decode_guest_step_Ok encoded call_id m step :
  decode_guest_step encoded call_id m = Ok step
  ↔ str_len encoded <= m ∧ guest_step_from_str encoded = Some step
    ∧ step_call_id step = call_id ∧ step_wf encoded step.
Proof.
  unfold decode_guest_step.
  rewrite bind_unit_Ok_iff, fail_if_Ok, Z.ltb_ge. apply and_iff_compat_l.
  assert (Hwf : ∀ step, match step with
      | BrokerRequestStep _ handle_id permission operation args =>
          _ ← fail_if (MAX_GUEST_STEP_BYTES <? str_len encoded) PayloadTooLarge;
          fail_if (malformed_handle handle_id || negb (brokered_permission permission)
                   || malformed_name operation || negb (is_some (as_object args)))
            InvalidBrokerStep
      | CompleteStep _ _ => Ok ()
      | ErrorStep _ code =>
          _ ← fail_if (MAX_GUEST_STEP_BYTES <? str_len encoded) PayloadTooLarge;
          fail_if (malformed_name code) InvalidBrokerStep
      end = Ok () ↔ step_wf encoded step).
  { intros [id hd pm op args|id v|id cd]; cbn [step_wf]; [|done|].
    - rewrite bind_unit_Ok_iff, !fail_if_Ok, Z.ltb_ge, !orb_false_iff, !negb_false_iff, is_some_not_None,
        <-not_eq_None_Some. tauto.
    - by rewrite bind_unit_Ok_iff, !fail_if_Ok, Z.ltb_ge. }
  destruct (guest_step_from_str encoded) as [step'|]; [|naive_solver].
  change (ok_or (Some step') InvalidBrokerStep) with (Ok (E:=HostProtocolErrorCode) step').
  unfold mbind at 1, result_bind at 1.
  rewrite !bind_unit_Ok_iff, fail_if_Ok, negb_false_iff, Hwf. unfold str_eq. rewrite bool_decide_eq_true.
  naive_solver.
Qed.

(** The state a step of a broker call leaves: the call goes on as [b], or is over. *)
Definition after_step (step : GuestStep) (b : GuestBrokerCallState) h : WasmPluginHost :=
  if step_is_terminal step
  then on_cancellation (finish_request (bc_request_id b)) (set_broker_call None h)
  else set_broker_call (Some b) h.

Lemma refused_here h e : fails_closed h e h.
Proof. left. apply refused_refl. Qed.

Record begun (n : Z) (id : HostRequestId) h (step : GuestStep) (h' : WasmPluginHost) : Prop := {
  begun_state : wh_state h = HostInstanceState.Active;
  begun_abi : wh_guest_abi_version h = GUEST_ABI_V2;
  begun_free : wh_broker_call h = None;
  begun_pending : id ∉ cs_pending (wh_cancellation h);
  begun_active : cs_active (wh_cancellation h) = None;
  begun_call_id : step_call_id step = call_id_of n;
  begun_effect : ∃ h1 digest,
    called (set_cancellation (begin_request id (wh_cancellation h)).1 h) h1
    ∧ h' = after_step step (MkBrokerCall id (call_id_of n) n 1 0 digest) h1
}.

Context `{!SerdeToVecTotal}.

(** The answer of a guest, read and decoded. *)
Lemma answer_post {A} packed m call_id h rt (k : string → GuestStep → stateful WasmPluginHost HostProtocolError A) Q R :
  wh_runtime h = Some rt → (∀ e, R e (quarantined h)) →
  (∀ encoded step, step_call_id step = call_id → step_wf encoded step → post (k encoded step) h Q R) →
  post (encoded ← or_else (read_guest_utf8 packed m) fail;
        step ← or_else (lift (decode_guest_step encoded call_id m)) fail; k encoded step) h Q R.
Proof.
  intros Hrt HR HQ. post_run. eapply post_mono; [by eapply read_guest_utf8_post|..].
  - intros encoded h' [-> _]. post_run. destruct (decode_guest_step _ _ _) as [step|code] eqn:Hd; post_run; [|done].
    apply decode_guest_step_Ok in Hd as (_ & _ & Hid & Hwf). by apply HQ.
  - intros code h' ->. by post_run.
Qed.

Lemma begin_broker_call_post I n id request m_in m_ret h :
  loaded h →
  post (begin_broker_call_bounded I n id request m_in m_ret) h (begun n id h) (fails_closed h).
Proof.
  intros Hl. unfold begin_broker_call_bounded. post_run.
  destruct (_ || _) eqn:Hs; [apply refused_here|]. post_run.
  apply orb_false_elim in Hs as [Hs Habi].
  apply negb_false_iff, bool_decide_eq_true in Hs. apply negb_false_iff, Z.eqb_eq in Habi.
  destruct (is_some (wh_broker_call h)) eqn:Hb; post_run; [by right|]. apply is_some_false in Hb.
  destruct (begin_request id (wh_cancellation h)).2 eqn:Hr; cbn [negb]; post_run;
    [|left; by apply begin_request_refused].
  pose proof Hr as (Hid & Ha & Hc)%begin_request_admitted.
  destruct (to_vec_total (VObject [("call_id", VString (call_id_of n)); ("request", request)])) as [input ->].
  post_run. cbn [map_err].
  destruct (_ <? _); post_run; [left; exact (begin_finish_refused id _ h Ha Hc)|].
  destruct Hl as [rt Hrt]; [by rewrite Hs..|].
  eapply post_mono; [by eapply (write_guest_input_post _ _ _ rt)|..]; cbn beta.
  2: { intros code h' ->. post_run. by right. }
  intros _ h1 [Hw _]. post_run. destruct (called_runtime _ _ Hw) as [rt1 Hrt1].
  eapply post_mono; [by eapply call_guest_post|..].
  2: { intros e h' ->. right. by rewrite (called_quarantined _ _ Hw). }
  intros packed h2 Hcalled. destruct (called_runtime _ _ Hcalled) as [rt2 Hrt2].
  assert (Hc2 : called (set_cancellation (begin_request id (wh_cancellation h)).1 h) h2) by by eapply called_trans.
  eapply answer_post; [done|..].
  { intros e. right. by rewrite (called_quarantined _ _ Hc2). }
  intros encoded step Hstep Hwf. post_run.
  assert (begun n id h step (after_step step (MkBrokerCall id (call_id_of n) n 1 0 (step_digest encoded)) h2)) as Hbegun
    by by split; eauto.
  unfold after_step in Hbegun. destruct (step_is_terminal step); post_run; [|done].
  assert (set_broker_call None h2 = h2) as Hn; [|by rewrite Hn in Hbegun].
  destruct Hc2 as (rt' & s & c & _ & -> & _). unfold set_broker_call, set_cancellation, set_runtime.
  cbn. by rewrite Hb.
Qed.

Record resumed (id : HostRequestId) (raw : Z) h (step : GuestStep) (h' : WasmPluginHost) : Prop := {
  resumed_effect : ∃ b h1 digest,
    wh_broker_call h = Some b ∧ bc_request_id b = id ∧ bc_steps b < MAX_GUEST_BROKER_STEPS
    ∧ bc_cumulative_result_bytes b + raw <= MAX_GUEST_BROKER_RESULT_BYTES
    ∧ step_call_id step = bc_call_id b
    ∧ (step_is_terminal step = false → digest ≠ bc_last_step_digest b)
    ∧ called h h1
    ∧ h' = after_step step (MkBrokerCall id (bc_call_id b) (bc_call_id_numeric b) (bc_steps b + 1)
                              (bc_cumulative_result_bytes b + raw) digest) h1
}.

Lemma resume_broker_call_post I id result raw m_ret h :
  (∀ b, wh_broker_call h = Some b → is_Some (wh_runtime h)) →
  post (resume_broker_call_bounded I id result raw m_ret) h (resumed id raw h) (failed h).
Proof.
  intros Hl. unfold resume_broker_call_bounded. post_run.
  destruct (wh_broker_call h) as [b|] eqn:Hb; post_run; [|done].
  case_bool_decide as Hid; cbn [negb]; post_run; [|done].
  destruct (MAX_GUEST_BROKER_STEPS <=? bc_steps b) eqn:Hsteps; post_run; [done|]. apply Z.leb_gt in Hsteps.
  unfold checked_add_u64. destruct (_ + raw <=? u64_max); cbn; post_run; [|done].
  destruct (_ <=? MAX_GUEST_BROKER_RESULT_BYTES) eqn:Hraw; post_run; [|done]. apply Z.leb_le in Hraw.
  destruct (to_vec_total result) as [encoded ->]. cbn [map_err]. post_run.
  destruct (_ <? vec_len encoded); post_run; [done|].
  destruct (Hl b eq_refl) as [rt Hrt].
  eapply post_mono; [by eapply (write_guest_input_post _ _ _ rt)|..]; cbn beta.
  2: { intros code h' ->. by post_run. }
  intros _ h1 [Hw _]. post_run. destruct (called_runtime _ _ Hw) as [rt1 Hrt1].
  eapply post_mono; [by eapply call_guest_post|..].
  2: { intros e h' ->. unfold failed. by rewrite (called_quarantined _ _ Hw). }
  intros packed h2 Hcalled. destruct (called_runtime _ _ Hcalled) as [rt2 Hrt2].
  assert (Hc2 : called h h2) by by eapply called_trans.
  eapply answer_post; [done|..].
  { intros e. unfold failed. by rewrite (called_quarantined _ _ Hc2). }
  intros text step Hstep Hwf. post_run.
  destruct (negb (step_is_terminal step) && _) eqn:Hd; post_run.
  { unfold failed. by rewrite (called_quarantined _ _ Hc2). }
  assert (wh_broker_call h2 = Some b) as Hb2 by by destruct Hc2 as (? & ? & ? & _ & -> & _).
  assert (resumed id raw h step (after_step step (MkBrokerCall id (bc_call_id b) (bc_call_id_numeric b)
    (bc_steps b + 1) (bc_cumulative_result_bytes b + raw) (step_digest text)) h2)) as Hres.
  { split. exists b, h2, (step_digest text). split_and!; [done..| |done|done].
    intros Ht. rewrite Ht in Hd. cbn in Hd. by apply bool_decide_eq_false in Hd. }
  unfold after_step in Hres. destruct (step_is_terminal step); post_run; [done|].
  rewrite Hb2. cbn. by rewrite Hid.
Qed.

Lemma cancel_broker_call_post I id h :
  (∀ b, wh_broker_call h = Some b → is_Some (wh_runtime h)) →
  post (cancel_broker_call I id) h
    (λ answer h', if answer : bool
       then ∃ b h1, wh_broker_call h = Some b ∧ bc_request_id b = id ∧ called h h1
                    ∧ h' = on_cancellation (finish_request id) (set_broker_call None h1)
       else wh_broker_call h = None ∧ h' = h) (failed h).
Proof.
  intros Hl. unfold cancel_broker_call. post_run.
  destruct (wh_broker_call h) as [b|] eqn:Hb; post_run; [|done].
  case_bool_decide as Hid; cbn [negb]; post_run; [|done].
  destruct (Hl b eq_refl) as [rt Hrt].
  eapply post_mono; [by eapply call_guest_post|..]; [|done].
  intros status h1 Hc. post_run. unfold require_success. destruct (status =? 0); post_run.
  - by exists b, h1.
  - unfold failed. by rewrite (called_quarantined _ _ Hc).
Qed.

Lemma quarantine_for_timeout_post h :
  post quarantine_for_timeout h
    (λ answer h', if answer : bool
       then wh_state h ≠ HostInstanceState.Disposed ∧ wh_state h ≠ HostInstanceState.Quarantined
            ∧ h' = quarantined h
       else h' = h) (λ _ _, False).
Proof. unfold quarantine_for_timeout. post_run. case_bool_decide; post_run; [done|]. split_and!; [tauto..|done]. Qed.
End host.
