(* ===== verification/WasmHostInvariant.v ===== *)
(** * The invariant of the Wasm plugin host

    What a host can reach, whatever is asked of it and whatever its guest does, and
    what follows for a broker call: it ends after a bounded number of steps. *)
From S2P Require Import Prelude Text Errors External Ids Digest Host Stateful WasmHost WasmHostProps.
#[local] Open Scope Z_scope.

Section host.
Context `{Wasmtime} `{SerdeNumber} `{!SerdeToVec} `{!GuestStepJson} `{Sha256} `{!SerdeToVecTotal}.
Implicit Types (h : WasmPluginHost) (rt : WasmRuntime) (c : CancellationState).

Record host_ok h : Prop := {
  (** No operation leaves a host in the middle of a disposal. *)
  ok_settled : wh_state h ≠ HostInstanceState.Disposing;
  (** The guest is loaded exactly while the host lives. *)
  ok_runtime : is_Some (wh_runtime h)
    ↔ wh_state h ≠ HostInstanceState.Disposed ∧ wh_state h ≠ HostInstanceState.Quarantined;
  ok_abi rt : wh_runtime h = Some rt →
    wh_guest_abi_version h = if is_some (rt_broker rt) then GUEST_ABI_V2 else GUEST_ABI_V1;
  ok_version : wh_state h ∈ [HostInstanceState.Ready; HostInstanceState.Active; HostInstanceState.Quiescing] →
    wh_negotiated_version h = Some HOST_PROTOCOL_VERSION;
  (** The request in flight is that of the broker call. *)
  ok_active : cs_active (wh_cancellation h) = bc_request_id <$> wh_broker_call h;
  ok_call b : wh_broker_call h = Some b →
    wh_state h ∈ [HostInstanceState.Active; HostInstanceState.Quiescing]
    ∧ wh_guest_abi_version h = GUEST_ABI_V2
    ∧ 1 <= bc_steps b <= MAX_GUEST_BROKER_STEPS
    ∧ 0 <= bc_cumulative_result_bytes b <= MAX_GUEST_BROKER_RESULT_BYTES
    ∧ bc_call_id b = call_id_of (bc_call_id_numeric b);
  ok_flag : flag_ok (wh_cancellation h);
  ok_pending : Z.of_nat (size (cs_pending (wh_cancellation h))) <= MAX_PENDING_WASM_CANCELLATIONS
}.

Lemma host_ok_loaded h : host_ok h → loaded h.
Proof. intros Hok Hd Hq. by apply (ok_runtime h Hok). Qed.
Lemma host_ok_call_runtime h : host_ok h → ∀ b, wh_broker_call h = Some b → is_Some (wh_runtime h).
Proof.
  intros Hok b Hb. apply (ok_runtime h Hok). destruct (ok_call h Hok b Hb) as [Hs _].
  split; intros Hs'; rewrite Hs' in Hs; set_solver.
Qed.

Lemma from_bytes_ok identity bytes h : from_bytes identity bytes = Ok h → host_ok h.
Proof.
  unfold from_bytes. intros Hh.
  repeat match goal with Hh : (_ ≫= _) = Ok _ |- _ => apply bind_Ok_iff in Hh as (? & _ & Hh) end.
  injection Hh as <-. cbn. split; cbn; try done.
  - by intros rt [= <-].
  - intros Hin. set_solver.
Qed.

Lemma quarantined_ok h : host_ok (quarantined h).
Proof.
  split; cbn; try done.
  - split; [by intros [? ?]|naive_solver].
  - set_solver.
Qed.
Lemma refused_ok h h' : host_ok h → refused h h' → host_ok h'.
Proof.
  intros [] (c & -> & Ha & Hp & Hf). split; cbn; auto.
  - congruence.
  - apply subseteq_size in Hp. lia.
Qed.
Lemma fails_closed_ok h e h' : host_ok h → fails_closed h e h' → host_ok h'.
Proof. intros Hok [Hr| ->]; [by eapply refused_ok|apply quarantined_ok]. Qed.
Lemma called_ok h h' : host_ok h → called h h' → host_ok h'.
Proof.
  intros [] (rt & s & c & Hrt & -> & Ha & Hp & Hf). split; cbn; auto.
  - split; [intros _; apply ok_runtime0; by eexists|by eexists].
  - intros rt' [= <-]. by apply (ok_abi0 rt).
  - congruence.
  - by rewrite Hp.
Qed.
(** Moving on while alive. *)
Lemma set_state_ok h s :
  host_ok h → wh_state h ∈ [HostInstanceState.Ready; HostInstanceState.Active; HostInstanceState.Quiescing] →
  s ∈ [HostInstanceState.Active; HostInstanceState.Quiescing] → host_ok (set_state s h).
Proof.
  intros [] Hs Hs'. split; cbn; auto.
  - intros ->. set_solver.
  - split; [|intros _; apply ok_runtime0; split; intros E; rewrite E in Hs; set_solver].
    intros _. split; intros ->; set_solver.
  - intros b Hb. destruct (ok_call0 b Hb) as (_ & ?). by split.
Qed.

Lemma frame_effect_ok h m r h' : host_ok h → frame_effect h m r h' → host_ok h'.
Proof.
  intros Hok He. destruct He as [Hs|h' Hs Hc|id payload reply h' Hs _ Hid Ha Hc _|h' Hs Hc|id Hs Hsize|h' Hs Hc|Hs].
  - destruct Hok. split; cbn; auto; try done.
    + rewrite ok_runtime0, Hs. naive_solver.
    + intros b Hb. destruct (ok_call0 b Hb) as (Hin & _). rewrite Hs in Hin. set_solver.
  - apply set_state_ok; [by eapply called_ok| |set_solver].
    destruct Hc as (? & ? & ? & _ & -> & _). cbn. rewrite Hs. set_solver.
  - unfold begin_request in Hc. rewrite bool_decide_eq_false_2, Ha in Hc by done.
    destruct Hc as (rt & s & c & Hrt & -> & Ha' & Hp & Hf). cbn in *.
    destruct Hok. split; cbn; auto.
    + split; [intros _; apply ok_runtime0; by eexists|by eexists].
    + intros rt' [= <-]. by apply (ok_abi0 rt).
    + rewrite Ha', bool_decide_eq_true_2 by done. congruence.
    + intros [=].
    + by rewrite Hp.
  - by eapply called_ok.
  - destruct Hok. split; cbn; auto.
  - apply set_state_ok; [by eapply called_ok| |set_solver].
    destruct Hc as (? & ? & ? & _ & -> & _). cbn. destruct Hs as [-> | ->]; set_solver.
  - split; cbn; try done; [naive_solver|set_solver].
Qed.

(** The host with no request in flight. *)
Definition idle h : WasmPluginHost :=
  set_broker_call None (on_cancellation (λ c, MkCancellation None (cs_pending c) false) h).
Lemma idle_ok h : host_ok h → host_ok (idle h).
Proof. intros []. split; cbn; auto; [done|intros [=]]. Qed.
Lemma idle_called c h h' :
  called (set_cancellation c h) h' → cs_pending c = cs_pending (wh_cancellation h) →
  host_ok h → host_ok (idle h').
Proof.
  intros (rt & s & c' & Hrt & -> & Ha & Hp & Hf) Hpc Hok. cbn in *.
  assert (called h (set_runtime (Some (set_store s rt)) h)) as Hc.
  { exists rt, s, (wh_cancellation h). by destruct h. }
  pose proof (idle_ok _ (called_ok _ _ Hok Hc)) as Hi. unfold idle, on_cancellation in *. cbn in *.
  rewrite Hp, Hpc. exact Hi.
Qed.

Lemma after_step_ok h step b :
  host_ok (idle h) →
  wh_state h ∈ [HostInstanceState.Active; HostInstanceState.Quiescing] →
  wh_guest_abi_version h = GUEST_ABI_V2 → cs_active (wh_cancellation h) = Some (bc_request_id b) →
  1 <= bc_steps b <= MAX_GUEST_BROKER_STEPS →
  0 <= bc_cumulative_result_bytes b <= MAX_GUEST_BROKER_RESULT_BYTES →
  bc_call_id b = call_id_of (bc_call_id_numeric b) → host_ok (after_step step b h).
Proof.
  intros [] Hs Habi Ha Hsteps Hcum Hid. unfold after_step. destruct (step_is_terminal step).
  - split; cbn in *; auto.
    + by rewrite Ha, bool_decide_eq_true_2.
    + intros [=].
  - split; cbn in *; auto.
    + intros b' [= <-]. auto.
    + intros _. rewrite Ha. by eexists.
Qed.

Lemma begun_ok n id h step h' : host_ok h → begun n id h step h' → host_ok h'.
Proof.
  intros Hok [Hs Habi Hb Hid Ha Hstep (h1 & digest & Hc & ->)].
  assert (begin_request id (wh_cancellation h)
          = (MkCancellation (Some id) (cs_pending (wh_cancellation h)) false, true)) as Hbegin.
  { unfold begin_request. by rewrite bool_decide_eq_false_2, Ha. }
  rewrite Hbegin in Hc. pose proof Hc as Hc'. apply idle_called in Hc'; [|done..].
  destruct Hc as (rt & s & c & Hrt & -> & Hact & Hp & Hf).
  apply after_step_ok; cbn in *; try done. rewrite Hs. set_solver.
Qed.
Lemma resumed_ok id raw h step h' : 0 <= raw → host_ok h → resumed id raw h step h' → host_ok h'.
Proof.
  intros Hraw Hok [(b & h1 & digest & Hb & <- & Hsteps & Hbytes & Hstep & _ & Hc & ->)].
  pose proof (ok_call h Hok b Hb) as (Hs & Habi & Hn & Hm & Hid).
  pose proof (idle_ok h1 (called_ok _ _ Hok Hc)) as Hidle. pose proof (ok_active h Hok) as Ha. rewrite Hb in Ha.
  destruct Hc as (rt & s & c & Hrt & -> & Hact & Hp & Hf).
  apply after_step_ok; cbn in *; try done; [congruence|lia|lia].
Qed.

(** ** What a host can reach *)

(** A call of a method, or of a cancellation handle on another thread. *)
Inductive host_step : WasmPluginHost → WasmPluginHost → Prop :=
| FrameStep interrupts frame h : host_step h (handle_frame interrupts frame h).1
| BeginStep interrupts n id request m_in m_ret h :
    host_step h (begin_broker_call_bounded interrupts n id request m_in m_ret h).1
| ResumeStep interrupts id result raw m_ret h :
    0 <= raw → host_step h (resume_broker_call_bounded interrupts id result raw m_ret h).1
| CancelStep interrupts id h : host_step h (cancel_broker_call interrupts id h).1
| TimeoutStep h : host_step h (quarantine_for_timeout h).1
| InflightStep id h : host_step h (on_cancellation (λ c, (cancel_inflight id c).1) h).

(** The frames that are for this host and that it takes on. *)
Definition takes_on h (frame : HostFrame) : Prop :=
  frame_instance_id frame = wi_host_instance_id (wh_identity h) ∧ acceptable h (frame_message frame).

Lemma handle_frame_post interrupts frame h :
  host_ok h →
  post (handle_frame interrupts frame) h
    (λ r h', takes_on h frame ∧ frame_effect h (frame_message frame) r h')
    (λ _ h', (¬ takes_on h frame ∧ refused h h') ∨ (takes_on h frame ∧ h' = quarantined h)).
Proof.
  intros Hok. pose proof (host_ok_loaded h Hok) as Hl. unfold handle_frame, takes_on. post_run.
  case_bool_decide as Hid; cbn [negb]; post_run; [|left; split; [tauto|apply refused_refl]].
  case_bool_decide as Hs; post_run.
  { left. split; [|apply refused_refl]. intros [_ Hacc].
    destruct (frame_message frame), Hs as [Hs|Hs]; cbn in Hacc; rewrite Hs in Hacc; naive_solver. }
  assert (frame_post h (frame_message frame) (match frame_message frame with
    | Hello api_version => hello api_version
    | Activate => activate interrupts
    | Echo request_id payload => echo interrupts request_id payload
    | Heartbeat => heartbeat interrupts
    | Cancel request_id => cancel_before_dispatch request_id
    | Quiesce => quiesce interrupts
    | Dispose => dispose interrupts
    end)) as Hpost.
  { destruct (frame_message frame); auto using hello_post, activate_post, echo_post, heartbeat_post,
      quiesce_post, dispose_post. by apply cancel_post, ok_pending. }
  eapply post_mono; [exact Hpost|naive_solver|]. intros e h' [[? ?]|[? ?]]; [left|right]; tauto.
Qed.

Lemma cancel_inflight_ok id h : host_ok h → host_ok (on_cancellation (λ c, (cancel_inflight id c).1) h).
Proof.
  intros Hok. eapply refused_ok; [exact Hok|]. eexists. split_and!; [reflexivity|..];
    rewrite cancel_inflight_fst; cbn; [done..|].
  unfold flag_ok. cbn. intros Hf [Hd%bool_decide_eq_true|Hd]%orb_prop; [rewrite Hd; by eexists|auto].
Qed.

Lemma host_step_ok h h' : host_ok h → host_step h h' → host_ok h'.
Proof.
  intros Hok Hstep. pose proof (host_ok_loaded h Hok) as Hl. pose proof (host_ok_call_runtime h Hok) as Hcr.
  destruct Hstep as [I f h|I n id r m_in m_ret h|I id r raw m_ret h Hraw|I id h|h|id h];
    [apply post_state..|by apply cancel_inflight_ok].
  - eapply post_mono; [by apply handle_frame_post|..].
    + intros r h' [_ He]. by eapply frame_effect_ok.
    + intros e h' [[_ ?]|[_ ->]]; [by eapply refused_ok|apply quarantined_ok].
  - eapply post_mono; [by apply begin_broker_call_post|..]; [intros; by eapply begun_ok|].
    intros e h'. by apply fails_closed_ok with (e:=e).
  - eapply post_mono; [by apply resume_broker_call_post|..]; [intros; by eapply resumed_ok|].
    intros e h' ->. apply quarantined_ok.
  - eapply post_mono; [by apply cancel_broker_call_post|..]; [|intros e h' ->; apply quarantined_ok].
    intros [] h'; [|by intros [_ ->]].
    intros (b & h1 & Hb & <- & Hc & ->). pose proof (called_ok _ _ Hok Hc) as Hok1.
    pose proof (ok_active h1 Hok1) as Ha. assert (wh_broker_call h1 = Some b) as Hb1.
    { by destruct Hc as (? & ? & ? & _ & -> & _). }
    rewrite Hb1 in Ha. replace (on_cancellation _ _) with (idle h1); [by apply idle_ok|].
    unfold idle, on_cancellation, finish_request. cbn. by rewrite Ha, bool_decide_eq_true_2.
  - eapply post_mono; [apply quarantine_for_timeout_post|..]; [|done].
    intros [] h'; [intros (_ & _ & ->); apply quarantined_ok|by intros ->].
Qed.

(** A host keeps its identity, and never loads its guest again. *)
Definition kin h h' : Prop :=
  wh_identity h' = wh_identity h ∧ (wh_runtime h = None → wh_runtime h' = None).
Lemma quarantined_kin h : kin h (quarantined h).
Proof. done. Qed.
Lemma refused_kin h h' : refused h h' → kin h h'.
Proof. by intros (c & -> & _). Qed.
Lemma called_kin h h' : called h h' → kin h h'.
Proof. intros (rt & s & c & Hrt & -> & _). split; [done|]. by rewrite Hrt. Qed.
Lemma called_set_kin c h h' : called (set_cancellation c h) h' → kin h h'.
Proof. intros [Hi Hr]%called_kin. by split. Qed.
Lemma after_step_kin step b h : kin h (after_step step b h).
Proof. unfold after_step. by destruct (step_is_terminal step). Qed.
Lemma kin_trans h1 h2 h3 : kin h1 h2 → kin h2 h3 → kin h1 h3.
Proof. intros [? ?] [? ?]. split; [congruence|auto]. Qed.
Lemma frame_effect_kin h m r h' : frame_effect h m r h' → kin h h'.
Proof.
  intros []; try done;
    match goal with
    | Hc : called (set_cancellation _ _) _ |- _ => apply called_set_kin in Hc; exact Hc
    | Hc : called _ _ |- _ => apply called_kin in Hc; exact Hc
    end.
Qed.

Lemma host_step_kin h h' : host_ok h → host_step h h' → kin h h'.
Proof.
  intros Hok Hstep. pose proof (host_ok_loaded h Hok) as Hl. pose proof (host_ok_call_runtime h Hok) as Hcr.
  destruct Hstep as [I f h|I n id r m_in m_ret h|I id r raw m_ret h Hraw|I id h|h|id h]; [apply post_state..|done].
  - eapply post_mono; [by apply handle_frame_post|..].
    + intros r h' [_ He]. by eapply frame_effect_kin.
    + intros e h' [[_ ?]|[_ ->]]; [by apply refused_kin|done].
  - eapply post_mono; [by apply begin_broker_call_post|..].
    + intros step h' [_ _ _ _ _ _ (h1 & digest & Hc & ->)].
      eapply kin_trans; [by eapply called_set_kin|apply after_step_kin].
    + intros e h' [?| ->]; [by apply refused_kin|done].
  - eapply post_mono; [by apply resume_broker_call_post|..]; [|by intros e h' ->].
    intros step h' [(b & h1 & digest & _ & _ & _ & _ & _ & _ & Hc & ->)].
    eapply kin_trans; [by eapply called_kin|apply after_step_kin].
  - eapply post_mono; [by apply cancel_broker_call_post|..]; [|by intros e h' ->].
    intros [] h'; [|by intros [_ ->]]. intros (b & h1 & _ & _ & Hc & ->). by apply called_kin in Hc.
  - eapply post_mono; [apply quarantine_for_timeout_post|..]; [|done].
    intros [] h'; [by intros (_ & _ & ->)|by intros ->].
Qed.
Lemma host_steps h h' : host_ok h → rtc host_step h h' → host_ok h' ∧ kin h h'.
Proof.
  intros Hok Hsteps. induction Hsteps as [h|h h1 h' Hstep _ IH]; [by split|].
  destruct IH as [Hok' Hk]; [by eapply host_step_ok|]. split; [done|].
  eapply kin_trans; [by apply host_step_kin|done].
Qed.

(** C11: Whatever is asked of an admitted host, by its owner and by cancellation
    handles on other threads, and whatever its guest answers: the host keeps the
    invariant [host_ok] (the guest is loaded exactly while the host is neither
    disposed of nor quarantined, no disposal is left half done, at most one request
    is in flight and it is the broker call's, a broker call is within its budgets of
    steps and bytes), it keeps its identity, and a host whose guest is gone never
    has one again. *)
Theorem host_invariant identity bytes h0 h :
  from_bytes identity bytes = Ok h0 → rtc host_step h0 h →
  host_ok h ∧ wh_identity h = identity
  ∧ ∀ h', rtc host_step h h' → wh_runtime h = None → wh_runtime h' = None.
Proof.
  intros Hnew Hsteps. pose proof (from_bytes_ok _ _ _ Hnew) as Hok0.
  destruct (host_steps _ _ Hok0 Hsteps) as [Hok [Hid _]]. split_and!; [done| |].
  - rewrite Hid. clear -Hnew. unfold from_bytes in Hnew.
    repeat match goal with Hh : (_ ≫= _) = Ok _ |- _ => apply bind_Ok_iff in Hh as (? & _ & Hh) end.
    by injection Hnew as <-.
  - intros h' Hsteps'. apply (host_steps _ _ Hok Hsteps').
Qed.

(** C12: A frame is answered, refused or fatal.  It is refused exactly when it is for
    another instance or the host cannot take it on in its present state
    ([takes_on]), and then only the bookkeeping of cancellations changes; a frame
    that is taken on is either answered, with the effect [frame_effect] says, or
    leaves the host quarantined without its guest. *)
Theorem handle_frame_correct interrupts frame h :
  host_ok h →
  match handle_frame interrupts frame h with
  | (h', Ok r) => takes_on h frame ∧ frame_effect h (frame_message frame) r h'
  | (h', Err _) => (takes_on h frame → h' = quarantined h) ∧ (¬ takes_on h frame → refused h h')
  end.
Proof.
  intros Hok. pose proof (handle_frame_post interrupts frame h Hok) as Hpost. unfold post in Hpost.
  destruct (handle_frame interrupts frame h) as [h' [r|e]]; [done|]. tauto.
Qed.

(** ** Broker calls end *)

(** A broker's answer to a guest's request: what happens meanwhile to the request in
    flight, the answer, and its size. *)
Record BrokerAnswer := MkAnswer { an_interrupts : Interrupts; an_result : Value; an_raw : Z }.
(** Answer a guest until its call ends, [fuel] times at most. *)
Fixpoint drive (fuel : nat) (answers : nat → GuestStep → BrokerAnswer) (id : HostRequestId) (m_ret : Z)
    (step : GuestStep) : stateful WasmPluginHost HostProtocolError GuestStep :=
  match fuel with
  | O => mret step
  | S fuel =>
      if step_is_terminal step then mret step
      else
        let a := answers fuel step in
        step ← resume_broker_call_bounded (an_interrupts a) id (an_result a) (an_raw a) m_ret;
        drive fuel answers id m_ret step
  end.

(** The call [b] is waiting for a broker. *)
Definition waiting h (id : HostRequestId) (call_id : string) (steps : Z) : Prop :=
  ∃ b, wh_broker_call h = Some b ∧ bc_request_id b = id ∧ bc_call_id b = call_id ∧ bc_steps b = steps.
Definition call_over h : Prop := wh_broker_call h = None ∧ cs_active (wh_cancellation h) = None.

Lemma call_over_idle h : host_ok h → wh_broker_call h = None → call_over h.
Proof. intros Hok Hb. split; [done|]. by rewrite (ok_active h Hok), Hb. Qed.

Lemma drive_post fuel answers id m_ret call_id steps step h :
  (∀ n s, 0 <= an_raw (answers n s)) → host_ok h → step_call_id step = call_id →
  (if step_is_terminal step then call_over h else waiting h id call_id steps) →
  MAX_GUEST_BROKER_STEPS - steps < Z.of_nat fuel →
  post (drive fuel answers id m_ret step) h
    (λ step' h', host_ok h' ∧ step_is_terminal step' = true ∧ step_call_id step' = call_id ∧ call_over h')
    (λ _ h', h' = quarantined h).
Proof.
  intros Hraw. revert steps step h. induction fuel as [|fuel IH]; intros steps step h Hok Hid Hst Hfuel.
  - destruct (step_is_terminal step) eqn:Ht; cbn [drive]; [by post_run|].
    destruct Hst as (b & Hb & _ & _ & Hsteps). destruct (ok_call h Hok b Hb) as (_ & _ & Hn & _). lia.
  - cbn [drive]. destruct (step_is_terminal step) eqn:Ht; [by post_run|]. cbn zeta. post_run.
    destruct Hst as (b & Hb & Hbid & Hbcall & Hsteps).
    eapply post_mono; [apply resume_broker_call_post; by apply host_ok_call_runtime|..]; [|by intros e h' ->].
    intros step' h' Hres. pose proof (resumed_ok _ _ _ _ _ (Hraw _ _) Hok Hres) as Hok'.
    destruct Hres as [(b' & h1 & digest & Hb' & _ & _ & _ & Hstep & _ & Hc & ->)].
    rewrite Hb in Hb'. injection Hb' as <-.
    assert (quarantined (after_step step' (MkBrokerCall id (bc_call_id b) (bc_call_id_numeric b)
      (bc_steps b + 1) (bc_cumulative_result_bytes b + an_raw (answers fuel step)) digest) h1)
      = quarantined h) as Hq.
    { rewrite <-(called_quarantined _ _ Hc). unfold after_step. by destruct (step_is_terminal step'). }
    rewrite <-Hq. apply (IH (bc_steps b + 1)); [done|congruence| |lia].
    destruct (step_is_terminal step') eqn:Ht'.
    + apply call_over_idle; [done|]. unfold after_step. by rewrite Ht'.
    + eexists. split; [unfold after_step; by rewrite Ht'|done].
Qed.

(** A broker call ends.  Whatever the guest answers and whatever the broker gives
    it, after at most [MAX_GUEST_BROKER_STEPS] answers the guest has come to a
    terminal step of this very call and the host is free for the next one, or the
    host is quarantined. *)
Theorem broker_call_ends interrupts n id request m_in m_ret h h1 step answers :
  host_ok h → (∀ n s, 0 <= an_raw (answers n s)) →
  begin_broker_call_bounded interrupts n id request m_in m_ret h = (h1, Ok step) →
  match drive (Z.to_nat MAX_GUEST_BROKER_STEPS) answers id m_ret step h1 with
  | (h', Ok step') =>
      step_is_terminal step' = true ∧ step_call_id step' = call_id_of n ∧ call_over h' ∧ host_ok h'
  | (h', Err _) => h' = quarantined h1
  end.
Proof.
  intros Hok Hraw Hbegin.
  pose proof (post_Ok _ _ _ _ _ _ Hbegin
                (begin_broker_call_post interrupts n id request m_in m_ret h (host_ok_loaded h Hok))) as Hb.
  pose proof (begun_ok _ _ _ _ _ Hok Hb) as Hok1.
  assert (post (drive (Z.to_nat MAX_GUEST_BROKER_STEPS) answers id m_ret step) h1
    (λ step' h', host_ok h' ∧ step_is_terminal step' = true ∧ step_call_id step' = call_id_of n ∧ call_over h')
    (λ _ h', h' = quarantined h1)) as Hd.
  { destruct Hb as [_ _ _ _ _ Hstep (h2 & digest & _ & ->)].
    eapply (drive_post _ _ _ _ (call_id_of n) 1); [done|done|done| |].
    - destruct (step_is_terminal step) eqn:Ht.
      + apply call_over_idle; [done|]. unfold after_step. by rewrite Ht.
      + eexists. split; [unfold after_step; by rewrite Ht|done].
    - unfold MAX_GUEST_BROKER_STEPS. lia. }
  unfold post in Hd. destruct (drive _ _ _ _ _ _) as [h' [step'|e]]; [|done]. tauto.
Qed.

(** ** The guest's output *)

(** A word a guest returns names [length] bytes from [pointer] on. *)
Definition names_stretch (packed pointer length : Z) : Prop :=
  packed mod 2 ^ 64 = pointer * 2 ^ 32 + length ∧ 0 <= pointer < 2 ^ 32 ∧ 0 <= length < 2 ^ 32.
(** What reading that stretch of the guest's memory comes to. *)
Definition reading_outcome rt (maximum pointer length : Z) (r : result HostProtocolErrorCode string) : Prop :=
  let size := data_size (rt_store rt) (rt_memory rt) in
  let stretch := memory_read (rt_store rt) (rt_memory rt) pointer length in
  match r with
  | Ok text => length <= maximum ∧ pointer + length <= size ∧ stretch = Some (str_bytes text)
               ∧ str_len text = length ∧ from_utf8 (str_bytes text) = Some text
  | Err PayloadTooLarge => maximum < length
  | Err InvalidGuestOutput =>
      length <= maximum ∧ (size < pointer + length ∨ ∃ bytes, stretch = Some bytes ∧ from_utf8 bytes = None)
  | Err _ => False
  end.

(** C13: Reading what a guest returns never goes out of its memory.  For every word a
    guest can return, the pointer and length in it name a stretch of memory; the
    result is the text in that stretch when it is within the limit, within the
    memory and UTF-8, and otherwise the error that says which of these fails; the
    host is not changed. *)
Theorem read_guest_utf8_correct packed m h rt :
  wh_runtime h = Some rt →
  ∃ pointer length r,
    names_stretch packed pointer length ∧ read_guest_utf8 packed m h = (h, r)
    ∧ reading_outcome rt m pointer length r.
Proof.
  intros Hrt. pose proof (unpack_bounds packed) as [Hp Hl].
  exists (unpack packed).1, (unpack packed).2, (output_of rt packed m).
  split; [split; [|split; [exact Hp|exact Hl]]|split].
  - unfold unpack. cbn. rewrite Z.shiftr_div_pow2 by lia. change (2 ^ 32 - 1) with (Z.ones 32).
    rewrite Z.land_ones by lia. rewrite (Z.mul_comm _ (2 ^ 32)). apply Z.div_mod. lia.
  - by apply read_guest_utf8_eq.
  - unfold reading_outcome. cbn zeta. unfold output_of. destruct (unpack packed) as [pointer len]. cbn [fst snd] in *.
    pose proof (memory_read_law (rt_store rt) (rt_memory rt) pointer len ltac:(lia) ltac:(lia)) as Hm.
    destruct (m <? len) eqn:Hlen; [by apply Z.ltb_lt in Hlen|]. apply Z.ltb_ge in Hlen. cbn.
    destruct (data_size _ _ <? pointer + len) eqn:Hsize; [apply Z.ltb_lt in Hsize; cbn; auto|].
    apply Z.ltb_ge in Hsize. rewrite (proj2 (Z.leb_le _ _)) in Hm by done.
    destruct Hm as (bytes & -> & Hb). cbn.
    destruct (from_utf8 bytes) as [text|] eqn:Hu; cbn; [|split; [done|right; by exists bytes]].
    assert (str_bytes text = bytes) as <-.
    { unfold from_utf8 in Hu. destruct (_ && _); [|done]. injection Hu as <-. apply str_bytes_of_bytes. }
    by split_and!.
Qed.

(** A step a guest answers with is taken for what it is only if it is JSON of the
    right shape, names the call it belongs to, and is well formed ([step_wf]: a
    request names a handle, a brokered permission, an operation and arguments, an
    error names a code, both within the step limit); otherwise the error says what
    is wrong. *)
Theorem decode_guest_step_correct encoded call_id m :
  match decode_guest_step encoded call_id m with
  | Ok step => str_len encoded <= m ∧ guest_step_from_str encoded = Some step
               ∧ step_call_id step = call_id ∧ step_wf encoded step
  | Err PayloadTooLarge =>
      m < str_len encoded
      ∨ MAX_GUEST_STEP_BYTES < str_len encoded
        ∧ ∃ step, guest_step_from_str encoded = Some step ∧ ∀ id v, step ≠ CompleteStep id v
  | Err InvalidBrokerStep =>
      guest_step_from_str encoded = None
      ∨ ∃ step, guest_step_from_str encoded = Some step ∧ step_call_id step = call_id
                ∧ ¬ step_wf encoded step
  | Err BrokerSequenceViolation =>
      ∃ step, guest_step_from_str encoded = Some step ∧ step_call_id step ≠ call_id
  | Err _ => False
  end.
Proof.
  destruct (decode_guest_step encoded call_id m) as [step|e] eqn:Hd; [by apply decode_guest_step_Ok|].
  assert (∀ step, guest_step_from_str encoded = Some step → str_len encoded <= m →
    step_call_id step = call_id → ¬ step_wf encoded step) as Hno.
  { intros step Hs Hm Hid Hwf. assert (decode_guest_step encoded call_id m = Ok step) as Hok
      by by apply decode_guest_step_Ok. congruence. }
  unfold decode_guest_step in Hd.
  destruct (m <? str_len encoded) eqn:Hm; [injection Hd as <-; left; lia|]. apply Z.ltb_ge in Hm.
  cbn in Hd. destruct (guest_step_from_str encoded) as [step|] eqn:Hs; [|injection Hd as <-; by left].
  cbn in Hd. unfold str_eq in Hd. case_bool_decide as Hid; [|injection Hd as <-; by exists step].
  specialize (Hno step eq_refl Hm Hid). cbn in Hd.
  destruct step as [cid hd pm op args|cid v|cid code]; [|done|]; cbn in Hd;
    (destruct (MAX_GUEST_STEP_BYTES <? str_len encoded) eqn:Hlen;
     [apply Z.ltb_lt in Hlen; injection Hd as <-; right; split; [done|eexists; split; [done|by intros]]|]);
    cbn in Hd; (destruct (_ || _) in Hd || destruct (malformed_name code) in Hd); try done;
    injection Hd as <-; right; eexists; done.
Qed.
End host.
