(* ===== verification/Model.v ===== *)
(** * Descriptors and scope policies

    Model of [crates/rho-extension-runtime/src/model.rs]: plugin descriptors
    with their validation, the host's scope-kind policy, the identity check of
    a scope against its parent, and the data of an activation plan. *)
From stdpp Require Import relations.
From S2P Require Import Prelude Text Errors Ids External.
#[local] Open Scope Z_scope.

Definition MAX_PLUGINS_PER_SCOPE : Z := 256.
Definition MAX_PROVIDES_PER_PLUGIN : Z := 64.
Definition MAX_REQUIRED_PER_PLUGIN : Z := 64.
Definition MAX_OPTIONAL_PER_PLUGIN : Z := 64.
Definition MAX_RESOLVED_EDGES : Z := 8192.


(** ** Capabilities *)

Record CapabilityDeclaration := MkDeclaration {
  decl_capability : CapabilityId;
  decl_major : CapabilityContractMajor
}.
Definition decl_tuple (d : CapabilityDeclaration) := (decl_capability d, decl_major d).
#[global] Instance decl_tuple_inj : Inj (=) (=) decl_tuple.
Proof. intros [] []; unfold decl_tuple; simpl; congruence. Qed.
#[global] Instance CapabilityDeclaration_eq_dec : EqDecision CapabilityDeclaration.
Proof. solve_decision. Defined.
#[global] Instance CapabilityDeclaration_ord : RustOrd CapabilityDeclaration := rcmp_on decl_tuple.
#[global] Instance CapabilityDeclaration_ord_laws : RustOrdLaws CapabilityDeclaration.
Proof. apply rcmp_on_laws, _. Qed.

Record CapabilityRequirement := MkRequirement {
  req_capability : CapabilityId;
  req_major : CapabilityContractMajor
}.
Definition req_tuple (r : CapabilityRequirement) := (req_capability r, req_major r).
#[global] Instance req_tuple_inj : Inj (=) (=) req_tuple.
Proof. intros [] []; unfold req_tuple; simpl; congruence. Qed.
#[global] Instance CapabilityRequirement_eq_dec : EqDecision CapabilityRequirement.
Proof. solve_decision. Defined.
#[global] Instance CapabilityRequirement_ord : RustOrd CapabilityRequirement := rcmp_on req_tuple.
#[global] Instance CapabilityRequirement_ord_laws : RustOrdLaws CapabilityRequirement.
Proof. apply rcmp_on_laws, _. Qed.

Definition CapabilityDeclaration_new (c : CapabilityId) (major : Z) : CapabilityDeclaration :=
  MkDeclaration c (MkMajor major).
Definition CapabilityRequirement_new (c : CapabilityId) (major : Z) : CapabilityRequirement :=
  MkRequirement c (MkMajor major).

(** [duplicate_by_key]: the second of the first two neighbours with equal keys. *)
Definition duplicate_by_key {A K} `{EqDecision K} (key : A → K) (values : list A) : option A :=
  snd <$> find_adjacent key values.

(** ** Plugin descriptors *)

Inductive ActivationPolicy := Eager.
#[global] Instance ActivationPolicy_eq_dec : EqDecision ActivationPolicy.
Proof. solve_decision. Defined.

Section descriptors.
Context `{Semver}.

Definition PluginVersion_parse (value : string) : result ExtensionError Version :=
  ok_or (Version_parse value) InvalidPluginVersion.

Record PluginDescriptor := MkDescriptor {
  desc_id : PluginId;
  desc_version : Version;
  desc_allowed_scopes : list ScopeKindId;
  desc_provides : list CapabilityDeclaration;
  desc_requires : list CapabilityRequirement;
  desc_optional : list CapabilityRequirement;
  desc_activation_policy : ActivationPolicy
}.

Definition desc_tuple (d : PluginDescriptor) :=
  (desc_id d, (desc_version d, (desc_allowed_scopes d, (desc_provides d,
    (desc_requires d, desc_optional d))))).
#[global] Instance desc_tuple_inj : Inj (=) (=) desc_tuple.
Proof. intros [??????[]] [??????[]]; unfold desc_tuple; simpl; congruence. Qed.
#[global] Instance PluginDescriptor_ord : RustOrd PluginDescriptor := rcmp_on desc_tuple.
#[global] Instance PluginDescriptor_ord_laws : RustOrdLaws PluginDescriptor.
Proof. apply rcmp_on_laws, _. Qed.

Definition PluginDescriptor_new (id : PluginId) (version : Version)
    (allowed_scopes : list ScopeKindId) : PluginDescriptor :=
  MkDescriptor id version allowed_scopes [] [] [] Eager.

Definition normalize (d : PluginDescriptor) : PluginDescriptor :=
  MkDescriptor (desc_id d) (desc_version d) (rsort (desc_allowed_scopes d))
    (rsort (desc_provides d)) (rsort (desc_requires d)) (rsort (desc_optional d))
    (desc_activation_policy d).

(** Called on normalized descriptors: the lists are sorted, so that neighbours
    show duplicates and [binary_search] finds exactly the members. *)
Definition validate_for_scope (d : PluginDescriptor) (k : ScopeKindId)
    : result ExtensionError () :=
  _ ← fail_if (MAX_PROVIDES_PER_PLUGIN <? vec_len (desc_provides d))
        (LimitExceeded ProvidesPerPlugin (Some (desc_id d))
           (vec_len (desc_provides d)) MAX_PROVIDES_PER_PLUGIN);
  _ ← fail_if (MAX_REQUIRED_PER_PLUGIN <? vec_len (desc_requires d))
        (LimitExceeded RequiredPerPlugin (Some (desc_id d))
           (vec_len (desc_requires d)) MAX_REQUIRED_PER_PLUGIN);
  _ ← fail_if (MAX_OPTIONAL_PER_PLUGIN <? vec_len (desc_optional d))
        (LimitExceeded OptionalPerPlugin (Some (desc_id d))
           (vec_len (desc_optional d)) MAX_OPTIONAL_PER_PLUGIN);
  _ ← fail_if (vec_is_empty (desc_allowed_scopes d))
        (InvalidDescriptor (desc_id d) NoAllowedScopes);
  _ ← fail_with (duplicate_by_key id (desc_allowed_scopes d))
        (λ k', InvalidDescriptor (desc_id d) (DuplicateAllowedScope k'));
  _ ← fail_with (duplicate_by_key decl_capability (desc_provides d))
        (λ x, InvalidDescriptor (desc_id d) (DuplicateProvidedCapability (decl_capability x)));
  _ ← fail_with (duplicate_by_key req_capability (desc_requires d))
        (λ x, InvalidDescriptor (desc_id d) (DuplicateRequiredCapability (req_capability x)));
  _ ← fail_with (duplicate_by_key req_capability (desc_optional d))
        (λ x, InvalidDescriptor (desc_id d) (DuplicateOptionalCapability (req_capability x)));
  let required : gset CapabilityId := list_to_set (req_capability <$> desc_requires d) in
  _ ← fail_with
        (List.find (λ x, bool_decide (req_capability x ∈ required)) (desc_optional d))
        (λ x, InvalidDescriptor (desc_id d) (RequiredAndOptionalCapability (req_capability x)));
  fail_if (negb (bool_decide (k ∈ desc_allowed_scopes d)))
    (InvalidDescriptor (desc_id d) (ScopeNotAllowed k)).

End descriptors.

(** ** Scopes *)

Definition ScopeIdentity_new (kind : ScopeKindId) (id : ScopeId) (parent_id : option ScopeId)
    (generation : ActivationGeneration) : ScopeIdentity :=
  MkScope kind id parent_id generation.

Record ScopeKindRule := MkRule { rule_kind : ScopeKindId; rule_parent_kind : option ScopeKindId }.
Definition rule_tuple (r : ScopeKindRule) := (rule_kind r, rule_parent_kind r).
#[global] Instance rule_tuple_inj : Inj (=) (=) rule_tuple.
Proof. intros [] []; unfold rule_tuple; simpl; congruence. Qed.
#[global] Instance ScopeKindRule_ord : RustOrd ScopeKindRule := rcmp_on rule_tuple.
#[global] Instance ScopeKindRule_ord_laws : RustOrdLaws ScopeKindRule.
Proof. apply rcmp_on_laws, _. Qed.

Definition ScopeKindRule_root (kind : ScopeKindId) : ScopeKindRule := MkRule kind None.
Definition ScopeKindRule_child (kind parent_kind : ScopeKindId) : ScopeKindRule :=
  MkRule kind (Some parent_kind).

Record ScopePolicy := MkPolicy { policy_rules : gmap ScopeKindId (option ScopeKindId) }.

(** The [while let Some(kind) = current] loop from one starting kind; [None]
    means that the fuel ran out, which [walk_parents_fuel] excludes. *)
Fixpoint walk_parents (rules : gmap ScopeKindId (option ScopeKindId)) (fuel : nat)
    (seen : gset ScopeKindId) (current : option ScopeKindId)
    : option (result ExtensionError ()) :=
  match current with
  | None => Some (Ok ())
  | Some kind =>
      if decide (kind ∈ seen) then Some (Err (InvalidScopePolicy kind ParentCycle))
      else match fuel with
           | O => None
           | S fuel => walk_parents rules fuel ({[kind]} ∪ seen) (mjoin (rules !! kind))
           end
  end.

Definition check_parent_kind (rules : gmap ScopeKindId (option ScopeKindId))
    (kind : ScopeKindId) : result ExtensionError () :=
  match rules !! kind with
  | Some (Some parent_kind) =>
      fail_if (bool_decide (rules !! parent_kind = None)) (InvalidScopePolicy kind MissingParentKind)
  | _ => Ok ()
  end.

Definition check_parent_chain (rules : gmap ScopeKindId (option ScopeKindId))
    (start : ScopeKindId) : result ExtensionError () :=
  default (Err (InvalidScopePolicy start ParentCycle))
    (walk_parents rules (S (size rules)) ∅ (Some start)).

Definition from_host_rules (rules : list ScopeKindRule) : result ExtensionError ScopePolicy :=
  let rules := rsort rules in
  _ ← fail_with (find_adjacent rule_kind rules)
        (λ w, InvalidScopePolicy (rule_kind w.1) DuplicateKind);
  let rules : gmap ScopeKindId (option ScopeKindId) :=
    list_to_map ((λ r, (rule_kind r, rule_parent_kind r)) <$> rules) in
  _ ← for_each (check_parent_kind rules) (sorted_keys rules);
  _ ← for_each (check_parent_chain rules) (sorted_keys rules);
  Ok (MkPolicy rules).

Definition application_kind : ScopeKindId := MkIdent "application".
Definition project_kind : ScopeKindId := MkIdent "project".
Definition workspace_kind : ScopeKindId := MkIdent "workspace".
Definition agent_kind : ScopeKindId := MkIdent "agent".

(** [phase_one] unwraps this result with [expect]. *)
Definition phase_one_rules : list ScopeKindRule :=
  [ScopeKindRule_root application_kind; ScopeKindRule_child project_kind application_kind;
   ScopeKindRule_child workspace_kind project_kind; ScopeKindRule_child agent_kind project_kind].
Definition phase_one : result ExtensionError ScopePolicy := from_host_rules phase_one_rules.

Definition invalid_parent (scope : ScopeIdentity) (parent : option ScopeIdentity)
    (expected_parent_kind : option ScopeKindId) (reason : InvalidParentReason) : ExtensionError :=
  InvalidParent
    (MkParentContext (scope_id scope) (scope_kind scope)
       (match scope_parent_id scope with Some p => Some p | None => scope_id <$> parent end)
       (scope_kind <$> parent) expected_parent_kind)
    reason.

Definition validate_identity (policy : ScopePolicy) (scope : ScopeIdentity)
    (parent : option ScopeIdentity) : result ExtensionError () :=
  expected ← ok_or (policy_rules policy !! scope_kind scope)
               (InvalidScope (scope_id scope) (scope_kind scope) UnknownKind);
  match expected with
  | None =>
      fail_if (bool_decide (is_Some (scope_parent_id scope)) || bool_decide (is_Some parent))
        (invalid_parent scope parent None UnexpectedParent)
  | Some expected_kind =>
      parent_id ← ok_or (scope_parent_id scope)
                    (invalid_parent scope parent (Some expected_kind) MissingParent);
      parent ← ok_or parent
                 (invalid_parent scope None (Some expected_kind) ParentIdentityMissing);
      _ ← fail_if (negb (bool_decide (parent_id = scope_id parent)))
            (invalid_parent scope (Some parent) (Some expected_kind) ParentIdMismatch);
      fail_if (negb (bool_decide (scope_kind parent = expected_kind)))
        (invalid_parent scope (Some parent) (Some expected_kind) ParentKindMismatch)
  end.

(** ** Activation plans *)

Inductive RequirementKind := Required | Optional.
#[global] Instance RequirementKind_eq_dec : EqDecision RequirementKind.
Proof. solve_decision. Defined.
Definition RequirementKind_rank (k : RequirementKind) : Z :=
  match k with Required => 0 | Optional => 1 end.
#[global] Instance RequirementKind_rank_inj : Inj (=) (=) RequirementKind_rank.
Proof. by intros [] []. Qed.
#[global] Instance RequirementKind_ord : RustOrd RequirementKind := rcmp_on RequirementKind_rank.
#[global] Instance RequirementKind_ord_laws : RustOrdLaws RequirementKind.
Proof. apply rcmp_on_laws, _. Qed.

Inductive BindingResolution := Provider (provider : ProviderIdentity) | AbsentOptional.

Record RequirementBinding := MkBinding {
  binding_requirement : CapabilityRequirement;
  binding_kind : RequirementKind;
  binding_resolution : BindingResolution
}.

Record ActivationPlan := MkPlan {
  plan_scope : ScopeIdentity;
  plan_activation_order : list PluginId;
  plan_bindings : gmap PluginId (list RequirementBinding);
  plan_effective_providers : gmap CapabilityId ProviderIdentity;
  plan_diagnostics : list ExtensionDiagnostic
}.

(** ** Properties *)


Lemma StronglySorted_fmap_mono `{RustOrdLaws A, RustOrdLaws B} (f : A → B) l :
  (∀ x y, rle x y → rle (f x) (f y)) → StronglySorted rle l → StronglySorted rle (f <$> l).
Proof.
  intros Hf. induction l as [|x l IH]; [constructor|].
  intros [Hall Hs]%StronglySorted_cons. rewrite fmap_cons. apply StronglySorted_cons.
  split; [|auto]. apply Forall_fmap. eapply Forall_impl; [done|]. intros y. apply Hf.
Qed.
Lemma rle_fst `{RustOrdLaws A, RustOrdLaws B} (p q : A * B) : rle p q → rle p.1 q.1.
Proof.
  unfold rle. unfold rcmp at 1, prod_ord. destruct (rcmp p.1 q.1); simpl; congruence.
Qed.
Lemma rle_decl_capability x y : rle x y → rle (decl_capability x) (decl_capability y).
Proof. apply (rle_fst (decl_tuple x) (decl_tuple y)). Qed.
Lemma rle_req_capability x y : rle x y → rle (req_capability x) (req_capability y).
Proof. apply (rle_fst (req_tuple x) (req_tuple y)). Qed.
Lemma rle_rule_kind x y : rle x y → rle (rule_kind x) (rule_kind y).
Proof. apply (rle_fst (rule_tuple x) (rule_tuple y)). Qed.

Section duplicates.
Context `{RustOrdLaws A, RustOrdLaws K, EqDecision K} (key : A → K).
Hypothesis key_mono : ∀ x y, rle x y → rle (key x) (key y).

Lemma find_adjacent_rsort l : find_adjacent key (rsort l) = None ↔ NoDup (key <$> l).
Proof using All.
  rewrite find_adjacent_None_NoDup by (apply StronglySorted_fmap_mono, rsort_sorted; done).
  by rewrite rsort_perm.
Qed.
Lemma duplicate_by_key_rsort l : duplicate_by_key key (rsort l) = None ↔ NoDup (key <$> l).
Proof using All. unfold duplicate_by_key. rewrite fmap_None. apply find_adjacent_rsort. Qed.
End duplicates.

Section descriptor_props.
Context `{Semver}.
Implicit Types d : PluginDescriptor.

(** What [validate_for_scope] promises about a descriptor. *)
Record descriptor_wf d (k : ScopeKindId) : Prop := {
  wf_provides_len : vec_len (desc_provides d) <= 64;
  wf_requires_len : vec_len (desc_requires d) <= 64;
  wf_optional_len : vec_len (desc_optional d) <= 64;
  wf_scopes : NoDup (desc_allowed_scopes d);
  wf_provides : NoDup (decl_capability <$> desc_provides d);
  wf_requires : NoDup (req_capability <$> desc_requires d);
  wf_optional : NoDup (req_capability <$> desc_optional d);
  wf_disjoint : ∀ r o, r ∈ desc_requires d → o ∈ desc_optional d →
    req_capability r ≠ req_capability o;
  wf_allowed : k ∈ desc_allowed_scopes d
}.

Lemma vec_len_rsort `{RustOrdLaws A} (l : list A) : vec_len (rsort l) = vec_len l.
Proof. unfold vec_len. by rewrite rsort_length. Qed.

Lemma validate_for_scope_normalized d k :
  validate_for_scope (normalize d) k = Ok () ↔ descriptor_wf d k.
Proof.
  unfold validate_for_scope. cbn [normalize desc_provides desc_requires desc_optional
    desc_allowed_scopes desc_id].
  rewrite !bind_unit_Ok_iff, !fail_if_Ok, !fail_with_Ok, !vec_len_rsort, !Z.ltb_ge.
  rewrite vec_is_empty_false.
  rewrite !duplicate_by_key_rsort by (eauto using rle_decl_capability, rle_req_capability).
  rewrite find_None_iff, list_fmap_id.
  unfold MAX_PROVIDES_PER_PLUGIN, MAX_REQUIRED_PER_PLUGIN, MAX_OPTIONAL_PER_PLUGIN.
  rewrite negb_false_iff, bool_decide_eq_true, elem_of_rsort.
  setoid_rewrite bool_decide_eq_false. setoid_rewrite elem_of_list_to_set.
  setoid_rewrite list_elem_of_fmap. setoid_rewrite elem_of_rsort.
  split.
  - intros (? & ? & ? & ? & ? & ? & ? & ? & Hd & ?). split; try done.
    intros r o Hr Ho Heq. apply (Hd o Ho). by exists r.
  - intros []. split_and!; try done.
    + intros Hnil. assert (k ∈ rsort (desc_allowed_scopes d)) as Hk by by apply elem_of_rsort.
      rewrite Hnil in Hk. by apply not_elem_of_nil in Hk.
    + intros o Ho (r & Heq & Hr). by apply (wf_disjoint0 r o).
Qed.

End descriptor_props.

(** *** The parent relation of a policy *)

Definition parent_of (rules : gmap ScopeKindId (option ScopeKindId)) (k p : ScopeKindId) : Prop :=
  rules !! k = Some (Some p).

Section walk.
Context (rules : gmap ScopeKindId (option ScopeKindId)).
Notation parent := (parent_of rules).

Lemma mjoin_parent k p : mjoin (rules !! k) = Some p ↔ parent k p.
Proof. unfold parent_of. destruct (rules !! k) as [[q|]|]; simpl; naive_solver. Qed.

Lemma walk_parents_fuel fuel seen current :
  (size (dom rules ∖ seen) < fuel)%nat → walk_parents rules fuel seen current ≠ None.
Proof.
  revert seen current. induction fuel as [|fuel IH]; intros seen [k|] Hf; [lia|done| |done].
  cbn [walk_parents]. case_decide as Hk; [done|].
  destruct (rules !! k) as [o|] eqn:Hr.
  - apply IH. assert (k ∈ dom rules) by by apply elem_of_dom.
    assert (size (dom rules ∖ ({[k]} ∪ seen)) < size (dom rules ∖ seen))%nat; [|lia].
    apply subset_size. set_solver.
  - destruct fuel; done.
Qed.

Lemma walk_parents_Ok fuel seen k :
  walk_parents rules fuel seen (Some k) = Some (Ok ()) → Acc (flip parent) k.
Proof.
  revert seen k. induction fuel as [|fuel IH]; intros seen k; cbn [walk_parents].
  { case_decide; discriminate. }
  case_decide; [discriminate|]. intros Hw. constructor. intros p Hp. unfold flip in Hp. apply mjoin_parent in Hp.
  rewrite Hp in Hw. by eapply IH.
Qed.

Lemma walk_parents_Err fuel seen k e :
  (∀ s, s ∈ seen → tc parent s k) →
  walk_parents rules fuel seen (Some k) = Some (Err e) →
  ∃ c, e = InvalidScopePolicy c ParentCycle ∧ tc parent c c.
Proof.
  revert seen k. induction fuel as [|fuel IH]; intros seen k Hs; cbn [walk_parents];
    (case_decide as Hk; [intros [= <-]; eauto|]); [discriminate|].
  destruct (mjoin (rules !! k)) as [p|] eqn:Hp; [|destruct fuel; done].
  apply mjoin_parent in Hp. apply IH. intros s [->%elem_of_singleton|Hin]%elem_of_union.
  - by apply tc_once.
  - eapply tc_r; eauto.
Qed.

Lemma check_parent_chain_Ok k : check_parent_chain rules k = Ok () → Acc (flip parent) k.
Proof.
  unfold check_parent_chain. intros H. destruct (walk_parents _ _ _ _) as [r|] eqn:E.
  - simpl in H. subst r. by eapply walk_parents_Ok.
  - exfalso. revert E. apply walk_parents_fuel.
    assert (size (dom rules ∖ ∅) ≤ size rules)%nat; [|lia].
    rewrite <-size_dom. apply subseteq_size. set_solver.
Qed.
Lemma check_parent_chain_Err k e :
  check_parent_chain rules k = Err e → ∃ c, e = InvalidScopePolicy c ParentCycle ∧ tc parent c c.
Proof.
  unfold check_parent_chain. intros H. destruct (walk_parents _ _ _ _) as [r|] eqn:E.
  - simpl in H. subst r. eapply walk_parents_Err; [|done]. set_solver.
  - exfalso. revert E. apply walk_parents_fuel.
    assert (size (dom rules ∖ ∅) ≤ size rules)%nat; [|lia].
    rewrite <-size_dom. apply subseteq_size. set_solver.
Qed.
Lemma Acc_no_cycle k : Acc (flip parent) k → ¬ tc parent k k.
Proof.
  intros Hacc Hc. assert (Hf : Acc (flip (tc parent)) k).
  { clear Hc. induction Hacc as [k _ IH]. constructor. unfold flip. intros p Hp.
    inversion Hp as [? ? Hs|? q ? Hs Ht]; subst; [by apply IH|]. by apply (Acc_inv (IH q Hs)). }
  induction Hf as [k _ IH]. by apply (IH k).
Qed.
End walk.

(** What a policy built from host rules satisfies. *)
Record policy_wf (rules : list ScopeKindRule) (policy : ScopePolicy) : Prop := {
  policy_rules_spec k p : policy_rules policy !! k = Some p ↔ MkRule k p ∈ rules;
  policy_parent_known k p : parent_of (policy_rules policy) k p → is_Some (policy_rules policy !! p);
  policy_chains_end k : Acc (flip (parent_of (policy_rules policy))) k;
  policy_kinds_distinct : NoDup (rule_kind <$> rules)
}.

(** The defects [from_host_rules] reports. *)
Definition rules_defect (rules : list ScopeKindRule) (e : ExtensionError) : Prop :=
  match e with
  | InvalidScopePolicy k DuplicateKind => ∃ p q l, rules ≡ₚ MkRule k p :: MkRule k q :: l
  | InvalidScopePolicy k MissingParentKind =>
      ∃ p, MkRule k (Some p) ∈ rules ∧ p ∉ rule_kind <$> rules
  | InvalidScopePolicy k ParentCycle => tc (λ a b, MkRule a (Some b) ∈ rules) k k
  | _ => False
  end.

Lemma from_host_rules_spec (rules : list ScopeKindRule) :
  match from_host_rules rules with
  | Ok policy => policy_wf rules policy
  | Err e => rules_defect rules e
  end.
Proof.
  unfold from_host_rules.
  destruct (find_adjacent rule_kind (rsort rules)) as [[r1 r2]|] eqn:Hadj; simpl.
  { apply find_adjacent_Some in Hadj as (Hk & l1 & l2 & Hl).
    destruct r1 as [k p], r2 as [k' q]; simpl in *; subst k'.
    exists p, q, (l1 ++ l2). rewrite <-(rsort_perm rules), Hl. solve_Permutation. }
  apply (find_adjacent_rsort _ rle_rule_kind) in Hadj as Hnd.
  set (m := list_to_map _ : gmap _ _).
  assert (Hm : ∀ k p, m !! k = Some p ↔ MkRule k p ∈ rules).
  { intros k p. unfold m. rewrite <-elem_of_list_to_map.
    - rewrite list_elem_of_fmap. setoid_rewrite elem_of_rsort. split.
      + by intros ([] & [= -> ->] & ?).
      + intros ?. by exists (MkRule k p).
    - rewrite <-list_fmap_compose. change (NoDup (rule_kind <$> rsort rules)).
      by rewrite rsort_perm. }
  clearbody m.
  destruct (for_each (check_parent_kind m) _) as [[]|e] eqn:Hp; simpl.
  2:{ apply for_each_Err in Hp as (k & _ & Hk). unfold check_parent_kind in Hk.
      destruct (m !! k) as [[p|]|] eqn:E; try done.
      apply fail_if_Err in Hk as [Hnone <-]. apply bool_decide_eq_true in Hnone.
      exists p. split; [by apply Hm|]. intros ([k' q] & -> & Hin)%list_elem_of_fmap.
      apply Hm in Hin. simpl in *. congruence. }
  destruct (for_each (check_parent_chain m) _) as [[]|e] eqn:Hc; simpl.
  2:{ apply for_each_Err in Hc as (k & _ & Hk).
      apply check_parent_chain_Err in Hk as (c & -> & Htc).
      refine (tc_congruence id _ _ _ _ Htc). intros a b. apply Hm. }
  apply for_each_Ok in Hp, Hc. rewrite Forall_forall in Hp, Hc.
  split; [done| | |done].
  - intros k p Hkp. simpl in Hkp |- *. specialize (Hp k). rewrite elem_of_sorted_keys in Hp.
    unfold check_parent_kind, parent_of in *. rewrite Hkp in Hp.
    specialize (Hp ltac:(done)). apply fail_if_Ok, bool_decide_eq_false in Hp.
    by apply not_eq_None_Some in Hp.
  - intros k. simpl. destruct (m !! k) eqn:E.
    + apply check_parent_chain_Ok, Hc. by apply elem_of_sorted_keys.
    + constructor. intros p Hp'. unfold flip, parent_of in Hp'. congruence.
Qed.

Lemma policy_wf_no_defect rules policy e : policy_wf rules policy → ¬ rules_defect rules e.
Proof.
  intros [Hspec Hknown Hacc Hnd] He. destruct e; try done. destruct reason; simpl in He.
  - destruct He as (p & q & l & Hl). rewrite Hl in Hnd. simpl in Hnd.
    apply NoDup_cons in Hnd as [Hn _]. apply Hn. by left.
  - destruct He as (p & Hin & Hp). apply Hspec in Hin. destruct (Hknown _ _ Hin) as [q Hq].
    apply Hspec in Hq. apply Hp. by apply (list_elem_of_fmap_2 rule_kind _ (MkRule p q)).
  - apply (Acc_no_cycle (policy_rules policy) kind (Hacc kind)).
    refine (tc_congruence id _ _ _ _ He).
    intros a b. apply Hspec.
Qed.

(** [from_host_rules] either builds exactly the given rules as a policy
    whose kinds are declared once, whose parents are declared, and whose parent
    chains all end at a root, or reports one real defect of the rules: a kind
    declared twice, an undeclared parent, or a kind that is its own ancestor;
    and rules with such a defect are never accepted. *)
Theorem from_host_rules_correct (rules : list ScopeKindRule) :
  match from_host_rules rules with
  | Ok policy => policy_wf rules policy ∧ ∀ e, ¬ rules_defect rules e
  | Err e => rules_defect rules e
  end.
Proof.
  pose proof (from_host_rules_spec rules) as Hs.
  destruct (from_host_rules rules) as [policy|e]; [|done].
  split; [done|]. intros e. by eapply policy_wf_no_defect.
Qed.

(** [ScopePolicy::phase_one] never hits its [expect]. *)
Lemma phase_one_is_ok : is_ok phase_one = true.
Proof. by vm_compute. Qed.

Lemma validate_identity_iff (policy : ScopePolicy) (scope : ScopeIdentity)
    (parent : option ScopeIdentity) :
  validate_identity policy scope parent = Ok () ↔
  match policy_rules policy !! scope_kind scope with
  | None => False
  | Some None => scope_parent_id scope = None ∧ parent = None
  | Some (Some k) =>
      ∃ p, parent = Some p ∧ scope_parent_id scope = Some (scope_id p) ∧ scope_kind p = k
  end.
Proof.
  unfold validate_identity. rewrite bind_Ok_iff. setoid_rewrite ok_or_Ok.
  destruct (policy_rules policy !! scope_kind scope) as [[k|]|]; [| |naive_solver].
  - split.
    + intros (o & [= <-] & H). apply bind_Ok_iff in H as (q & Hq%ok_or_Ok & H).
      apply bind_Ok_iff in H as (p & Hp%ok_or_Ok & H).
      apply bind_unit_Ok_iff in H as [H1%fail_if_Ok H2%fail_if_Ok]. bool_prop.
      exists p. rewrite Hq, Hp. naive_solver.
    + intros (p & -> & Hq & <-). exists (Some (scope_kind p)). split; [done|]. simpl.
      rewrite Hq. simpl. by rewrite !bool_decide_true.
  - split.
    + intros (o & [= <-] & H%fail_if_Ok). apply orb_false_iff in H as [H1 H2]. bool_prop.
      by rewrite !eq_None_not_Some.
    + intros [-> ->]. exists None. by split.
Qed.

(** A chain of scopes from the root down, each accepted with the one before it
    as its parent. *)
Inductive accepted_chain (policy : ScopePolicy) : list ScopeIdentity → Prop :=
| accepted_root s : validate_identity policy s None = Ok () → accepted_chain policy [s]
| accepted_child s p l :
    validate_identity policy s (Some p) = Ok () → accepted_chain policy (p :: l) →
    accepted_chain policy (s :: p :: l).

Lemma accepted_chain_ancestors policy s l :
  accepted_chain policy (s :: l) →
  Forall (λ t, tc (parent_of (policy_rules policy)) (scope_kind s) (scope_kind t)) l.
Proof.
  remember (s :: l) as c eqn:Hc. intros Hch. revert s l Hc.
  induction Hch as [s' Hv|s' p l' Hv Hch IH]; intros s l [= <- <-]; [constructor|].
  apply validate_identity_iff in Hv.
  destruct (policy_rules policy !! scope_kind s') as [[k|]|] eqn:Hk; [|naive_solver..].
  destruct Hv as (q & [= <-] & _ & <-).
  assert (Hp : parent_of (policy_rules policy) (scope_kind s') (scope_kind p)) by exact Hk.
  constructor; [by apply tc_once|]. eapply Forall_impl; [by apply (IH p l')|].
  intros t. by apply tc_l.
Qed.

(** Scopes accepted one below the other under a policy built from host
    rules have pairwise different kinds, so there are at most as many levels as
    rules; every scope but the last, the root, names the id of the next as its
    parent, and the root names none. *)
Theorem accepted_chain_bounded (rules : list ScopeKindRule) (policy : ScopePolicy)
    (chain : list ScopeIdentity) :
  from_host_rules rules = Ok policy → accepted_chain policy chain →
  NoDup (scope_kind <$> chain) ∧ vec_len chain <= vec_len rules ∧
  (scope_parent_id <$> chain) = (Some <$> tail (scope_id <$> chain)) ++ [None].
Proof.
  intros Hr Hch. pose proof (from_host_rules_spec rules) as Hwf. rewrite Hr in Hwf.
  assert (Hnd : NoDup (scope_kind <$> chain)).
  { induction Hch as [s|s p l Hv Hch IH]; [apply NoDup_singleton|].
    rewrite fmap_cons. apply NoDup_cons. split; [|done].
    intros (t & Heq & Ht)%list_elem_of_fmap.
    pose proof (accepted_chain_ancestors policy s (p :: l)) as Hall.
    rewrite Forall_forall in Hall. specialize (Hall ltac:(by constructor) t Ht).
    rewrite <-Heq in Hall. by apply (Acc_no_cycle _ _ (policy_chains_end _ _ Hwf _)) in Hall. }
  split_and!; [done| |].
  - unfold vec_len. rewrite <-(length_fmap scope_kind), <-(length_fmap rule_kind rules).
    apply inj_le, submseteq_length, NoDup_submseteq; [done|].
    intros k (s & -> & Hs)%list_elem_of_fmap.
    assert (Hk : is_Some (policy_rules policy !! scope_kind s)).
    { clear Hnd. induction Hch as [t Hv|t p l Hv _ IH];
        [apply list_elem_of_singleton in Hs as ->|apply elem_of_cons in Hs as [->|Hs]; [|by apply IH]];
        apply validate_identity_iff in Hv; by destruct (policy_rules policy !! _). }
    destruct Hk as [q Hq%(policy_rules_spec _ _ Hwf)].
    by apply (list_elem_of_fmap_2 rule_kind _ (MkRule (scope_kind s) q)).
  - clear Hnd. induction Hch as [s Hv|s p l Hv _ IH]; simpl in *; apply validate_identity_iff in Hv.
    + destruct (policy_rules policy !! _) as [[k|]|]; [naive_solver| |done]. by destruct Hv as [-> _].
    + rewrite IH. destruct (policy_rules policy !! _) as [[k|]|]; [|naive_solver|done].
      destruct Hv as (q & [= <-] & -> & _). done.
Qed.
