(* ===== verification/Permission.v ===== *)
(** * Permission requests of a manifest

    Model of the part of [crates/rho-extension-runtime/src/manifest.rs] that
    checks the paths, hosts and permission requests a manifest declares, and of
    the runtime kinds. *)
From S2P Require Import Prelude Text Errors Model.
#[local] Open Scope Z_scope.

Definition MAX_PERMISSION_CONSTRAINT_ITEMS : Z := 64.
Definition MAX_PERMISSION_PURPOSE_BYTES : Z := 1024.
Definition MAX_PERMISSION_BYTES : Z := 1024 * 1024.
Definition MAX_RELATIVE_PATH_BYTES : Z := 1024.

Inductive RuntimeKind := WebWorker | Wasm.
#[global] Instance RuntimeKind_eq_dec : EqDecision RuntimeKind.
Proof. solve_decision. Defined.
#[global] Instance RuntimeKind_display : Display RuntimeKind := λ k,
  match k with WebWorker => "web-worker" | Wasm => "wasm" end.
Definition RuntimeKind_from_str (value : string) : result ExtensionError RuntimeKind :=
  if bool_decide (value = "web-worker") then Ok WebWorker
  else if bool_decide (value = "wasm") then Ok Wasm
  else Err (UnsupportedRuntimeKind value).

Record PermissionRequest := MkPermissionRequest {
  pr_name : string;
  pr_purpose : option string;
  pr_paths : list string;
  pr_operations : list string;
  pr_schemes : list string;
  pr_hosts : list string;
  pr_methods : list string;
  pr_max_bytes : option Z;
  pr_max_response_bytes : option Z
}.


(** ** Paths *)

Definition is_separator : ascii → bool := one_of ["/"; "\"]%char.

Definition check_component (path component : string) : result ExtensionError () :=
  if str_is_empty component || str_eq component "." then
    Err (ManifestValidation ("path must already be normalized: " +:+ path))
  else if str_eq component ".." then
    Err (ManifestValidation ("parent traversal is not allowed: " +:+ path))
  else if str_contains ":" component then
    Err (ManifestValidation ("device/colon component is not allowed: " +:+ path))
  else Ok ().

Definition validate_relative_path (path : string) : result ExtensionError () :=
  _ ← fail_if (str_is_empty path) (ManifestValidation "path must not be empty");
  _ ← fail_if (MAX_RELATIVE_PATH_BYTES <? str_len path)
        (ManifestValidation ("path exceeds " +:+ display MAX_RELATIVE_PATH_BYTES +:+ " bytes"));
  _ ← fail_if (starts_with_char "/" path || starts_with_char "\" path)
        (ManifestValidation ("absolute path is not allowed: " +:+ path));
  _ ← fail_if (str_contains "\" path)
        (ManifestValidation ("alternate path separators are not allowed: " +:+ path));
  for_each (check_component path) (str_split is_separator path).

Definition validate_relative_paths (paths : list string) : result ExtensionError () :=
  for_each validate_relative_path paths.
Definition validate_relative_entry (entry : string) : result ExtensionError () :=
  validate_relative_paths [entry].

(** ** Hosts and bounds *)

Definition host_byte (c : ascii) : bool :=
  is_ascii_lowercase c || is_ascii_digit c || one_of ["."; "-"]%char c.

Definition validate_host_pattern (host : string) : result ExtensionError () :=
  let domain := default host (strip_prefix "*." host) in
  fail_if (str_is_empty domain || negb (str_contains "." domain) || starts_with_char "." domain
           || ends_with_char "." domain || str_contains "*" domain || str_contains ":" domain
           || str_contains "/" domain || negb (forallb host_byte (str_bytes domain)))
    (ManifestValidation ("invalid network host constraint: " +:+ host)).

Definition validate_positive_bound (value : option Z) (name : string) : result ExtensionError () :=
  fail_if (negb (is_some_and (λ v, (0 <? v) && (v <=? MAX_PERMISSION_BYTES)) value))
    (ManifestValidation (name +:+ " must be between 1 and " +:+ display MAX_PERMISSION_BYTES)).

(** ** Permission requests *)

Definition unsafe_purpose (purpose : string) : bool :=
  negb (str_eq (str_trim purpose) purpose) || str_is_empty purpose
  || (MAX_PERMISSION_PURPOSE_BYTES <? str_len purpose)
  || existsb is_control (chars purpose) || existsb is_bidi_control (chars purpose).

Definition check_item_count (lv : string * list string) : result ExtensionError () :=
  fail_if (MAX_PERMISSION_CONSTRAINT_ITEMS <? vec_len lv.2)
    (ManifestValidation ("permission " +:+ lv.1 +:+ " exceed "
       +:+ display MAX_PERMISSION_CONSTRAINT_ITEMS +:+ " entries")).

Definition nonempty {A} (l : list A) : bool := negb (vec_is_empty l).

Definition validate_permission_request (p : PermissionRequest) : result ExtensionError () :=
  let invalid_shape (expected : string) :=
    ManifestValidation ("permission " +:+ pr_name p +:+ " has fields outside its "
                        +:+ expected +:+ " constraint shape") in
  _ ← fail_if (is_some_and unsafe_purpose (pr_purpose p))
        (ManifestValidation "permission purpose is empty, oversized, or contains unsafe controls");
  _ ← for_each check_item_count
        [("paths", pr_paths p); ("operations", pr_operations p); ("schemes", pr_schemes p);
         ("hosts", pr_hosts p); ("methods", pr_methods p)];
  if str_eq (pr_name p) "project.fs.read" then
    _ ← fail_if (vec_is_empty (pr_paths p) || nonempty (pr_operations p)
                 || nonempty (pr_schemes p) || nonempty (pr_hosts p) || nonempty (pr_methods p)
                 || is_some (pr_max_response_bytes p))
          (invalid_shape "project filesystem");
    _ ← validate_relative_paths (pr_paths p);
    validate_positive_bound (pr_max_bytes p) "maxBytes"
  else if str_eq (pr_name p) "workspace.r.inspect" then
    _ ← fail_if (vec_is_empty (pr_operations p) || nonempty (pr_paths p)
                 || nonempty (pr_schemes p) || nonempty (pr_hosts p) || nonempty (pr_methods p)
                 || is_some (pr_max_response_bytes p))
          (invalid_shape "Workspace R inspection");
    _ ← fail_if (existsb (λ o, negb (str_eq o "metadata" || str_eq o "preview")) (pr_operations p))
          (ManifestValidation "workspace.r.inspect permits only metadata or preview");
    validate_positive_bound (pr_max_bytes p) "maxBytes"
  else if str_eq (pr_name p) "network.fetch" then
    _ ← fail_if (vec_is_empty (pr_schemes p) || vec_is_empty (pr_hosts p)
                 || vec_is_empty (pr_methods p) || nonempty (pr_paths p)
                 || nonempty (pr_operations p) || is_some (pr_max_bytes p))
          (invalid_shape "network fetch");
    _ ← fail_if (existsb (λ s, negb (str_eq s "https")) (pr_schemes p))
          (ManifestValidation "network.fetch permits only https");
    _ ← for_each validate_host_pattern (pr_hosts p);
    _ ← fail_if (existsb (λ m, negb (str_eq m "GET" || str_eq m "HEAD")) (pr_methods p))
          (ManifestValidation "network.fetch permits only GET or HEAD");
    validate_positive_bound (pr_max_response_bytes p) "maxResponseBytes"
  else Err (ManifestValidation ("unsupported permission request: " +:+ pr_name p)).

(** ** Lemmas *)

(** A relative path as the manifest accepts it: split at [/], no component is
    empty, [.] or [..], and none holds a backslash or a colon. *)
Definition relative_path_wf (path : string) : Prop :=
  str_len path <= 1024 ∧
  ∀ k, k ∈ split_bytes (one_of ["/"%char]) (str_bytes path) →
    k ≠ [] ∧ k ≠ ["."%char] ∧ k ≠ ["."; "."]%char ∧ "\"%char ∉ k ∧ ":"%char ∉ k.


Lemma of_bytes_eq l s : of_bytes l = s ↔ l = str_bytes s.
Proof.
  split; [intros <-; by rewrite str_bytes_of_bytes|intros ->; apply of_bytes_str_bytes].
Qed.

Lemma check_component_Ok path component :
  check_component path component = Ok () ↔
  str_bytes component ≠ [] ∧ str_bytes component ≠ ["."%char] ∧
  str_bytes component ≠ ["."; "."]%char ∧ ":"%char ∉ str_bytes component.
Proof.
  unfold check_component, str_is_empty.
  assert (He : ∀ l, str_bytes component = l ↔ component = of_bytes l).
  { intros l. split; [intros <-; by rewrite of_bytes_str_bytes|intros ->; apply str_bytes_of_bytes]. }
  rewrite !He. cbn [of_bytes String.string_of_list_ascii].
  destruct (decide (component = "")) as [->|]; [naive_solver|].
  rewrite bool_decide_false by done. simpl.
  destruct (str_eq component ".") eqn:H1; [apply str_eq_true in H1; naive_solver|].
  destruct (str_eq component "..") eqn:H2; [apply str_eq_true in H2; naive_solver|].
  apply str_eq_false in H1, H2.
  destruct (str_contains ":" component) eqn:H3.
  - apply str_contains_true in H3. naive_solver.
  - apply str_contains_false in H3. naive_solver.
Qed.

Lemma split_separators l :
  "\"%char ∉ l → split_bytes is_separator l = split_bytes (one_of ["/"%char]) l.
Proof.
  intros Hl. apply split_bytes_ext. intros c Hc. unfold is_separator, one_of.
  apply bool_decide_ext. set_solver.
Qed.

Lemma starts_with_separator_split c s :
  starts_with_char c s = true → [] ∈ split_bytes (one_of [c]) (str_bytes s).
Proof.
  intros (l & Hl)%starts_with_char_true. rewrite Hl. simpl.
  unfold one_of at 1. rewrite bool_decide_true by by left. by left.
Qed.

Lemma validate_relative_path_Ok path : validate_relative_path path = Ok () ↔ relative_path_wf path.
Proof.
  unfold validate_relative_path, relative_path_wf.
  rewrite !bind_unit_Ok_iff, !fail_if_Ok, for_each_Ok, Forall_forall, Z.ltb_ge, orb_false_iff.
  assert (Hk : ∀ k, k ∈ split_bytes is_separator (str_bytes path) →
    (check_component path (of_bytes k) = Ok () ↔
     k ≠ [] ∧ k ≠ ["."%char] ∧ k ≠ ["."; "."]%char ∧ ":"%char ∉ k))
    by (intros k _; by rewrite check_component_Ok, str_bytes_of_bytes).
  unfold str_split. split.
  - intros (_ & Hlen & _ & Hb%str_contains_false & Hc). split; [done|].
    rewrite <-(split_separators _ Hb). intros k Hin.
    destruct (proj1 (Hk k Hin)) as (? & ? & ? & ?); [by apply Hc, list_elem_of_fmap_2|].
    split_and!; try done. intros Hbk. apply Hb. by apply (split_bytes_sub _ _ _ _ Hin).
  - intros [Hlen Hall].
    assert (Hb : "\"%char ∉ str_bytes path).
    { intros Hb. apply (split_bytes_elem (one_of ["/"%char])) in Hb as (k & Hin & Hb); [|done].
      by destruct (Hall k Hin) as (_ & _ & _ & Hn & _). }
    rewrite <-(split_separators _ Hb) in Hall. split_and!; [|done| | | |].
    + apply not_true_iff_false. intros He. unfold str_is_empty in He.
      apply bool_decide_eq_true in He as ->. destruct (Hall []) as [Hne _]; [by left|done].
    + apply not_true_iff_false. intros (l & Hl)%starts_with_char_true. rewrite Hl in Hall.
      destruct (Hall []) as [Hne _]; [by left|done].
    + apply not_true_iff_false. intros (l & Hl)%starts_with_char_true. rewrite Hl in Hb.
      apply Hb. by left.
    + by apply str_contains_false.
    + intros s (k & -> & Hin)%list_elem_of_fmap. apply Hk; [done|]. destruct (Hall k Hin). naive_solver.
Qed.

Lemma validate_host_pattern_Ok host :
  validate_host_pattern host = Ok () ↔
  let domain := str_bytes (default host (strip_prefix "*." host)) in
  "."%char ∈ domain ∧ head domain ≠ Some "."%char ∧ last domain ≠ Some "."%char ∧
  Forall (λ c, host_byte c = true) domain.
Proof.
  unfold validate_host_pattern. rewrite fail_if_Ok. set (d := default _ _). simpl.
  rewrite !orb_false_iff, !negb_false_iff, forallb_True, !str_contains_false, str_contains_true.
  rewrite Forall_forall, starts_with_char_false, ends_with_char_false. split; [naive_solver|]. intros (Hdot & ? & ? & Hall). split_and!; try done.
  - unfold str_is_empty. apply bool_decide_eq_false. intros ->. by apply not_elem_of_nil in Hdot.
  - by intros ?%Hall.
  - by intros ?%Hall.
  - by intros ?%Hall.
Qed.

Lemma validate_positive_bound_Ok value name :
  validate_positive_bound value name = Ok () ↔ ∃ v, value = Some v ∧ 0 < v <= 1048576.
Proof.
  unfold validate_positive_bound. rewrite fail_if_Ok, negb_false_iff. unfold MAX_PERMISSION_BYTES.
  destruct value as [v|]; simpl; [|naive_solver]. rewrite andb_true_iff, Z.ltb_lt, Z.leb_le.
  split; [intros [??]; exists v; split; [done|lia]|]. intros (? & [= <-] & ?). lia.
Qed.

(** *** Paths resolved below a root *)

(** How the host reads a relative path: [.] and empty components stay, [..]
    goes up one directory, any other component goes down. *)
Fixpoint resolve_components (at_dir : list (list ascii)) (components : list (list ascii))
    : option (list (list ascii)) :=
  match components with
  | [] => Some at_dir
  | k :: ks =>
      if decide (k = [] ∨ k = ["."%char]) then resolve_components at_dir ks
      else if decide (k = ["."; "."]%char) then
        match reverse at_dir with
        | [] => None
        | _ :: up => resolve_components (reverse up) ks
        end
      else resolve_components (at_dir ++ [k]) ks
  end.

Lemma resolve_components_plain root ks :
  (∀ k, k ∈ ks → k ≠ [] ∧ k ≠ ["."%char] ∧ k ≠ ["."; "."]%char) →
  resolve_components root ks = Some (root ++ ks).
Proof.
  revert root. induction ks as [|k ks IH]; intros root Hks; simpl; [by rewrite app_nil_r|].
  destruct (Hks k) as (? & ? & ?); [by left|].
  rewrite decide_False by naive_solver. rewrite decide_False by done.
  rewrite IH by (intros; apply Hks; by right). by rewrite <-app_assoc.
Qed.

(** the path check accepts exactly the relative paths of at most 1024 bytes
    whose [/]-separated components are not empty, [.] or [..] and hold no
    backslash and no colon; an accepted path resolves, from any directory, to the file
    its components name below that directory, and so never leaves it. *)
Theorem validate_relative_path_correct (path : string) :
  (validate_relative_path path = Ok () ↔ relative_path_wf path) ∧
  ∀ root, validate_relative_path path = Ok () →
    let components := split_bytes (one_of ["/"%char]) (str_bytes path) in
    components ≠ [] ∧ resolve_components root components = Some (root ++ components).
Proof.
  split; [apply validate_relative_path_Ok|]. intros root [_ Hall]%validate_relative_path_Ok.
  split; [apply split_bytes_not_nil|]. apply resolve_components_plain.
  intros k Hk. destruct (Hall k Hk). naive_solver.
Qed.

Lemma validate_relative_path_correct_witness :
  resolve_components [["r"%char]] (split_bytes (one_of ["/"%char]) (str_bytes "data/a.csv")) =
  Some [["r"]; ["d"; "a"; "t"; "a"]; ["a"; "."; "c"; "s"; "v"]]%char.
Proof.
  refine (proj2 (proj2 (validate_relative_path_correct "data/a.csv") [["r"%char]] _)).
  vm_compute. reflexivity.
Defined.
