(* ===== verification/Glob.v ===== *)
(** * Resource patterns

    Model of the pattern functions of
    [crates/rho-extension-runtime/src/grant.rs]: relative paths and their
    patterns, host patterns, and the glob matcher with its set of visited
    positions. *)
From S2P Require Import Prelude Text Permission.
#[local] Open Scope Z_scope.

(** ** Paths and hosts *)

Definition valid_relative_pattern (path : string) : bool :=
  negb (str_is_empty path) && negb (starts_with_char "/" path) && negb (starts_with_char "\" path)
  && negb (str_contains ":" path)
  && negb (existsb (λ component, str_eq component "..") (str_split is_separator path)).

Definition valid_relative_path (path : string) : bool :=
  valid_relative_pattern path && negb (str_contains "\" path)
  && negb (existsb (λ component, str_is_empty component || str_eq component ".")
             (str_split (one_of ["/"%char]) path)).

Definition valid_host_pattern (host : string) : bool :=
  let domain := default host (strip_prefix "*." host) in
  negb (str_is_empty domain) && str_contains "." domain && negb (starts_with_char "." domain)
  && negb (ends_with_char "." domain) && negb (str_contains "*" domain)
  && forallb host_byte (str_bytes domain).

(** The byte before the suffix, [host.as_bytes()[host.len() - suffix.len() - 1]]. *)
Definition byte_before (suffix host : string) : option ascii :=
  str_bytes host !! (length (str_bytes host) - length (str_bytes suffix) - 1)%nat.

Definition host_matches (pattern host : string) : bool :=
  if negb (valid_host_pattern pattern) || negb (valid_host_pattern host) || starts_with "*." host
  then false
  else match strip_prefix "*." pattern with
       | Some suffix =>
           (str_len suffix <? str_len host) && ends_with suffix host
           && bool_decide (byte_before suffix host = Some "."%char)
       | None => str_eq pattern host
       end.

(** ** The glob matcher *)

Definition Seen : Type := gset (nat * nat).

(** [visit]: whether the pattern from [pi] on matches the value from [vi] on,
    and the visited positions.  A position visited before answers [false]: its
    first visit failed, or the whole search would have ended.  [None] means that
    the fuel ran out, which [visit_spec] excludes. *)
Fixpoint visit (pattern value : list ascii) (fuel pi vi : nat) (seen : gset (nat * nat))
    : option (bool * gset (nat * nat)) :=
  match fuel with
  | O => None
  | S fuel =>
      if decide ((pi, vi) ∈ seen) then Some (false, seen)
      else
        let seen := {[(pi, vi)]} ∪ seen in
        match pattern !! pi with
        | None => Some (bool_decide (vi = length value), seen)
        | Some p =>
            if decide (p = "*"%char) then
              let double := bool_decide (pattern !! (pi + 1)%nat = Some "*"%char) in
              let next := (pi + if double then 2 else 1)%nat in
              r1 ← visit pattern value fuel next vi seen;
              if r1.1 : bool then Some r1
              else
                r2 ← (if double && bool_decide (pattern !! next = Some "/"%char)
                      then visit pattern value fuel (next + 1) vi r1.2
                      else Some (false, r1.2));
                if r2.1 : bool then Some r2
                else
                  match value !! vi with
                  | Some v =>
                      if double || negb (bool_decide (v = "/"%char))
                      then visit pattern value fuel pi (vi + 1) r2.2
                      else Some (false, r2.2)
                  | None => Some (false, r2.2)
                  end
            else
              match value !! vi with
              | None => Some (false, seen)
              | Some v =>
                  r1 ← (if bool_decide (p = "?"%char) && negb (bool_decide (v = "/"%char))
                        then visit pattern value fuel (pi + 1) (vi + 1) seen
                        else Some (false, seen));
                  if r1.1 : bool then Some r1
                  else if decide (p = v) then visit pattern value fuel (pi + 1) (vi + 1) r1.2
                  else Some (false, r1.2)
              end
        end
  end.

Definition glob_matches (pattern value : string) : bool :=
  let p := str_bytes pattern in
  let v := str_bytes value in
  match visit p v (S (length p + length v)) 0 0 ∅ with
  | Some (b, _) => b
  | None => false
  end.

(** ** What a pattern means *)

Inductive token := Literal (c : ascii) | AnyByte | Star | DoubleStar.

(** [**] and [**/] are one token; [*] and [?] do not cross a [/]. *)
Fixpoint tokens (p : list ascii) : list token :=
  match p with
  | [] => []
  | c :: p' =>
      if decide (c = "*"%char) then
        match p' with
        | c1 :: p1 =>
            if decide (c1 = "*"%char) then
              match p1 with
              | c2 :: p2 => if decide (c2 = "/"%char) then DoubleStar :: tokens p2 else DoubleStar :: tokens p1
              | [] => [DoubleStar]
              end
            else Star :: tokens p'
        | [] => [Star]
        end
      else if decide (c = "?"%char) then AnyByte :: tokens p' else Literal c :: tokens p'
  end.

(** The strings a list of tokens denotes. *)
Fixpoint denotes (ts : list token) (v : list ascii) : Prop :=
  match ts with
  | [] => v = []
  | Literal c :: ts => ∃ v', v = c :: v' ∧ denotes ts v'
  | AnyByte :: ts => ∃ c v', v = c :: v' ∧ c ≠ "/"%char ∧ denotes ts v'
  | Star :: ts => ∃ v1 v2, v = v1 ++ v2 ∧ "/"%char ∉ v1 ∧ denotes ts v2
  | DoubleStar :: ts => ∃ v1 v2, v = v1 ++ v2 ∧ denotes ts v2
  end.

(** *** Unfolding the meaning one byte at a time *)

Definition matches (p v : list ascii) : Prop := denotes (tokens p) v.

Lemma denotes_double_star ts v :
  denotes (DoubleStar :: ts) v ↔
  denotes ts v ∨ ∃ c v', v = c :: v' ∧ denotes (DoubleStar :: ts) v'.
Proof.
  simpl. split.
  - intros ([|c v1] & v2 & -> & Hd); [by left|]. right. exists c, (v1 ++ v2). split; [done|].
    by exists v1, v2.
  - intros [Hd|(c & v' & -> & v1 & v2 & -> & Hd)].
    + by exists [], v.
    + by exists (c :: v1), v2.
Qed.
Lemma denotes_star ts v :
  denotes (Star :: ts) v ↔
  denotes ts v ∨ ∃ c v', v = c :: v' ∧ c ≠ "/"%char ∧ denotes (Star :: ts) v'.
Proof.
  simpl. split.
  - intros ([|c v1] & v2 & -> & Hs & Hd); [by left|]. apply not_elem_of_cons in Hs as [Hc Hs].
    right. exists c, (v1 ++ v2). split_and!; [done|done|]. by exists v1, v2.
  - intros [Hd|(c & v' & -> & Hc & v1 & v2 & -> & Hs & Hd)].
    + exists [], v. split_and!; [done|apply not_elem_of_nil|done].
    + exists (c :: v1), v2. split_and!; [done|by apply not_elem_of_cons|done].
Qed.

Lemma tokens_double_star p :
  tokens ("*"%char :: "*"%char :: p) =
  DoubleStar :: tokens (match p with
                        | c :: p' => if decide (c = "/"%char) then p' else p
                        | [] => []
                        end).
Proof. destruct p as [|c p]; [done|]. simpl. by case_decide. Qed.

Lemma matches_double_star p v :
  matches ("*"%char :: "*"%char :: p) v ↔
  matches p v ∨ (∃ p', p = "/"%char :: p' ∧ matches p' v) ∨
  ∃ c v', v = c :: v' ∧ matches ("*"%char :: "*"%char :: p) v'.
Proof.
  unfold matches. rewrite tokens_double_star, denotes_double_star.
  destruct p as [|c p]; [naive_solver|]. destruct (decide (c = "/"%char)) as [->|Hc]; [|naive_solver].
  split; [naive_solver|]. intros [H|[(p' & [= <-] & H)|H]]; [|by left|by right].
  simpl in H. destruct H as (v' & -> & H). right. exists "/"%char, v'. split; [done|].
  apply denotes_double_star. by left.
Qed.

Lemma matches_star p v :
  head p ≠ Some "*"%char →
  matches ("*"%char :: p) v ↔
  matches p v ∨ ∃ c v', v = c :: v' ∧ c ≠ "/"%char ∧ matches ("*"%char :: p) v'.
Proof.
  intros Hp. unfold matches.
  assert (tokens ("*"%char :: p) = Star :: tokens p) as ->.
  { destruct p as [|c p]; [done|]. simpl in *. rewrite decide_False; [done|congruence]. }
  apply denotes_star.
Qed.

Lemma matches_byte c p v :
  c ≠ "*"%char →
  matches (c :: p) v ↔
  ∃ d v', v = d :: v' ∧ ((c = "?"%char ∧ d ≠ "/"%char) ∨ c = d) ∧ matches p v'.
Proof.
  intros Hc. unfold matches. simpl. rewrite decide_False by done. case_decide as Hq; simpl.
  - subst c. split; [naive_solver|]. intros (d & v' & -> & [[_ Hd]| <-] & Hm); by eauto 10.
  - naive_solver.
Qed.

(** *** The matcher *)

Section visit.
Context (pattern value : list ascii).

Definition matches_at (pi vi : nat) : Prop := matches (drop pi pattern) (drop vi value).
Definition measure (pi vi : nat) : nat := (length pattern - pi) + (length value - vi).

(** Every visited position failed, or is being visited further out. *)
Definition seen_ok (pi vi : nat) (seen : gset (nat * nat)) : Prop :=
  ∀ q, q ∈ seen → ¬ matches_at q.1 q.2 ∨ (measure pi vi < measure q.1 q.2)%nat.
Definition visited (M : Prop) (seen : gset (nat * nat)) (r : option (bool * gset (nat * nat))) : Prop :=
  match r with
  | Some (true, _) => M
  | Some (false, seen') => ¬ M ∧ ∀ q, q ∈ seen' → q ∈ seen ∨ ¬ matches_at q.1 q.2
  | None => False
  end.

Lemma drop_lookup {A} (l : list A) i x : l !! i = Some x → drop i l = x :: drop (i + 1) l.
Proof. intros Hx. rewrite (drop_S l x i Hx). by rewrite Nat.add_1_r. Qed.
Lemma drop_head {A} (l : list A) i : head (drop i l) = l !! i.
Proof. rewrite head_lookup, lookup_drop. by rewrite Nat.add_0_r. Qed.

Lemma matches_at_star pi vi :
  pattern !! pi = Some "*"%char →
  let double := bool_decide (pattern !! (pi + 1)%nat = Some "*"%char) in
  let next := (pi + if double then 2 else 1)%nat in
  matches_at pi vi ↔
  matches_at next vi ∨
  (double && bool_decide (pattern !! next = Some "/"%char) = true ∧ matches_at (next + 1) vi) ∨
  (∃ v, value !! vi = Some v ∧ double || negb (bool_decide (v = "/"%char)) = true ∧
     matches_at pi (vi + 1)).
Proof.
  intros Hp double next. unfold matches_at.
  assert (Hv : ∀ P : ascii → list ascii → Prop,
    (∃ c v', drop vi value = c :: v' ∧ P c v') ↔
    ∃ c, value !! vi = Some c ∧ P c (drop (vi + 1) value)).
  { intros P. split.
    - intros (c & v' & Hd & HP). pose proof (drop_head value vi) as Hh. rewrite Hd in Hh.
      exists c. split; [done|]. symmetry in Hh. apply drop_lookup in Hh. rewrite Hd in Hh. by injection Hh as <-.
    - intros (c & Hc & HP). exists c, (drop (vi + 1) value). split; [by apply drop_lookup|done]. }
  rewrite (drop_lookup _ _ _ Hp). subst double next.
  destruct (decide (pattern !! (pi + 1)%nat = Some "*"%char)) as [H2|H2].
  - rewrite (drop_lookup _ _ _ H2).
    rewrite !bool_decide_true by done. simpl. replace (pi + 1 + 1)%nat with (pi + 2)%nat by lia.
    rewrite matches_double_star, Hv. rewrite bool_decide_eq_true.
    assert ((∃ p', drop (pi + 2) pattern = "/"%char :: p' ∧ matches p' (drop vi value)) ↔
      pattern !! (pi + 2)%nat = Some "/"%char ∧ matches (drop (pi + 2 + 1) pattern) (drop vi value)) as ->.
    { split.
      - intros (p' & Hd & Hm). pose proof (drop_head pattern (pi + 2)) as Hh. rewrite Hd in Hh.
        symmetry in Hh. split; [done|]. apply drop_lookup in Hh. rewrite Hd in Hh. by injection Hh as <-.
      - intros [Hs Hm]. exists (drop (pi + 2 + 1) pattern). split; [by apply drop_lookup|done]. }
    naive_solver.
  - rewrite !bool_decide_false by done. simpl. rewrite matches_star by by rewrite drop_head.
    rewrite (Hv (λ c v', c ≠ "/"%char ∧ matches ("*"%char :: drop (pi + 1) pattern) v')).
    setoid_rewrite negb_true_iff. setoid_rewrite bool_decide_eq_false. naive_solver.
Qed.

Lemma matches_at_byte pi vi p :
  pattern !! pi = Some p → p ≠ "*"%char →
  matches_at pi vi ↔
  ∃ v, value !! vi = Some v ∧ ((p = "?"%char ∧ v ≠ "/"%char) ∨ p = v) ∧ matches_at (pi + 1) (vi + 1).
Proof.
  intros Hp Hs. unfold matches_at. rewrite (drop_lookup _ _ _ Hp), matches_byte by done. split.
  - intros (d & v' & Hd & Hc & Hm). pose proof (drop_head value vi) as Hh. rewrite Hd in Hh.
    symmetry in Hh. exists d. split_and!; [done|done|]. apply drop_lookup in Hh. rewrite Hd in Hh.
    by injection Hh as <-.
  - intros (v & Hv & Hc & Hm). exists v, (drop (vi + 1) value).
    split_and!; [by apply drop_lookup|done|done].
Qed.

Lemma matches_at_end pi vi :
  pattern !! pi = None → (vi ≤ length value)%nat → matches_at pi vi ↔ vi = length value.
Proof.
  intros Hp%lookup_ge_None Hv. unfold matches_at, matches. rewrite (drop_ge pattern) by done.
  simpl. split; [|intros ->; by apply drop_all].
  intros Hd%(f_equal length). rewrite length_drop in Hd. simpl in Hd. lia.
Qed.

(** A further position is visited with the current one marked. *)
Lemma seen_ok_step pi vi pi' vi' seen seen' :
  seen_ok pi vi seen → (measure pi' vi' < measure pi vi)%nat →
  (∀ q, q ∈ seen' → q ∈ {[(pi, vi)]} ∪ seen ∨ ¬ matches_at q.1 q.2) →
  seen_ok pi' vi' seen'.
Proof.
  intros Hok Hlt Hs q Hq. destruct (Hs q Hq) as [[->%elem_of_singleton|Hin]%elem_of_union|]; [| |by left].
  - by right.
  - destruct (Hok q Hin); [by left|right; lia].
Qed.

Lemma visited_seen M pi vi seen seen' :
  (∀ q, q ∈ seen' → q ∈ {[(pi, vi)]} ∪ seen ∨ ¬ matches_at q.1 q.2) →
  ¬ matches_at pi vi → ¬ M → visited M seen (Some (false, seen')).
Proof.
  intros Hs Hn HM. split; [done|]. intros q Hq.
  destruct (Hs q Hq) as [[->%elem_of_singleton|Hin]%elem_of_union|]; auto.
Qed.

Lemma visited_iff M M' seen r : (M ↔ M') → visited M seen r → visited M' seen r.
Proof. destruct r as [[[] ?]|]; simpl; tauto. Qed.
Lemma visited_skip M seen : ¬ M → visited M seen (Some (false, seen)).
Proof. intros HM. split; [done|by left]. Qed.
(** A search that failed everywhere it had to look fails here. *)
Lemma visited_failed (pi vi : nat) seen seen' :
  (∀ q, q ∈ seen' → q ∈ {[(pi, vi)]} ∪ seen ∨ ¬ matches_at q.1 q.2) →
  ¬ matches_at pi vi → visited (matches_at pi vi) seen (Some (false, seen')).
Proof. intros. by apply (visited_seen _ pi vi). Qed.

Lemma measure_lt pi vi pi' vi' :
  (pi ≤ pi')%nat → (vi ≤ vi')%nat → (pi < pi' ∧ pi < length pattern ∨ vi < vi' ∧ vi < length value)%nat →
  (measure pi' vi' < measure pi vi)%nat.
Proof. unfold measure. lia. Qed.

Lemma visit_spec fuel pi vi seen :
  (measure pi vi < fuel)%nat → (vi ≤ length value)%nat → seen_ok pi vi seen →
  visited (matches_at pi vi) seen (visit pattern value fuel pi vi seen).
Proof.
  revert pi vi seen. induction fuel as [|fuel IH]; intros pi vi seen Hf Hvi Hok; [lia|].
  cbn [visit]. destruct (decide ((pi, vi) ∈ seen)) as [Hin|_].
  { split; [destruct (Hok _ Hin); [done|simpl in *; lia]|by left]. }
  set (seen1 := {[(pi, vi)]} ∪ seen).
  assert (Hs0 : ∀ q, q ∈ seen1 → q ∈ {[(pi, vi)]} ∪ seen ∨ ¬ matches_at q.1 q.2) by by left.
  destruct (pattern !! pi) as [p|] eqn:Hp.
  2:{ pose proof (matches_at_end pi vi Hp Hvi) as Hend. case_bool_decide.
      - by apply Hend.
      - apply visited_failed; [done|by rewrite Hend]. }
  pose proof (lookup_lt_Some _ _ _ Hp) as Hpi.
  assert (IHs : ∀ pi' vi' seen', (measure pi' vi' < measure pi vi)%nat → (vi' ≤ length value)%nat →
    (∀ q, q ∈ seen' → q ∈ {[(pi, vi)]} ∪ seen ∨ ¬ matches_at q.1 q.2) →
    visited (matches_at pi' vi') seen' (visit pattern value fuel pi' vi' seen')).
  { intros pi' vi' seen' Hlt Hv' Hs'. apply IH; [lia|done|]. by eapply seen_ok_step. }
  assert (Htrans : ∀ s s' : gset (nat * nat),
    (∀ q, q ∈ s → q ∈ {[(pi, vi)]} ∪ seen ∨ ¬ matches_at q.1 q.2) →
    (∀ q, q ∈ s' → q ∈ s ∨ ¬ matches_at q.1 q.2) →
    ∀ q, q ∈ s' → q ∈ {[(pi, vi)]} ∪ seen ∨ ¬ matches_at q.1 q.2).
  { intros s s' H1 H2 q Hq. destruct (H2 q Hq); auto. }
  destruct (decide (p = "*"%char)) as [->|Hstar].
  - pose proof (matches_at_star pi vi Hp) as Hm. cbv zeta in Hm |- *.
    set (double := bool_decide (pattern !! (pi + 1)%nat = Some "*"%char)) in *.
    set (next := (pi + if double then 2 else 1)%nat) in *.
    assert (Hnext : (pi < next)%nat) by (unfold next; destruct double; lia).
    pose proof (IHs next vi seen1 ltac:(apply measure_lt; lia) Hvi Hs0) as H1.
    destruct (visit pattern value fuel next vi seen1) as [[[] s1]|]; [|destruct H1 as [Hn1 Hs1]|done];
      cbn [mbind option_bind fst snd].
    { apply Hm. by left. }
    specialize (Htrans _ _ Hs0 Hs1) as Hs1'.
    set (r2 := if double && bool_decide (pattern !! next = Some "/"%char)
               then visit pattern value fuel (next + 1) vi s1 else Some (false, s1)).
    assert (H2 : visited (double && bool_decide (pattern !! next = Some "/"%char) = true ∧
                          matches_at (next + 1) vi) s1 r2).
    { unfold r2. destruct (double && _); [|by apply visited_skip; intros []].
      eapply visited_iff; [|by apply (IHs (next + 1)%nat vi s1 ltac:(apply measure_lt; lia))]. tauto. }
    destruct r2 as [[[] s2]|]; [|destruct H2 as [Hn2 Hs2]|done]; cbn [mbind option_bind fst snd].
    { apply Hm. by right; left. }
    specialize (Htrans _ _ Hs1' Hs2) as Hs2'.
    destruct (value !! vi) as [v|] eqn:Hv.
    2:{ apply visited_failed; [done|]. rewrite Hm. by intros [?|[?|(v' & ? & _)]]. }
    destruct (double || negb (bool_decide (v = "/"%char))) eqn:Hc.
    2:{ apply visited_failed; [done|]. rewrite Hm. intros [?|[?|(v' & [= <-] & ? & _)]]; [done..|congruence]. }
    pose proof (lookup_lt_Some _ _ _ Hv).
    pose proof (IHs pi (vi + 1)%nat s2 ltac:(apply measure_lt; lia) ltac:(lia) Hs2') as H3.
    destruct (visit _ _ _ _ _ _) as [[[] s3]|]; [|destruct H3 as [Hn3 Hs3]|done].
    + apply Hm. right; right. by exists v.
    + apply visited_failed; [by eapply Htrans|]. rewrite Hm. by intros [?|[?|(v' & _ & _ & ?)]].
  - pose proof (matches_at_byte pi vi p Hp Hstar) as Hm.
    destruct (value !! vi) as [v|] eqn:Hv.
    2:{ apply visited_failed; [done|]. rewrite Hm. by intros (v' & ? & _). }
    pose proof (lookup_lt_Some _ _ _ Hv).
    set (c1 := bool_decide (p = "?"%char) && negb (bool_decide (v = "/"%char))).
    assert (Hc1 : c1 = true ↔ p = "?"%char ∧ v ≠ "/"%char)
      by (unfold c1; rewrite andb_true_iff, negb_true_iff, bool_decide_eq_true, bool_decide_eq_false; done).
    assert (Hlt : (measure (pi + 1) (vi + 1) < measure pi vi)%nat) by (apply measure_lt; lia).
    set (r1 := if c1 then visit pattern value fuel (pi + 1) (vi + 1) seen1 else Some (false, seen1)).
    assert (H1 : visited (c1 = true ∧ matches_at (pi + 1) (vi + 1)) seen1 r1).
    { unfold r1. destruct c1; [|by apply visited_skip; intros []].
      eapply visited_iff; [|apply (IHs _ _ seen1 Hlt ltac:(lia) Hs0)]. tauto. }
    destruct r1 as [[[] s1]|]; [|destruct H1 as [Hn1 Hs1]|done]; cbn [mbind option_bind fst snd].
    { destruct H1 as [[??]%Hc1 ?]. apply Hm. exists v. auto. }
    specialize (Htrans _ _ Hs0 Hs1) as Hs1'.
    destruct (decide (p = v)) as [Hpv|Hpv].
    2:{ apply visited_failed; [done|]. rewrite Hm. intros (v' & [= <-] & [Hq| ->] & ?); [|done].
        by apply Hn1; rewrite Hc1. }
    pose proof (IHs _ _ s1 Hlt ltac:(lia) Hs1') as H3.
    destruct (visit _ _ _ _ _ _) as [[[] s3]|]; [|destruct H3 as [Hn3 Hs3]|done].
    + apply Hm. exists v. auto.
    + apply visited_failed; [by eapply Htrans|]. rewrite Hm. by intros (v' & _ & _ & ?).
Qed.
End visit.

Lemma glob_matches_spec pattern value :
  glob_matches pattern value = true ↔ matches (str_bytes pattern) (str_bytes value).
Proof.
  set (p := str_bytes pattern). set (v := str_bytes value).
  assert (Hv : visited p v (matches_at p v 0 0) ∅ (visit p v (S (length p + length v)) 0 0 ∅)).
  { apply visit_spec; [unfold measure; lia|lia|]. intros q Hq. set_solver. }
  change (matches p v) with (matches_at p v 0 0). unfold glob_matches.
  fold p v. destruct (visit p v _ 0 0 ∅) as [[[] s]|]; simpl in Hv; naive_solver.
Qed.

(** *** Paths *)

Lemma valid_relative_pattern_true path :
  valid_relative_pattern path = true ↔
  head (str_bytes path) ≠ None ∧ head (str_bytes path) ≠ Some "/"%char ∧
  head (str_bytes path) ≠ Some "\"%char ∧ ":"%char ∉ str_bytes path ∧
  ["."; "."]%char ∉ split_bytes is_separator (str_bytes path).
Proof.
  unfold valid_relative_pattern. rewrite !andb_true_iff, !negb_true_iff.
  rewrite str_contains_false, existsb_False. unfold starts_with_char.
  assert (He : str_is_empty path = false ↔ head (str_bytes path) ≠ None).
  { unfold str_is_empty. rewrite bool_decide_eq_false.
    destruct path; simpl; naive_solver. }
  rewrite He. setoid_rewrite str_eq_false. unfold str_split.
  assert (Hs : (∀ x, x ∈ of_bytes <$> split_bytes is_separator (str_bytes path) → x ≠ "..") ↔
    ["."; "."]%char ∉ split_bytes is_separator (str_bytes path)).
  { setoid_rewrite list_elem_of_fmap. split.
    - intros Hx Hin. apply (Hx ".."); [by exists ["."; "."]%char|done].
    - intros Hn x (k & -> & Hk) Hdots. apply of_bytes_eq in Hdots. by rewrite Hdots in Hk. }
  rewrite Hs. destruct (str_bytes path) as [|c l]; simpl; [naive_solver|].
  rewrite !bool_decide_eq_false. naive_solver.
Qed.

Lemma valid_relative_path_true path :
  valid_relative_path path = true ↔
  ∀ k, k ∈ split_bytes (one_of ["/"%char]) (str_bytes path) →
    k ≠ [] ∧ k ≠ ["."%char] ∧ k ≠ ["."; "."]%char ∧ "\"%char ∉ k ∧ ":"%char ∉ k.
Proof.
  unfold valid_relative_path. rewrite !andb_true_iff, !negb_true_iff.
  rewrite valid_relative_pattern_true, str_contains_false, existsb_False.
  unfold str_split. setoid_rewrite list_elem_of_fmap. split.
  - intros [[(Hne & Hs & Hbs & Hc & Hd) Hb] Hx]. rewrite (split_separators _ Hb) in Hd.
    intros k Hk. specialize (Hx (of_bytes k) ltac:(by exists k)).
    apply orb_false_iff in Hx as [Hx1 Hx2]. unfold str_is_empty in Hx1.
    apply bool_decide_eq_false in Hx1. apply str_eq_false in Hx2.
    split_and!; [by intros ->|by intros ->|by intros ->| |].
    + intros Hin. by apply Hb, (split_bytes_sub _ _ _ _ Hk).
    + intros Hin. by apply Hc, (split_bytes_sub _ _ _ _ Hk).
  - intros Hall.
    assert (Hn : ∀ c, c ≠ "/"%char → (∀ k, k ∈ split_bytes (one_of ["/"%char]) (str_bytes path) → c ∉ k) →
      c ∉ str_bytes path).
    { intros c Hc Hk Hin. destruct (split_bytes_elem (one_of ["/"%char]) (str_bytes path) c)
        as (k & ? & ?); [|done|by apply (Hk k)].
      unfold one_of. apply bool_decide_eq_false. by rewrite list_elem_of_singleton. }
    assert (Hb : "\"%char ∉ str_bytes path) by (apply Hn; [done|intros k Hk; by apply Hall]).
    assert (Hc : ":"%char ∉ str_bytes path) by (apply Hn; [done|intros k Hk; by apply Hall]).
    rewrite (split_separators _ Hb). split_and!; try done.
    + intros He. destruct (str_bytes path); [|done]. by destruct (Hall []) as [? _]; [left|].
    + intros He. destruct (str_bytes path) as [|c l]; [done|]. simpl in He. injection He as ->.
      by destruct (Hall []) as [? _]; [left|].
    + intros He. destruct (str_bytes path) as [|c l]; [done|]. simpl in He. injection He as ->.
      apply Hb. by left.
    + intros Hd. by destruct (Hall _ Hd) as (_ & _ & ? & _).
    + intros x (k & -> & Hk). destruct (Hall k Hk) as (H1 & H2 & _). apply orb_false_iff.
      unfold str_is_empty. rewrite bool_decide_eq_false, str_eq_false, !of_bytes_eq. done.
Qed.

(** *** Directories *)

Definition slashes (l : list ascii) : nat := length (filter (λ c, c = "/"%char) l).
#[export] Instance token_eq_dec : EqDecision token.
Proof. solve_decision. Defined.

Lemma slashes_app l k : slashes (l ++ k) = (slashes l + slashes k)%nat.
Proof. unfold slashes. by rewrite filter_app, length_app. Qed.
Lemma slashes_none l : "/"%char ∉ l → slashes l = 0%nat.
Proof.
  intros Hl. unfold slashes. induction l as [|c l IH]; [done|].
  apply not_elem_of_cons in Hl as [Hc Hl]. rewrite filter_cons_False by congruence. auto.
Qed.
Lemma slashes_cons c l : slashes (c :: l) = ((if decide (c = "/"%char) then 1 else 0) + slashes l)%nat.
Proof. unfold slashes. rewrite filter_cons. by case_decide. Qed.

Lemma denotes_slashes ts v :
  DoubleStar ∉ ts → denotes ts v →
  slashes v = length (filter (λ t, t = Literal "/"%char) ts).
Proof.
  revert v. induction ts as [|t ts IH]; intros v Hd; [by intros ->|].
  apply not_elem_of_cons in Hd as [Ht Hd]. rewrite filter_cons. destruct t; simpl.
  - intros (v' & -> & Hm). rewrite slashes_cons, (IH v' Hd Hm). repeat case_decide; naive_solver.
  - intros (c & v' & -> & Hc & Hm). by rewrite slashes_cons, decide_False, (IH v' Hd Hm).
  - intros (v1 & v2 & -> & Hs & Hm). by rewrite slashes_app, slashes_none, (IH v2 Hd Hm).
  - done.
Qed.

Lemma tokens_slashes_aux n p : (length p ≤ n)%nat → DoubleStar ∉ tokens p →
  length (filter (λ t, t = Literal "/"%char) (tokens p)) = slashes p.
Proof.
  revert p. induction n as [|n IH]; intros [|c p] Hlen; try done; [simpl in Hlen; lia|].
  simpl in Hlen. rewrite slashes_cons. destruct (decide (c = "*"%char)) as [->|Hc].
  - destruct p as [|c1 p]; [done|]. destruct (decide (c1 = "*"%char)) as [->|H1].
    { rewrite tokens_double_star. intros []. by left. }
    assert (tokens ("*"%char :: c1 :: p) = Star :: tokens (c1 :: p)) as ->
      by (cbn [tokens]; rewrite decide_True by done; by rewrite decide_False).
    intros Hd. rewrite filter_cons_False by done. rewrite decide_False by done.
    apply (IH (c1 :: p)); [simpl in *; lia|]. by apply not_elem_of_cons in Hd as [_ ?].
  - cbn [tokens]. rewrite (decide_False (P := c = "*"%char)) by done. case_decide as Hq.
    + subst c. intros Hd. rewrite filter_cons_False by done. rewrite decide_False by done.
      apply IH; [lia|]. by apply not_elem_of_cons in Hd as [_ ?].
    + intros Hd. rewrite filter_cons. apply not_elem_of_cons in Hd as [_ Hd].
      repeat case_decide; simplify_eq; simpl; rewrite (IH p ltac:(lia) Hd); done.
Qed.

(** C30: the glob matcher, with its set of visited positions, accepts exactly the
    strings its pattern denotes, where [*] stands for any bytes without [/], [?] for
    one byte other than [/], [**] and [**/] for any bytes, and every other byte for
    itself; so a pattern without [**] only matches paths that are as deep as itself. *)
Theorem glob_matches_correct (pattern value : string) :
  (glob_matches pattern value = true ↔ denotes (tokens (str_bytes pattern)) (str_bytes value)) ∧
  (DoubleStar ∉ tokens (str_bytes pattern) → glob_matches pattern value = true →
   slashes (str_bytes value) = slashes (str_bytes pattern)).
Proof.
  split; [apply glob_matches_spec|]. intros Hd Hm%glob_matches_spec.
  rewrite (denotes_slashes _ _ Hd Hm). by apply (tokens_slashes_aux (length (str_bytes pattern))).
Qed.

Lemma glob_matches_correct_witness : slashes (str_bytes "data/a.csv") = slashes (str_bytes "data/*.c?v").
Proof.
  refine (proj2 (glob_matches_correct "data/*.c?v" "data/a.csv") _ _).
  - apply (bool_decide_eq_true_1 (DoubleStar ∉ tokens (str_bytes "data/*.c?v"))). vm_compute. reflexivity.
  - vm_compute. reflexivity.
Defined.

(** The double star followed by a slash also matches inside a component. *)
Lemma double_star_inside_component : glob_matches "data/**/input.csv" "data/old-input.csv" = true.
Proof. vm_compute. reflexivity. Qed.

(** *** Hosts *)

Lemma valid_host_pattern_iff host :
  valid_host_pattern host = true ↔ validate_host_pattern host = Ok ().
Proof.
  rewrite validate_host_pattern_Ok. unfold valid_host_pattern. set (d := default _ _). simpl.
  rewrite !andb_true_iff, !negb_true_iff, forallb_True, str_contains_false, str_contains_true.
  rewrite Forall_forall, starts_with_char_false, ends_with_char_false. split; [naive_solver|]. intros (Hdot & ? & ? & Hall). split_and!; try done.
  - unfold str_is_empty. apply bool_decide_eq_false. intros ->. by apply not_elem_of_nil in Hdot.
  - by intros ?%Hall.
Qed.

(** The comparison of a host with the suffix of a wildcard. *)
Lemma host_suffix_iff suffix host :
  (str_len suffix <? str_len host) && ends_with suffix host
  && bool_decide (byte_before suffix host = Some "."%char) = true ↔
  ∃ labels, str_bytes host = labels ++ "."%char :: str_bytes suffix.
Proof.
  rewrite !andb_true_iff, bool_decide_eq_true, ends_with_true, Z.ltb_lt. unfold byte_before, str_len. split.
  - intros [[Hlt [l Hl]] Hb]. rewrite Hl in Hb, Hlt |- *. rewrite length_app in Hb, Hlt.
    destruct (exists_last (l := l)) as (labels & c & ->); [intros ->; simpl in *; lia|].
    rewrite lookup_app_l, lookup_app_r, length_app in Hb by (rewrite ?length_app; simpl; lia).
    simpl in Hb. replace (_ - _)%nat with 0%nat in Hb by lia. injection Hb as ->.
    exists labels. by rewrite <-app_assoc.
  - intros (labels & Hl). rewrite Hl, length_app. simpl.
    split_and!; [lia|by exists (labels ++ ["."%char]); rewrite <-app_assoc|].
    rewrite lookup_app_r by lia. by replace (_ - _)%nat with 0%nat by lia.
Qed.

(** An exact host pattern admits that host only, and a pattern [*.d] admits
    exactly the hosts that end in [.d] with something before it; both pattern and
    host have to be well formed, and a wildcard is never a host. *)
Theorem host_matches_correct (pattern host : string) :
  host_matches pattern host = true ↔
  validate_host_pattern pattern = Ok () ∧ validate_host_pattern host = Ok () ∧
  ¬ (str_bytes "*." `prefix_of` str_bytes host) ∧
  (pattern = host ∨
   ∃ suffix labels, str_bytes pattern = str_bytes "*." ++ suffix ∧ labels ≠ [] ∧
     str_bytes host = labels ++ "."%char :: suffix).
Proof.
  unfold host_matches. rewrite <-!valid_host_pattern_iff.
  destruct (valid_host_pattern pattern) eqn:Hp; [|naive_solver].
  destruct (valid_host_pattern host) eqn:Hh; [|naive_solver].
  assert (Hpre : starts_with "*." host = true ↔ str_bytes "*." `prefix_of` str_bytes host).
  { unfold starts_with. destruct (strip_prefix "*." host) as [t|] eqn:E.
    - apply strip_prefix_Some in E. split; [|done]. intros _. by exists (str_bytes t).
    - split; [done|]. by intros ?%strip_prefix_None. }
  destruct (starts_with "*." host) eqn:Hs; simpl; [naive_solver|].
  assert (Hdot : head (str_bytes host) ≠ Some "."%char).
  { apply valid_host_pattern_iff, validate_host_pattern_Ok in Hh as (_ & Hhd & _).
    destruct (strip_prefix "*." host) eqn:E; [|done].
    apply strip_prefix_Some in E. exfalso. assert (false = true); [|done]. apply Hpre. by eexists. }
  destruct (strip_prefix "*." pattern) as [suffix|] eqn:E.
  - apply strip_prefix_Some in E. rewrite host_suffix_iff. split.
    + intros (labels & Hl). split_and!; [done..|by intros ?%Hpre|]. right.
      exists (str_bytes suffix), labels. split_and!; [done| |done]. intros ->. by rewrite Hl in Hdot.
    + intros (_ & _ & _ & [->|(sfx & labels & Hsfx & Hne & Hl)]).
      { exfalso. assert (false = true); [|done]. apply Hpre. by eexists. }
      rewrite E in Hsfx. injection Hsfx as <-. by exists labels.
  - rewrite str_eq_true. split; [intros ->; split_and!; try done; [by intros ?%Hpre|by left]|].
    intros (_ & _ & _ & [->|(sfx & labels & Hsfx & _)]); [done|].
    apply strip_prefix_None in E. destruct E. by exists sfx.
Qed.
