(* ===== verification/Grant.v ===== *)
(** * The permission grant store

    Model of [crates/rho-extension-runtime/src/grant.rs]: the reference monitor
    that issues, revokes and revalidates permission grants.  The clock and the
    token source are inputs of every operation ([now], [token]); a handle is
    known to the store by the SHA-256 of its id only.  A grant holds the request
    it was issued for, and the fields the store changes. *)
From S2P Require Import Prelude Text Errors Ids External Model Digest Permission Glob Host.
#[local] Open Scope Z_scope.

(** [Duration]s in milliseconds. *)
Definition MAX_ALLOW_ONCE_TTL : Z := 5 * 60 * 1000.
Definition MAX_PROJECT_GRANT_TTL : Z := 30 * 24 * 60 * 60 * 1000.

Inductive PermissionKind := ProjectFsRead | WorkspaceRInspect | NetworkFetch.
#[global] Instance PermissionKind_eq_dec : EqDecision PermissionKind.
Proof. solve_decision. Defined.

Definition PermissionKind_parse (value : string) : option PermissionKind :=
  if str_eq value "project.fs.read" then Some ProjectFsRead
  else if str_eq value "workspace.r.inspect" then Some WorkspaceRInspect
  else if str_eq value "network.fetch" then Some NetworkFetch
  else None.
Definition as_static_str (p : PermissionKind) : string :=
  match p with
  | ProjectFsRead => "project.fs.read"
  | WorkspaceRInspect => "workspace.r.inspect"
  | NetworkFetch => "network.fetch"
  end.

Inductive GrantSource := AllowOnce | Project.
#[global] Instance GrantSource_eq_dec : EqDecision GrantSource.
Proof. solve_decision. Defined.

Record PermissionConstraints := MkConstraints {
  pc_paths : list string;
  pc_operations : list string;
  pc_schemes : list string;
  pc_hosts : list string;
  pc_methods : list string;
  pc_max_bytes : option Z;
  pc_max_response_bytes : option Z
}.
#[global] Instance PermissionConstraints_eq_dec : EqDecision PermissionConstraints.
Proof. solve_decision. Defined.

Definition positive_bound (o : option Z) : bool := is_some_and (λ v, 0 <? v) o.

Definition constraints_valid (permission : PermissionKind) (c : PermissionConstraints) : bool :=
  match permission with
  | ProjectFsRead =>
      nonempty (pc_paths c) && vec_is_empty (pc_operations c) && vec_is_empty (pc_schemes c)
      && vec_is_empty (pc_hosts c) && vec_is_empty (pc_methods c)
      && positive_bound (pc_max_bytes c) && negb (is_some (pc_max_response_bytes c))
      && forallb valid_relative_pattern (pc_paths c)
  | WorkspaceRInspect =>
      vec_is_empty (pc_paths c) && nonempty (pc_operations c) && vec_is_empty (pc_schemes c)
      && vec_is_empty (pc_hosts c) && vec_is_empty (pc_methods c)
      && positive_bound (pc_max_bytes c) && negb (is_some (pc_max_response_bytes c))
  | NetworkFetch =>
      vec_is_empty (pc_paths c) && vec_is_empty (pc_operations c) && nonempty (pc_schemes c)
      && nonempty (pc_hosts c) && nonempty (pc_methods c)
      && negb (is_some (pc_max_bytes c)) && positive_bound (pc_max_response_bytes c)
      && forallb (λ s, str_eq s "https") (pc_schemes c)
      && forallb valid_host_pattern (pc_hosts c)
      && forallb (λ m, str_eq m "GET" || str_eq m "HEAD") (pc_methods c)
  end.
Definition validate_constraints (permission : PermissionKind) (c : PermissionConstraints)
    : result ExtensionError () :=
  fail_if (negb (constraints_valid permission c))
    (ManifestValidation ("invalid constraints for permission " +:+ as_static_str permission)).

Definition from_manifest (request : PermissionRequest) : result ExtensionError PermissionConstraints :=
  permission ← ok_or (PermissionKind_parse (pr_name request))
                 (ManifestValidation ("unsupported permission request: " +:+ pr_name request));
  let constraints := MkConstraints (pr_paths request) (pr_operations request) (pr_schemes request)
    (pr_hosts request) (pr_methods request) (pr_max_bytes request) (pr_max_response_bytes request) in
  _ ← validate_constraints permission constraints;
  Ok constraints.

(** ** Serialization *)

(** What the store takes from [serde_json]: the constraints as a JSON value and
    the value as text; equal texts come from equal constraints. *)
Class SerdeConstraints := {
  JsonValue : Type;
  to_value : PermissionConstraints → result string JsonValue;
  to_string : JsonValue → result string string;
  json_faithful c c' v v' s :
    to_value c = Ok v → to_value c' = Ok v' → to_string v = Ok s → to_string v' = Ok s → c = c'
}.

Section digest.
Context `{Sha256, SerdeConstraints}.

Definition canonical_json (c : PermissionConstraints) : result ExtensionError string :=
  value ← map_err (λ e, ManifestValidation ("permission constraints could not be encoded: " +:+ e))
            (to_value c);
  map_err (λ e, ManifestValidation ("permission constraints could not be canonicalized: " +:+ e))
    (to_string value).

Definition constraints_digest (c : PermissionConstraints) : result ExtensionError string :=
  (λ canonical, sha256_hex (str_bytes canonical)) <$> canonical_json c.
End digest.

(** ** Grants *)

Record WorkspaceGrantIdentity := MkWorkspaceIdentity {
  wi_workspace_id : string;
  wi_kernel_instance_id : string;
  wi_state_revision : Z;
  wi_project_revision : Z
}.
#[global] Instance WorkspaceGrantIdentity_eq_dec : EqDecision WorkspaceGrantIdentity.
Proof. solve_decision. Defined.

Inductive PermissionUse :=
| UseProjectFsRead (relative_path : string) (requested_bytes : Z)
| UseWorkspaceRInspect (operation : string) (requested_bytes : Z)
| UseNetworkFetch (scheme host method : string) (requested_response_bytes : Z).

Inductive GrantErrorKind :=
| UnknownHandle | Revoked | Expired | Consumed | InFlight | NotAdmitted | WrongPlugin
| WrongHostSession | WrongProject | WrongScope | WrongGeneration | WrongPackageDigest
| WrongPermission | WrongWorkspace | ConstraintViolation.
Inductive Revalidation := Allowed | Denied (kind : GrantErrorKind).
#[global] Instance Revalidation_eq_dec : EqDecision Revalidation.
Proof. assert (EqDecision GrantErrorKind) by solve_decision. solve_decision. Defined.

Inductive CompletionClass := Success | FailureBeforeDispatch | Uncertain.

Record RevalidationRequest := MkRevalidation {
  rv_handle_id : string;
  rv_plugin_id : PluginId;
  rv_host_instance_id : HostInstanceId;
  rv_package_digest : PackageDigest;
  rv_project_id : ScopeId;
  rv_scope_id : ScopeId;
  rv_generation : ActivationGeneration;
  rv_permission : PermissionKind;
  rv_use : PermissionUse;
  rv_workspace : option WorkspaceGrantIdentity
}.

Record CapabilityHandle := MkHandle {
  ch_id : string;
  ch_permission : PermissionKind;
  ch_scope_id : ScopeId;
  ch_expires_at : option Z
}.

Section store.
Context `{Semver}.

Record GrantRequest := MkGrantRequest {
  gr_durable_grant_id : string;
  gr_normalized_project_root : string;
  gr_plugin_id : PluginId;
  gr_plugin_version : Version;
  gr_runtime_kind : RuntimeKind;
  gr_host_instance_id : HostInstanceId;
  gr_package_digest : PackageDigest;
  gr_project_id : ScopeId;
  gr_scope_id : ScopeId;
  gr_activation_generation : ActivationGeneration;
  gr_permission : PermissionKind;
  gr_constraints : PermissionConstraints;
  gr_constraints_digest : string;
  gr_grant_source : GrantSource;
  gr_policy_revision : Z;
  gr_workspace : option WorkspaceGrantIdentity;
  gr_expires_at : Z
}.

Record PluginGrant := MkGrant {
  grant_request : GrantRequest;
  grant_handle_digest : string;
  grant_created_at : Z;
  grant_revoked_at : option Z;
  grant_used : bool;
  grant_in_flight : bool
}.
Definition set_revoked (now : Z) (g : PluginGrant) : PluginGrant :=
  MkGrant (grant_request g) (grant_handle_digest g) (grant_created_at g) (Some now)
    (grant_used g) (grant_in_flight g).
Definition set_in_flight (g : PluginGrant) : PluginGrant :=
  MkGrant (grant_request g) (grant_handle_digest g) (grant_created_at g) (grant_revoked_at g)
    (grant_used g) true.
Definition set_completed (completion : CompletionClass) (g : PluginGrant) : PluginGrant :=
  MkGrant (grant_request g) (grant_handle_digest g) (grant_created_at g) (grant_revoked_at g)
    match completion with Success | Uncertain => true | FailureBeforeDispatch => grant_used g end
    false.

Definition grant_expires_at (g : PluginGrant) : Z := gr_expires_at (grant_request g).
Definition grant_source (g : PluginGrant) : GrantSource := gr_grant_source (grant_request g).

Definition consumed (g : PluginGrant) (now : Z) : bool := grant_used g || (grant_expires_at g <=? now).
Definition is_active (g : PluginGrant) (now : Z) : bool :=
  negb (is_some (grant_revoked_at g)) && negb (consumed g now).

Record GrantStore := MkStore {
  grants : gmap string PluginGrant;
  durable_handles : gmap string string
}.
Definition empty_store : GrantStore := MkStore ∅ ∅.
End store.

(** ** Checks *)

Definition within (maximum : option Z) (requested : Z) : bool :=
  is_some_and (λ m, requested <=? m) maximum.

Definition permission_use_allowed (permission : PermissionKind) (c : PermissionConstraints)
    (use : PermissionUse) : bool :=
  match permission, use with
  | ProjectFsRead, UseProjectFsRead relative_path requested_bytes =>
      valid_relative_path relative_path
      && existsb (λ pattern, glob_matches pattern relative_path) (pc_paths c)
      && within (pc_max_bytes c) requested_bytes
  | WorkspaceRInspect, UseWorkspaceRInspect operation requested_bytes =>
      existsb (λ allowed, str_eq allowed operation) (pc_operations c)
      && within (pc_max_bytes c) requested_bytes
  | NetworkFetch, UseNetworkFetch scheme host method requested_response_bytes =>
      existsb (λ allowed, str_eq allowed scheme) (pc_schemes c)
      && existsb (λ allowed, host_matches allowed host) (pc_hosts c)
      && existsb (λ allowed, str_eq allowed method) (pc_methods c)
      && within (pc_max_response_bytes c) requested_response_bytes
  | _, _ => false
  end.

(** The closure [valid_opaque_id] of [validate_grant_request]. *)
Definition valid_durable_id (value : string) : bool :=
  negb (str_is_empty value) && (str_len value <=? MAX_IDENTIFIER_BYTES)
  && forallb accepted (str_bytes value).

Definition invalid_workspace (w : WorkspaceGrantIdentity) : bool :=
  str_is_empty (wi_workspace_id w) || (256 <? str_len (wi_workspace_id w))
  || str_is_empty (wi_kernel_instance_id w) || (256 <? str_len (wi_kernel_instance_id w))
  || existsb is_control (chars (wi_workspace_id w) ++ chars (wi_kernel_instance_id w)).

Section operations.
Context `{Semver, Sha256, SerdeConstraints}.

(** [if c { return Some(e); }] *)
Definition deny_if (c : bool) (e : GrantErrorKind) (k : option GrantErrorKind)
    : option GrantErrorKind := if c then Some e else k.
Definition differs {A} `{EqDecision A} (x y : A) : bool := negb (bool_decide (x = y)).

Definition revalidation_error (grant : PluginGrant) (request : RevalidationRequest) (now : Z)
    (admitted : bool) : option GrantErrorKind :=
  let terms := grant_request grant in
  deny_if (is_some (grant_revoked_at grant)) Revoked $
  deny_if (gr_expires_at terms <=? now) Expired $
  deny_if (grant_used grant) Consumed $
  deny_if (admitted && bool_decide (gr_grant_source terms = AllowOnce) && negb (grant_in_flight grant))
    NotAdmitted $
  deny_if (negb admitted && grant_in_flight grant) InFlight $
  deny_if (differs (gr_plugin_id terms) (rv_plugin_id request)) WrongPlugin $
  deny_if (differs (gr_host_instance_id terms) (rv_host_instance_id request)) WrongHostSession $
  deny_if (differs (gr_project_id terms) (rv_project_id request)) WrongProject $
  deny_if (differs (gr_scope_id terms) (rv_scope_id request)) WrongScope $
  deny_if (differs (gr_activation_generation terms) (rv_generation request)) WrongGeneration $
  deny_if (differs (gr_package_digest terms) (rv_package_digest request)) WrongPackageDigest $
  deny_if (differs (gr_permission terms) (rv_permission request)) WrongPermission $
  deny_if (differs (gr_workspace terms) (rv_workspace request)) WrongWorkspace $
  deny_if (negb (permission_use_allowed (gr_permission terms) (gr_constraints terms) (rv_use request)))
    ConstraintViolation None.

Definition validate_grant_request (r : GrantRequest) : result ExtensionError () :=
  _ ← fail_if (negb (valid_durable_id (gr_durable_grant_id r)))
        (ManifestValidation "durable grant id is invalid");
  _ ← fail_if (str_is_empty (str_trim (gr_normalized_project_root r))
               || str_eq (gr_normalized_project_root r) "legacy_unscoped"
               || str_contains "\" (gr_normalized_project_root r))
        (ManifestValidation "grant requires an explicit normalized project root");
  _ ← fail_if (differs (gr_runtime_kind r) Wasm)
        (ManifestValidation "live plugin grants require the Wasm runtime");
  _ ← fail_if (differs (gr_project_id r) (gr_scope_id r))
        (ManifestValidation "initial plugin grants must use the exact project scope");
  _ ← fail_if (gr_policy_revision r =? 0)
        (ManifestValidation "grant policy revision must be positive");
  digest ← constraints_digest (gr_constraints r);
  _ ← fail_if (differs digest (gr_constraints_digest r))
        (ManifestValidation "grant constraints digest does not match canonical constraints");
  _ ← fail_if (negb match gr_permission r with
                    | WorkspaceRInspect => is_some (gr_workspace r)
                    | ProjectFsRead | NetworkFetch => negb (is_some (gr_workspace r))
                    end)
        (ManifestValidation "grant Workspace identity does not match its permission");
  fail_if (is_some_and invalid_workspace (gr_workspace r))
    (ManifestValidation "grant Workspace identity is invalid").

(** ** Operations *)

Definition maximum_ttl (s : GrantSource) : Z :=
  match s with AllowOnce => MAX_ALLOW_ONCE_TTL | Project => MAX_PROJECT_GRANT_TTL end.

Definition handle_digest (handle_id : string) : string := sha256_hex (str_bytes handle_id).
Definition handle_of_token (token : list ascii) : string := "handle." +:+ hex_encode token.

(** The checks of [grant] that come before any change of the store. *)
Definition grant_checks (now : Z) (r : GrantRequest) : result ExtensionError () :=
  _ ← validate_constraints (gr_permission r) (gr_constraints r);
  _ ← validate_grant_request r;
  _ ← fail_if (gr_expires_at r <=? now) (ManifestValidation "grant expiry must be in the future");
  fail_if (maximum_ttl (gr_grant_source r) <? saturating_sub (gr_expires_at r) now)
    (ManifestValidation "grant expiry exceeds its source policy").

Definition has_live_durable_grant (store : GrantStore) (now : Z) (durable_grant_id : string) : bool :=
  is_some_and (λ g, is_active g now)
    (digest ← durable_handles store !! durable_grant_id; grants store !! digest).

(** The store after the call, which a refused token leaves without the stale
    durable handle, and the answer. *)
Definition grant (store : GrantStore) (now : Z) (token : list ascii) (request : GrantRequest)
    : GrantStore * result ExtensionError CapabilityHandle :=
  match grant_checks now request with
  | Err e => (store, Err e)
  | Ok _ =>
      if has_live_durable_grant store now (gr_durable_grant_id request)
      then (store, Err (ManifestValidation "durable grant already has a live handle"))
      else
        let store := MkStore (grants store)
          (delete (gr_durable_grant_id request) (durable_handles store)) in
        let handle_id := handle_of_token token in
        let digest := handle_digest handle_id in
        if is_some (grants store !! digest)
        then (store, Err (ManifestValidation "handle token source produced a duplicate token"))
        else
          (MkStore (<[digest := MkGrant request digest now None false false]> (grants store))
             (<[gr_durable_grant_id request := digest]> (durable_handles store)),
           Ok (MkHandle handle_id (gr_permission request) (gr_scope_id request)
                 (Some (gr_expires_at request))))
  end.

(** [self.grants.get_mut(digest)] followed by a change of the grant. *)
Definition modify_grant (store : GrantStore) (digest : string) (f : PluginGrant → PluginGrant)
    : GrantStore := MkStore (alter f digest (grants store)) (durable_handles store).

Definition revoke (store : GrantStore) (now : Z) (handle_id : string) : GrantStore * bool :=
  match grants store !! handle_digest handle_id with
  | Some _ => (modify_grant store (handle_digest handle_id) (set_revoked now), true)
  | None => (store, false)
  end.

Definition revoke_durable_grant (store : GrantStore) (now : Z) (durable_grant_id : string)
    : GrantStore * bool :=
  match durable_handles store !! durable_grant_id with
  | None => (store, false)
  | Some digest =>
      match grants store !! digest with
      | None => (store, false)
      | Some _ => (modify_grant store digest (set_revoked now), true)
      end
  end.

Definition active_handle_count (store : GrantStore) (now : Z) : Z :=
  count_where (λ g, is_active g now) (grants store).

Definition has_live_handle (store : GrantStore) (now : Z) (handle_id : string) : bool :=
  is_some_and (λ g, is_active g now) (grants store !! handle_digest handle_id).

Definition handle_allows_admitted_completion (store : GrantStore) (now : Z) (handle_id : string)
    : bool :=
  is_some_and (λ g, negb (is_some (grant_revoked_at g)) && (now <? grant_expires_at g))
    (grants store !! handle_digest handle_id).

(** The loop of the three [invalidate_*] functions. *)
Definition invalidate (p : PluginGrant → bool) (store : GrantStore) (now : Z) : GrantStore * Z :=
  let hit g := p g && negb (is_some (grant_revoked_at g)) in
  (MkStore (update_where hit (set_revoked now) (grants store)) (durable_handles store),
   count_where hit (grants store)).
Definition invalidate_project (store : GrantStore) (now : Z) (root : string) : GrantStore * Z :=
  invalidate (λ g, str_eq (gr_normalized_project_root (grant_request g)) root) store now.
Definition invalidate_host (store : GrantStore) (now : Z) (host : HostInstanceId) : GrantStore * Z :=
  invalidate (λ g, bool_decide (gr_host_instance_id (grant_request g) = host)) store now.
Definition invalidate_workspace (store : GrantStore) (now : Z) (w : WorkspaceGrantIdentity)
    : GrantStore * Z :=
  invalidate (λ g, bool_decide (gr_workspace (grant_request g) = Some w)) store now.

Definition revalidate (store : GrantStore) (now : Z) (request : RevalidationRequest)
    : GrantStore * Revalidation :=
  let digest := handle_digest (rv_handle_id request) in
  match grants store !! digest with
  | None => (store, Denied UnknownHandle)
  | Some g =>
      match revalidation_error g request now false with
      | Some e => (store, Denied e)
      | None =>
          (if bool_decide (grant_source g = AllowOnce) then modify_grant store digest set_in_flight
           else store, Allowed)
      end
  end.

Definition revalidate_admitted (store : GrantStore) (now : Z) (request : RevalidationRequest)
    : Revalidation :=
  match grants store !! handle_digest (rv_handle_id request) with
  | None => Denied UnknownHandle
  | Some g =>
      match revalidation_error g request now true with
      | Some e => Denied e
      | None => Allowed
      end
  end.

Definition durable_grant_id_for_handle (store : GrantStore) (handle_id : string) : option string :=
  (λ g, gr_durable_grant_id (grant_request g)) <$> grants store !! handle_digest handle_id.
Definition permission_constraints_for_handle (store : GrantStore) (handle_id : string)
    : option PermissionConstraints :=
  (λ g, gr_constraints (grant_request g)) <$> grants store !! handle_digest handle_id.

Definition complete (store : GrantStore) (handle_id : string) (completion : CompletionClass)
    : GrantStore * bool :=
  let digest := handle_digest handle_id in
  match grants store !! digest with
  | None => (store, false)
  | Some g =>
      if differs (grant_source g) AllowOnce || negb (grant_in_flight g) then (store, false)
      else (modify_grant store digest (set_completed completion), true)
  end.
Definition complete_success (store : GrantStore) (handle_id : string) : GrantStore * bool :=
  complete store handle_id Success.
Definition complete_failure_before_dispatch (store : GrantStore) (handle_id : string)
    : GrantStore * bool := complete store handle_id FailureBeforeDispatch.
Definition complete_uncertain (store : GrantStore) (handle_id : string) : GrantStore * bool :=
  complete store handle_id Uncertain.

(** A call on the store, and its effect; the queries change nothing. *)
Inductive StoreCall :=
| CallGrant (token : list ascii) (request : GrantRequest)
| CallRevoke (handle_id : string)
| CallRevokeDurable (durable_grant_id : string)
| CallInvalidateProject (root : string)
| CallInvalidateHost (host : HostInstanceId)
| CallInvalidateWorkspace (workspace : WorkspaceGrantIdentity)
| CallRevalidate (request : RevalidationRequest)
| CallComplete (handle_id : string) (completion : CompletionClass).

Definition store_call (store : GrantStore) (call : Z * StoreCall) : GrantStore :=
  let now := call.1 in
  match call.2 with
  | CallGrant token request => (grant store now token request).1
  | CallRevoke handle_id => (revoke store now handle_id).1
  | CallRevokeDurable durable_grant_id => (revoke_durable_grant store now durable_grant_id).1
  | CallInvalidateProject root => (invalidate_project store now root).1
  | CallInvalidateHost host => (invalidate_host store now host).1
  | CallInvalidateWorkspace workspace => (invalidate_workspace store now workspace).1
  | CallRevalidate request => (revalidate store now request).1
  | CallComplete handle_id completion => (complete store handle_id completion).1
  end.
Definition run (store : GrantStore) (calls : list (Z * StoreCall)) : GrantStore :=
  foldl store_call store calls.
End operations.

(** ** What a call does to one grant *)

Section effects.
Context `{Semver, Sha256, SerdeConstraints}.
Implicit Types (store : GrantStore) (g : PluginGrant) (r : GrantRequest) (q : RevalidationRequest).

Definition hit (p : PluginGrant → bool) (now : Z) g : PluginGrant :=
  if p g && negb (is_some (grant_revoked_at g)) then set_revoked now g else g.

(** The new state of the grant kept under [d]. *)
Definition effect store (now : Z) (call : StoreCall) (d : string) g : PluginGrant :=
  match call with
  | CallGrant _ _ => g
  | CallRevoke h => if decide (handle_digest h = d) then set_revoked now g else g
  | CallRevokeDurable i =>
      if decide (durable_handles store !! i = Some d) then set_revoked now g else g
  | CallInvalidateProject root =>
      hit (λ g, str_eq (gr_normalized_project_root (grant_request g)) root) now g
  | CallInvalidateHost host =>
      hit (λ g, bool_decide (gr_host_instance_id (grant_request g) = host)) now g
  | CallInvalidateWorkspace w =>
      hit (λ g, bool_decide (gr_workspace (grant_request g) = Some w)) now g
  | CallRevalidate q =>
      if decide (handle_digest (rv_handle_id q) = d ∧ grant_source g = AllowOnce ∧
                 is_some (revalidation_error g q now false) = false)
      then set_in_flight g else g
  | CallComplete h completion =>
      if decide (handle_digest h = d ∧ grant_source g = AllowOnce ∧ grant_in_flight g = true)
      then set_completed completion g else g
  end.

Lemma modify_grant_lookup store d d' f :
  grants (modify_grant store d f) !! d' =
  if decide (d = d') then f <$> grants store !! d' else grants store !! d'.
Proof. simpl. rewrite lookup_alter. by case_decide; subst. Qed.

Lemma is_some_true {A} (o : option A) : is_some o = true ↔ ∃ x, o = Some x.
Proof. destruct o; naive_solver. Qed.
Lemma differs_false `{EqDecision A} (x y : A) : differs x y = false ↔ x = y.
Proof. unfold differs. rewrite negb_false_iff. apply bool_decide_eq_true. Qed.
Lemma differs_true `{EqDecision A} (x y : A) : differs x y = true ↔ x ≠ y.
Proof. unfold differs. rewrite negb_true_iff. apply bool_decide_eq_false. Qed.

Lemma grant_Ok store store' now token r h :
  grant store now token r = (store', Ok h) ↔
  grant_checks now r = Ok () ∧ has_live_durable_grant store now (gr_durable_grant_id r) = false ∧
  grants store !! handle_digest (handle_of_token token) = None ∧
  store' = MkStore
    (<[handle_digest (handle_of_token token) :=
         MkGrant r (handle_digest (handle_of_token token)) now None false false]> (grants store))
    (<[gr_durable_grant_id r := handle_digest (handle_of_token token)]> (durable_handles store)) ∧
  h = MkHandle (handle_of_token token) (gr_permission r) (gr_scope_id r) (Some (gr_expires_at r)).
Proof.
  unfold grant. destruct (grant_checks now r) as [[]|e]; [|naive_solver].
  destruct (has_live_durable_grant _ _ _); [naive_solver|]. simpl.
  destruct (grants store !! _) eqn:Hd; simpl; [naive_solver|].
  rewrite insert_delete_eq. naive_solver.
Qed.
(** A refused grant leaves every grant as it was. *)
Lemma grant_Err store store' now token r e :
  grant store now token r = (store', Err e) → grants store' = grants store.
Proof.
  unfold grant. destruct (grant_checks now r); [|by intros [= <- _]].
  destruct (has_live_durable_grant _ _ _); [by intros [= <- _]|].
  simpl. destruct (grants store !! _); [by intros [= <- _]|done].
Qed.

Lemma store_call_Some store now call d g :
  grants store !! d = Some g →
  grants (store_call store (now, call)) !! d = Some (effect store now call d g).
Proof.
  intros Hg. destruct call; unfold store_call, effect; cbn [fst snd];
    try (unfold invalidate_project, invalidate_host, invalidate_workspace, invalidate, hit;
         cbn [fst grants]; rewrite lookup_update_where, Hg; done).
  - destruct (grant store now token request) as [store' [h|e]] eqn:Hgr.
    + apply grant_Ok in Hgr as (_ & _ & Hnone & -> & _). simpl.
      rewrite lookup_insert_ne; [done|]. intros Heq. congruence.
    + simpl. by rewrite (grant_Err _ _ _ _ _ _ Hgr).
  - unfold revoke. destruct (grants store !! handle_digest handle_id) as [g'|] eqn:Hh; simpl.
    + rewrite lookup_alter. case_decide; [subst; by rewrite Hg|done].
    + case_decide; [subst; congruence|done].
  - unfold revoke_durable_grant. destruct (durable_handles store !! _) as [d'|] eqn:Hd.
    + destruct (grants store !! d') eqn:Hd'; simpl.
      * rewrite lookup_alter. repeat case_decide; subst; rewrite ?Hg; try done; congruence.
      * rewrite decide_False; [done|congruence].
    + by rewrite decide_False.
  - unfold revalidate. destruct (grants store !! handle_digest _) as [g'|] eqn:Hh; simpl.
    + destruct (decide (handle_digest (rv_handle_id request) = d)) as [Hd|Hd].
      * subst d. assert (g' = g) as -> by congruence.
        destruct (revalidation_error g request now false) eqn:He; simpl.
        { rewrite decide_False; [done|]. naive_solver. }
        case_bool_decide; simpl.
        -- by rewrite lookup_alter, decide_True, Hg, decide_True by done.
        -- rewrite decide_False; [done|]. naive_solver.
      * rewrite (decide_False (P := _ ∧ _)) by naive_solver.
        destruct (revalidation_error _ _ _ _); [done|]. simpl. case_bool_decide; [|done].
        simpl. by rewrite lookup_alter_ne.
    + rewrite decide_False; [done|]. intros [<- _]. congruence.
  - unfold complete. destruct (grants store !! handle_digest handle_id) as [g'|] eqn:Hh; simpl.
    + destruct (decide (handle_digest handle_id = d)) as [Hd|Hd].
      * subst d. assert (g' = g) as -> by congruence.
        destruct (differs (grant_source g) AllowOnce || negb (grant_in_flight g)) eqn:Hc; simpl.
        { rewrite decide_False; [done|]. intros (_ & Hs & Hf). rewrite Hf, orb_false_r in Hc.
          unfold differs in Hc. by bool_prop. }
        apply orb_false_iff in Hc as [Hs Hf%negb_false_iff]. unfold differs in Hs. bool_prop.
        rewrite lookup_alter_eq, Hg. simpl. by rewrite decide_True.
      * rewrite (decide_False (P := _ ∧ _)) by naive_solver.
        destruct (_ || _); [done|]. simpl. by rewrite lookup_alter_ne.
    + rewrite decide_False; [done|]. intros [<- _]. congruence.
Qed.

(** Only a granted request adds a grant, under the digest of its handle. *)
Lemma store_call_None store now call d g' :
  grants store !! d = None → grants (store_call store (now, call)) !! d = Some g' →
  ∃ token r, call = CallGrant token r ∧ d = handle_digest (handle_of_token token) ∧
    g' = MkGrant r d now None false false ∧ grant_checks now r = Ok () ∧
    has_live_durable_grant store now (gr_durable_grant_id r) = false ∧
    durable_handles (store_call store (now, call)) = <[gr_durable_grant_id r := d]> (durable_handles store).
Proof.
  intros Hn. assert (Hal : ∀ f d', alter f d' (grants store) !! d = None).
  { intros f d'. rewrite lookup_alter. case_decide; subst; by rewrite Hn. }
  destruct call; unfold store_call; cbn [fst snd]; intros Hg';
    try (unfold invalidate_project, invalidate_host, invalidate_workspace, invalidate in Hg';
         cbn [fst grants] in Hg'; rewrite lookup_update_where, Hn in Hg'; discriminate).
  - destruct (grant store now token request) as [store' [h|e]] eqn:Hgr; simpl in *.
    + apply grant_Ok in Hgr as (Hc & Hl & Hnone & -> & _). simpl in *.
      rewrite lookup_insert in Hg'. case_decide as Hd; [|congruence]. injection Hg' as <-.
      exists token, request. subst d. split_and!; done.
    + rewrite (grant_Err _ _ _ _ _ _ Hgr) in Hg'. congruence.
  - unfold revoke in Hg'. destruct (grants store !! handle_digest handle_id); simpl in Hg';
      rewrite ?Hal in Hg'; congruence.
  - unfold revoke_durable_grant in Hg'. destruct (durable_handles store !! _) as [d'|]; simpl in Hg'; [|congruence].
    destruct (grants store !! d'); simpl in Hg'; rewrite ?Hal in Hg'; congruence.
  - unfold revalidate in Hg'. destruct (grants store !! handle_digest _); simpl in Hg'; [|congruence].
    destruct (revalidation_error _ _ _ _); simpl in Hg'; [congruence|].
    case_bool_decide; simpl in Hg'; rewrite ?Hal in Hg'; congruence.
  - unfold complete in Hg'. destruct (grants store !! handle_digest _); simpl in Hg'; [|congruence].
    destruct (_ || _); simpl in Hg'; rewrite ?Hal in Hg'; congruence.
Qed.
End effects.
