(* ===== verification/GrantProps.v ===== *)
(** * The grant store as a reference monitor

    What the store of [Grant] guarantees whatever calls are made on it: a call is
    admitted only by a live grant for exactly this plugin, host session, project,
    package and use; a revoked or consumed grant stays dead; an allow-once grant
    has one admitted call at a time and at most one that ends; a durable grant
    has at most one live handle. *)
From S2P Require Import Prelude Text Errors Ids External Model Digest Permission Glob Host Grant.
#[local] Open Scope Z_scope.

Section props.
Context `{Semver, Sha256, SerdeConstraints}.
Implicit Types (store : GrantStore) (g : PluginGrant) (r : GrantRequest) (q : RevalidationRequest).
Implicit Types (calls : list (Z * StoreCall)).

(** ** Admission *)

Record authorizes g q (now : Z) : Prop := {
  au_live : grant_revoked_at g = None;
  au_time : now < gr_expires_at (grant_request g);
  au_unused : grant_used g = false;
  au_idle : grant_in_flight g = false;
  au_plugin : gr_plugin_id (grant_request g) = rv_plugin_id q;
  au_host : gr_host_instance_id (grant_request g) = rv_host_instance_id q;
  au_project : gr_project_id (grant_request g) = rv_project_id q;
  au_scope : gr_scope_id (grant_request g) = rv_scope_id q;
  au_generation : gr_activation_generation (grant_request g) = rv_generation q;
  au_package : gr_package_digest (grant_request g) = rv_package_digest q;
  au_permission : gr_permission (grant_request g) = rv_permission q;
  au_workspace : gr_workspace (grant_request g) = rv_workspace q;
  au_use : permission_use_allowed (gr_permission (grant_request g))
             (gr_constraints (grant_request g)) (rv_use q) = true
}.

Lemma deny_if_None c e k : deny_if c e k = None ↔ c = false ∧ k = None.
Proof. destruct c; simpl; naive_solver. Qed.

Lemma revalidation_error_None g q now :
  revalidation_error g q now false = None ↔ authorizes g q now.
Proof.
  unfold revalidation_error. rewrite !deny_if_None, is_some_false, Z.leb_gt, !differs_false.
  rewrite negb_false_iff. simpl. split.
  - intros. destruct_and!. by split.
  - intros []. split_and!; done.
Qed.

Lemma revalidate_Allowed store now q :
  (revalidate store now q).2 = Allowed ↔
  ∃ g, grants store !! handle_digest (rv_handle_id q) = Some g ∧ authorizes g q now.
Proof.
  unfold revalidate. destruct (grants store !! _) as [g|]; simpl; [|naive_solver].
  pose proof (revalidation_error_None g q now) as He.
  destruct (revalidation_error _ _ _ _); simpl; naive_solver.
Qed.

(** C17: a privileged call is admitted exactly when its handle is that of a grant
    that is neither revoked nor expired, used or in flight, was issued for this very
    plugin, host session, project, scope, generation, package digest, permission and
    workspace, and whose constraints allow the use.  A denied call changes nothing;
    an admitted one changes nothing but the reservation of its own allow-once grant. *)
Theorem revalidate_correct store now q :
  ((revalidate store now q).2 = Allowed ↔
   ∃ g, grants store !! handle_digest (rv_handle_id q) = Some g ∧ authorizes g q now) ∧
  ((revalidate store now q).2 ≠ Allowed → (revalidate store now q).1 = store) ∧
  durable_handles (revalidate store now q).1 = durable_handles store ∧
  ∀ d g, grants store !! d = Some g →
    grants (revalidate store now q).1 !! d =
    Some (if decide (d = handle_digest (rv_handle_id q) ∧ grant_source g = AllowOnce ∧
                     (revalidate store now q).2 = Allowed)
          then set_in_flight g else g).
Proof.
  split; [apply revalidate_Allowed|]. split_and!.
  - unfold revalidate. destruct (grants store !! _) as [g|]; simpl; [|done].
    by destruct (revalidation_error _ _ _ _).
  - unfold revalidate. destruct (grants store !! _) as [g|]; simpl; [|done].
    destruct (revalidation_error _ _ _ _); [done|]. simpl. by case_bool_decide.
  - intros d g Hg. pose proof (store_call_Some store now (CallRevalidate q) d g Hg) as Hs.
    unfold store_call, effect in Hs. cbn [fst snd] in Hs. rewrite Hs. f_equal.
    apply decide_ext. rewrite revalidate_Allowed, is_some_false, revalidation_error_None.
    split; [|naive_solver]. intros (<- & ? & ?). naive_solver.
Qed.

(** ** Dead grants stay dead *)

Definition dead g : Prop := is_Some (grant_revoked_at g) ∨ grant_used g = true.

Lemma effect_request store now call d g :
  grant_request (effect store now call d g) = grant_request g ∧
  grant_handle_digest (effect store now call d g) = grant_handle_digest g ∧
  grant_created_at (effect store now call d g) = grant_created_at g.
Proof.
  destruct call; simpl; unfold hit; repeat (case_decide || case_match); done.
Qed.
Lemma effect_dead store now call d g : dead g → dead (effect store now call d g).
Proof.
  unfold dead. intros [Hr|Hu]; destruct call; simpl; unfold hit;
    repeat (case_decide || case_match); simpl; try destruct completion; eauto.
Qed.

(** The grant under a digest after more calls: same terms, and dead if it was. *)
Lemma run_Some store calls d g :
  grants store !! d = Some g →
  ∃ g', grants (run store calls) !! d = Some g' ∧ grant_request g' = grant_request g ∧
    (dead g → dead g').
Proof.
  revert store g. induction calls as [|[now call] calls IH]; intros store g Hg; [by exists g|].
  destruct (IH (store_call store (now, call)) (effect store now call d g)) as (g' & ? & Hr & Hd);
    [by apply store_call_Some|].
  exists g'. split_and!; [done| |].
  - by rewrite Hr, (proj1 (effect_request _ _ _ _ _)).
  - intros. by apply Hd, effect_dead.
Qed.

Lemma dead_not_authorizes g q now : dead g → ¬ authorizes g q now.
Proof.
  intros Hd Ha. pose proof (au_live _ _ _ Ha). pose proof (au_unused _ _ _ Ha).
  destruct Hd as [[? ?]|?]; congruence.
Qed.

(** C18: once a grant is revoked, or consumed, no later sequence of calls, at
    whatever times and with whatever tokens, makes its handle admit a call again, be
    counted as live, or stand for other terms than those it was issued for. *)
Theorem dead_handle_never_admits store calls handle_id g :
  grants store !! handle_digest handle_id = Some g → dead g →
  (∃ g', grants (run store calls) !! handle_digest handle_id = Some g' ∧
     grant_request g' = grant_request g) ∧
  ∀ now, has_live_handle (run store calls) now handle_id = false ∧
    ∀ q, rv_handle_id q = handle_id → (revalidate (run store calls) now q).2 ≠ Allowed.
Proof.
  intros Hg Hd. destruct (run_Some store calls _ g Hg) as (g' & Hg' & Hr & Hd').
  specialize (Hd' Hd). split; [by exists g'|]. intros now. split.
  - unfold has_live_handle. rewrite Hg'. simpl. unfold is_active, consumed.
    destruct Hd' as [[t ->]| ->]; simpl; [done|]. by rewrite andb_false_r.
  - intros q <- (g2 & Hg2 & Ha)%revalidate_Allowed.
    assert (g2 = g') as -> by congruence. by apply (dead_not_authorizes g' q now).
Qed.

(** ** The life of an allow-once grant *)

Definition b2z (b : bool) : Z := if b then 1 else 0.

(** How many calls of a sequence raise the event, each seen from the store it is
    made on. *)
Fixpoint tally (event : GrantStore → Z * StoreCall → bool) store calls : Z :=
  match calls with
  | [] => 0
  | c :: calls => b2z (event store c) + tally event (store_call store c) calls
  end.

(** The call admits a use of the grant kept under [d]. *)
Definition admits (d : string) store (c : Z * StoreCall) : bool :=
  match c.2 with
  | CallRevalidate q =>
      bool_decide (handle_digest (rv_handle_id q) = d ∧ (revalidate store c.1 q).2 = Allowed)
  | _ => false
  end.
(** The call reports the end of an admitted use, in one of the given ways. *)
Definition ends (p : CompletionClass → bool) (d : string) store (c : Z * StoreCall) : bool :=
  match c.2 with
  | CallComplete h completion =>
      bool_decide (handle_digest h = d ∧ (complete store h completion).2 = true) && p completion
  | _ => false
  end.
Definition releases (completion : CompletionClass) : bool :=
  match completion with FailureBeforeDispatch => true | _ => false end.
Definition finishes (completion : CompletionClass) : bool := negb (releases completion).

Lemma run_snoc store calls c : run store (calls ++ [c]) = store_call (run store calls) c.
Proof. unfold run. by rewrite foldl_app. Qed.
Lemma tally_snoc event store calls c :
  tally event store (calls ++ [c]) = tally event store calls + b2z (event (run store calls) c).
Proof.
  revert store. induction calls as [|c' calls IH]; intros store; simpl; [lia|]. rewrite IH.
  unfold run. simpl. lia.
Qed.

(** The balance of a grant: admitted uses, uses given back, and uses that ended. *)
Definition balanced (o : option PluginGrant) (admitted released ended : Z) : Prop :=
  match o with
  | None => admitted = 0 ∧ released = 0 ∧ ended = 0
  | Some g => grant_source g = AllowOnce →
      admitted = released + ended + b2z (grant_in_flight g) ∧ ended = b2z (grant_used g) ∧
      (grant_in_flight g = true → grant_used g = false)
  end.

Lemma revalidate_None store now q :
  grants store !! handle_digest (rv_handle_id q) = None → (revalidate store now q).2 ≠ Allowed.
Proof. intros Hn. unfold revalidate. by rewrite Hn. Qed.
Lemma complete_true store h completion :
  (complete store h completion).2 = true ↔
  ∃ g, grants store !! handle_digest h = Some g ∧ grant_source g = AllowOnce ∧ grant_in_flight g = true.
Proof.
  unfold complete. destruct (grants store !! _) as [g|]; simpl; [|naive_solver].
  destruct (differs _ _ || _) eqn:Hc.
  - split; [done|]. intros (? & [= <-] & Hs & Hf). unfold differs in Hc.
    rewrite Hf, bool_decide_true in Hc by done. done.
  - split; [|done]. intros _. apply orb_false_iff in Hc as [Hs Hf]. unfold differs in Hs.
    bool_prop. by exists g.
Qed.

Lemma balanced_step d store c a b e :
  balanced (grants store !! d) a b e →
  balanced (grants (store_call store c) !! d)
    (a + b2z (admits d store c)) (b + b2z (ends releases d store c)) (e + b2z (ends finishes d store c)).
Proof.
  destruct c as [now call]. destruct (grants store !! d) as [g|] eqn:Hg.
  - rewrite (store_call_Some _ _ _ _ _ Hg). simpl. unfold grant_source.
    rewrite (proj1 (effect_request _ _ _ _ _)). intros Hb Hs. destruct (Hb Hs) as (Ha & He & Hi).
    clear Hb. destruct call; simpl; unfold hit, admits, ends; simpl; rewrite ?Z.add_0_r;
      try (repeat (case_decide || case_match); simpl; done).
    + case_bool_decide as Hev.
      * destruct Hev as [<- (g' & Hg' & Hau)%revalidate_Allowed]. assert (g' = g) as -> by congruence.
        pose proof (au_idle _ _ _ Hau) as Hidle. pose proof (au_unused _ _ _ Hau).
        rewrite decide_True by (split_and!; [done|done|by apply is_some_false, revalidation_error_None]).
        simpl. rewrite Hidle in Ha. simpl in Ha. split_and!; [lia|done|done].
      * rewrite decide_False; [by rewrite Z.add_0_r|].
        intros (<- & _ & Hn%is_some_false%revalidation_error_None). apply Hev. split; [done|].
        apply revalidate_Allowed. by exists g.
    + case_bool_decide as Hev; simpl; rewrite ?Z.add_0_r.
      * destruct Hev as [<- (g' & Hg' & _ & Hf)%complete_true]. assert (g' = g) as -> by congruence.
        rewrite decide_True by done. rewrite (Hi Hf) in He. rewrite Hf in Ha.
        destruct completion; simpl in *; rewrite ?(Hi Hf); simpl; split_and!; try done; lia.
      * rewrite decide_False; [done|]. intros (<- & _ & Hf). apply Hev. split; [done|].
        apply complete_true. by exists g.
  - intros (-> & -> & ->).
    assert (admits d store (now, call) = false) as ->.
    { destruct call; try done. unfold admits. simpl. apply bool_decide_eq_false.
      intros [<- Hq]. by apply (revalidate_None store now request). }
    assert (Hends : ∀ p, ends p d store (now, call) = false).
    { intros p. destruct call; try done. unfold ends. simpl. rewrite bool_decide_false; [done|].
      intros [<- (g & Hg' & _)%complete_true]. congruence. }
    rewrite !Hends. simpl. destruct (grants (store_call _ _) !! d) as [g|] eqn:Hg'; [|done].
    apply store_call_None in Hg' as (token & r & -> & _ & -> & _); [|done]. done.
Qed.

(** C19: over any sequence of calls on a new store, every use of an allow-once grant
    that was admitted has been given back before dispatch, or has ended, or is the one in
    flight; at most one ever ends, and so at most one is admitted beyond those
    given back. *)
Theorem allow_once_balance calls d g :
  grants (run empty_store calls) !! d = Some g → grant_source g = AllowOnce →
  let admitted := tally (admits d) empty_store calls in
  let released := tally (ends releases d) empty_store calls in
  let ended := tally (ends finishes d) empty_store calls in
  admitted = released + ended + b2z (grant_in_flight g) ∧ ended = b2z (grant_used g) ∧
  admitted <= released + 1 ∧ ended <= 1.
Proof.
  intros Hg Hs. assert (Hb : ∀ calls, balanced (grants (run empty_store calls) !! d)
    (tally (admits d) empty_store calls) (tally (ends releases d) empty_store calls)
    (tally (ends finishes d) empty_store calls)).
  { clear. intros calls. induction calls as [|c calls IH] using rev_ind; [done|].
    rewrite run_snoc, !tally_snoc. by apply balanced_step. }
  specialize (Hb calls). rewrite Hg in Hb. destruct (Hb Hs) as (-> & -> & Hi). simpl.
  destruct (grant_in_flight g), (grant_used g); simpl; lia.
Qed.

(** ** Grants are issued within their limits *)

(** What [grant] checked before it issued a grant. *)
Record issued (d : string) g : Prop := {
  is_key : grant_handle_digest g = d;
  is_constraints : constraints_valid (gr_permission (grant_request g)) (gr_constraints (grant_request g)) = true;
  is_durable_id : identifier_wf (gr_durable_grant_id (grant_request g));
  is_runtime : gr_runtime_kind (grant_request g) = Wasm;
  is_scope : gr_project_id (grant_request g) = gr_scope_id (grant_request g);
  is_digest : constraints_digest (gr_constraints (grant_request g)) = Ok (gr_constraints_digest (grant_request g));
  is_workspace : gr_permission (grant_request g) = WorkspaceRInspect ↔ is_Some (gr_workspace (grant_request g));
  is_future : grant_created_at g < gr_expires_at (grant_request g);
  is_ttl : gr_expires_at (grant_request g) - grant_created_at g <= maximum_ttl (gr_grant_source (grant_request g))
}.

Lemma valid_durable_id_true s : valid_durable_id s = true ↔ identifier_wf s.
Proof.
  unfold valid_durable_id, identifier_wf, MAX_IDENTIFIER_BYTES.
  rewrite !andb_true_iff, negb_true_iff, forallb_True, Z.leb_le.
  pose proof (str_is_empty_len s) as He. pose proof (str_len_nonneg s).
  destruct (str_is_empty s); split.
  - by intros [[? _] _].
  - intros [[? _] _]. destruct He as [He _]. specialize (He eq_refl). lia.
  - intros [[_ ?] ?]. split; [|done]. split; [|done]. assert (str_len s ≠ 0); [|lia].
    intros Hz. by apply He in Hz.
  - intros [[_ ?] ?]. done.
Qed.

Lemma grant_checks_issued now r d :
  grant_checks now r = Ok () → issued d (MkGrant r d now None false false).
Proof.
  unfold grant_checks, validate_constraints. intros Hc.
  apply bind_unit_Ok_iff in Hc as [Hv%fail_if_Ok Hc].
  apply bind_unit_Ok_iff in Hc as [Hr Hc]. result_inv Hc. bool_prop.
  unfold validate_grant_request in Hr. result_inv Hr. rewrite !differs_false in *. bool_prop.
  split; simpl; try done.
  - by apply valid_durable_id_true.
  - by subst.
  - destruct (gr_permission r), (gr_workspace r) eqn:?; simpl in *; try done;
      split; try done; intros [? ?]; done.
  - unfold saturating_sub in *. lia.
Qed.

Lemma issued_effect store now call d g : issued d g → issued d (effect store now call d g).
Proof.
  destruct (effect_request store now call d g) as (Hr & Hd & Hc).
  intros []. split; rewrite ?Hr, ?Hd, ?Hc; done.
Qed.

Lemma run_issued calls store :
  (∀ d g, grants store !! d = Some g → issued d g) →
  ∀ d g, grants (run store calls) !! d = Some g → issued d g.
Proof.
  revert store. induction calls as [|[now call] calls IH]; intros store Hs; [done|].
  apply (IH (store_call store (now, call))). intros d g' Hg'.
  destruct (grants store !! d) as [g|] eqn:Hg.
  - rewrite (store_call_Some _ _ _ _ _ Hg) in Hg'. injection Hg' as <-. by apply issued_effect, Hs.
  - apply store_call_None in Hg' as (token & r & _ & _ & -> & Hc & _); [|done].
    by apply grant_checks_issued.
Qed.
Lemma empty_issued d g : grants (run empty_store []) !! d = Some g → issued d g.
Proof. simpl. by rewrite lookup_empty. Qed.

(** ** One live handle per durable grant *)

(** The calls are made at times that never go back, from [t] to [t']. *)
Fixpoint clocked (t : Z) calls (t' : Z) : Prop :=
  match calls with
  | [] => t <= t'
  | c :: calls => t <= c.1 ∧ clocked c.1 calls t'
  end.

Definition live_indexed (now : Z) store : Prop :=
  ∀ d g, grants store !! d = Some g → is_active g now = true →
    durable_handles store !! gr_durable_grant_id (grant_request g) = Some d.

Lemma is_active_true g now :
  is_active g now = true ↔
  grant_revoked_at g = None ∧ grant_used g = false ∧ now < gr_expires_at (grant_request g).
Proof.
  unfold is_active, consumed, grant_expires_at.
  rewrite andb_true_iff, !negb_true_iff, orb_false_iff, is_some_false, Z.leb_gt. done.
Qed.
Lemma is_active_earlier g now now' : now <= now' → is_active g now' = true → is_active g now = true.
Proof. rewrite !is_active_true. intros ? (? & ? & ?). split_and!; [done..|lia]. Qed.
Lemma is_active_effect store now call d g t :
  is_active (effect store now call d g) t = true → is_active g t = true.
Proof.
  rewrite !is_active_true, (proj1 (effect_request _ _ _ _ _)).
  intros (Hr & Hu & Ht). split_and!; [| |done].
  - destruct (grant_revoked_at g) as [x|] eqn:Hg; [|done].
    assert (dead (effect store now call d g)) as [[y Hy]|Hy]
      by (apply effect_dead; left; by eexists); congruence.
  - destruct (grant_used g) eqn:Hg; [|done].
    assert (dead (effect store now call d g)) as [[y Hy]|Hy] by (apply effect_dead; by right);
      congruence.
Qed.

Lemma has_live_true store now i :
  has_live_durable_grant store now i = true ↔
  ∃ d g, durable_handles store !! i = Some d ∧ grants store !! d = Some g ∧ is_active g now = true.
Proof.
  unfold has_live_durable_grant. destruct (durable_handles store !! i) as [d|]; simpl; [|naive_solver].
  destruct (grants store !! d) as [g|] eqn:Hg; simpl; naive_solver.
Qed.

(** A durable handle that is not live may be forgotten. *)
Lemma durable_handles_call store now call i d g :
  grants store !! d = Some g → durable_handles store !! i = Some d → is_active g now = true →
  durable_handles (store_call store (now, call)) !! i = Some d.
Proof.
  intros Hg Hd Ha.
  destruct call; unfold store_call; cbn [fst snd]; try done.
  - unfold grant. destruct (grant_checks now request); [|done].
    destruct (has_live_durable_grant store now _) eqn:Hl; [done|].
    assert (gr_durable_grant_id request ≠ i).
    { intros <-. assert (false = true); [|done]. rewrite <-Hl. apply has_live_true. by exists d, g. }
    cbv zeta. cbn [grants durable_handles].
    destruct (is_some _); simpl; [by rewrite lookup_delete_ne|].
    by rewrite lookup_insert_ne, lookup_delete_ne.
  - unfold revoke. destruct (grants store !! handle_digest _); exact Hd.
  - unfold revoke_durable_grant. destruct (durable_handles store !! durable_grant_id) as [d'|]; [|done].
    destruct (grants store !! d'); exact Hd.
  - unfold revalidate. destruct (grants store !! handle_digest _) as [g'|]; [|done]. destruct (revalidation_error _ _ _ _); [done|].
    simpl. by case_bool_decide.
  - unfold complete. destruct (grants store !! handle_digest _) as [g'|]; [|done]. destruct (_ || _); exact Hd.
Qed.

(** Every durable handle is that of a grant issued for its durable id. *)
Definition indexed store : Prop :=
  ∀ i d, durable_handles store !! i = Some d →
    ∃ g, grants store !! d = Some g ∧ gr_durable_grant_id (grant_request g) = i.

Lemma durable_handles_call_inv store now call i d :
  durable_handles (store_call store (now, call)) !! i = Some d →
  durable_handles store !! i = Some d ∨
  ∃ g, grants (store_call store (now, call)) !! d = Some g ∧ gr_durable_grant_id (grant_request g) = i.
Proof.
  destruct call; unfold store_call; cbn [fst snd]; try (by left).
  - destruct (grant store now token request) as [store' [h|e]] eqn:Hg.
    + apply grant_Ok in Hg as (_ & _ & _ & -> & _). simpl. rewrite lookup_insert.
      case_decide as Hi; [|by left]. intros [= <-]. right. rewrite lookup_insert_eq.
      by eexists.
    + left. revert Hg. unfold grant. destruct (grant_checks _ _); [|by intros [= <- _]].
      destruct (has_live_durable_grant _ _ _); [by intros [= <- _]|].
      cbv zeta. destruct (is_some _); [|done]. intros [= <- _]. simpl in *.
      by apply lookup_delete_Some in H2 as [_ ?].
  - unfold revoke. destruct (grants store !! _); by left.
  - unfold revoke_durable_grant. destruct (durable_handles store !! durable_grant_id); [|by left].
    destruct (grants store !! _); by left.
  - unfold revalidate. destruct (grants store !! _) as [g'|]; [|by left].
    destruct (revalidation_error _ _ _ _); [by left|]. simpl. case_bool_decide; by left.
  - unfold complete. destruct (grants store !! _) as [g'|]; [|by left]. destruct (_ || _); by left.
Qed.

Lemma indexed_run calls store : indexed store → indexed (run store calls).
Proof.
  revert store. induction calls as [|[now call] calls IH]; intros store Hi; [done|].
  apply (IH (store_call store (now, call))). intros i d Hd.
  apply durable_handles_call_inv in Hd as [Hd|?]; [|done].
  destruct (Hi _ _ Hd) as (g & Hg & <-). exists (effect store now call d g).
  split; [by apply store_call_Some|]. by rewrite (proj1 (effect_request _ _ _ _ _)).
Qed.

Lemma live_indexed_call store now call t :
  live_indexed t store → t <= now → live_indexed now (store_call store (now, call)).
Proof.
  intros Hl Ht d g' Hg' Ha'. destruct (grants store !! d) as [g|] eqn:Hg.
  - rewrite (store_call_Some _ _ _ _ _ Hg) in Hg'. injection Hg' as <-.
    apply is_active_effect in Ha'. rewrite (proj1 (effect_request _ _ _ _ _)).
    apply (durable_handles_call _ _ _ _ _ g); [done| |done].
    apply Hl; [done|]. by apply (is_active_earlier _ t now).
  - apply store_call_None in Hg' as (token & r & -> & -> & -> & _ & _ & ->); [|done].
    simpl. apply lookup_insert_eq.
Qed.

Lemma live_indexed_run store calls t now :
  live_indexed t store → clocked t calls now → live_indexed now (run store calls).
Proof.
  revert store t. induction calls as [|[t1 call] calls IH]; intros store t Hl; simpl.
  - intros Ht d g Hg Ha. apply Hl; [done|]. by apply (is_active_earlier _ t now).
  - intros [Ht Hc]. apply (IH _ t1); [by apply (live_indexed_call _ _ _ t)|done].
Qed.
Lemma live_indexed_empty t : live_indexed t empty_store.
Proof. intros d g. simpl. by rewrite lookup_empty. Qed.

(** while the clock does not go back, a durable grant has at most one live
    handle; [has_live_durable_grant] tells whether it has one, and
    [revoke_durable_grant] leaves it without any, at that time and later. *)
Theorem one_live_handle calls t now i :
  clocked t calls now →
  let store := run empty_store calls in
  let live s t d := ∃ g, grants s !! d = Some g ∧ gr_durable_grant_id (grant_request g) = i ∧
                      is_active g t = true in
  (∀ d d', live store now d → live store now d' → d = d') ∧
  (has_live_durable_grant store now i = true ↔ ∃ d, live store now d) ∧
  ∀ d later, now <= later → ¬ live (revoke_durable_grant store now i).1 later d.
Proof.
  intros Hc store live.
  assert (Hl : live_indexed now store) by (eapply live_indexed_run; [apply live_indexed_empty|done]).
  split_and!.
  - intros d d' (g & Hg & Hi & Ha) (g' & Hg' & Hi' & Ha').
    pose proof (Hl _ _ Hg Ha). pose proof (Hl _ _ Hg' Ha'). congruence.
  - split.
    2:{ intros (d & g & Hg & <- & Ha). apply has_live_true. exists d, g.
        split_and!; [by apply Hl|done|done]. }
    intros (d & g & Hd & Hg & Ha)%has_live_true. exists d, g. split_and!; [done| |done].
    assert (Hx : indexed store) by (apply indexed_run; intros ? ?; simpl; by rewrite lookup_empty).
    destruct (Hx _ _ Hd) as (g' & Hg' & Hi). congruence.
  - intros d later Hlater (g' & Hg' & Hi & Ha').
    change ((revoke_durable_grant store now i).1) with (store_call store (now, CallRevokeDurable i)) in Hg'.
    destruct (grants store !! d) as [g|] eqn:Hg.
    + rewrite (store_call_Some _ _ _ _ _ Hg) in Hg'.
      assert (g' = effect store now (CallRevokeDurable i) d g) as -> by congruence.
      rewrite (proj1 (effect_request store now (CallRevokeDurable i) d g)) in Hi.
      assert (Ha : is_active g now = true)
        by (apply (is_active_earlier _ now later); [done|by eapply is_active_effect]).
      pose proof (Hl _ _ Hg Ha) as Hd. rewrite Hi in Hd. simpl in Ha'.
      by rewrite decide_True in Ha'.
    + apply store_call_None in Hg' as (? & ? & ? & _); [|done]. done.
Qed.

(** ** Invalidation *)

Definition unrevoked g : bool := negb (is_some (grant_revoked_at g)).

Lemma count_where_split `{Countable K} {V} (p c : V → bool) (m : gmap K V) :
  count_where p m = count_where (λ v, c v && p v) m + count_where (λ v, negb (c v) && p v) m.
Proof.
  unfold count_where. rewrite <-Nat2Z.inj_add. f_equal.
  rewrite <-size_dom, <-(size_dom (filter (λ kv, c kv.2 && p kv.2 = true) m)).
  rewrite <-(size_dom (filter (λ kv, negb (c kv.2) && p kv.2 = true) m)).
  rewrite <-size_union.
  - f_equal. apply set_eq. intros k. rewrite elem_of_union, !elem_of_dom. unfold is_Some.
    setoid_rewrite map_lookup_filter_Some. simpl. split.
    + intros (v & Hv & Hp). destruct (c v) eqn:Hc; [left|right]; exists v; by rewrite Hc.
    + intros [(v & Hv & [_ ?]%andb_true_iff)|(v & Hv & [_ ?]%andb_true_iff)]; by exists v.
  - intros k. rewrite !elem_of_dom. unfold is_Some. setoid_rewrite map_lookup_filter_Some. simpl.
    intros (v & Hv & [Hc _]%andb_true_iff) (v' & Hv' & [Hc' _]%andb_true_iff).
    assert (v = v') as <- by congruence. by rewrite Hc in Hc'.
Qed.

Lemma invalidate_count p store now :
  count_where unrevoked (grants (invalidate p store now).1) + (invalidate p store now).2 =
  count_where unrevoked (grants store).
Proof.
  rewrite (count_where_split unrevoked p (grants store)). simpl.
  rewrite Z.add_comm. f_equal. unfold count_where, update_where. f_equal.
  rewrite map_filter_fmap, map_size_fmap. f_equal. apply map_filter_ext. simpl.
  intros d g _. unfold unrevoked. destruct (p g), (grant_revoked_at g) eqn:Hr; simpl; rewrite ?Hr; done.
Qed.

Lemma invalidate_spec p store now :
  let '(store', n) := invalidate p store now in
  durable_handles store' = durable_handles store ∧
  (∀ d g', grants store' !! d = Some g' ↔
     ∃ g, grants store !! d = Some g ∧ g' = if p g && unrevoked g then set_revoked now g else g) ∧
  count_where unrevoked (grants store') + n = count_where unrevoked (grants store).
Proof.
  pose proof (invalidate_count p store now) as Hn. simpl in *. split_and!; [done| |done].
  intros d g'. rewrite lookup_update_where, fmap_Some. done.
Qed.

(** invalidating a project, a host session or a workspace revokes, at this time,
    exactly the grants bound to it that are not revoked yet, reports how many there
    were, and leaves every other grant as it was; none of its grants admits a call
    from then on. *)
Theorem invalidate_correct store now root host w :
  let bound (c : StoreCall) g := match c with
    | CallInvalidateProject root => gr_normalized_project_root (grant_request g) = root
    | CallInvalidateHost host => gr_host_instance_id (grant_request g) = host
    | CallInvalidateWorkspace w => gr_workspace (grant_request g) = Some w
    | _ => False
    end in
  let correct (c : StoreCall) (r : GrantStore * Z) :=
    durable_handles r.1 = durable_handles store ∧
    count_where unrevoked (grants r.1) + r.2 = count_where unrevoked (grants store) ∧
    (∀ d g, grants store !! d = Some g → ¬ bound c g → grants r.1 !! d = Some g) ∧
    (∀ d g', grants r.1 !! d = Some g' → bound c g' → dead g') ∧
    (∀ t q g', grants r.1 !! handle_digest (rv_handle_id q) = Some g' → bound c g' →
       (revalidate r.1 t q).2 ≠ Allowed) in
  correct (CallInvalidateProject root) (invalidate_project store now root) ∧
  correct (CallInvalidateHost host) (invalidate_host store now host) ∧
  correct (CallInvalidateWorkspace w) (invalidate_workspace store now w).
Proof.
  intros bound correct.
  assert (Hgen : ∀ c (p : PluginGrant → bool), (∀ g, p g = true ↔ bound c g) →
    (∀ g, bound c g ↔ bound c (set_revoked now g)) → correct c (invalidate p store now)).
  { intros c p Hp Hb. pose proof (invalidate_spec p store now) as Hs.
    destruct (invalidate p store now) as [store' n]. destruct Hs as (Hd & Hl & Hn).
    assert (Hdead : ∀ d g', grants store' !! d = Some g' → bound c g' → dead g').
    { intros d g' (g & Hg & ->)%Hl Hbound. destruct (p g) eqn:Hpg; simpl in *.
      - unfold unrevoked in *. destruct (grant_revoked_at g) eqn:Hr; simpl; left; simpl; rewrite ?Hr; by eexists.
      - apply Hp in Hbound. congruence. }
    split_and!; [done|done| |done|].
    - intros d g Hg Hn'. apply Hl. exists g. split; [done|].
      destruct (p g) eqn:Hpg; [by apply Hp in Hpg|done].
    - intros t q g' Hg' Hbound (g2 & Hg2 & Ha)%revalidate_Allowed.
      assert (g2 = g') as -> by (simpl in *; congruence).
      by apply (dead_not_authorizes g' q t); [eapply Hdead|]. }
  split_and!; apply Hgen; simpl; intros g; try done.
  - apply str_eq_true.
  - apply bool_decide_eq_true.
  - apply bool_decide_eq_true.
Qed.

(** ** Admitted uses stay within what was granted *)

Lemma within_true m n : within m n = true ↔ ∃ v, m = Some v ∧ n <= v.
Proof. destruct m; simpl; rewrite ?Z.leb_le; naive_solver. Qed.

(** The use stays within the terms of the grant. *)
Definition use_within_grant g q : Prop :=
  let c := gr_constraints (grant_request g) in
  match rv_use q with
  | UseProjectFsRead path n =>
      (∀ root, resolve_components root (split_bytes (one_of ["/"%char]) (str_bytes path)) =
         Some (root ++ split_bytes (one_of ["/"%char]) (str_bytes path))) ∧
      (∃ pattern, pattern ∈ pc_paths c ∧ denotes (tokens (str_bytes pattern)) (str_bytes path)) ∧
      ∃ m, pc_max_bytes c = Some m ∧ n <= m
  | UseWorkspaceRInspect operation n =>
      operation ∈ pc_operations c ∧ is_Some (rv_workspace q) ∧
      rv_workspace q = gr_workspace (grant_request g) ∧ ∃ m, pc_max_bytes c = Some m ∧ n <= m
  | UseNetworkFetch scheme host method n =>
      scheme = "https" ∧ (method = "GET" ∨ method = "HEAD") ∧ method ∈ pc_methods c ∧
      (∃ pattern, pattern ∈ pc_hosts c ∧ host_matches pattern host = true) ∧
      ∃ m, pc_max_response_bytes c = Some m ∧ n <= m
  end.

(** C20: whatever calls built the store, an admitted use stays within the constraints
    of its grant: a file read names a path that resolves below any root and is denoted
    by a granted pattern; an inspection is one of the granted operations, on the granted
    workspace; a fetch uses https, GET or HEAD, and a host that a granted pattern admits;
    and none asks for more bytes than granted. *)
Theorem admitted_use_within_grant calls now q :
  let store := run empty_store calls in
  (revalidate store now q).2 = Allowed →
  ∃ g, grants store !! handle_digest (rv_handle_id q) = Some g ∧ use_within_grant g q.
Proof.
  intros store (g & Hg & Ha)%revalidate_Allowed. exists g. split; [done|].
  unfold use_within_grant. cbv zeta.
  assert (Hi : issued (handle_digest (rv_handle_id q)) g)
    by by apply (run_issued calls empty_store); [apply empty_issued|].
  pose proof (au_use _ _ _ Ha) as Hu. pose proof (is_constraints _ _ Hi) as Hc.
  pose proof (is_workspace _ _ Hi) as Hw.
  destruct (gr_permission (grant_request g)), (rv_use q); try done; simpl in Hu, Hc; bool_prop.
  - match goal with Hv : existsb _ (pc_paths _) = true |- _ =>
      apply existsb_True in Hv as (pattern & Hin & Hm) end.
    split_and!; [|exists pattern; by split; [|apply glob_matches_spec]|by apply within_true].
    intros root. apply resolve_components_plain. intros k Hk.
    match goal with Hv : valid_relative_path _ = true |- _ =>
      destruct (proj1 (valid_relative_path_true _) Hv k Hk) end. naive_solver.
  - match goal with Hv : existsb _ (pc_operations _) = true |- _ =>
      apply existsb_True in Hv as (? & Hin & <-%str_eq_true) end.
    split_and!; [done| |symmetry; by apply (au_workspace _ _ _ Ha)|by apply within_true].
    rewrite <-(au_workspace _ _ _ Ha). by apply Hw.
  - match goal with Hv : existsb _ (pc_schemes _) = true |- _ =>
      apply existsb_True in Hv as (? & Hs & <-%str_eq_true) end.
    match goal with Hv : existsb _ (pc_methods _) = true |- _ =>
      apply existsb_True in Hv as (? & Hm & <-%str_eq_true) end.
    match goal with Hv : existsb _ (pc_hosts _) = true |- _ => apply existsb_True in Hv end.
    repeat match goal with Hv : forallb _ _ = true |- _ => rewrite forallb_True in Hv end.
    split_and!; [by apply str_eq_true; auto| |done|done|by apply within_true].
    match goal with Hv : ∀ x, x ∈ pc_methods _ → _ |- _ => apply Hv in Hm end.
    by apply orb_true_iff in Hm as [?%str_eq_true|?%str_eq_true]; [left|right].
Qed.

(** ** Manifest permissions and grants agree *)

Lemma wf_path_pattern path : relative_path_wf path → valid_relative_pattern path = true.
Proof.
  intros [_ Hall]. assert (Hv : valid_relative_path path = true) by by apply valid_relative_path_true.
  unfold valid_relative_path in Hv. by rewrite !andb_true_iff in Hv; destruct Hv as [[? _] _].
Qed.
Lemma positive_bound_true o n : validate_positive_bound o n = Ok () → positive_bound o = true.
Proof. intros (v & -> & ?)%validate_positive_bound_Ok. simpl. apply Z.ltb_lt. lia. Qed.

(** The store accepts the constraints the request turns into. *)
Definition grantable (p : PermissionRequest) : Prop :=
  ∃ k c, PermissionKind_parse (pr_name p) = Some k ∧ from_manifest p = Ok c ∧
    validate_constraints k c = Ok () ∧ as_static_str k = pr_name p.

(** every permission request the manifest accepts can be granted: its name is a
    known permission and its constraints satisfy what the grant store requires. *)
Theorem manifest_permission_grantable (p : PermissionRequest) :
  validate_permission_request p = Ok () → grantable p.
Proof.
  unfold validate_permission_request. intros Hv.
  apply bind_unit_Ok_iff in Hv as [_ Hv]. apply bind_unit_Ok_iff in Hv as [_ Hv].
  assert (Hk : ∀ k, PermissionKind_parse (pr_name p) = Some k → as_static_str k = pr_name p →
    constraints_valid k (MkConstraints (pr_paths p) (pr_operations p) (pr_schemes p) (pr_hosts p)
      (pr_methods p) (pr_max_bytes p) (pr_max_response_bytes p)) = true →
    grantable p).
  { intros k Hp Hs Hc. eexists k, _. split_and!; [done| | |done].
    - unfold from_manifest. rewrite Hp. simpl. unfold validate_constraints. by rewrite Hc.
    - unfold validate_constraints. by rewrite Hc. }
  unfold nonempty in *.
  destruct (str_eq (pr_name p) "project.fs.read") eqn:Hn1; [|
    destruct (str_eq (pr_name p) "workspace.r.inspect") eqn:Hn2; [|
      destruct (str_eq (pr_name p) "network.fetch") eqn:Hn3; [|done]]].
  - apply bind_unit_Ok_iff in Hv as [Hg%fail_if_Ok Hv]. apply bind_unit_Ok_iff in Hv as [Hps Hb].
    apply for_each_Ok in Hps. apply positive_bound_true in Hb. apply str_eq_true in Hn1.
    rewrite !orb_false_iff, !negb_false_iff in Hg. destruct_and!.
    apply (Hk ProjectFsRead); [by rewrite Hn1|done|]. simpl. unfold nonempty.
    rewrite !andb_true_iff, !negb_true_iff, forallb_True. split_and!; try done.
    intros path Hpath. apply wf_path_pattern, validate_relative_path_Ok.
    rewrite Forall_forall in Hps. by apply Hps.
  - apply bind_unit_Ok_iff in Hv as [Hg%fail_if_Ok Hv]. apply bind_unit_Ok_iff in Hv as [_ Hb].
    apply positive_bound_true in Hb. apply str_eq_true in Hn2.
    rewrite !orb_false_iff, !negb_false_iff in Hg. destruct_and!.
    apply (Hk WorkspaceRInspect); [by rewrite Hn2|done|]. simpl. unfold nonempty.
    rewrite !andb_true_iff, !negb_true_iff. split_and!; done.
  - apply bind_unit_Ok_iff in Hv as [Hg%fail_if_Ok Hv].
    apply bind_unit_Ok_iff in Hv as [Hs%fail_if_Ok Hv]. apply bind_unit_Ok_iff in Hv as [Hh%for_each_Ok Hv].
    apply bind_unit_Ok_iff in Hv as [Hm%fail_if_Ok Hb].
    apply positive_bound_true in Hb. apply str_eq_true in Hn3.
    rewrite existsb_False in Hs, Hm. setoid_rewrite negb_false_iff in Hs.
    setoid_rewrite negb_false_iff in Hm. rewrite Forall_forall in Hh.
    rewrite !orb_false_iff, !negb_false_iff in Hg. destruct_and!.
    apply (Hk NetworkFetch); [by rewrite Hn3|done|]. simpl. unfold nonempty.
    rewrite !andb_true_iff, !negb_true_iff, !forallb_True. split_and!; try done.
    intros host Hhost. by apply valid_host_pattern_iff, Hh.
Qed.

(** Two inputs with the same digest. *)
Definition sha256_collision : Prop := ∃ x y, x ≠ y ∧ sha256 x = sha256 y.

(** In any store, two grants issued under the same constraints digest have the
    same constraints, or their canonical encodings collide under SHA-256. *)
Theorem constraints_digest_binding calls d d' g g' :
  grants (run empty_store calls) !! d = Some g →
  grants (run empty_store calls) !! d' = Some g' →
  gr_constraints_digest (grant_request g) = gr_constraints_digest (grant_request g') →
  gr_constraints (grant_request g) = gr_constraints (grant_request g') ∨
  sha256_collision.
Proof.
  intros Hg Hg' Heq. assert (Hi : ∀ d g, grants (run empty_store calls) !! d = Some g → issued d g)
    by (apply run_issued; apply empty_issued).
  pose proof (is_digest _ _ (Hi _ _ Hg)) as Hd1. pose proof (is_digest _ _ (Hi _ _ Hg')) as Hd2.
  rewrite <-Heq in Hd2. unfold constraints_digest, canonical_json in Hd1, Hd2.
  destruct (to_value (gr_constraints (grant_request g))) as [v|] eqn:Hv; [|done].
  destruct (to_value (gr_constraints (grant_request g'))) as [v'|] eqn:Hv'; [|done].
  simpl in Hd1, Hd2. destruct (to_string v) as [s|] eqn:Hs; [|done].
  destruct (to_string v') as [s'|] eqn:Hs'; [|done].
  simpl in Hd1, Hd2. rewrite <-Hd2 in Hd1. injection Hd1 as Hd1. apply hex_encode_inj in Hd1.
  destruct (decide (str_bytes s = str_bytes s')) as [Hss|Hss].
  - left. apply (inj str_bytes) in Hss as ->. by eapply json_faithful.
  - right. by exists (str_bytes s), (str_bytes s').
Qed.
End props.
