(* ===== verification/Instance.v ===== *)
(** * Plugin instances

    Model of [crates/rho-extension-runtime/src/instance.rs]: the lifecycle state
    machine of a plugin instance with its bounded audit trail, and the manager
    that discovers, enables, disables, replaces and marks plugins as crashed.  The
    host instance id that [enable] and [replace] generate is an input. *)
From S2P Require Import Prelude Text Errors Ids Digest Host.
#[local] Open Scope Z_scope.

Module PluginLifecycleState.
Inductive t :=
| Discovered | Blocked | Disabled | Resolving | Activating | Active | Quiescing | Disposing
| Stopped | Crashed | UpdatePending.
#[global] Instance t_eq_dec : EqDecision t.
Proof. solve_decision. Defined.
End PluginLifecycleState.
Import PluginLifecycleState.

Definition is_routable (s : PluginLifecycleState.t) : bool :=
  match s with Active => true | _ => false end.
Definition has_live_effects (s : PluginLifecycleState.t) : bool :=
  match s with Active | Quiescing | Disposing | Activating => true | _ => false end.

Definition allowed_transition (from to : PluginLifecycleState.t) : bool :=
  match from, to with
  | Discovered, Blocked | Discovered, Disabled
  | Disabled, Resolving | Disabled, Blocked
  | Resolving, Activating | Resolving, Blocked
  | Activating, Active | Activating, Blocked
  | Active, Quiescing | Active, Crashed | Active, UpdatePending
  | Quiescing, Disposing
  | Disposing, Stopped
  | UpdatePending, Blocked | UpdatePending, Disabled
  | Blocked, Disabled
  | Stopped, Disabled
  | Crashed, Disabled | Crashed, Stopped => true
  | _, _ => false
  end.

(** ** The audit trail *)

Definition MAX_AUDIT_EVENTS : Z := 256.
Definition MAX_AUDIT_REASON_BYTES : nat := 512.

Record AuditEvent := MkEvent {
  ev_plugin_id : PluginId;
  ev_project_id : ScopeId;
  ev_from : option PluginLifecycleState.t;
  ev_to : PluginLifecycleState.t;
  ev_reason : string
}.
Definition AuditLog : Type := list AuditEvent.

Definition redact (c : Z) : Z := if is_control c then replacement else c.

Definition bounded_audit_reason (reason : string) : string :=
  let redacted := of_chars (redact <$> chars reason) in
  if str_len redacted <=? Z.of_nat MAX_AUDIT_REASON_BYTES then redacted
  else of_bytes (take (floor_boundary (str_bytes redacted) MAX_AUDIT_REASON_BYTES) (str_bytes redacted)).

Definition record (events : list AuditEvent) (event : AuditEvent) : list AuditEvent :=
  let event := MkEvent (ev_plugin_id event) (ev_project_id event) (ev_from event) (ev_to event)
    (bounded_audit_reason (ev_reason event)) in
  (if MAX_AUDIT_EVENTS <=? Z.of_nat (length events) then tail events else events) ++ [event].

(** ** Instances *)

Record PluginInstance := MkInstance {
  inst_plugin_id : PluginId;
  inst_project_id : ScopeId;
  inst_package_digest : PackageDigest;
  inst_generation : option ActivationGeneration;
  inst_host : option HostInstanceId;
  inst_state : PluginLifecycleState.t;
  inst_audit : list AuditEvent
}.

Definition PluginInstance_new (plugin_id : PluginId) (project_id : ScopeId) (digest : PackageDigest)
    : PluginInstance :=
  MkInstance plugin_id project_id digest None None Discovered
    (record [] (MkEvent plugin_id project_id None Discovered "discovered")).

Definition transition (i : PluginInstance) (to : PluginLifecycleState.t) (reason : string)
    : PluginInstance * bool :=
  if negb (allowed_transition (inst_state i) to) then (i, false)
  else
    (MkInstance (inst_plugin_id i) (inst_project_id i) (inst_package_digest i) (inst_generation i)
       (inst_host i) to
       (record (inst_audit i)
          (MkEvent (inst_plugin_id i) (inst_project_id i) (Some (inst_state i)) to reason)), true).

(** Successive [if !instance.transition(..) { return Err(ForbiddenTransition) }]. *)
Fixpoint transitions (i : PluginInstance) (l : list (PluginLifecycleState.t * string))
    : PluginInstance * bool :=
  match l with
  | [] => (i, true)
  | (to, reason) :: l =>
      let '(i, ok) := transition i to reason in
      if ok then transitions i l else (i, false)
  end.

Definition set_host (i : PluginInstance) (host : option HostInstanceId) : PluginInstance :=
  MkInstance (inst_plugin_id i) (inst_project_id i) (inst_package_digest i) (inst_generation i)
    host (inst_state i) (inst_audit i).
Definition set_generation (i : PluginInstance) (g : option ActivationGeneration) : PluginInstance :=
  MkInstance (inst_plugin_id i) (inst_project_id i) (inst_package_digest i) g
    (inst_host i) (inst_state i) (inst_audit i).
Definition set_digest (i : PluginInstance) (d : PackageDigest) : PluginInstance :=
  MkInstance (inst_plugin_id i) (inst_project_id i) d (inst_generation i)
    (inst_host i) (inst_state i) (inst_audit i).
Definition set_audit (i : PluginInstance) (l : list AuditEvent) : PluginInstance :=
  MkInstance (inst_plugin_id i) (inst_project_id i) (inst_package_digest i) (inst_generation i)
    (inst_host i) (inst_state i) l.

(** ** The manager *)

Definition Key : Type := ScopeId * PluginId.

Record PluginManager := MkManager {
  instances : gmap (ScopeId * PluginId) PluginInstance;
  accepted_digests : gmap (ScopeId * PluginId) PackageDigest;
  pending_updates : gmap (ScopeId * PluginId) PackageDigest
}.
Definition empty_manager : PluginManager := MkManager ∅ ∅ ∅.

Inductive PluginManagerError :=
| UnknownPlugin | ForbiddenTransition | StaleReplacement | CandidateNotPending
| DuplicateDiscovery | GenerationExhausted.
Inductive DiscoveryOutcome := New | Unchanged | DiscoveredUpdate.

Definition put (m : PluginManager) (key : ScopeId * PluginId) (i : PluginInstance) : PluginManager :=
  MkManager (<[key := i]> (instances m)) (accepted_digests m) (pending_updates m).

Definition discover (m : PluginManager) (plugin_id : PluginId) (project_id : ScopeId)
    (digest : PackageDigest) : PluginManager * result PluginManagerError DiscoveryOutcome :=
  let key := (project_id, plugin_id) in
  match instances m !! key with
  | None => (put m key (PluginInstance_new plugin_id project_id digest), Ok New)
  | Some i =>
      if bool_decide (inst_package_digest i = digest) then (m, Ok Unchanged)
      else if bool_decide (inst_state i = Active) then
        (MkManager (instances m) (accepted_digests m) (<[key := digest]> (pending_updates m)),
         Ok DiscoveredUpdate)
      else (m, Err DuplicateDiscovery)
  end.

Definition enable (m : PluginManager) (host : HostInstanceId) (key : ScopeId * PluginId)
    : PluginManager * result PluginManagerError () :=
  match instances m !! key with
  | None => (m, Err UnknownPlugin)
  | Some i =>
      match (match inst_generation i with
             | Some g => checked_add_u64 (generation_get g) 1
             | None => Some 1
             end) with
      | None => (m, Err GenerationExhausted)
      | Some next_generation =>
          let '(i, ok) := transitions i
            ((if bool_decide (inst_state i = Discovered ∨ inst_state i = Stopped)
              then [(Disabled, "awaiting enable")] else [])
             ++ [(Resolving, "enable requested"); (Activating, "resolved"); (Active, "activated")]) in
          if negb ok then (put m key i, Err ForbiddenTransition)
          else match ActivationGeneration_new next_generation with
               | Err _ => (put m key i, Err GenerationExhausted)
               | Ok g =>
                   (MkManager
                      (<[key := set_host (set_generation i (Some g)) (Some host)]> (instances m))
                      (<[key := inst_package_digest i]> (accepted_digests m)) (pending_updates m), Ok ())
               end
      end
  end.

Definition disable (m : PluginManager) (key : ScopeId * PluginId)
    : PluginManager * result PluginManagerError () :=
  match instances m !! key with
  | None => (m, Err UnknownPlugin)
  | Some i =>
      let '(i, ok) := transitions i
        [(Quiescing, "disable requested"); (Disposing, "effects released");
         (Stopped, "teardown complete")] in
      if negb ok then (put m key i, Err ForbiddenTransition)
      else (put m key (set_host i None), Ok ())
  end.

Definition mark_crashed (m : PluginManager) (key : ScopeId * PluginId) (reason : string)
    : PluginManager * result PluginManagerError () :=
  match instances m !! key with
  | None => (m, Err UnknownPlugin)
  | Some i =>
      let '(i, ok) := transition i Crashed reason in
      if negb ok then (put m key i, Err ForbiddenTransition)
      else (put m key (set_host i None), Ok ())
  end.

Definition replace (m : PluginManager) (host : HostInstanceId) (key : ScopeId * PluginId)
    (expected_old candidate : PackageDigest) : PluginManager * result PluginManagerError () :=
  match accepted_digests m !! key with
  | None => (m, Err UnknownPlugin)
  | Some current =>
      if negb (bool_decide (current = expected_old)) then (m, Err StaleReplacement)
      else if negb (bool_decide (pending_updates m !! key = Some candidate)) then
        (m, Err CandidateNotPending)
      else match instances m !! key with
      | None => (m, Err UnknownPlugin)
      | Some i =>
          if negb (bool_decide (inst_state i = Active)) then (m, Err ForbiddenTransition)
          else match (g ← inst_generation i; checked_add_u64 (generation_get g) 1) with
          | None => (m, Err GenerationExhausted)
          | Some next_generation =>
              let i := set_digest i candidate in
              match ActivationGeneration_new next_generation with
              | Err _ => (put m key i, Err GenerationExhausted)
              | Ok g =>
                  let i := set_host (set_generation i (Some g)) (Some host) in
                  let i := set_audit i (record (inst_audit i)
                    (MkEvent key.2 key.1 (Some Active) Active "accepted local package replacement")) in
                  (MkManager (<[key := i]> (instances m)) (<[key := candidate]> (accepted_digests m))
                     (delete key (pending_updates m)), Ok ())
              end
          end
      end
  end.

Definition reject_update (m : PluginManager) (key : ScopeId * PluginId) : PluginManager * bool :=
  (MkManager (instances m) (accepted_digests m) (delete key (pending_updates m)),
   bool_decide (is_Some (pending_updates m !! key))).

(** A call on the manager and what it leaves. *)
Inductive ManagerCall :=
| Discover (digest : PackageDigest)
| Enable (host : HostInstanceId)
| Disable
| MarkCrashed (reason : string)
| Replace (host : HostInstanceId) (expected_old candidate : PackageDigest)
| RejectUpdate.

(** The manager after the call, and whether it succeeded. *)
Definition manager_call (m : PluginManager) (kc : (ScopeId * PluginId) * ManagerCall)
    : PluginManager * bool :=
  let key := kc.1 in
  match kc.2 with
  | Discover digest => let r := discover m key.2 key.1 digest in (r.1, is_ok r.2)
  | Enable host => let r := enable m host key in (r.1, is_ok r.2)
  | Disable => let r := disable m key in (r.1, is_ok r.2)
  | MarkCrashed reason => let r := mark_crashed m key reason in (r.1, is_ok r.2)
  | Replace host expected_old candidate =>
      let r := replace m host key expected_old candidate in (r.1, is_ok r.2)
  | RejectUpdate => reject_update m key
  end.
Definition run_manager (m : PluginManager) (calls : list ((ScopeId * PluginId) * ManagerCall))
    : PluginManager := foldl (λ m c, (manager_call m c).1) m calls.

(** ** Audit reasons *)

(** An audit reason that is valid text becomes text of at most 512 bytes without
    control characters: the whole characters of the reason from its start, each
    control replaced, and when they are cut, no more than three bytes short of 512. *)
Theorem bounded_audit_reason_correct (reason : string) :
  is_utf8 reason →
  ∃ cs, bounded_audit_reason reason = of_chars cs ∧
    str_len (bounded_audit_reason reason) <= 512 ∧
    cs `prefix_of` (redact <$> chars reason) ∧
    Forall (λ c, is_control c = false) cs ∧
    (cs ≠ redact <$> chars reason → 509 <= str_len (bounded_audit_reason reason)).
Proof.
  intros Hutf. set (r := redact <$> chars reason).
  assert (Hsc : Forall is_scalar r).
  { apply Forall_fmap. eapply Forall_impl; [by apply chars_scalar|]. intros c Hc. unfold redact. simpl.
    destruct (is_control c); [|done]. unfold is_scalar, replacement. lia. }
  assert (Hctl : Forall (λ c, is_control c = false) r).
  { apply Forall_fmap, Forall_forall. intros c _. unfold redact. simpl.
    destruct (is_control c) eqn:E; done. }
  unfold bounded_audit_reason. fold r. destruct (str_len (of_chars r) <=? _) eqn:Hlen.
  - apply Z.leb_le in Hlen. exists r. split_and!; done.
  - apply Z.leb_gt in Hlen. unfold str_len, of_chars in *. rewrite !str_bytes_of_bytes in *.
    destruct (floor_boundary_split r MAX_AUDIT_REASON_BYTES Hsc) as (cs1 & cs2 & Hr & Htake).
    pose proof (floor_boundary_le (utf8_encode r) MAX_AUDIT_REASON_BYTES) as Hle.
    pose proof (floor_boundary_ge r MAX_AUDIT_REASON_BYTES Hsc) as Hge.
    rewrite length_take. unfold MAX_AUDIT_REASON_BYTES in *.
    exists cs1. split_and!; [by f_equal|lia|by exists cs2| |lia].
    rewrite Hr in Hctl. by apply Forall_app in Hctl as [? _].
Qed.

Lemma bounded_audit_reason_correct_witness :
  str_len (bounded_audit_reason "teardown complete") <= 512.
Proof.
  destruct (bounded_audit_reason_correct "teardown complete") as (cs & _ & Hlen & _); [|exact Hlen].
  exists (code <$> str_bytes "teardown complete"). split; [|vm_compute; reflexivity].
  repeat constructor; vm_compute; discriminate || reflexivity.
Defined.

Lemma bounded_audit_reason_len reason : str_len (bounded_audit_reason reason) <= 512.
Proof.
  unfold bounded_audit_reason. destruct (_ <=? _) eqn:Hlen.
  - apply Z.leb_le in Hlen. done.
  - unfold str_len. rewrite str_bytes_of_bytes, length_take.
    pose proof (floor_boundary_le (str_bytes (of_chars (redact <$> chars reason))) MAX_AUDIT_REASON_BYTES).
    unfold MAX_AUDIT_REASON_BYTES in *. lia.
Qed.

(** ** Well-formed managers *)

(** Where an instance may go by itself: an allowed transition, or a replacement
    while active. *)
Definition audited_step (from to : PluginLifecycleState.t) : Prop :=
  allowed_transition from to = true ∨ (from = Active ∧ to = Active).

Record audit_ok (key : ScopeId * PluginId) (s : PluginLifecycleState.t) (l : list AuditEvent) : Prop := {
  ao_len : Z.of_nat (length l) <= 256;
  ao_last : ∃ l' e, l = l' ++ [e] ∧ ev_to e = s;
  ao_events : Forall (λ e, ev_project_id e = key.1 ∧ ev_plugin_id e = key.2 ∧
    str_len (ev_reason e) <= 512 ∧
    match ev_from e with None => ev_to e = Discovered | Some f => audited_step f (ev_to e) end) l;
  ao_chain : ∀ l1 e1 e2 l2, l = l1 ++ e1 :: e2 :: l2 → ev_from e2 = Some (ev_to e1)
}.

Lemma audit_ok_record key s s' l reason :
  audit_ok key s l → audited_step s s' →
  audit_ok key s' (record l (MkEvent key.2 key.1 (Some s) s' reason)).
Proof.
  intros [Hlen (l' & e & -> & <-) Hev Hch] Hstep. unfold record, MAX_AUDIT_EVENTS. simpl.
  set (ev := MkEvent _ _ _ _ _).
  assert (Hsub : ∃ p k, l' ++ [e] = p ++ k ++ [e] ∧
    (if 256 <=? Z.of_nat (length (l' ++ [e])) then tail (l' ++ [e]) else l' ++ [e]) = k ++ [e] ∧
    Z.of_nat (length (k ++ [e])) <= 255).
  { rewrite length_app in *. simpl in *. destruct (_ <=? _) eqn:E.
    - apply Z.leb_le in E. destruct l' as [|x l']; simpl in *; [lia|].
      exists [x], l'. rewrite length_app. simpl. split_and!; [done|done|lia].
    - apply Z.leb_gt in E. exists [], l'. rewrite length_app. simpl. split_and!; [done|done|lia]. }
  destruct Hsub as (p & k & Hp & -> & Hk). rewrite Hp in Hev, Hch. split.
  - rewrite length_app. simpl. lia.
  - by exists (k ++ [e]), ev.
  - apply Forall_app in Hev as [_ Hev]. apply Forall_app. split; [done|].
    constructor; [|constructor]. simpl. split_and!; [done|done|apply bounded_audit_reason_len|done].
  - intros l1 e1 e2 l2 Heq. destruct (decide (l2 = [])) as [->|Hne].
    + assert (k ++ [e] = l1 ++ [e1] ∧ ev = e2) as [He <-].
      { apply (app_inj_tail (k ++ [e]) (l1 ++ [e1])). by rewrite Heq, <-(app_assoc l1). }
      apply app_inj_tail in He as [_ <-]. done.
    + destruct (exists_last Hne) as (l3 & x & ->).
      assert (k ++ [e] = l1 ++ e1 :: e2 :: l3 ∧ ev = x) as [He _].
      { apply (app_inj_tail (k ++ [e]) (l1 ++ e1 :: e2 :: l3)). by rewrite Heq, <-(app_assoc l1). }
      apply (Hch (p ++ l1) e1 e2 l3). by rewrite He, <-app_assoc.
Qed.

Definition generation_value (i : PluginInstance) : Z :=
  match inst_generation i with Some g => generation_get g | None => 0 end.

Record instance_ok (key : ScopeId * PluginId) (accepted pending : option PackageDigest)
    (i : PluginInstance) : Prop := {
  io_project : inst_project_id i = key.1;
  io_plugin : inst_plugin_id i = key.2;
  io_state : inst_state i ∈ [Discovered; Active; Stopped; Crashed];
  io_host : is_Some (inst_host i) ↔ inst_state i = Active;
  io_generation : 0 <= generation_value i <= u64_max;
  io_started : inst_state i = Discovered ↔ inst_generation i = None;
  io_positive : inst_state i ≠ Discovered → 1 <= generation_value i;
  io_accepted : accepted = if decide (inst_state i = Discovered) then None else Some (inst_package_digest i);
  io_pending d : pending = Some d → d ≠ inst_package_digest i ∧ inst_state i ≠ Discovered;
  io_audit : audit_ok key (inst_state i) (inst_audit i)
}.

Definition manager_ok (m : PluginManager) : Prop :=
  ∀ key, match instances m !! key with
         | None => accepted_digests m !! key = None ∧ pending_updates m !! key = None
         | Some i => instance_ok key (accepted_digests m !! key) (pending_updates m !! key) i
         end.

Lemma empty_manager_ok : manager_ok empty_manager.
Proof. intros key. simpl. by rewrite !lookup_empty. Qed.

(** ** Calls *)

(** The instance after a call that changes its state through [path], whose audit
    trail is extended accordingly. *)
Fixpoint along (i : PluginInstance) (path : list (PluginLifecycleState.t * string)) : PluginInstance :=
  match path with
  | [] => i
  | (to, reason) :: path => along (transition i to reason).1 path
  end.

Lemma transitions_along i path :
  (transitions i path).2 = true → (transitions i path).1 = along i path.
Proof.
  revert i. induction path as [|[to reason] path IH]; intros i; [done|]. simpl.
  destruct (transition i to reason) as [i' ok]. destruct ok; simpl; [apply IH|done].
Qed.
(** A path is taken to its end, and recorded, when every step of it is allowed. *)
Fixpoint allowed_path (s : PluginLifecycleState.t) (path : list (PluginLifecycleState.t * string)) : bool :=
  match path with
  | [] => true
  | (to, _) :: path => allowed_transition s to && allowed_path to path
  end.
Definition path_end (s : PluginLifecycleState.t) (path : list (PluginLifecycleState.t * string)) :=
  foldl (λ _ p, p.1) s path.

Lemma transitions_true i path :
  allowed_path (inst_state i) path = true →
  (transitions i path).2 = true ∧
  let i' := (transitions i path).1 in
  inst_state i' = path_end (inst_state i) path ∧
  inst_plugin_id i' = inst_plugin_id i ∧ inst_project_id i' = inst_project_id i ∧
  inst_package_digest i' = inst_package_digest i ∧ inst_generation i' = inst_generation i ∧
  inst_host i' = inst_host i ∧
  (audit_ok (inst_project_id i, inst_plugin_id i) (inst_state i) (inst_audit i) →
   audit_ok (inst_project_id i, inst_plugin_id i) (inst_state i') (inst_audit i')).
Proof.
  revert i. induction path as [|[to reason] path IH]; intros i; simpl; [intros _; by split_and!|].
  intros [Ha Hp]%andb_true_iff. unfold transition. rewrite Ha. simpl.
  destruct (IH (MkInstance (inst_plugin_id i) (inst_project_id i) (inst_package_digest i)
    (inst_generation i) (inst_host i) to (record (inst_audit i)
       (MkEvent (inst_plugin_id i) (inst_project_id i) (Some (inst_state i)) to reason))) Hp)
    as (? & ? & ? & ? & ? & ? & ? & Hau).
  split_and!; try done. intros Hok. apply Hau. simpl.
  apply (audit_ok_record (inst_project_id i, inst_plugin_id i)); [done|by left].
Qed.
Lemma transitions_false i to reason path :
  allowed_transition (inst_state i) to = false → transitions i ((to, reason) :: path) = (i, false).
Proof. intros Ha. simpl. unfold transition. by rewrite Ha. Qed.

(** When a call succeeds. *)
Definition call_allowed (m : PluginManager) (key : ScopeId * PluginId) (c : ManagerCall) : Prop :=
  match c with
  | Discover d => ∀ i, instances m !! key = Some i → inst_package_digest i = d ∨ inst_state i = Active
  | Enable _ => ∃ i, instances m !! key = Some i ∧
      (inst_state i = Discovered ∨ inst_state i = Stopped) ∧ generation_value i < u64_max
  | Disable | MarkCrashed _ => ∃ i, instances m !! key = Some i ∧ inst_state i = Active
  | Replace _ expected_old candidate => ∃ i, instances m !! key = Some i ∧ inst_state i = Active ∧
      inst_package_digest i = expected_old ∧ pending_updates m !! key = Some candidate ∧
      generation_value i < u64_max
  | RejectUpdate => is_Some (pending_updates m !! key)
  end.

(** What a successful call does to the instance of its key, and to its pending update. *)
Definition call_effect (c : ManagerCall) (i i' : PluginInstance)
    (pending pending' : option PackageDigest) : Prop :=
  match c with
  | Discover d => i' = i ∧
      pending' = if decide (d = inst_package_digest i) then pending else Some d
  | Enable host => inst_state i' = Active ∧ inst_host i' = Some host ∧
      inst_package_digest i' = inst_package_digest i ∧
      generation_value i' = generation_value i + 1 ∧ pending' = pending
  | Disable => inst_state i' = Stopped ∧ inst_host i' = None ∧
      inst_package_digest i' = inst_package_digest i ∧
      generation_value i' = generation_value i ∧ pending' = pending
  | MarkCrashed _ => inst_state i' = Crashed ∧ inst_host i' = None ∧
      inst_package_digest i' = inst_package_digest i ∧
      generation_value i' = generation_value i ∧ pending' = pending
  | Replace host _ candidate => inst_state i' = Active ∧ inst_host i' = Some host ∧
      inst_package_digest i' = candidate ∧
      generation_value i' = generation_value i + 1 ∧ pending' = None
  | RejectUpdate => i' = i ∧ pending' = None
  end.

(** The part of a correct call that concerns its own key. *)
Definition call_post (m m' : PluginManager) (key : ScopeId * PluginId) (c : ManagerCall) : Prop :=
  match instances m !! key with
  | None => ∃ d, c = Discover d ∧ pending_updates m' !! key = None ∧
      instances m' !! key = Some (PluginInstance_new key.2 key.1 d)
  | Some i => ∃ i', instances m' !! key = Some i' ∧
      call_effect c i i' (pending_updates m !! key) (pending_updates m' !! key)
  end.

(** A correct call: it succeeds exactly when allowed, does nothing when it fails,
    never touches another key, and keeps the manager well formed. *)
Record call_correct (m : PluginManager) (key : ScopeId * PluginId) (c : ManagerCall)
    (m' : PluginManager) (ok : bool) : Prop := {
  cc_allowed : ok = true ↔ call_allowed m key c;
  cc_atomic : ok = false → m' = m;
  cc_post : ok = true → call_post m m' key c;
  cc_others key' : key' ≠ key → instances m' !! key' = instances m !! key' ∧
    accepted_digests m' !! key' = accepted_digests m !! key' ∧
    pending_updates m' !! key' = pending_updates m !! key';
  cc_ok : match instances m' !! key with
          | None => accepted_digests m' !! key = None ∧ pending_updates m' !! key = None
          | Some i => instance_ok key (accepted_digests m' !! key) (pending_updates m' !! key) i
          end
}.

Section calls.
Context (m : PluginManager) (key : ScopeId * PluginId).
Hypothesis Hm : manager_ok m.

Lemma call_refused c :
  ¬ call_allowed m key c → call_correct m key c m false.
Proof using Hm. intros Hn. split; [naive_solver|done|done|done|apply (Hm key)]. Qed.

Lemma put_same i : instances m !! key = Some i → put m key i = m.
Proof. intros Hi. unfold put. rewrite insert_id by done. by destruct m. Qed.

Lemma instance_found i : instances m !! key = Some i →
  instance_ok key (accepted_digests m !! key) (pending_updates m !! key) i.
Proof using Hm. intros Hi. pose proof (Hm key) as Hk. by rewrite Hi in Hk. Qed.

Lemma discover_correct d :
  call_correct m key (Discover d) (manager_call m (key, Discover d)).1 (manager_call m (key, Discover d)).2.
Proof using Hm.
  destruct key as [project plugin] eqn:Hkey. unfold manager_call, discover. cbn [fst snd].
  rewrite <-Hkey in *. destruct (instances m !! key) as [i|] eqn:Hi.
  - pose proof (instance_found i Hi) as Hok.
    case_bool_decide as Hd.
    { split; [|done| |done|apply (Hm key)].
      - split; [|done]. intros _ i' Hi'. left. congruence.
      - intros _. unfold call_post. rewrite Hi. exists i. split; [done|]. simpl.
        by rewrite decide_True. }
    case_bool_decide as Ha; simpl.
    + split; simpl; [| | | |rewrite Hi].
      * split; [|done]. intros _ i' Hi'. right. congruence.
      * done.
      * intros _. unfold call_post. rewrite Hi. exists i. simpl. rewrite lookup_insert_eq.
        by rewrite decide_False by congruence.
      * intros key' Hne. by rewrite lookup_insert_ne.
      * rewrite lookup_insert_eq. destruct Hok. split; try done.
        intros d' [= <-]. rewrite Ha. done.
    + apply call_refused. intros Hn. destruct (Hn i Hi); done.
  - pose proof (Hm key) as Hk. rewrite Hi in Hk. destruct Hk as [Hacc Hpend].
    split; simpl; [| | | |].
    + split; [|done]. intros _ i' Hi'. congruence.
    + done.
    + intros _. unfold call_post. rewrite Hi. exists d. rewrite Hkey. simpl.
      by rewrite lookup_insert_eq, <-Hkey.
    + intros key' Hne. by rewrite lookup_insert_ne.
    + rewrite lookup_insert_eq, Hacc, Hpend. rewrite Hkey. split; simpl; try done.
      * by left.
      * split; simpl; [lia| | |].
        -- by eexists [], _.
        -- constructor; [|constructor]. simpl. split_and!; [done|done|apply bounded_audit_reason_len|done].
        -- intros [|? [|? ?]] ? ? ? Heq; done.
Qed.

(** A call that succeeded and replaced the instance of its key. *)
Lemma call_moved c i i' accepted' pending' :
  instances m !! key = Some i → call_allowed m key c →
  (∀ key', key' ≠ key → accepted' !! key' = accepted_digests m !! key' ∧
     pending' !! key' = pending_updates m !! key') →
  call_effect c i i' (pending_updates m !! key) (pending' !! key) →
  instance_ok key (accepted' !! key) (pending' !! key) i' →
  call_correct m key c (MkManager (<[key := i']> (instances m)) accepted' pending') true.
Proof using Hm.
  intros Hi Hc Hoth Heff Hok. split; simpl; [done|done| | |].
  - intros _. unfold call_post. rewrite Hi. exists i'. simpl. by rewrite lookup_insert_eq.
  - intros key' Hne. rewrite lookup_insert_ne by done. split; [done|]. by apply Hoth.
  - by rewrite lookup_insert_eq.
Qed.

(** The teardown calls: a path from [Active], after which the host is gone. *)
Lemma teardown_correct c path :
  allowed_path Active path = true → path_end Active path ∈ [Stopped; Crashed] →
  (∀ s, s ∈ [Discovered; Stopped; Crashed] →
     ∃ to reason rest, path = (to, reason) :: rest ∧ allowed_transition s to = false) →
  (call_allowed m key c ↔ ∃ i, instances m !! key = Some i ∧ inst_state i = Active) →
  (∀ i i' p, inst_state i' = path_end Active path → inst_host i' = None →
     inst_package_digest i' = inst_package_digest i → generation_value i' = generation_value i →
     call_effect c i i' p p) →
  let r := match instances m !! key with
           | None => (m, false)
           | Some i => let '(i, ok) := transitions i path in
               if negb ok then (put m key i, false) else (put m key (set_host i None), true)
           end in
  call_correct m key c r.1 r.2.
Proof using Hm.
  intros Hpath Hend Hout Hall Heff. destruct (instances m !! key) as [i|] eqn:Hi; cbv zeta.
  2:{ apply call_refused. rewrite Hall. by intros (? & ? & _). }
  pose proof (instance_found i Hi) as Hok.
  destruct (decide (inst_state i = Active)) as [Ha|Ha].
  - destruct (transitions_true i path) as (Hts & Hs & Hpl & Hpr & Hd & Hg & Hh & Hau); [by rewrite Ha|].
    destruct (transitions i path) as [i' ok]. simpl in *. rewrite Hts. simpl. subst ok. rewrite Ha in Hs.
    assert (Hgv : generation_value i' = generation_value i) by (unfold generation_value; by rewrite Hg).
    assert (Hne : inst_state i' ≠ Discovered ∧ inst_state i' ≠ Active).
    { rewrite Hs. split; intros He; rewrite He in Hend; by rewrite !elem_of_cons, elem_of_nil in Hend; naive_solver. }
    apply (call_moved c i); [done|rewrite Hall; by exists i|done|by apply Heff|].
    destruct Hok as [Hopr Hopl _ _ Hogen Host Hopos Hoacc Hopend Hoaud]. split; simpl; try congruence.
    + rewrite Hs. set_solver.
    + split; [by intros [? ?]|]. intros. by destruct Hne.
    + by rewrite <-Hgv in Hogen.
    + rewrite Hg, <-Host, Ha. naive_solver.
    + intros _. change (1 <= generation_value i'). rewrite Hgv. apply Hopos. by rewrite Ha.
    + rewrite Hoacc, Hd. rewrite decide_False by by rewrite Ha. by rewrite decide_False by apply Hne.
    + intros d [Hdd _]%Hopend. rewrite Hd. split; [done|apply Hne].
    + rewrite Hopr, Hopl in Hau. destruct key. by apply Hau.
  - assert (Hs : inst_state i ∈ [Discovered; Stopped; Crashed]) by (destruct Hok; set_solver).
    destruct (Hout _ Hs) as (to & reason & rest & -> & Hf). rewrite transitions_false by done. simpl.
    rewrite (put_same i Hi). apply call_refused. rewrite Hall. intros (i2 & Hi2 & Ha2). congruence.
Qed.

Ltac three_states := rewrite !elem_of_cons, elem_of_nil; intros [->|[->|[->|[]]]]; by eexists _, _, _.

Lemma disable_correct : call_correct m key Disable (manager_call m (key, Disable)).1 (manager_call m (key, Disable)).2.
Proof using Hm.
  set (path := [(Quiescing, "disable requested"); (Disposing, "effects released");
                (Stopped, "teardown complete")]).
  assert (manager_call m (key, Disable) =
    match instances m !! key with
    | None => (m, false)
    | Some i => let '(i, ok) := transitions i path in
        if negb ok then (put m key i, false) else (put m key (set_host i None), true)
    end) as ->.
  { unfold manager_call. cbn [fst snd]. unfold disable. destruct (instances m !! key) as [i|]; [|done].
    fold path. cbv zeta. destruct (transitions i path) as [i' []]; done. }
  apply (teardown_correct Disable path); [done|set_solver| |done|intros; by split_and!].
  intros s. three_states.
Qed.

Lemma mark_crashed_correct reason :
  call_correct m key (MarkCrashed reason) (manager_call m (key, MarkCrashed reason)).1
    (manager_call m (key, MarkCrashed reason)).2.
Proof using Hm.
  assert (manager_call m (key, MarkCrashed reason) =
    match instances m !! key with
    | None => (m, false)
    | Some i => let '(i, ok) := transitions i [(Crashed, reason)] in
        if negb ok then (put m key i, false) else (put m key (set_host i None), true)
    end) as ->.
  { unfold manager_call. cbn [fst snd]. unfold mark_crashed. destruct (instances m !! key) as [i|]; [|done].
    cbv zeta. cbn [transitions]. destruct (transition i Crashed reason) as [i' []]; done. }
  apply (teardown_correct (MarkCrashed reason) [(Crashed, reason)]);
    [done|set_solver| |done|intros; by split_and!].
  intros s. three_states.
Qed.

(** The next generation of [enable] and of [replace]. *)
Lemma next_generation i : instance_ok key (accepted_digests m !! key) (pending_updates m !! key) i →
  (match inst_generation i with Some g => checked_add_u64 (generation_get g) 1 | None => Some 1 end) =
  if decide (generation_value i < u64_max) then Some (generation_value i + 1) else None.
Proof using.
  intros [_ _ _ _ Hg _ _ _ _ _]. unfold generation_value in *. destruct (inst_generation i) as [g|].
  - unfold checked_add_u64. case_decide; destruct (_ <=? _) eqn:E; try done; lia.
  - by rewrite decide_True.
Qed.
Lemma ActivationGeneration_new_succ n :
  0 <= n → ActivationGeneration_new (n + 1) = Ok (MkGeneration (n + 1)).
Proof using. intros. unfold ActivationGeneration_new. by rewrite (proj2 (Z.eqb_neq _ _)) by lia. Qed.

Lemma enable_correct host : call_correct m key (Enable host) (manager_call m (key, Enable host)).1
  (manager_call m (key, Enable host)).2.
Proof using Hm.
  unfold manager_call, enable. cbn [fst snd]. destruct (instances m !! key) as [i|] eqn:Hi.
  2:{ apply call_refused. intros (i & ? & _). congruence. }
  pose proof (instance_found i Hi) as Hok. rewrite (next_generation i Hok).
  case_decide as Hgen; [|apply call_refused; intros (i2 & Hi2 & _ & ?); congruence].
  destruct (decide (inst_state i = Discovered ∨ inst_state i = Stopped)) as [Hs|Hs].
  - rewrite bool_decide_true by done. cbn [app]. set (path := (Disabled, _) :: _).
    destruct (transitions_true i path) as (Hts & Hse & Hpl & Hpr & Hd & Hg & Hh & Hau);
      [by destruct Hs as [-> | ->]|].
    destruct (transitions i path) as [i' ok]. simpl in Hts, Hse, Hpl, Hpr, Hd, Hg, Hh, Hau. subst ok.
    cbn [negb]. destruct Hok as [Hopr Hopl _ _ Hogen Host Hopos Hoacc Hopend Hoaud].
    rewrite ActivationGeneration_new_succ by lia. cbn [fst snd is_ok].
    apply (call_moved _ i); [done| | | |].
    + by exists i.
    + intros key' Hne. by rewrite lookup_insert_ne.
    + simpl. by rewrite Hd.
    + rewrite lookup_insert_eq. split; simpl; try congruence.
      * rewrite Hse. set_solver.
      * rewrite Hse. split; [done|by eexists].
      * change (0 <= generation_value i + 1 <= u64_max). lia.
      * rewrite Hse. done.
      * intros _. change (1 <= generation_value i + 1). lia.
      * by rewrite decide_False, Hd by by rewrite Hse.
      * rewrite Hd, Hse. intros d [? _]%Hopend. done.
      * rewrite Hopr, Hopl in Hau. destruct key. by apply Hau.
  - rewrite bool_decide_false by done. cbn [app].
    rewrite transitions_false.
    + simpl. rewrite (put_same i Hi). apply call_refused. intros (i2 & Hi2 & ? & _). naive_solver.
    + destruct Hok as [_ _ Hst _ _ _ _ _ _ _]. rewrite !elem_of_cons, elem_of_nil in Hst.
      destruct Hst as [Hst|[Hst|[Hst|[Hst|[]]]]]; rewrite Hst; try done; naive_solver.
Qed.

Lemma replace_correct host old candidate :
  call_correct m key (Replace host old candidate) (manager_call m (key, Replace host old candidate)).1
    (manager_call m (key, Replace host old candidate)).2.
Proof using Hm.
  unfold manager_call, replace. cbn [fst snd]. destruct (accepted_digests m !! key) as [current|] eqn:Hacc.
  2:{ apply call_refused. intros (i & Hi & Ha & _).
      pose proof (io_accepted _ _ _ _ (instance_found i Hi)) as Hx. rewrite Hacc, Ha in Hx. done. }
  assert (Hcur : ∀ i, instances m !! key = Some i → inst_package_digest i = current).
  { intros i Hi. pose proof (io_accepted _ _ _ _ (instance_found i Hi)) as Hx. rewrite Hacc in Hx.
    case_decide; congruence. }
  destruct (negb (bool_decide (current = old))) eqn:Ho.
  { bool_prop. apply call_refused. intros (i & Hi & _ & Hd & _). rewrite (Hcur i Hi) in Hd. done. }
  destruct (negb (bool_decide (pending_updates m !! key = Some candidate))) eqn:Hp.
  { bool_prop. apply call_refused. by intros (i & _ & _ & _ & ? & _). }
  bool_prop. destruct (instances m !! key) as [i|] eqn:Hi.
  2:{ apply call_refused. intros (i & ? & _). congruence. }
  destruct (negb (bool_decide (inst_state i = Active))) eqn:Ha.
  { bool_prop. apply call_refused. intros (i2 & ? & ? & _). congruence. }
  bool_prop. pose proof (instance_found i Hi) as Hok. pose proof (next_generation i Hok) as Hnext.
  destruct Hok as [Hopr Hopl _ Hoh Hogen Host Hopos Hoacc Hopend Hoaud].
  assert (Hg : (g ← inst_generation i; checked_add_u64 (generation_get g) 1) =
    if decide (generation_value i < u64_max) then Some (generation_value i + 1) else None).
  { rewrite <-Hnext. destruct (inst_generation i); [done|]. exfalso.
    assert (inst_state i = Discovered) by by apply Host. congruence. }
  rewrite Hg. case_decide as Hgen.
  2:{ apply call_refused. intros (i2 & ? & _ & _ & _ & ?). congruence. }
  rewrite ActivationGeneration_new_succ by lia. cbn [fst snd is_ok].
  apply (call_moved _ i); [done| | | |].
  - exists i. split_and!; try done. by rewrite (Hcur i eq_refl).
  - intros key' Hne. by rewrite lookup_insert_ne, lookup_delete_ne.
  - simpl. split_and!; try done. by rewrite lookup_delete_eq.
  - rewrite lookup_insert_eq, lookup_delete_eq. split; simpl; try done.
    + rewrite Ha. set_solver.
    + change (0 <= generation_value i + 1 <= u64_max). lia.
    + rewrite Ha. done.
    + intros _. change (1 <= generation_value i + 1). lia.
    + by rewrite decide_False by by rewrite Ha.
    + rewrite Ha in *. apply audit_ok_record; [done|by right].
Qed.

Lemma reject_correct : call_correct m key RejectUpdate (manager_call m (key, RejectUpdate)).1
  (manager_call m (key, RejectUpdate)).2.
Proof using Hm.
  unfold manager_call, reject_update. cbn [fst snd].
  destruct (pending_updates m !! key) as [d|] eqn:Hp.
  - rewrite bool_decide_true by by eexists. pose proof (Hm key) as Hk. split; simpl; [| | | |].
    + rewrite Hp. split; [by eexists|done].
    + done.
    + intros _. unfold call_post. simpl. destruct (instances m !! key) as [i|] eqn:Hi.
      * exists i. split; [done|]. simpl. by rewrite lookup_delete_eq.
      * destruct Hk as [_ Hk]. congruence.
    + intros key' Hne. by rewrite lookup_delete_ne.
    + rewrite lookup_delete_eq. destruct (instances m !! key) as [i|]; [|by destruct Hk].
      destruct Hk. by split.
  - rewrite bool_decide_false by by intros [? ?].
    assert (MkManager (instances m) (accepted_digests m) (delete key (pending_updates m)) = m) as ->.
    { rewrite delete_id by done. by destruct m. }
    apply call_refused. simpl. rewrite Hp. by intros [? ?].
Qed.

Lemma manager_call_ok c : call_correct m key c (manager_call m (key, c)).1 (manager_call m (key, c)).2.
Proof using Hm.
  destruct c.
  - apply discover_correct.
  - apply enable_correct.
  - apply disable_correct.
  - apply mark_crashed_correct.
  - apply replace_correct.
  - apply reject_correct.
Qed.
End calls.

(** ** Sequences of calls *)

Lemma manager_call_manager_ok m key c : manager_ok m → manager_ok (manager_call m (key, c)).1.
Proof.
  intros Hm key'. destruct (manager_call_ok m key Hm c) as [_ _ _ Hoth Hown].
  destruct (decide (key' = key)) as [->|Hne]; [done|].
  destruct (Hoth key' Hne) as (-> & -> & ->). apply Hm.
Qed.
Lemma run_manager_ok m calls : manager_ok m → manager_ok (run_manager m calls).
Proof.
  revert m. induction calls as [|[key c] calls IH]; intros m Hm; [done|].
  apply (IH (manager_call m (key, c)).1). by apply manager_call_manager_ok.
Qed.

(** C21: whatever calls were made on a new manager, every instance is discovered,
    active, stopped or crashed, has a host session exactly while it is active, a
    positive generation and its own digest accepted since it was first enabled, and
    an audit trail of at most 256 events linked by allowed transitions; and the next
    call succeeds exactly when it is allowed, does what it should to its own plugin,
    does nothing at all when it fails, and never touches another plugin. *)
Theorem manager_correct (calls : list ((ScopeId * PluginId) * ManagerCall))
    (key : ScopeId * PluginId) (c : ManagerCall) :
  let m := run_manager empty_manager calls in
  manager_ok m ∧
  call_correct m key c (manager_call m (key, c)).1 (manager_call m (key, c)).2.
Proof.
  intros m. assert (Hm : manager_ok m) by apply run_manager_ok, empty_manager_ok.
  split; [done|by apply manager_call_ok].
Qed.

(** How an instance may differ later: the generation never goes back, and while it
    stays the same so does the package, and an active instance was active before,
    with the same host session. *)
Definition succeeds (i i' : PluginInstance) : Prop :=
  generation_value i <= generation_value i' ∧
  (generation_value i = generation_value i' →
     inst_package_digest i = inst_package_digest i' ∧
     (inst_state i' = Active → inst_state i = Active ∧ inst_host i = inst_host i')).
#[global] Instance succeeds_preorder : PreOrder succeeds.
Proof.
  split; [done|]. intros i j k [H1 H2] [H3 H4]. split; [lia|]. intros Heq.
  destruct H2 as [-> H2]; [lia|]. destruct H4 as [-> H4]; [lia|]. split; [done|].
  intros Hk. destruct (H4 Hk) as [Hj <-]. by apply H2.
Qed.

Lemma manager_call_succeeds m key kc c i :
  manager_ok m → instances m !! key = Some i →
  ∃ i', instances (manager_call m (kc, c)).1 !! key = Some i' ∧ succeeds i i' ∧
    (inst_state i = Crashed → i' = i).
Proof.
  intros Hm Hi. destruct (manager_call_ok m kc Hm c) as [Hall Hat Hpost Hoth _].
  destruct (decide (key = kc)) as [->|Hne].
  2:{ exists i. destruct (Hoth key Hne) as (-> & _ & _). done. }
  destruct (manager_call m (kc, c)) as [m' ok]. simpl in *. destruct ok.
  2:{ rewrite Hat by done. by exists i. }
  specialize (Hpost eq_refl). unfold call_post in Hpost. rewrite Hi in Hpost.
  destruct Hpost as (i' & Hi' & He). exists i'. split; [done|].
  pose proof (proj1 Hall eq_refl) as Ha.
  unfold succeeds. destruct c; simpl in He, Ha; destruct_and?; subst;
    try (destruct Ha as (i2 & Hi2 & Ha); simplify_eq); split; try done;
    try (split; [lia|]; intros; split; congruence || lia); intros Hc; destruct_and?;
    destruct_or?; congruence.
Qed.

Lemma run_manager_succeeds m calls key i :
  manager_ok m → instances m !! key = Some i →
  ∃ i', instances (run_manager m calls) !! key = Some i' ∧ succeeds i i' ∧
    (inst_state i = Crashed → i' = i).
Proof.
  revert m i. induction calls as [|[kc c] calls IH]; intros m i Hm Hi; [by exists i|].
  destruct (manager_call_succeeds m key kc c i Hm Hi) as (j & Hj & Hs & Hc).
  destruct (IH (manager_call m (kc, c)).1 j) as (k & Hk & Hs' & Hc'); [by apply manager_call_manager_ok|done|].
  exists k. split_and!; [done|by etrans|]. intros Hcr. rewrite (Hc Hcr) in *. by apply Hc'.
Qed.

(** an activation generation names one package and one host session for ever: in
    every sequence of calls the generation of a plugin never goes back, and two moments
    with the same generation have the same package digest and, when the plugin is active
    at the later one, the same host session, active throughout. *)
Theorem generation_identifies_session (before after : list ((ScopeId * PluginId) * ManagerCall))
    (key : ScopeId * PluginId) (i : PluginInstance) :
  instances (run_manager empty_manager before) !! key = Some i →
  ∃ i', instances (run_manager empty_manager (before ++ after)) !! key = Some i' ∧
    generation_value i <= generation_value i' ∧
    (generation_value i = generation_value i' →
       inst_package_digest i = inst_package_digest i' ∧
       (inst_state i' = Active → inst_state i = Active ∧ inst_host i = inst_host i')).
Proof.
  intros Hi. destruct (run_manager_succeeds (run_manager empty_manager before) after key i)
    as (i' & Hi' & Hs & _); [apply run_manager_ok, empty_manager_ok|done|].
  exists i'. split; [|done]. unfold run_manager in *. by rewrite foldl_app.
Qed.

(** The transition table has the edges [Crashed -> Disabled] and [Crashed -> Stopped],
    but no operation of the manager takes them: a crashed plugin stays as it is. *)
Lemma crashed_never_recovers before after key i :
  instances (run_manager empty_manager before) !! key = Some i → inst_state i = Crashed →
  instances (run_manager empty_manager (before ++ after)) !! key = Some i.
Proof.
  intros Hi Hc. destruct (run_manager_succeeds (run_manager empty_manager before) after key i)
    as (i' & Hi' & _ & Hs); [apply run_manager_ok, empty_manager_ok|done|].
  unfold run_manager in *. by rewrite foldl_app, Hi', (Hs Hc).
Qed.

(** ** A concrete plugin *)

Definition ex_key : ScopeId * PluginId := (MkIdent "p1", MkIdent "viewer").
Definition ex_old : PackageDigest := MkPackageDigest "old".
Definition ex_new : PackageDigest := MkPackageDigest "new".
Definition ex_session : HostInstanceId := MkHostInstanceId "instance.a".

Lemma generation_identifies_session_witness :
  ∃ i', instances (run_manager empty_manager
          ([(ex_key, Discover ex_old); (ex_key, Enable ex_session)] ++ [(ex_key, Disable)])) !! ex_key = Some i' ∧
    generation_value (PluginInstance_new ex_key.2 ex_key.1 ex_old) <= generation_value i'.
Proof.
  destruct (generation_identifies_session [(ex_key, Discover ex_old)]
    [(ex_key, Enable ex_session); (ex_key, Disable)] ex_key
    (PluginInstance_new ex_key.2 ex_key.1 ex_old)) as (i' & Hi' & Hg & _).
  - vm_compute. reflexivity.
  - exists i'. split; [exact Hi'|exact Hg].
Defined.

Lemma manager_correct_witness :
  call_allowed (run_manager empty_manager [(ex_key, Discover ex_old)]) ex_key (Enable ex_session).
Proof.
  refine (proj1 (cc_allowed _ _ _ _ _ (proj2 (manager_correct [(ex_key, Discover ex_old)] ex_key
    (Enable ex_session)))) _).
  vm_compute. reflexivity.
Defined.

(** A candidate stays pending when the old package is discovered again, and
    [replace] then accepts a package that is no longer the one on disk. *)
Lemma stale_candidate_accepted :
  let m := run_manager empty_manager
    [(ex_key, Discover ex_old); (ex_key, Enable ex_session); (ex_key, Discover ex_new);
     (ex_key, Discover ex_old)] in
  (manager_call m (ex_key, Replace ex_session ex_old ex_new)).2 = true.
Proof. vm_compute. reflexivity. Qed.
