(* ===== verification/Contribution.v ===== *)
(** * Declarative contributions

    Model of [crates/rho-extension-runtime/src/contribution.rs]: the shape checks
    of a contribution declaration, and the project-scoped store in which a plugin
    instance publishes its contributions.  An operation that takes [&mut self]
    returns the store it leaves beside its result. *)
From S2P Require Import Prelude Text Errors External JsonSchema Digest Host.
#[local] Open Scope Z_scope.

Definition MAX_CONTRIBUTIONS_PER_PROJECT : Z := 256.
Definition MAX_CONTRIBUTIONS_PER_PACKAGE : Z := 32.
Definition MAX_CONTRIBUTION_LABEL_BYTES : Z := 128.
Definition MAX_CONTRIBUTION_PURPOSE_BYTES : Z := 1024.
Definition MAX_CONTRIBUTION_MEDIA_TYPES : Z := 16.
Definition MAX_CONTRIBUTION_MEDIA_TYPE_BYTES : Z := 128.
Definition PLUGIN_DETAILS_PANEL_SLOT : string := "plugin_details".

Module ContributionKind.
Inductive t := Command | Viewer | Source | Tool | Skill | Panel.
#[global] Instance t_eq_dec : EqDecision t.
Proof. solve_decision. Defined.
(** The [Debug] form. *)
#[global] Instance t_debug : Display t := λ k,
  match k with
  | Command => "Command" | Viewer => "Viewer" | Source => "Source" | Tool => "Tool"
  | Skill => "Skill" | Panel => "Panel"
  end.
End ContributionKind.
Import ContributionKind.

Definition ContributionKind_parse (value : string) : option ContributionKind.t :=
  let guard (rest : string) (k : ContributionKind.t) := if str_is_empty rest then None else Some k in
  match strip_prefix "ui.command." value with Some rest => guard rest Command | None =>
  match strip_prefix "ui.viewer." value with Some rest => guard rest Viewer | None =>
  match strip_prefix "source." value with Some rest => guard rest Source | None =>
  match strip_prefix "tool." value with Some rest => guard rest Tool | None =>
  match strip_prefix "skill." value with Some rest => guard rest Skill | None =>
  match strip_prefix "ui.panel." value with Some rest => guard rest Panel | None => None
  end end end end end end.

(** ** Untrusted text and media types *)

Definition contains_bidi_override (value : string) : bool := existsb is_bidi_control (chars value).

Definition url_markers : list string := ["http://"; "https://"; "file://"; "data:"; "www."].
Definition reserved_terms : list string :=
  ["approval"; "credential"; "password"; "updater"; "security alert"; "system dialog"].

Definition validate_untrusted_text (value : string) (maximum_bytes : Z) (field : string)
    : result string () :=
  _ ← fail_if (str_is_empty value || negb (str_eq (str_trim value) value)
               || (maximum_bytes <? str_len value) || existsb is_control (chars value)
               || contains_bidi_override value)
        ("contribution " +:+ field +:+ " is empty, oversized, or contains unsafe controls");
  let lowercase := str_to_lowercase value in
  _ ← fail_if (existsb (λ c, str_contains c value) ["<"; ">"; "`"]%char
               || str_contains_str "![" value || str_contains_str "](" value
               || existsb (λ marker, str_contains_str marker lowercase) url_markers)
        ("contribution " +:+ field +:+ " must be plain text without markup or URLs");
  fail_if (existsb (λ term, str_contains_str term lowercase) reserved_terms)
    ("contribution " +:+ field +:+ " uses reserved trusted-surface terminology").

Definition media_byte (c : ascii) : bool :=
  is_ascii_lowercase c || is_ascii_digit c || one_of ["/"; "+"; "."; "-"]%char c.

(** The tests of one media type, before the duplicate check. *)
Definition malformed_media_type (media_type : string) : bool :=
  str_is_empty media_type || (MAX_CONTRIBUTION_MEDIA_TYPE_BYTES <? str_len media_type)
  || str_contains "*" media_type || str_contains ";" media_type
  || negb (count_char "/" media_type =? 1)
  || match split_once "/" media_type with
     | None => true
     | Some (top, subtype) => str_is_empty top || str_is_empty subtype
     end
  || negb (forallb media_byte (str_bytes media_type)).

Definition check_media_type (seen : gset string) (media_type : string) : result string (gset string) :=
  _ ← fail_if (malformed_media_type media_type || bool_decide (media_type ∈ seen))
        ("invalid or duplicate media type: " +:+ media_type);
  Ok ({[ media_type ]} ∪ seen).

Definition validate_media_types (media_types : list string) : result string () :=
  _ ← fail_if (MAX_CONTRIBUTION_MEDIA_TYPES <? vec_len media_types)
        ("mediaTypes exceed " +:+ display MAX_CONTRIBUTION_MEDIA_TYPES +:+ " entries");
  _ ← try_fold check_media_type ∅ media_types;
  Ok ().

(** ** Declarations *)

Module ContributionError.
Inductive t :=
| Duplicate | Unknown | WrongProject | WrongOwner | StaleGeneration | WrongHostSession | Invalid
| LimitExceeded | ExpectedOldMismatch.
#[global] Instance t_eq_dec : EqDecision t.
Proof. solve_decision. Defined.
End ContributionError.

Section contribution.
Context `{SerdeNumber}.

Record ContributionDeclaration := MkDeclaration {
  cd_id : CapabilityId;
  cd_kind : ContributionKind.t;
  cd_contract_major : Z;
  cd_label : string;
  cd_purpose : string;
  cd_input_schema : option BoundedJsonSchema;
  cd_output_schema : option BoundedJsonSchema;
  cd_media_types : list string;
  cd_skill_path : option string;
  cd_panel_slot : option string
}.

Definition validate_shape (d : ContributionDeclaration) : result string () :=
  _ ← fail_if (cd_contract_major d =? 0) "contribution contractMajor must be positive";
  _ ← fail_if (negb (bool_decide (ContributionKind_parse (as_str (cd_id d)) = Some (cd_kind d))))
        ("contribution " +:+ display (cd_id d) +:+ " does not match kind " +:+ display (cd_kind d));
  _ ← validate_untrusted_text (cd_label d) MAX_CONTRIBUTION_LABEL_BYTES "label";
  _ ← validate_untrusted_text (cd_purpose d) MAX_CONTRIBUTION_PURPOSE_BYTES "purpose";
  _ ← validate_media_types (cd_media_types d);
  let has_call_schemas := is_some (cd_input_schema d) && is_some (cd_output_schema d) in
  let has_partial_schemas := negb (Bool.eqb (is_some (cd_input_schema d)) (is_some (cd_output_schema d))) in
  _ ← fail_if has_partial_schemas "inputSchema and outputSchema must be declared together";
  match cd_kind d with
  | Tool | Source | Command | Viewer =>
      _ ← fail_if (negb has_call_schemas)
            ("contribution " +:+ display (cd_id d) +:+ " requires call schemas");
      _ ← fail_if (is_some (cd_skill_path d) || is_some (cd_panel_slot d))
            ("contribution " +:+ display (cd_id d) +:+ " declares fields owned by another kind");
      fail_if (negb (bool_decide (cd_kind d = Viewer)) && negb (vec_is_empty (cd_media_types d)))
        ("contribution " +:+ display (cd_id d) +:+ " cannot declare mediaTypes")
  | Panel =>
      fail_if (negb has_call_schemas
               || negb (bool_decide (cd_panel_slot d = Some PLUGIN_DETAILS_PANEL_SLOT))
               || is_some (cd_skill_path d) || negb (vec_is_empty (cd_media_types d)))
        ("panel " +:+ display (cd_id d) +:+ " requires call schemas and panelSlot="
         +:+ PLUGIN_DETAILS_PANEL_SLOT)
  | Skill =>
      fail_if (negb (is_some (cd_skill_path d)) || has_call_schemas
               || is_some (cd_panel_slot d) || negb (vec_is_empty (cd_media_types d)))
        ("skill " +:+ display (cd_id d) +:+ " must declare only skillPath metadata")
  end.

(** ** Contributions *)

Record Contribution := MkContribution {
  c_capability : CapabilityId;
  c_kind : ContributionKind.t;
  c_contract_major : Z;
  c_label : string;
  c_purpose : string;
  c_input_schema : option BoundedJsonSchema;
  c_output_schema : option BoundedJsonSchema;
  c_media_types : list string;
  c_skill_path : option string;
  c_panel_slot : option string
}.

(** [json!({"type": "object", "properties": {}})]. *)
Definition empty_object_schema : Value :=
  VObject [("properties", VObject []); ("type", VString "object")].

(** The constructor [expect]s the static schema to be accepted. *)
Definition Contribution_new `{!SerdeToVec} (capability : CapabilityId) (kind : ContributionKind.t)
    (label purpose : string) : result (fault ()) Contribution :=
  call_schema ←
    (if negb (bool_decide (kind = Skill))
     then Some <$> map_err (λ _, Panic) (BoundedJsonSchema_new empty_object_schema)
     else Ok None);
  Ok (MkContribution capability kind 1 label purpose call_schema call_schema [] None
        (if bool_decide (kind = Panel) then Some PLUGIN_DETAILS_PANEL_SLOT else None)).

Definition Contribution_from_declaration (d : ContributionDeclaration)
    : result ContributionError.t Contribution :=
  _ ← map_err (λ _, ContributionError.Invalid) (validate_shape d);
  Ok (MkContribution (cd_id d) (cd_kind d) (cd_contract_major d) (cd_label d) (cd_purpose d)
        (cd_input_schema d) (cd_output_schema d) (cd_media_types d) (cd_skill_path d)
        (cd_panel_slot d)).

Definition Contribution_is_valid (c : Contribution) : bool :=
  is_ok (validate_shape
    (MkDeclaration (c_capability c) (c_kind c) (c_contract_major c) (c_label c) (c_purpose c)
       (c_input_schema c) (c_output_schema c) (c_media_types c) (c_skill_path c) (c_panel_slot c))).

(** ** The store *)

Record ContributionRecord := MkRecord {
  r_contribution : Contribution;
  r_plugin_id : PluginId;
  r_package_digest : PackageDigest;
  r_project_id : ScopeId;
  r_activation_generation : ActivationGeneration;
  r_host_instance_id : HostInstanceId
}.

Record ContributionInstanceIdentity := MkIdentity {
  ci_project_id : ScopeId;
  ci_plugin_id : PluginId;
  ci_package_digest : PackageDigest;
  ci_activation_generation : ActivationGeneration;
  ci_host_instance_id : HostInstanceId
}.
#[global] Instance ContributionInstanceIdentity_eq_dec : EqDecision ContributionInstanceIdentity.
Proof. solve_decision. Defined.

Record ContributionCandidate := MkCandidate {
  cand_identity : ContributionInstanceIdentity;
  cand_contributions : list Contribution
}.

(** [BTreeMap<(ScopeId, CapabilityId), ContributionRecord>]. *)
Record ContributionStore := MkStore { records : gmap (ScopeId * CapabilityId) ContributionRecord }.
Definition ContributionStore_new : ContributionStore := MkStore ∅.

Definition record_identity (r : ContributionRecord) : ContributionInstanceIdentity :=
  MkIdentity (r_project_id r) (r_plugin_id r) (r_package_digest r) (r_activation_generation r)
    (r_host_instance_id r).

(** The loop of [stage], with the ids seen and the contributions built so far. *)
Definition stage_step (st : gset CapabilityId * list Contribution) (d : ContributionDeclaration)
    : result ContributionError.t (gset CapabilityId * list Contribution) :=
  _ ← fail_if (bool_decide (cd_id d ∈ st.1)) ContributionError.Duplicate;
  c ← Contribution_from_declaration d;
  Ok ({[ cd_id d ]} ∪ st.1, st.2 ++ [c]).
Definition stage (identity : ContributionInstanceIdentity) (declarations : list ContributionDeclaration)
    : result ContributionError.t ContributionCandidate :=
  _ ← fail_if (MAX_CONTRIBUTIONS_PER_PACKAGE <? vec_len declarations) ContributionError.LimitExceeded;
  st ← try_fold stage_step (∅, []) declarations;
  Ok (MkCandidate identity st.2).

Definition get (s : ContributionStore) (project_id : ScopeId) (capability : CapabilityId)
    : option ContributionRecord := records s !! (project_id, capability).

Definition identity_step (identity : option ContributionInstanceIdentity) (r : ContributionRecord)
    : result ContributionError.t (option ContributionInstanceIdentity) :=
  _ ← fail_if (is_some_and (λ i, negb (bool_decide (i = record_identity r))) identity)
        ContributionError.Invalid;
  Ok (Some (record_identity r)).
Definition current_identity (s : ContributionStore) (project_id : ScopeId) (plugin_id : PluginId)
    : result ContributionError.t (option ContributionInstanceIdentity) :=
  try_fold identity_step None
    (List.filter (λ r, bool_decide (r_project_id r = project_id)
                       && bool_decide (r_plugin_id r = plugin_id)) (btree_values (records s))).

Definition project_count (s : ContributionStore) (project_id : ScopeId) : Z :=
  vec_len (List.filter (λ k : ScopeId * CapabilityId, bool_decide (k.1 = project_id))
             (sorted_keys (records s))).

Definition register (s : ContributionStore) (project_id : ScopeId) (plugin_id : PluginId)
    (package_digest : PackageDigest) (activation_generation : ActivationGeneration)
    (host_instance_id : HostInstanceId) (contribution : Contribution)
    : ContributionStore * result ContributionError.t () :=
  if negb (Contribution_is_valid contribution) then (s, Err ContributionError.Invalid)
  else if MAX_CONTRIBUTIONS_PER_PROJECT <=? project_count s project_id then
    (s, Err ContributionError.LimitExceeded)
  else
    let key := (project_id, c_capability contribution) in
    if is_some (records s !! key) then (s, Err ContributionError.Duplicate)
    else
      (MkStore (<[key := MkRecord contribution plugin_id package_digest project_id
                           activation_generation host_instance_id]> (records s)), Ok ()).

(** [self.records.retain(..)]. *)
Definition retain (p : ScopeId * CapabilityId → ContributionRecord → bool) (s : ContributionStore)
    : ContributionStore :=
  MkStore (filter (λ kr, p kr.1 kr.2 = true) (records s)).

Definition register_for (i : ContributionInstanceIdentity) (next : ContributionStore) (c : Contribution)
    : result ContributionError.t ContributionStore :=
  let '(next, r) := register next (ci_project_id i) (ci_plugin_id i) (ci_package_digest i)
                      (ci_activation_generation i) (ci_host_instance_id i) c in
  _ ← r; Ok next.

Definition publish (s : ContributionStore) (candidate : ContributionCandidate)
    (expected_old : option ContributionInstanceIdentity)
    : ContributionStore * result ContributionError.t (option ContributionInstanceIdentity) :=
  let identity := cand_identity candidate in
  match current_identity s (ci_project_id identity) (ci_plugin_id identity) with
  | Err e => (s, Err e)
  | Ok current =>
      if negb (bool_decide (current = expected_old)) then (s, Err ContributionError.ExpectedOldMismatch)
      else
        let next := retain (λ k r, negb (bool_decide (k.1 = ci_project_id identity))
                                   || negb (bool_decide (r_plugin_id r = ci_plugin_id identity))) s in
        match try_fold (register_for identity) next (cand_contributions candidate) with
        | Err e => (s, Err e)
        | Ok next => (next, Ok current)
        end
  end.

Definition clear_instance (s : ContributionStore) (project_id : ScopeId) (plugin_id : PluginId)
    (package_digest : PackageDigest) (activation_generation : ActivationGeneration)
    (host_instance_id : HostInstanceId) : ContributionStore :=
  retain (λ k r, negb (bool_decide (k.1 = project_id))
                 || negb (bool_decide (r_plugin_id r = plugin_id))
                 || negb (bool_decide (r_package_digest r = package_digest))
                 || negb (bool_decide (r_activation_generation r = activation_generation))
                 || negb (bool_decide (r_host_instance_id r = host_instance_id))) s.

Definition unpublish (s : ContributionStore) (identity : ContributionInstanceIdentity)
    : ContributionStore * result ContributionError.t () :=
  match current_identity s (ci_project_id identity) (ci_plugin_id identity) with
  | Err e => (s, Err e)
  | Ok current =>
      if negb (bool_decide (current = Some identity)) then (s, Err ContributionError.ExpectedOldMismatch)
      else (clear_instance s (ci_project_id identity) (ci_plugin_id identity)
              (ci_package_digest identity) (ci_activation_generation identity)
              (ci_host_instance_id identity), Ok ())
  end.

Definition remove (s : ContributionStore) (project_id : ScopeId) (capability : CapabilityId)
    (plugin_id : PluginId) (package_digest : PackageDigest)
    (activation_generation : ActivationGeneration) (host_instance_id : HostInstanceId)
    : ContributionStore * result ContributionError.t () :=
  let key := (project_id, capability) in
  match records s !! key with
  | Some r =>
      if negb (bool_decide (r_plugin_id r = plugin_id))
         || negb (bool_decide (r_package_digest r = package_digest)) then
        (s, Err ContributionError.WrongOwner)
      else if negb (bool_decide (r_activation_generation r = activation_generation)) then
        (s, Err ContributionError.StaleGeneration)
      else if negb (bool_decide (r_host_instance_id r = host_instance_id)) then
        (s, Err ContributionError.WrongHostSession)
      else (MkStore (delete key (records s)), Ok ())
  | None =>
      if existsb (λ r, bool_decide (c_capability (r_contribution r) = capability))
           (btree_values (records s))
      then (s, Err ContributionError.WrongProject)
      else (s, Err ContributionError.Unknown)
  end.

Definition list_project (s : ContributionStore) (project_id : ScopeId) : list ContributionRecord :=
  List.filter (λ r, bool_decide (r_project_id r = project_id)) (btree_values (records s)).

Definition clear_project (s : ContributionStore) (project_id : ScopeId) : ContributionStore :=
  retain (λ k _, negb (bool_decide (k.1 = project_id))) s.
End contribution.
