(* ===== verification/ContributionProps.v ===== *)
(** * Properties of contributions

    What an accepted declaration looks like, and the store: records stay under
    their own keys and within the project's budget, a publication replaces one
    plugin's set as a whole or changes nothing, and projects do not see each
    other's operations. *)
From S2P Require Import Prelude Text Errors External JsonSchema Digest Host Contribution.
#[local] Open Scope Z_scope.
Import ContributionKind.

(** ** Text and media types *)

Definition occurs (p s : string) : Prop := ∃ a b, str_bytes s = a ++ str_bytes p ++ b.

(** Untrusted text as the shell may render it. *)
Definition plain_text (maximum_bytes : Z) (s : string) : Prop :=
  s ≠ "" ∧ str_trim s = s ∧ str_len s <= maximum_bytes ∧
  (∀ c, c ∈ chars s → is_control c = false ∧ is_bidi_control c = false) ∧
  (∀ c, c ∈ ["<"; ">"; "`"]%char → c ∉ str_bytes s) ∧
  ¬ occurs "![" s ∧ ¬ occurs "](" s ∧
  (∀ p, p ∈ url_markers → ¬ occurs p (str_to_lowercase s)) ∧
  (∀ p, p ∈ reserved_terms → ¬ occurs p (str_to_lowercase s)).

Lemma str_contains_str_false p s : str_contains_str p s = false ↔ ¬ occurs p s.
Proof. rewrite <-not_true_iff_false, str_contains_str_true. done. Qed.
Lemma str_is_empty_false s : str_is_empty s = false ↔ s ≠ "".
Proof. apply bool_decide_eq_false. Qed.

Lemma validate_untrusted_text_Ok s maximum field :
  validate_untrusted_text s maximum field = Ok () ↔ plain_text maximum s.
Proof.
  unfold validate_untrusted_text, plain_text, contains_bidi_override.
  rewrite !bind_unit_Ok_iff, !fail_if_Ok, !orb_false_iff, !existsb_False, !str_contains_str_false.
  setoid_rewrite str_contains_str_false. setoid_rewrite str_contains_false.
  rewrite str_is_empty_false, negb_false_iff, str_eq_true, Z.ltb_ge.
  naive_solver.
Qed.

Definition media_char (c : ascii) : bool :=
  is_ascii_lowercase c || is_ascii_digit c || one_of ["+"; "."; "-"]%char c.
(** [top/subtype], both non-empty and over [a-z0-9+.-]. *)
Definition media_type_wf (s : string) : Prop :=
  str_len s <= 128 ∧ ∃ top subtype, str_bytes s = top ++ "/"%char :: subtype ∧
    top ≠ [] ∧ subtype ≠ [] ∧ ∀ c, c ∈ top ++ subtype → media_char c = true.

Lemma media_byte_char c : media_byte c = true ↔ c = "/"%char ∨ media_char c = true.
Proof.
  unfold media_byte, media_char. rewrite !orb_true_iff, !one_of_true, !elem_of_cons. naive_solver.
Qed.
Lemma media_char_plain c : media_char c = true → c ≠ "/"%char ∧ c ≠ "*"%char ∧ c ≠ ";"%char.
Proof. intros Hc. split_and!; intros ->; vm_compute in Hc; done. Qed.

Lemma of_bytes_is_empty l : str_is_empty (of_bytes l) = false ↔ l ≠ [].
Proof.
  rewrite str_is_empty_false. split; intros H ?; apply H; subst; [done|].
  apply (f_equal str_bytes) in H0. by rewrite str_bytes_of_bytes in H0.
Qed.

Lemma malformed_media_type_false s : malformed_media_type s = false ↔ media_type_wf s.
Proof.
  unfold malformed_media_type, media_type_wf, MAX_CONTRIBUTION_MEDIA_TYPE_BYTES, split_once, count_char.
  rewrite !orb_false_iff, !negb_false_iff, forallb_True, Z.ltb_ge, !str_contains_false, Z.eqb_eq.
  split.
  - intros ((((((_ & Hlen) & _) & _) & Hcount) & Hparts) & Hall). split; [done|].
    destruct (split_once_bytes _ _) as [[top sub]|] eqn:E; simpl in Hparts; [|done].
    apply split_once_bytes_Some in E as [E Htop]. exists top, sub.
    apply orb_false_iff in Hparts as [?%of_bytes_is_empty ?%of_bytes_is_empty]. split_and!; [done..|].
    intros c Hc. assert (c ∈ str_bytes s) as Hs by (rewrite E; set_solver).
    apply Hall, media_byte_char in Hs as [->|?]; [|done]. exfalso.
    apply elem_of_app in Hc as [?|Hc]; [done|]. rewrite E, filter_app, filter_cons, length_app in Hcount.
    rewrite decide_True in Hcount by done. simpl in Hcount.
    assert (0 < length (filter (λ d, d = "/"%char) sub))%nat; [|lia].
    destruct (filter _ sub) eqn:Hf; [|simpl; lia]. exfalso.
    apply (not_elem_of_nil "/"%char). rewrite <-Hf. by apply list_elem_of_filter.
  - intros (Hlen & top & sub & E & Htop & Hsub & Hall).
    assert (Hno : ∀ l : list ascii, (∀ c, c ∈ l → c ∈ top ++ sub) → "/"%char ∉ l).
    { intros l Hl Hc%Hl%Hall. by apply media_char_plain in Hc as [? _]. }
    assert (Hbytes : ∀ c, c ∈ str_bytes s → c = "/"%char ∨ media_char c = true).
    { intros c. rewrite E, elem_of_app, elem_of_cons.
      intros [?|[->|?]]; [right|by left|right]; apply Hall; set_solver. }
    assert (split_once_bytes "/"%char (str_bytes s) = Some (top, sub)) as ->.
    { apply split_once_bytes_Some. split; [done|]. apply Hno. set_solver. }
    simpl. rewrite orb_false_iff, !of_bytes_is_empty. split_and!; try done.
    + apply str_is_empty_false. intros ->. by destruct top.
    + intros [?|Hc]%Hbytes; [done|]. by apply media_char_plain in Hc as (_ & ? & _).
    + intros [?|Hc]%Hbytes; [done|]. by apply media_char_plain in Hc as (_ & _ & ?).
    + assert (Hz : ∀ l : list ascii, "/"%char ∉ l → length (filter (λ d, d = "/"%char) l) = 0%nat).
      { intros l Hl. destruct (filter _ l) as [|c k] eqn:Hf; [done|].
        assert (c ∈ filter (λ d, d = "/"%char) l) as [-> ?]%list_elem_of_filter; [|done].
        rewrite Hf. by left. }
      rewrite E, filter_app, filter_cons, length_app, decide_True by done. simpl.
      rewrite !Hz; [done|apply Hno; set_solver..].
    + intros c Hc. by apply media_byte_char, Hbytes.
Qed.

Lemma check_media_type_Ok seen m s :
  check_media_type seen m = Ok s ↔ media_type_wf m ∧ m ∉ seen ∧ s = {[ m ]} ∪ seen.
Proof.
  unfold check_media_type. rewrite bind_unit_Ok_iff, fail_if_Ok, orb_false_iff,
    malformed_media_type_false, bool_decide_eq_false. naive_solver.
Qed.
Lemma validate_media_types_Ok l :
  validate_media_types l = Ok () ↔
  vec_len l <= 16 ∧ NoDup l ∧ ∀ m, m ∈ l → media_type_wf m.
Proof.
  unfold validate_media_types, MAX_CONTRIBUTION_MEDIA_TYPES.
  rewrite bind_unit_Ok_iff, fail_if_Ok, Z.ltb_ge, drop_Ok.
  rewrite (seen_loop_empty_Ok id media_type_wf) by apply check_media_type_Ok.
  rewrite list_fmap_id. naive_solver.
Qed.

(** ** Declarations *)

(** The id prefix of each kind. *)
Definition kind_prefix (k : ContributionKind.t) : string :=
  match k with
  | Command => "ui.command." | Viewer => "ui.viewer." | Source => "source." | Tool => "tool."
  | Skill => "skill." | Panel => "ui.panel."
  end.

Lemma kind_prefix_unique k k' a b :
  str_bytes (kind_prefix k) ++ a = str_bytes (kind_prefix k') ++ b → k = k'.
Proof. destruct k, k'; simpl; intros Hab; done || discriminate Hab. Qed.
Lemma strip_kind_None k k' s rest :
  k ≠ k' → str_bytes s = str_bytes (kind_prefix k') ++ rest → strip_prefix (kind_prefix k) s = None.
Proof.
  intros Hk Hs. apply strip_prefix_None. intros [a Ha]. apply Hk. rewrite Hs in Ha.
  symmetry in Ha. by apply kind_prefix_unique in Ha.
Qed.

Lemma ContributionKind_parse_Some s k :
  ContributionKind_parse s = Some k ↔
  ∃ rest, rest ≠ [] ∧ str_bytes s = str_bytes (kind_prefix k) ++ rest.
Proof.
  split.
  - unfold ContributionKind_parse.
    repeat match goal with |- match strip_prefix ?p s with _ => _ end = _ → _ =>
      let Hp := fresh in destruct (strip_prefix p s) as [rest|] eqn:Hp;
      [destruct (str_is_empty rest) eqn:He; [done|]; intros [= <-];
       apply strip_prefix_Some in Hp; apply str_is_empty_false in He;
       exists (str_bytes rest); split; [|done];
       intros Hr; apply He; apply (inj str_bytes); by rewrite Hr|clear Hp] end. done.
  - intros (rest & Hrest & Hs). unfold ContributionKind_parse.
    change "ui.command." with (kind_prefix Command). change "ui.viewer." with (kind_prefix Viewer).
    change "source." with (kind_prefix Source). change "tool." with (kind_prefix Tool).
    change "skill." with (kind_prefix Skill). change "ui.panel." with (kind_prefix Panel).
    assert (strip_prefix (kind_prefix k) s = Some (of_bytes rest)) as Hk
      by (apply strip_prefix_Some; by rewrite str_bytes_of_bytes).
    pose proof (λ k', strip_kind_None k' k s rest) as Hn.
    destruct k; rewrite ?Hk, ?Hn by done; by rewrite (proj2 (of_bytes_is_empty rest) Hrest).
Qed.

Section shape.
Context `{SerdeNumber}.
Implicit Types (d : ContributionDeclaration).

(** The metadata each kind owns. *)
Definition kind_fields_ok d : Prop :=
  match cd_kind d with
  | Tool | Source | Command =>
      cd_input_schema d ≠ None ∧ cd_output_schema d ≠ None ∧
      cd_skill_path d = None ∧ cd_panel_slot d = None ∧ cd_media_types d = []
  | Viewer =>
      cd_input_schema d ≠ None ∧ cd_output_schema d ≠ None ∧
      cd_skill_path d = None ∧ cd_panel_slot d = None
  | Panel =>
      cd_input_schema d ≠ None ∧ cd_output_schema d ≠ None ∧
      cd_skill_path d = None ∧ cd_panel_slot d = Some "plugin_details" ∧ cd_media_types d = []
  | Skill =>
      cd_input_schema d = None ∧ cd_output_schema d = None ∧
      cd_skill_path d ≠ None ∧ cd_panel_slot d = None ∧ cd_media_types d = []
  end.
Definition declaration_wf d : Prop :=
  cd_contract_major d ≠ 0 ∧
  (∃ rest, rest ≠ [] ∧ str_bytes (as_str (cd_id d)) = str_bytes (kind_prefix (cd_kind d)) ++ rest) ∧
  plain_text 128 (cd_label d) ∧ plain_text 1024 (cd_purpose d) ∧
  vec_len (cd_media_types d) <= 16 ∧ NoDup (cd_media_types d) ∧
  (∀ m, m ∈ cd_media_types d → media_type_wf m) ∧ kind_fields_ok d.


Lemma validate_shape_Ok d : validate_shape d = Ok () ↔ declaration_wf d.
Proof.
  unfold validate_shape, declaration_wf. rewrite !bind_unit_Ok_iff, !fail_if_Ok.
  rewrite !validate_untrusted_text_Ok, validate_media_types_Ok, negb_false_iff, bool_decide_eq_true.
  rewrite ContributionKind_parse_Some, Z.eqb_neq, negb_false_iff, Bool.eqb_true_iff.
  unfold kind_fields_ok, PLUGIN_DETAILS_PANEL_SLOT, MAX_CONTRIBUTION_LABEL_BYTES,
    MAX_CONTRIBUTION_PURPOSE_BYTES.
  destruct (cd_kind d); rewrite ?bind_unit_Ok_iff, !fail_if_Ok, ?orb_false_iff, ?negb_false_iff,
    ?bool_decide_eq_true;
    destruct (cd_input_schema d), (cd_output_schema d), (cd_skill_path d), (cd_panel_slot d),
      (cd_media_types d); simpl; naive_solver.
Qed.

(** a contribution declaration is accepted exactly when its contract major is
    positive, its id has the prefix of its kind, its label and purpose are
    plain bounded text without markup, URLs or words of trusted surfaces, its
    media types are well formed and distinct, and it carries exactly the
    metadata its kind owns; [from_declaration] keeps every field of an accepted
    declaration and refuses the others as [Invalid]. *)
Theorem declaration_checked d :
  match Contribution_from_declaration d with
  | Ok c => declaration_wf d ∧ Contribution_is_valid c = true ∧
      c = MkContribution (cd_id d) (cd_kind d) (cd_contract_major d) (cd_label d) (cd_purpose d)
            (cd_input_schema d) (cd_output_schema d) (cd_media_types d) (cd_skill_path d)
            (cd_panel_slot d)
  | Err e => ¬ declaration_wf d ∧ e = ContributionError.Invalid
  end.
Proof.
  pose proof (validate_shape_Ok d) as Hd.
  unfold Contribution_from_declaration, Contribution_is_valid. destruct d; simpl in *.
  destruct (validate_shape _) as [[]|] eqn:E; simpl.
  - rewrite E. split_and!; [by apply Hd|done..].
  - split; [|done]. intros Hw. discriminate (proj2 Hd Hw).
Qed.
End shape.
