(* ===== verification/ContributionStore.v ===== *)
(** * Properties of the contribution store

    The invariant of the store, the exact effect of a publication and of a
    removal, and the isolation of projects. *)
From S2P Require Import Prelude Text Errors External JsonSchema Digest Host Contribution ContributionProps.
#[local] Open Scope Z_scope.

Section store.
Context `{SerdeNumber}.
Implicit Types (s : ContributionStore) (r : ContributionRecord) (c : Contribution)
  (i : ContributionInstanceIdentity) (p : ScopeId) (k : ScopeId * CapabilityId).

Definition project_records s p : gmap (ScopeId * CapabilityId) ContributionRecord :=
  filter (λ kr, bool_decide (kr.1.1 = p) = true) (records s).

(** Records lie under their own keys, hold valid contributions and stay within
    the budget of their project. *)
Definition store_ok s : Prop :=
  (∀ k r, records s !! k = Some r →
     r_project_id r = k.1 ∧ c_capability (r_contribution r) = k.2 ∧
     Contribution_is_valid (r_contribution r) = true) ∧
  ∀ p, project_count s p <= 256.
(** One plugin's records in a project come from one instance. *)
Definition coherent s : Prop :=
  ∀ k k' r r', records s !! k = Some r → records s !! k' = Some r' →
    r_project_id r = r_project_id r' → r_plugin_id r = r_plugin_id r' →
    record_identity r = record_identity r'.

Lemma project_count_size s p : project_count s p = Z.of_nat (size (project_records s p)).
Proof. unfold project_count, vec_len, project_records. by rewrite filter_keys_length. Qed.

(** ** The current identity *)

Lemma identity_step_None r : identity_step None r = Ok (Some (record_identity r)).
Proof. done. Qed.
Lemma identity_step_Some i r :
  identity_step (Some i) r
  = if decide (i = record_identity r) then Ok (Some i) else Err ContributionError.Invalid.
Proof.
  unfold identity_step. simpl. destruct (decide _) as [->|?].
  - by rewrite bool_decide_true.
  - by rewrite bool_decide_false.
Qed.
Lemma identity_loop i l o :
  try_fold identity_step (Some i) l = Ok o ↔ (∀ r, r ∈ l → record_identity r = i) ∧ o = Some i.
Proof.
  induction l as [|r l IH]; cbn [try_fold].
  - split; [intros [= <-]; split; [by intros ? ?%not_elem_of_nil|done]|by intros [_ ->]].
  - rewrite identity_step_Some. destruct (decide (i = record_identity r)) as [Hr|Hr].
    + cbn [mbind result_bind]. rewrite IH. setoid_rewrite elem_of_cons. naive_solver.
    + simpl. split; [done|]. intros [Hall _].
      destruct Hr. symmetry. apply Hall. by left.
Qed.
Lemma identity_loop_Err o l e : try_fold identity_step o l = Err e → e = ContributionError.Invalid.
Proof.
  revert o. induction l as [|r l IH]; intros o; cbn [try_fold]; [done|].
  destruct o as [i|].
  - rewrite identity_step_Some. destruct (decide _); cbn [mbind result_bind]; [apply IH|congruence].
  - rewrite identity_step_None. cbn [mbind result_bind]. apply IH.
Qed.

(** The records of a plugin in a project. *)
Definition owned_by p g r : Prop := r_project_id r = p ∧ r_plugin_id r = g.
Lemma elem_of_owned s p g r :
  r ∈ List.filter (λ r, bool_decide (r_project_id r = p) && bool_decide (r_plugin_id r = g))
        (btree_values (records s)) ↔ owned_by p g r ∧ ∃ k, records s !! k = Some r.
Proof.
  rewrite list_filter_bool, list_elem_of_filter, elem_of_btree_values, andb_true_iff,
    !bool_decide_eq_true. done.
Qed.

Lemma current_identity_None s p g :
  current_identity s p g = Ok None ↔ ∀ k r, records s !! k = Some r → ¬ owned_by p g r.
Proof.
  unfold current_identity. pose proof (elem_of_owned s p g) as Hel.
  destruct (List.filter _ _) as [|r l]; cbn [try_fold].
  - split; [|done]. intros _ k r Hr Hown. apply (not_elem_of_nil r), Hel. eauto.
  - split.
    + rewrite identity_step_None. cbn [mbind result_bind]. intros [_ ?]%identity_loop. done.
    + intros Hall. assert (r ∈ r :: l) as [? [k Hk]]%Hel by by left. by destruct (Hall k r).
Qed.
Lemma current_identity_Some s p g i :
  current_identity s p g = Ok (Some i) ↔
  (∃ k r, records s !! k = Some r ∧ owned_by p g r) ∧
  ∀ k r, records s !! k = Some r → owned_by p g r → record_identity r = i.
Proof.
  unfold current_identity. pose proof (elem_of_owned s p g) as Hel.
  destruct (List.filter _ _) as [|r l]; cbn [try_fold].
  - split; [done|]. intros [(k & r & Hr & Hown) _]. exfalso. apply (not_elem_of_nil r), Hel. eauto.
  - rewrite identity_step_None. cbn [mbind result_bind]. rewrite identity_loop. split.
    + intros [Hall Hi]. assert (i = record_identity r) as -> by congruence. split.
      * assert (r ∈ r :: l) as [? [k Hk]]%Hel by by left. eauto.
      * intros k r' Hr' Hown. assert (r' ∈ r :: l) as [->|?]%elem_of_cons; [|done|auto].
        apply Hel. eauto.
    + intros [_ Hall]. assert (Hrec : ∀ r', r' ∈ r :: l → record_identity r' = i).
      { intros r' [? [k Hk]]%Hel. eauto. }
      rewrite (Hrec r) by by left. split; [|done]. intros r' ?. apply Hrec. by right.
Qed.
(** In a coherent store the current identity is always defined. *)
Lemma current_identity_total s p g : coherent s → ∃ o, current_identity s p g = Ok o.
Proof.
  intros Hco.
  destruct (List.filter (λ r, bool_decide (r_project_id r = p) && bool_decide (r_plugin_id r = g))
              (btree_values (records s))) as [|r l] eqn:E.
  - exists None. unfold current_identity. by rewrite E.
  - pose proof (elem_of_owned s p g) as Hel. rewrite E in Hel.
    assert (r ∈ r :: l) as [Hr [k Hk]]%Hel by by left.
    exists (Some (record_identity r)). apply current_identity_Some. split; [eauto|].
    intros k' r' Hr' [Hp Hg]. destruct Hr as [Hp' Hg']. apply (Hco k' k); congruence.
Qed.

(** ** Registration *)

Definition record_of i c : ContributionRecord :=
  MkRecord c (ci_plugin_id i) (ci_package_digest i) (ci_project_id i) (ci_activation_generation i)
    (ci_host_instance_id i).
Definition key_of i c : ScopeId * CapabilityId := (ci_project_id i, c_capability c).
Lemma record_identity_of i c : record_identity (record_of i c) = i.
Proof. by destruct i. Qed.

Lemma register_for_Ok i s c s' :
  register_for i s c = Ok s' ↔
  Contribution_is_valid c = true ∧ project_count s (ci_project_id i) < 256 ∧
  records s !! key_of i c = None ∧ s' = MkStore (<[key_of i c := record_of i c]> (records s)).
Proof.
  unfold register_for, register, MAX_CONTRIBUTIONS_PER_PROJECT.
  change (ci_project_id i, c_capability c) with (key_of i c).
  destruct (Contribution_is_valid c); simpl; [|naive_solver].
  destruct (Z.leb_spec 256 (project_count s (ci_project_id i))); simpl; [naive_solver lia|].
  destruct (records s !! key_of i c); simpl; naive_solver.
Qed.
Lemma register_for_Err i s c e :
  register_for i s c = Err e →
  (Contribution_is_valid c = false ∧ e = ContributionError.Invalid) ∨
  (256 <= project_count s (ci_project_id i) ∧ e = ContributionError.LimitExceeded) ∨
  (records s !! key_of i c ≠ None ∧ e = ContributionError.Duplicate).
Proof.
  unfold register_for, register, MAX_CONTRIBUTIONS_PER_PROJECT.
  change (ci_project_id i, c_capability c) with (key_of i c).
  destruct (Contribution_is_valid c); simpl; [|naive_solver].
  destruct (Z.leb_spec 256 (project_count s (ci_project_id i))); simpl; [naive_solver|].
  destruct (records s !! key_of i c); simpl; naive_solver.
Qed.

Lemma project_count_insert s k r p :
  records s !! k = None →
  project_count (MkStore (<[k := r]> (records s))) p
  = project_count s p + (if decide (k.1 = p) then 1 else 0).
Proof.
  intros Hk. rewrite !project_count_size. unfold project_records. simpl.
  destruct (decide (k.1 = p)) as [Hp|Hp].
  - rewrite map_filter_insert_True by (simpl; by rewrite bool_decide_true).
    rewrite map_size_insert_None; [lia|]. apply map_lookup_filter_None. by left.
  - rewrite map_filter_insert_False by (simpl; by rewrite bool_decide_false).
    rewrite delete_id by done. lia.
Qed.

(** The store with a list of contributions registered for an instance. *)
Definition with_contributions i (cs : list Contribution) s : ContributionStore :=
  MkStore (list_to_map ((λ c, (key_of i c, record_of i c)) <$> cs) ∪ records s).

Lemma with_contributions_nil i s : with_contributions i [] s = s.
Proof. unfold with_contributions. simpl. destruct s. simpl. by rewrite (left_id_L ∅ (∪)). Qed.
Lemma entries_keys i cs :
  ((λ c, (key_of i c, record_of i c)) <$> cs).*1 = key_of i <$> cs.
Proof. by rewrite <-list_fmap_compose. Qed.
Lemma key_of_inj i c c' : key_of i c = key_of i c' ↔ c_capability c = c_capability c'.
Proof. unfold key_of. naive_solver congruence. Qed.
Lemma key_of_elem i c (cs : list Contribution) :
  key_of i c ∈ key_of i <$> cs ↔ c_capability c ∈ c_capability <$> cs.
Proof. rewrite !list_elem_of_fmap. by setoid_rewrite key_of_inj. Qed.
Lemma NoDup_keys i cs : NoDup (key_of i <$> cs) ↔ NoDup (c_capability <$> cs).
Proof.
  change (key_of i <$> cs) with ((λ c, (ci_project_id i, c_capability c)) <$> cs).
  rewrite <-(NoDup_fmap (λ b : CapabilityId, (ci_project_id i, b)) (c_capability <$> cs)).
  by rewrite <-list_fmap_compose.
Qed.

(** Where a key of the extended store comes from. *)
Lemma lookup_with_contributions i cs s k r :
  NoDup (c_capability <$> cs) →
  records (with_contributions i cs s) !! k = Some r ↔
  (∃ c, c ∈ cs ∧ k = key_of i c ∧ r = record_of i c) ∨
  (k ∉ key_of i <$> cs ∧ records s !! k = Some r).
Proof.
  intros Hnd. unfold with_contributions. simpl. rewrite lookup_union_Some_raw.
  rewrite <-elem_of_list_to_map by (rewrite entries_keys; by apply NoDup_keys).
  rewrite <-not_elem_of_list_to_map, entries_keys. rewrite list_elem_of_fmap. naive_solver.
Qed.
Lemma with_contributions_snoc i cs c s :
  key_of i c ∉ key_of i <$> cs →
  with_contributions i (cs ++ [c]) s
  = MkStore (<[key_of i c := record_of i c]> (records (with_contributions i cs s))).
Proof.
  intros Hc. unfold with_contributions. simpl. rewrite fmap_app. simpl.
  rewrite list_to_map_snoc by by rewrite entries_keys. by rewrite insert_union_l.
Qed.

Lemma project_count_with i cs s :
  NoDup (c_capability <$> cs) → (∀ c, c ∈ cs → records s !! key_of i c = None) →
  project_count (with_contributions i cs s) (ci_project_id i)
  = project_count s (ci_project_id i) + vec_len cs.
Proof.
  intros Hnd Hfree. induction cs as [|c cs IH] using rev_ind.
  { rewrite with_contributions_nil. unfold vec_len. simpl. lia. }
  rewrite fmap_app in Hnd. apply NoDup_app in Hnd as (Hnd & Hc & _).
  assert (Hkey : key_of i c ∉ key_of i <$> cs).
  { rewrite key_of_elem. intros Hin. apply (Hc _ Hin). by left. }
  rewrite with_contributions_snoc by done. rewrite project_count_insert.
  - rewrite IH by (done || (intros; apply Hfree; set_solver)).
    rewrite decide_True by done. unfold vec_len. rewrite length_app. simpl. lia.
  - apply eq_None_not_Some. intros [r Hr]. apply lookup_with_contributions in Hr; [|done].
    destruct Hr as [(c' & Hin & Heq & _)|[_ Hr]].
    + apply Hkey. rewrite Heq. by apply list_elem_of_fmap_2.
    + rewrite Hfree in Hr; [done|set_solver].
Qed.

Lemma register_all_Ok i cs s s' :
  project_count s (ci_project_id i) <= 256 →
  try_fold (register_for i) s cs = Ok s' ↔
  (∀ c, c ∈ cs → Contribution_is_valid c = true) ∧ NoDup (c_capability <$> cs) ∧
  (∀ c, c ∈ cs → records s !! key_of i c = None) ∧
  project_count s (ci_project_id i) + vec_len cs <= 256 ∧ s' = with_contributions i cs s.
Proof.
  intros Hcount. revert s'. induction cs as [|c cs IH] using rev_ind; intros s'.
  { rewrite with_contributions_nil. simpl. unfold vec_len. simpl. split.
    - intros [= <-]. split_and!; [by intros ? ?%not_elem_of_nil|constructor| |lia|done].
      by intros ? ?%not_elem_of_nil.
    - by intros (_ & _ & _ & _ & ->). }
  rewrite try_fold_snoc, bind_Ok_iff. setoid_rewrite IH. setoid_rewrite register_for_Ok.
  rewrite fmap_app, NoDup_app. unfold vec_len. rewrite length_app. simpl. split.
  - intros (? & (Hv & Hnd & Hfree & Hle & ->) & Hvc & Hlt & Hnone & ->).
    rewrite project_count_with in Hlt by done.
    assert (Hkey : key_of i c ∉ key_of i <$> cs).
    { intros (c' & Heq & Hin)%list_elem_of_fmap. rewrite Heq in Hnone.
      assert (records (with_contributions i cs s) !! key_of i c' = Some (record_of i c')); [|congruence].
      apply lookup_with_contributions; [done|]. left. eauto. }
    split_and!.
    + set_solver.
    + done.
    + intros b (c' & -> & Hin)%list_elem_of_fmap Hb%list_elem_of_singleton. apply Hkey.
      apply list_elem_of_fmap. exists c'. split; [|done]. by apply key_of_inj.
    + apply NoDup_singleton.
    + intros c' [Hin|Hin]%elem_of_app; [auto|]. apply list_elem_of_singleton in Hin as ->.
      apply eq_None_not_Some. intros [r Hr].
      assert (records (with_contributions i cs s) !! key_of i c = Some r); [|congruence].
      apply lookup_with_contributions; [done|]. by right.
    + unfold vec_len in Hlt. lia.
    + by rewrite with_contributions_snoc.
  - intros (Hv & (Hnd & Hc & _) & Hfree & Hle & ->).
    assert (Hkey : key_of i c ∉ key_of i <$> cs).
    { rewrite key_of_elem. intros Hin. apply (Hc _ Hin). by left. }
    exists (with_contributions i cs s). split_and!; try done; [set_solver|set_solver|lia|set_solver|..].
    + rewrite project_count_with; [unfold vec_len; lia|done|set_solver].
    + apply eq_None_not_Some. intros [r Hr]. apply lookup_with_contributions in Hr; [|done].
      destruct Hr as [(c' & Hin & Heq & _)|[_ Hr]].
      * apply Hkey. rewrite Heq. by apply list_elem_of_fmap_2.
      * rewrite Hfree in Hr; [done|set_solver].
    + by rewrite with_contributions_snoc.
Qed.

Lemma register_all_Err i cs s e :
  project_count s (ci_project_id i) <= 256 →
  (∀ c, c ∈ cs → Contribution_is_valid c = true) → NoDup (c_capability <$> cs) →
  try_fold (register_for i) s cs = Err e →
  (e = ContributionError.LimitExceeded ∧ 256 < project_count s (ci_project_id i) + vec_len cs) ∨
  (e = ContributionError.Duplicate ∧ ∃ c, c ∈ cs ∧ records s !! key_of i c ≠ None).
Proof.
  intros Hcount Hv Hnd Hf.
  apply try_fold_Err_prefix in Hf as (pre & c & post & s1 & -> & Hpre & Hc).
  apply register_all_Ok in Hpre as (_ & Hnd1 & Hfree & _ & ->); [|done].
  apply register_for_Err in Hc as [[Hi _]|[[Hl ->]|[Hd ->]]].
  - rewrite Hv in Hi; [done|set_solver].
  - left. split; [done|]. rewrite project_count_with in Hl by done.
    unfold vec_len in *. rewrite length_app. simpl. lia.
  - right. split; [done|]. exists c. split; [set_solver|].
    apply not_eq_None_Some in Hd as [r Hr]. apply lookup_with_contributions in Hr; [|done].
    destruct Hr as [(c' & Hin & Heq & _)|[_ Hr]]; [|congruence].
    apply key_of_inj in Heq. exfalso. rewrite fmap_app, fmap_cons, NoDup_app in Hnd.
    destruct Hnd as (_ & Hn & _). apply (Hn (c_capability c')); [by apply list_elem_of_fmap_2|].
    rewrite Heq. by left.
Qed.

(** ** Retaining records *)

Lemma lookup_retain f s k r : records (retain f s) !! k = Some r ↔ records s !! k = Some r ∧ f k r = true.
Proof. unfold retain. simpl. by rewrite map_lookup_filter_Some. Qed.
Lemma project_count_retain f s p : project_count (retain f s) p <= project_count s p.
Proof.
  rewrite !project_count_size. apply inj_le, map_subseteq_size, map_subseteq_spec.
  intros k r. unfold project_records. rewrite !map_lookup_filter_Some.
  change (records (retain f s)) with (filter (λ kr, f kr.1 kr.2 = true) (records s)).
  rewrite map_lookup_filter_Some. naive_solver.
Qed.
Lemma store_ok_retain f s : store_ok s → store_ok (retain f s).
Proof.
  intros [Hrec Hcount]. split.
  - intros k r [Hr _]%lookup_retain. auto.
  - intros p. specialize (Hcount p). pose proof (project_count_retain f s p). lia.
Qed.
Lemma coherent_retain f s : coherent s → coherent (retain f s).
Proof. intros Hco k k' r r' [Hr _]%lookup_retain [Hr' _]%lookup_retain. by eapply Hco. Qed.
Lemma store_ok_insert s k r :
  store_ok s → r_project_id r = k.1 → c_capability (r_contribution r) = k.2 →
  Contribution_is_valid (r_contribution r) = true → project_count s k.1 < 256 →
  records s !! k = None → store_ok (MkStore (<[k := r]> (records s))).
Proof.
  intros [Hrec Hcount] Hp Hc Hv Hlt Hk. split.
  - intros k' r'. simpl. rewrite lookup_insert_Some. intros [[<- <-]|[_ Hr']]; auto.
  - intros p. rewrite project_count_insert by done. specialize (Hcount p).
    destruct (decide (k.1 = p)) as [<-|]; lia.
Qed.
Lemma store_ok_register i s c s' : store_ok s → register_for i s c = Ok s' → store_ok s'.
Proof. intros Hok (Hv & Hlt & Hk & ->)%register_for_Ok. by apply store_ok_insert. Qed.
Lemma store_ok_empty : store_ok ContributionStore_new.
Proof.
  split; [by intros k r; simpl; rewrite lookup_empty|]. intros p. rewrite project_count_size. unfold project_records.
  simpl. rewrite map_filter_empty, map_size_empty. lia.
Qed.

(** ** Publication *)

(** The store without a plugin's records in a project. *)
Definition without_plugin i s : ContributionStore :=
  retain (λ k r, negb (bool_decide (k.1 = ci_project_id i))
                 || negb (bool_decide (r_plugin_id r = ci_plugin_id i))) s.
Lemma lookup_without_plugin i s k r :
  records (without_plugin i s) !! k = Some r ↔
  records s !! k = Some r ∧ ¬ (k.1 = ci_project_id i ∧ r_plugin_id r = ci_plugin_id i).
Proof.
  unfold without_plugin. rewrite lookup_retain, orb_true_iff, !negb_true_iff, !bool_decide_eq_false.
  destruct (decide (k.1 = ci_project_id i)); naive_solver.
Qed.

(** What a publication of [cs] needs of the store, beside the expected identity. *)
Definition room_for i (cs : list Contribution) s : Prop :=
  (∀ c, c ∈ cs → records (without_plugin i s) !! key_of i c = None) ∧
  project_count (without_plugin i s) (ci_project_id i) + vec_len cs <= 256.

(** A staged candidate: valid contributions of distinct capabilities. *)
Definition staged (cand : ContributionCandidate) : Prop :=
  (∀ c, c ∈ cand_contributions cand → Contribution_is_valid c = true) ∧
  NoDup (c_capability <$> cand_contributions cand).

Lemma publish_Ok s cand exp s' old :
  store_ok s → staged cand →
  publish s cand exp = (s', Ok old) ↔
  old = exp ∧ room_for (cand_identity cand) (cand_contributions cand) s ∧
  current_identity s (ci_project_id (cand_identity cand)) (ci_plugin_id (cand_identity cand)) = Ok exp ∧
  s' = with_contributions (cand_identity cand) (cand_contributions cand)
         (without_plugin (cand_identity cand) s).
Proof.
  intros [_ Hcount] [Hv Hnd]. unfold publish, room_for. destruct cand as [i cs]. simpl in *.
  destruct (current_identity s _ _) as [cur|e]; [|naive_solver].
  destruct (decide (cur = exp)) as [->|Hne]; cycle 1.
  { rewrite bool_decide_false by done. simpl. naive_solver. }
  rewrite bool_decide_true by done. simpl. fold (without_plugin i s).
  assert (Hle : project_count (without_plugin i s) (ci_project_id i) <= 256).
  { etrans; [apply project_count_retain|apply Hcount]. }
  pose proof (λ s', register_all_Ok i cs (without_plugin i s) s' Hle) as Hall.
  destruct (try_fold _ _ _) as [next|e].
  - destruct (proj1 (Hall next) eq_refl) as (_ & _ & Hf & Hc & ->). naive_solver.
  - split; [done|]. intros (-> & [Hf Hc] & _ & ->).
    assert (Err e = Ok (with_contributions i cs (without_plugin i s))); [|done]. by apply Hall.
Qed.
Lemma publish_Err s cand exp s' e :
  store_ok s → staged cand → publish s cand exp = (s', Err e) →
  s' = s ∧
  let i := cand_identity cand in
  match e with
  | ContributionError.ExpectedOldMismatch =>
      ∃ cur, current_identity s (ci_project_id i) (ci_plugin_id i) = Ok cur ∧ cur ≠ exp
  | ContributionError.Invalid =>
      current_identity s (ci_project_id i) (ci_plugin_id i) = Err ContributionError.Invalid
  | ContributionError.LimitExceeded =>
      256 < project_count (without_plugin i s) (ci_project_id i) + vec_len (cand_contributions cand)
  | ContributionError.Duplicate =>
      ∃ c r, c ∈ cand_contributions cand ∧ records s !! key_of i c = Some r ∧
        r_plugin_id r ≠ ci_plugin_id i
  | _ => False
  end.
Proof.
  intros [_ Hcount] [Hv Hnd]. unfold publish. destruct cand as [i cs]. simpl in *.
  destruct (current_identity s _ _) as [cur|e'] eqn:Hcur; cycle 1.
  { intros [= <- <-]. pose proof Hcur as ->%identity_loop_Err. done. }
  destruct (decide (cur = exp)) as [->|Hne]; cycle 1.
  { rewrite bool_decide_false by done. simpl. intros [= <- <-]. eauto. }
  rewrite bool_decide_true by done. simpl. fold (without_plugin i s).
  assert (Hle : project_count (without_plugin i s) (ci_project_id i) <= 256).
  { etrans; [apply project_count_retain|apply Hcount]. }
  destruct (try_fold _ _ _) as [next|e'] eqn:Hf; [done|]. intros [= <- <-]. split; [done|].
  apply register_all_Err in Hf; [|done..]. destruct Hf as [[-> ?]|[-> (c & Hc & Hr)]]; [done|].
  apply not_eq_None_Some in Hr as [r [Hr Hn]%lookup_without_plugin]. exists c, r.
  split_and!; [done..|]. intros Hg. by apply Hn.
Qed.

(** C22: publication is a compare-and-swap of one plugin's whole set.  When it
    succeeds the published identity was the expected one, the plugin's records
    are exactly the candidate's under the candidate's identity, and every other
    record is untouched; when it fails the store is unchanged and the error says
    which condition was violated: the identity is not the expected one, another
    plugin holds a capability, or the project's budget does not suffice. *)
Theorem publish_correct s cand exp s' res :
  store_ok s → staged cand → publish s cand exp = (s', res) →
  let i := cand_identity cand in
  match res with
  | Ok old => old = exp ∧
      current_identity s (ci_project_id i) (ci_plugin_id i) = Ok exp ∧
      ∀ k r, records s' !! k = Some r ↔
        (∃ c, c ∈ cand_contributions cand ∧ k = key_of i c ∧ r = record_of i c) ∨
        (records s !! k = Some r ∧ ¬ (k.1 = ci_project_id i ∧ r_plugin_id r = ci_plugin_id i))
  | Err e => s' = s ∧
      match e with
      | ContributionError.ExpectedOldMismatch =>
          ∃ cur, current_identity s (ci_project_id i) (ci_plugin_id i) = Ok cur ∧ cur ≠ exp
      | ContributionError.Invalid =>
          current_identity s (ci_project_id i) (ci_plugin_id i) = Err ContributionError.Invalid
      | ContributionError.LimitExceeded =>
          256 < project_count (without_plugin i s) (ci_project_id i)
                + vec_len (cand_contributions cand)
      | ContributionError.Duplicate =>
          ∃ c r, c ∈ cand_contributions cand ∧ records s !! key_of i c = Some r ∧
            r_plugin_id r ≠ ci_plugin_id i
      | _ => False
      end
  end.
Proof.
  intros Hok Hst Hpub. destruct res as [old|e]; [|by apply (publish_Err s cand exp)].
  apply publish_Ok in Hpub as (-> & [Hfree _] & Hcur & ->); [|done..]. split_and!; [done..|].
  intros k r. rewrite lookup_with_contributions by apply Hst. rewrite lookup_without_plugin.
  split; [naive_solver|]. intros [?|[Hr Hn]]; [by left|right]. split; [|done].
  intros (c & -> & Hc)%list_elem_of_fmap. specialize (Hfree c Hc).
  assert (records (without_plugin (cand_identity cand) s) !! key_of (cand_identity cand) c = Some r);
    [|congruence]. by apply lookup_without_plugin.
Qed.

(** ** Withdrawal *)

Lemma lookup_clear_instance s i k r :
  store_ok s →
  records (clear_instance s (ci_project_id i) (ci_plugin_id i) (ci_package_digest i)
             (ci_activation_generation i) (ci_host_instance_id i)) !! k = Some r ↔
  records s !! k = Some r ∧ record_identity r ≠ i.
Proof.
  intros [Hrec _]. unfold clear_instance.
  rewrite lookup_retain, !orb_true_iff, !negb_true_iff, !bool_decide_eq_false. split.
  - intros [Hr Hn]. split; [done|]. intros <-. simpl in Hn. destruct (Hrec k r Hr) as [Hp _]. naive_solver.
  - intros [Hr Hn]. split; [done|]. destruct (Hrec k r Hr) as [Hp _].
    destruct (decide (k.1 = ci_project_id i)) as [H1|]; [|tauto].
    destruct (decide (r_plugin_id r = ci_plugin_id i)) as [H2|]; [|tauto].
    destruct (decide (r_package_digest r = ci_package_digest i)) as [H3|]; [|tauto].
    destruct (decide (r_activation_generation r = ci_activation_generation i)) as [H4|]; [|tauto].
    right. intros H5. apply Hn. destruct i. unfold record_identity. simpl in *. congruence.
Qed.

Lemma store_eq s s' : records s = records s' → s = s'.
Proof. destruct s, s'; simpl; congruence. Qed.

(** Withdrawing undoes publishing: after a first publication of a
    non-empty candidate, [unpublish] of the candidate's identity succeeds and
    gives back the store from before, whatever other plugins have published. *)
Theorem publish_unpublish s cand s' :
  store_ok s → staged cand → cand_contributions cand ≠ [] →
  publish s cand None = (s', Ok None) → unpublish s' (cand_identity cand) = (s, Ok ()).
Proof.
  intros Hok Hst Hne Hpub. destruct cand as [i cs]. pose proof Hpub as Hpub'.
  apply publish_Ok in Hpub as (_ & [Hfree Hroom] & Hcur & Hs'); [|done..].
  cbn [cand_identity cand_contributions] in *.
  assert (Hnone : without_plugin i s = s).
  { apply store_eq, map_eq. intros k. apply option_eq. intros r. rewrite lookup_without_plugin.
    split; [by intros [? _]|]. intros Hr. split; [done|]. intros [Hp Hg].
    eapply current_identity_None in Hcur; [|exact Hr]. apply Hcur. split; [|done].
    destruct Hok as [Hrec _]. destruct (Hrec k r Hr) as [-> _]. done. }
  rewrite Hnone in *. subst s'.
  assert (Hlook : ∀ k r, records (with_contributions i cs s) !! k = Some r ↔ _)
    by (intros k r; exact (lookup_with_contributions i cs s k r (proj2 Hst))).
  assert (Hnew : current_identity (with_contributions i cs s) (ci_project_id i) (ci_plugin_id i) = Ok (Some i)).
  { apply current_identity_Some. split.
    - destruct cs as [|c cs]; [done|]. exists (key_of i c), (record_of i c). split; [|done].
      apply Hlook. left. exists c. split_and!; [by left|done..].
    - intros k r [(c & _ & _ & ->)|[_ Hr]]%Hlook Hown; [apply record_identity_of|].
      by destruct (proj1 (current_identity_None _ _ _) Hcur k r Hr). }
  assert (Hok' : store_ok (with_contributions i cs s)).
  { unfold publish in Hpub'. simpl in Hpub'. rewrite Hcur in Hpub'. simpl in Hpub'.
    fold (without_plugin i s) in Hpub'. rewrite Hnone in Hpub'.
    destruct (try_fold _ s cs) as [next|] eqn:Hf; [|done]. injection Hpub' as <-.
    revert Hf. apply (try_fold_inv (λ _ s, store_ok s)); [done|].
    intros. by eapply store_ok_register. }
  unfold unpublish. rewrite Hnew, bool_decide_true by done. simpl. f_equal.
  apply store_eq, map_eq. intros k. apply option_eq. intros r.
  rewrite lookup_clear_instance, Hlook by done. split.
  - intros [[(c & _ & -> & ->)|[_ Hr]] Hn]; [|done]. by destruct Hn; apply record_identity_of.
  - intros Hr. split.
    + right. split; [|done]. intros (c & -> & Hc)%list_elem_of_fmap. rewrite (Hfree c Hc) in Hr. done.
    + intros Hi. apply (proj1 (current_identity_None _ _ _) Hcur k r Hr). by rewrite <-Hi.
Qed.

(** [remove] takes out exactly the named record, and only for its owner: the
    error tells a foreign plugin or digest, a stale generation, a foreign host
    session, a capability of another project and an unknown one apart, and
    leaves the store unchanged. *)
Theorem remove_correct s p cap g dig gen host s' res :
  remove s p cap g dig gen host = (s', res) →
  match res with
  | Ok _ => ∃ r, records s !! (p, cap) = Some r ∧ r_plugin_id r = g ∧ r_package_digest r = dig ∧
      r_activation_generation r = gen ∧ r_host_instance_id r = host ∧
      records s' = delete (p, cap) (records s)
  | Err e => s' = s ∧
      match e with
      | ContributionError.WrongOwner => ∃ r, records s !! (p, cap) = Some r ∧
          ¬ (r_plugin_id r = g ∧ r_package_digest r = dig)
      | ContributionError.StaleGeneration => ∃ r, records s !! (p, cap) = Some r ∧
          r_plugin_id r = g ∧ r_package_digest r = dig ∧ r_activation_generation r ≠ gen
      | ContributionError.WrongHostSession => ∃ r, records s !! (p, cap) = Some r ∧
          r_plugin_id r = g ∧ r_package_digest r = dig ∧ r_activation_generation r = gen ∧
          r_host_instance_id r ≠ host
      | ContributionError.WrongProject => records s !! (p, cap) = None ∧
          ∃ k r, records s !! k = Some r ∧ c_capability (r_contribution r) = cap
      | ContributionError.Unknown => ∀ k r, records s !! k = Some r →
          c_capability (r_contribution r) ≠ cap ∧ k ≠ (p, cap)
      | _ => False
      end
  end.
Proof.
  unfold remove. destruct (records s !! (p, cap)) as [r|] eqn:Hr.
  - destruct (decide (r_plugin_id r = g)) as [Hg|Hg];
      [rewrite (bool_decide_true _ Hg)|rewrite (bool_decide_false _ Hg); simpl; naive_solver].
    destruct (decide (r_package_digest r = dig)) as [Hd|Hd];
      [rewrite (bool_decide_true _ Hd)|rewrite (bool_decide_false _ Hd); simpl; naive_solver].
    simpl. repeat case_bool_decide; simpl; naive_solver.
  - destruct (existsb _ _) eqn:He; intros [= <- <-]; split_and!; try done.
    + apply existsb_True in He as (r & [k Hk]%elem_of_btree_values & Hc%bool_decide_eq_true). eauto.
    + intros k r Hk. split; [|congruence]. rewrite existsb_False in He.
      assert (Hv : r ∈ btree_values (records s)) by (apply elem_of_btree_values; eauto).
      by apply He, bool_decide_eq_false in Hv.
Qed.

(** ** Staging *)

Definition contribution_of (d : ContributionDeclaration) : Contribution :=
  MkContribution (cd_id d) (cd_kind d) (cd_contract_major d) (cd_label d) (cd_purpose d)
    (cd_input_schema d) (cd_output_schema d) (cd_media_types d) (cd_skill_path d) (cd_panel_slot d).

Lemma Contribution_from_declaration_Ok d c :
  Contribution_from_declaration d = Ok c ↔ declaration_wf d ∧ c = contribution_of d.
Proof.
  unfold Contribution_from_declaration. rewrite <-validate_shape_Ok.
  destruct (validate_shape d) as [[]|]; simpl; naive_solver.
Qed.
Lemma contribution_of_valid d : Contribution_is_valid (contribution_of d) = true ↔ declaration_wf d.
Proof.
  rewrite <-validate_shape_Ok. unfold Contribution_is_valid, contribution_of.
  destruct d; simpl. destruct (validate_shape _) as [[]|]; naive_solver.
Qed.

Lemma stage_loop_Ok seen acc ds st :
  try_fold stage_step (seen, acc) ds = Ok st ↔
  (∀ d, d ∈ ds → declaration_wf d ∧ cd_id d ∉ seen) ∧ NoDup (cd_id <$> ds) ∧
  st = (list_to_set (cd_id <$> ds) ∪ seen, acc ++ (contribution_of <$> ds)).
Proof.
  revert seen acc. induction ds as [|d ds IH]; intros seen acc; cbn [try_fold].
  - simpl. rewrite app_nil_r, (left_id_L ∅ (∪)). split.
    + intros [= <-]. split_and!; [by intros ? ?%not_elem_of_nil|constructor|done].
    + by intros (_ & _ & ->).
  - rewrite bind_Ok_iff.
    assert (Hstep : ∀ st1, stage_step (seen, acc) d = Ok st1 ↔
      cd_id d ∉ seen ∧ declaration_wf d ∧ st1 = ({[ cd_id d ]} ∪ seen, acc ++ [contribution_of d])).
    { intros st1. unfold stage_step. rewrite bind_unit_Ok_iff, fail_if_Ok, bool_decide_eq_false, bind_Ok_iff.
      setoid_rewrite Contribution_from_declaration_Ok. simpl. split.
      - intros (Hs & c & [Hd ->] & [= <-]). done.
      - intros (Hs & Hd & ->). split; [done|]. by exists (contribution_of d). }
    setoid_rewrite Hstep. rewrite !fmap_cons, NoDup_cons. clear Hstep. split.
    + intros (? & (Hs & Hd & ->) & (Hall & Hnd & ->)%IH). split_and!.
      * intros d' [->|Hin]%elem_of_cons; [done|]. destruct (Hall d' Hin) as [Hw Hn]. split; [done|].
        set_solver +Hn.
      * intros (d' & Heq & Hin)%list_elem_of_fmap. destruct (Hall d' Hin) as [_ Hn]. set_solver +Hn Heq.
      * done.
      * simpl. rewrite <-app_assoc. simpl. f_equal. set_solver +.
    + intros (Hall & [Hd Hnd] & ->). destruct (Hall d) as [Hw Hs]; [by left|].
      eexists. split; [done|]. apply IH. split_and!; [|done|].
      * intros d' Hin. destruct (Hall d') as [? ?]; [by right|]. split; [done|].
        rewrite elem_of_union, elem_of_singleton. intros [Heq|?]; [|done].
        apply Hd. rewrite <-Heq. by apply list_elem_of_fmap_2.
      * simpl. rewrite <-app_assoc. simpl. f_equal. set_solver +.
Qed.

Lemma stage_Ok i ds cand :
  stage i ds = Ok cand ↔
  vec_len ds <= 32 ∧ (∀ d, d ∈ ds → declaration_wf d) ∧ NoDup (cd_id <$> ds) ∧
  cand = MkCandidate i (contribution_of <$> ds).
Proof.
  unfold stage, MAX_CONTRIBUTIONS_PER_PACKAGE. rewrite bind_unit_Ok_iff, fail_if_Ok, Z.ltb_ge, bind_Ok_iff.
  setoid_rewrite stage_loop_Ok. split.
  - intros (? & ? & (Hall & ? & ->) & [= <-]). split_and!; [done| |done|done]. intros d Hd. by apply Hall.
  - intros (? & Hall & ? & ->). split; [done|]. eexists. split; [split_and!; [|done|done]|done].
    intros d Hd. split; [auto|]. set_solver.
Qed.

(** [stage] accepts at most 32 declarations, all well formed and of distinct
    ids, and the candidate holds them unchanged and in order under the given
    identity; a refusal names a budget, a duplicate id or a malformed
    declaration, and staging touches no store. *)
Theorem stage_correct i ds :
  match stage i ds with
  | Ok cand => vec_len ds <= 32 ∧ (∀ d, d ∈ ds → declaration_wf d) ∧ NoDup (cd_id <$> ds) ∧
      cand = MkCandidate i (contribution_of <$> ds)
  | Err ContributionError.LimitExceeded => 32 < vec_len ds
  | Err ContributionError.Duplicate => ¬ NoDup (cd_id <$> ds)
  | Err ContributionError.Invalid => ∃ d, d ∈ ds ∧ ¬ declaration_wf d
  | Err _ => False
  end.
Proof.
  destruct (stage i ds) as [cand|e] eqn:E; [by apply stage_Ok|]. unfold stage in E.
  apply bind_Err_iff in E as [[Hl <-]%fail_if_Err|(_ & _ & E)]; [by apply Z.ltb_lt in Hl|].
  apply bind_Err_iff in E as [E|(? & _ & ?)]; [|done].
  apply try_fold_Err_prefix in E as (pre & d & post & st & -> & Hpre & Hd).
  apply stage_loop_Ok in Hpre as (_ & _ & ->). unfold stage_step in Hd.
  apply bind_Err_iff in Hd as [[Hin <-]%fail_if_Err|(_ & _ & Hd)].
  - apply bool_decide_eq_true in Hin. simpl in Hin. rewrite fmap_app, fmap_cons, NoDup_app.
    intros (_ & Hn & _). apply (Hn (cd_id d)); [set_solver|by left].
  - apply bind_Err_iff in Hd as [Hd|(? & _ & ?)]; [|done].
    assert (Hw : ¬ declaration_wf d).
    { intros Hw. rewrite (proj2 (Contribution_from_declaration_Ok d _) (conj Hw eq_refl)) in Hd. done. }
    unfold Contribution_from_declaration in Hd. destruct (validate_shape d); simpl in Hd; [done|].
    injection Hd as <-. exists d. split; [set_solver|done].
Qed.
Lemma stage_staged i ds cand : stage i ds = Ok cand → staged cand ∧ cand_identity cand = i.
Proof.
  unfold stage. intros Hs. result_inv Hs. apply stage_loop_Ok in Hok as (Hall & Hnd & ->). subst cand.
  split; [|done]. split; simpl.
  - intros c (d & -> & Hd)%list_elem_of_fmap. apply contribution_of_valid. by apply Hall.
  - rewrite <-list_fmap_compose. exact Hnd.
Qed.

(** ** Operations on the store *)

Inductive StoreCall :=
| CallPublish (cand : ContributionCandidate) (exp : option ContributionInstanceIdentity)
| CallUnpublish (i : ContributionInstanceIdentity)
| CallRegister (i : ContributionInstanceIdentity) (c : Contribution)
| CallRemove (i : ContributionInstanceIdentity) (cap : CapabilityId)
| CallClearProject (p : ScopeId)
| CallClearInstance (i : ContributionInstanceIdentity).

Definition run_call s (call : StoreCall) : ContributionStore :=
  match call with
  | CallPublish cand exp => (publish s cand exp).1
  | CallUnpublish i => (unpublish s i).1
  | CallRegister i c =>
      (register s (ci_project_id i) (ci_plugin_id i) (ci_package_digest i)
         (ci_activation_generation i) (ci_host_instance_id i) c).1
  | CallRemove i cap =>
      (remove s (ci_project_id i) cap (ci_plugin_id i) (ci_package_digest i)
         (ci_activation_generation i) (ci_host_instance_id i)).1
  | CallClearProject p => clear_project s p
  | CallClearInstance i =>
      clear_instance s (ci_project_id i) (ci_plugin_id i) (ci_package_digest i)
        (ci_activation_generation i) (ci_host_instance_id i)
  end.
Definition call_project (call : StoreCall) : ScopeId :=
  match call with
  | CallPublish cand _ => ci_project_id (cand_identity cand)
  | CallUnpublish i | CallRegister i _ | CallRemove i _ | CallClearInstance i => ci_project_id i
  | CallClearProject p => p
  end.
(** A single registration may mix instances of a plugin; the other calls do not. *)
Definition is_register (call : StoreCall) : bool :=
  match call with CallRegister _ _ => true | _ => false end.

Lemma remove_cases s i cap :
  run_call s (CallRemove i cap) = s ∨
  run_call s (CallRemove i cap) = MkStore (delete (ci_project_id i, cap) (records s)).
Proof. simpl. unfold remove. repeat case_match; auto. Qed.
Lemma register_cases s i c :
  run_call s (CallRegister i c) = s ∨
  ∃ s', register_for i s c = Ok s' ∧ run_call s (CallRegister i c) = s'.
Proof.
  simpl. unfold register_for. destruct (register _ _ _ _ _ _ _) as [s' r] eqn:E. simpl.
  destruct r as [[]|e]; [eauto|]. left. unfold register in E. repeat case_match; naive_solver.
Qed.
Lemma unpublish_cases s i :
  run_call s (CallUnpublish i) = s ∨
  run_call s (CallUnpublish i) = run_call s (CallClearInstance i).
Proof. simpl. unfold unpublish. repeat case_match; auto. Qed.
Lemma publish_cases s cand exp :
  run_call s (CallPublish cand exp) = s ∨
  ∃ s', try_fold (register_for (cand_identity cand)) (without_plugin (cand_identity cand) s)
          (cand_contributions cand) = Ok s' ∧ run_call s (CallPublish cand exp) = s'.
Proof. simpl. unfold publish. fold (without_plugin (cand_identity cand) s). repeat case_match; eauto. Qed.

Lemma delete_retain s k :
  MkStore (delete k (records s)) = retain (λ k' _, negb (bool_decide (k' = k))) s.
Proof.
  apply store_eq, map_eq. intros k'. apply option_eq. intros r. rewrite lookup_retain. simpl.
  rewrite lookup_delete_Some, negb_true_iff, bool_decide_eq_false. naive_solver.
Qed.

Lemma store_ok_call s call : store_ok s → store_ok (run_call s call).
Proof.
  intros Hok. destruct call as [cand exp|i|i c|i cap|p|i].
  - destruct (publish_cases s cand exp) as [->|(s' & Hf & ->)]; [done|]. revert Hf.
    apply (try_fold_inv (λ _ s, store_ok s)); [by apply store_ok_retain|].
    intros. by eapply store_ok_register.
  - destruct (unpublish_cases s i) as [->| ->]; [done|]. by apply store_ok_retain.
  - destruct (register_cases s i c) as [->|(s' & Hf & ->)]; [done|]. by eapply store_ok_register.
  - destruct (remove_cases s i cap) as [->| ->]; [done|]. rewrite delete_retain. by apply store_ok_retain.
  - by apply store_ok_retain.
  - by apply store_ok_retain.
Qed.

Lemma coherent_with i cs s :
  store_ok s → project_count (without_plugin i s) (ci_project_id i) <= 256 → coherent s →
  ∀ s', try_fold (register_for i) (without_plugin i s) cs = Ok s' → coherent s'.
Proof.
  intros [Hrec _] Hcount Hco s' Hf. apply register_all_Ok in Hf as (_ & Hnd & _ & _ & ->); [|done].
  assert (Hother : ∀ k r c, records (without_plugin i s) !! k = Some r →
    r_project_id r = r_project_id (record_of i c) → r_plugin_id r ≠ r_plugin_id (record_of i c)).
  { intros k r c [Hr Hn]%lookup_without_plugin Hp Hg. destruct (Hrec k r Hr) as [Hk _].
    apply Hn. split; [|done]. by rewrite <-Hk. }
  intros k k' r r' Hr Hr' Hp Hg.
  apply lookup_with_contributions in Hr; [|done]. apply lookup_with_contributions in Hr'; [|done].
  destruct Hr as [(c & _ & _ & ->)|[_ Hr]], Hr' as [(c' & _ & _ & ->)|[_ Hr']].
  - done.
  - by destruct (Hother k' r' c Hr').
  - by destruct (Hother k r c' Hr).
  - by eapply (coherent_retain _ s).
Qed.
Lemma coherent_call s call :
  store_ok s → coherent s → is_register call = false → coherent (run_call s call).
Proof.
  intros Hok Hco. destruct call as [cand exp|i|i c|i cap|p|i]; intros Hc; try done.
  - destruct (publish_cases s cand exp) as [->|(s' & Hf & ->)]; [done|].
    eapply coherent_with; [exact Hok| |done|exact Hf].
    etrans; [apply project_count_retain|apply Hok].
  - destruct (unpublish_cases s i) as [->| ->]; [done|]. by apply coherent_retain.
  - destruct (remove_cases s i cap) as [->| ->]; [done|]. rewrite delete_retain. by apply coherent_retain.
  - by apply coherent_retain.
  - by apply coherent_retain.
Qed.

(** C29: after any sequence of operations from the empty store, every record lies
    under its own project and capability and holds a valid contribution, and no
    project has more than 256; and when no single registrations were made, the
    records of a plugin in a project all come from one instance, so that its
    current identity is always defined. *)
Theorem store_invariant (calls : list StoreCall) :
  let s := foldl run_call ContributionStore_new calls in
  store_ok s ∧
  (Forall (λ call, is_register call = false) calls →
   coherent s ∧ ∀ p g, ∃ o, current_identity s p g = Ok o).
Proof.
  simpl. assert (Hall : ∀ s, store_ok s → coherent s →
    store_ok (foldl run_call s calls) ∧
    (Forall (λ call, is_register call = false) calls → coherent (foldl run_call s calls))).
  { induction calls as [|call calls IH]; intros s Hok Hco; [done|]. simpl.
    destruct (is_register call) eqn:Hreg.
    - split; [|by intros [? _]%Forall_cons; congruence].
      clear IH Hco Hreg. apply (store_ok_call _ call) in Hok. revert Hok. generalize (run_call s call).
      induction calls as [|call' calls IH]; intros s' Hok; [done|]. by apply IH, store_ok_call.
    - destruct (IH (run_call s call)) as [Hok' Hco']; [by apply store_ok_call|by apply coherent_call|].
      split; [done|]. intros [_ Hf]%Forall_cons. auto. }
  destruct (Hall ContributionStore_new) as [Hok Hco]; [apply store_ok_empty| |].
  { intros k k' r r'. simpl. by rewrite lookup_empty. }
  split; [done|]. intros Hf. split; [auto|]. intros p g. by apply current_identity_total, Hco.
Qed.

Lemma register_for_lookup i s c s' k :
  register_for i s c = Ok s' → k.1 ≠ ci_project_id i → records s' !! k = records s !! k.
Proof.
  intros (_ & _ & _ & ->)%register_for_Ok Hk. simpl. apply lookup_insert_ne. intros <-. by apply Hk.
Qed.
Lemma retain_lookup_same f s k :
  (∀ r, records s !! k = Some r → f k r = true) → records (retain f s) !! k = records s !! k.
Proof.
  intros Hf. apply option_eq. intros r. rewrite lookup_retain. naive_solver.
Qed.

(** projects are isolated: no operation on one project changes a record of
    another. *)
Theorem project_isolation s (call : StoreCall) p cap :
  p ≠ call_project call → get (run_call s call) p cap = get s p cap.
Proof.
  intros Hp. unfold get. assert (Hret : ∀ f, (∀ r, f (p, cap) r = true) →
    records (retain f s) !! (p, cap) = records s !! (p, cap)) by (intros; by apply retain_lookup_same).
  assert (Hne : ∀ i, p ≠ ci_project_id i → negb (bool_decide (p = ci_project_id i)) = true)
    by (intros; by rewrite bool_decide_false).
  destruct call as [cand exp|i|i c|i cap'|p'|i]; simpl in Hp.
  - destruct (publish_cases s cand exp) as [->|(s' & Hf & ->)]; [done|].
    etrans; [|apply (Hret (λ k r, negb (bool_decide (k.1 = ci_project_id (cand_identity cand)))
        || negb (bool_decide (r_plugin_id r = ci_plugin_id (cand_identity cand))))); intros; simpl; by rewrite Hne].
    revert Hf. apply (try_fold_inv (λ _ s', records s' !! (p, cap) = records (without_plugin _ s) !! (p, cap))).
    + done.
    + intros pre c post s1 s2 _ <- Hreg. by eapply register_for_lookup.
  - destruct (unpublish_cases s i) as [->| ->]; [done|]. apply Hret. intros r. simpl. by rewrite Hne.
  - destruct (register_cases s i c) as [->|(s' & Hf & ->)]; [done|]. by eapply register_for_lookup.
  - destruct (remove_cases s i cap') as [->| ->]; [done|]. simpl. apply lookup_delete_ne. congruence.
  - apply Hret. intros r. simpl. by rewrite bool_decide_false.
  - apply Hret. intros r. simpl. by rewrite Hne.
Qed.
End store.
