(* ===== verification/ContributionCall.v ===== *)
(** * Contribution calls

    Model of [crates/rho-extension-runtime/src/contribution_call.rs]: a call of a
    published contribution, from its admission over the guest's broker requests to
    its outcome.  A session and the host it calls are the state; the clock and the
    generated request id are inputs.  Handles are redacted only in [Debug] output,
    which is left out. *)
From S2P Require Import Prelude Text Errors External Ids Digest Host Stateful WasmHost JsonSchema Contribution.
#[local] Open Scope Z_scope.

Definition CONTRIBUTION_CALL_DEADLINE_MILLIS : Z := 30000.
Definition MAX_CONTRIBUTION_CALL_BYTES : Z := 256 * 1024.
Definition MAX_VIEWER_DOCUMENT_BYTES : Z := 1024 * 1024.
Definition MAX_CONTRIBUTION_CALL_HANDLES : Z := 64.

Inductive ContributionInvocationOrigin :=
| UserCommand | AgentTool | TrustedSource | TrustedViewer | TrustedPanel.
Definition origin_str (o : ContributionInvocationOrigin) : string :=
  match o with
  | UserCommand => "user_command" | AgentTool => "agent_tool" | TrustedSource => "trusted_source"
  | TrustedViewer => "trusted_viewer" | TrustedPanel => "trusted_panel"
  end.

Module ContributionCallErrorCode.
Inductive t :=
| MissingContribution | NotCallable | StaleIdentity | InvalidInput | InputTooLarge | InvalidHandleSet
| HandleNotSupplied | DeadlineExceeded | SequenceViolation | HostRejected | InvalidOutput | OutputTooLarge.
#[global] Instance t_eq_dec : EqDecision t.
Proof. solve_decision. Defined.
End ContributionCallErrorCode.
Import ContributionCallErrorCode.

Record ContributionCallError := MkCallError { cce_code : ContributionCallErrorCode.t; cce_message : string }.
(** A panic of the schema check is a panic of the call. *)
Abbreviation call_fault := (fault ContributionCallError).
Definition call_error (code : ContributionCallErrorCode.t) (message : string) : call_fault :=
  Failed (MkCallError code message).
Definition recode (code : ContributionCallErrorCode.t) (message : string) {E} (e : fault E) : call_fault :=
  match e with Failed _ => call_error code message | Panic => Panic end.

(** The derived [Debug] of [HostProtocolErrorCode]. *)
#[global] Instance HostProtocolErrorCode_debug : RustDebug HostProtocolErrorCode := λ c,
  match c with
  | MalformedFrame => "MalformedFrame" | UnknownInstance => "UnknownInstance"
  | VersionMismatch => "VersionMismatch" | PayloadTooLarge => "PayloadTooLarge"
  | InvalidStateTransition => "InvalidStateTransition" | Timeout => "Timeout"
  | UnknownRequest => "UnknownRequest" | ModuleTooLarge => "ModuleTooLarge"
  | InvalidModule => "InvalidModule" | ForbiddenImport => "ForbiddenImport"
  | MissingExport => "MissingExport" | InvalidExport => "InvalidExport"
  | ResourceLimit => "ResourceLimit" | FuelExhausted => "FuelExhausted" | GuestTrap => "GuestTrap"
  | InvalidGuestOutput => "InvalidGuestOutput" | InvalidBrokerStep => "InvalidBrokerStep"
  | BrokerSequenceViolation => "BrokerSequenceViolation" | BrokerStepLimit => "BrokerStepLimit"
  | BrokerResultLimit => "BrokerResultLimit" | GuestRejected => "GuestRejected"
  | Cancelled => "Cancelled"
  end.
Definition host_rejected (action : string) (e : HostProtocolError) : call_fault :=
  call_error HostRejected ("contribution guest " +:+ action +:+ " failed: " +:+ debug (host_error_code e)).

Section calls.
Context `{Wasmtime} `{SerdeNumber} `{!SerdeToVec} `{!SerdeFromU64} `{!GuestStepJson} `{Sha256}.

Record ContributionCallProvenance := MkProvenance {
  cp_call_id : string;
  cp_contribution_id : CapabilityId;
  cp_contract_major : Z;
  cp_project_id : ScopeId;
  cp_plugin_id : PluginId;
  cp_package_digest : PackageDigest;
  cp_activation_generation : ActivationGeneration;
  cp_host_instance_id : HostInstanceId;
  cp_origin : ContributionInvocationOrigin;
  cp_broker_steps : Z
}.
Inductive ContributionCallOutcome :=
| CallCompleted (result : Value) (provenance : ContributionCallProvenance)
| CallFailed (code : string) (provenance : ContributionCallProvenance).

(** The handles by permission, a [BTreeMap]. *)
Record ContributionCallRequest := MkCallRequest {
  cr_project_id : ScopeId;
  cr_contribution_id : CapabilityId;
  cr_origin : ContributionInvocationOrigin;
  cr_input : Value;
  cr_supplied_handles : gmap string string
}.
Record ContributionCallSession := MkSession {
  ccs_request_id : HostRequestId;
  ccs_call_id : string;
  ccs_identity : ContributionInstanceIdentity;
  ccs_contribution_id : CapabilityId;
  ccs_contract_major : Z;
  ccs_kind : ContributionKind.t;
  ccs_output_schema : BoundedJsonSchema;
  ccs_origin : ContributionInvocationOrigin;
  ccs_deadline_millis : Z;
  ccs_supplied_handles : gmap string string;
  ccs_broker_steps : Z;
  ccs_waiting_for_broker : bool;
  ccs_terminal : bool
}.
Definition set_progress (steps : Z) (waiting terminal : bool) (s : ContributionCallSession)
    : ContributionCallSession :=
  MkSession (ccs_request_id s) (ccs_call_id s) (ccs_identity s) (ccs_contribution_id s)
    (ccs_contract_major s) (ccs_kind s) (ccs_output_schema s) (ccs_origin s) (ccs_deadline_millis s)
    (ccs_supplied_handles s) steps waiting terminal.
Definition set_waiting (waiting : bool) (s : ContributionCallSession) : ContributionCallSession :=
  set_progress (ccs_broker_steps s) waiting (ccs_terminal s) s.
(** [self.terminal = true; self.waiting_for_broker = false;] *)
Definition terminated (s : ContributionCallSession) : ContributionCallSession :=
  set_progress (ccs_broker_steps s) false true s.

Definition supplied_handles_are_live (is_live : string → bool) (s : ContributionCallSession) : bool :=
  forallb is_live (btree_values (ccs_supplied_handles s)).
Definition invalidate_before_publish (s : ContributionCallSession) : ContributionCallSession := terminated s.

(** ** Checks *)

Definition validate_handle_set (handles : gmap string string) : result call_fault () :=
  _ ← fail_if (MAX_CONTRIBUTION_CALL_HANDLES <? Z.of_nat (size handles))
        (call_error InvalidHandleSet "contribution handle set exceeds its item budget");
  for_each (λ permission,
    fail_if (negb (brokered_permission permission)
             || is_some_and malformed_handle (handles !! permission))
      (call_error InvalidHandleSet "contribution handle set is malformed")) (sorted_keys handles).

(** The identity a host runs under, in the fields of a contribution's. *)
Definition host_identity (h : WasmPluginHost) : ContributionInstanceIdentity :=
  let i := wh_identity h in
  MkIdentity (wi_project_id i) (wi_plugin_id i) (wi_package_digest i) (wi_activation_generation i)
    (wi_host_instance_id i).
Definition ensure_current_host (identity : ContributionInstanceIdentity) (h : WasmPluginHost)
    : result call_fault () :=
  let i := host_identity h in
  fail_if (negb (bool_decide (ci_project_id i = ci_project_id identity))
           || negb (bool_decide (ci_plugin_id i = ci_plugin_id identity))
           || negb (bool_decide (ci_package_digest i = ci_package_digest identity))
           || negb (bool_decide (ci_activation_generation i = ci_activation_generation identity))
           || negb (bool_decide (ci_host_instance_id i = ci_host_instance_id identity)))
    (call_error StaleIdentity "contribution route does not match the live Wasm host").

Definition encoded_len (value : Value) (code : ContributionCallErrorCode.t) : result call_fault Z :=
  encoded ← map_err (λ _, call_error code "contribution JSON could not be encoded") (to_vec value);
  Ok (vec_len encoded).
Definition call_byte_limit (kind : ContributionKind.t) : Z :=
  match kind with
  | ContributionKind.Viewer | ContributionKind.Panel => MAX_VIEWER_DOCUMENT_BYTES
  | _ => MAX_CONTRIBUTION_CALL_BYTES
  end.
Definition validate_terminal_result (kind : ContributionKind.t) (schema : BoundedJsonSchema) (value : Value)
    : result call_fault () :=
  bytes ← encoded_len value InvalidOutput;
  _ ← fail_if (call_byte_limit kind <? bytes)
        (call_error OutputTooLarge "contribution output exceeds its byte budget");
  map_err (recode InvalidOutput "contribution output does not match the declared schema")
    (validate_instance schema value).

Definition accept_step (step : GuestStep) : stateful ContributionCallSession call_fault () :=
  session ← gets (λ s, s);
  _ ← throw_if (negb (str_eq (step_call_id step) (ccs_call_id session)))
        (call_error SequenceViolation "contribution guest step has a mismatched call id");
  match step with
  | BrokerRequestStep _ handle_id permission _ _ =>
      _ ← throw_if (negb (bool_decide (ccs_supplied_handles session !! permission = Some handle_id)))
            (call_error HandleNotSupplied "guest requested a handle not supplied for this call");
      modify (λ s, set_progress (ccs_broker_steps s + 1) true (ccs_terminal s) s)
  | CompleteStep _ _ | ErrorStep _ _ => modify (set_waiting false)
  end.

(** ** Admission *)

Definition call_envelope (record : ContributionRecord) (request : ContributionCallRequest) : Value :=
  let c := r_contribution record in
  let number n := VNumber (num_from_u64 n) in
  VObject [
    ("contribution", VObject [("id", VString (as_str (c_capability c)));
                              ("contract_major", number (c_contract_major c))]);
    ("project_id", VString (as_str (r_project_id record)));
    ("plugin_id", VString (as_str (r_plugin_id record)));
    ("package_digest", VString (digest_str (r_package_digest record)));
    ("activation_generation", number (generation_get (r_activation_generation record)));
    ("host_instance_id", VString (host_instance_str (r_host_instance_id record)));
    ("origin", VString (origin_str (cr_origin request)));
    ("input", cr_input request);
    ("capability_handles", VObject ((λ permission, (permission, VString (default "" (cr_supplied_handles request !! permission))))
                                      <$> sorted_keys (cr_supplied_handles request)));
    ("deadline_millis", number CONTRIBUTION_CALL_DEADLINE_MILLIS)].

(** What [begin] checks before the guest is called: the published record, its
    output schema and the deadline. *)
Definition admit_call (registry : ContributionStore) (request : ContributionCallRequest) (now : Z)
    (h : WasmPluginHost) : result call_fault (ContributionRecord * BoundedJsonSchema * Z) :=
  _ ← validate_handle_set (cr_supplied_handles request);
  record ← ok_or (get registry (cr_project_id request) (cr_contribution_id request))
             (call_error MissingContribution "contribution is not published for this project");
  let c := r_contribution record in
  _ ← fail_if (bool_decide (c_kind c = ContributionKind.Skill))
        (call_error NotCallable "declarative Skill contributions are not callable");
  _ ← ensure_current_host (record_identity record) h;
  input_bytes ← encoded_len (cr_input request) InvalidInput;
  _ ← fail_if (MAX_CONTRIBUTION_CALL_BYTES <? input_bytes)
        (call_error InputTooLarge "contribution input exceeds its byte budget");
  input_schema ← ok_or (c_input_schema c) (call_error NotCallable "contribution has no input schema");
  _ ← map_err (recode InvalidInput "contribution input does not match the declared schema")
        (validate_instance input_schema (cr_input request));
  output_schema ← ok_or (c_output_schema c) (call_error NotCallable "contribution has no output schema");
  deadline ← ok_or (checked_add_u64 now CONTRIBUTION_CALL_DEADLINE_MILLIS)
               (call_error DeadlineExceeded "contribution deadline cannot be represented");
  Ok (record, output_schema, deadline).

(** [ContributionCallSession::begin]; [interrupts] and [cleanup] are what happens to
    the request in flight during its two calls of the host. *)
Definition begin (interrupts cleanup : Interrupts) (next_call_id : Z) (request_id : HostRequestId)
    (registry : ContributionStore) (request : ContributionCallRequest) (now : Z)
    : stateful WasmPluginHost call_fault (ContributionCallSession * GuestStep) :=
  h ← gets (λ h, h);
  admitted ← lift (admit_call registry request now h);
  let '(record, output_schema, deadline) := admitted in
  let c := r_contribution record in
  step ← or_else (begin_contribution_call interrupts next_call_id request_id (call_envelope record request))
           (λ error, throw (host_rejected "begin" error));
  let session := MkSession request_id (step_call_id step) (record_identity record)
    (cr_contribution_id request) (c_contract_major c) (c_kind c) output_schema (cr_origin request)
    deadline (cr_supplied_handles request) 0 false false in
  match accept_step step session with
  | (session, Ok _) => mret (session, step)
  | (_, Err error) => _ ← ignore (cancel_broker_call cleanup request_id); throw error
  end.

(** ** The course of a call *)

Abbreviation call_m A := (stateful (ContributionCallSession * WasmPluginHost) call_fault A).

Definition on_host {E A} (m : stateful WasmPluginHost E A)
    : stateful (ContributionCallSession * WasmPluginHost) E A := zoom snd (λ h s, (s.1, h)) m.
Definition on_session {E A} (m : stateful ContributionCallSession E A)
    : stateful (ContributionCallSession * WasmPluginHost) E A := zoom fst (λ t s, (t, s.2)) m.
Definition the_session : call_m ContributionCallSession := gets fst.

Definition is_current (registry : ContributionStore) (s : ContributionCallSession) : bool :=
  let identity := ccs_identity s in
  is_some_and (λ r,
    bool_decide (r_plugin_id r = ci_plugin_id identity)
    && bool_decide (r_package_digest r = ci_package_digest identity)
    && bool_decide (r_activation_generation r = ci_activation_generation identity)
    && bool_decide (r_host_instance_id r = ci_host_instance_id identity)
    && (c_contract_major (r_contribution r) =? ccs_contract_major s))
    (get registry (ci_project_id identity) (ccs_contribution_id s)).

(** Give the call up: cancel it at the host and end the session. *)
Definition abandon {A} (cleanup : Interrupts) (error : call_fault) : call_m A :=
  session ← the_session;
  _ ← ignore (on_host (cancel_broker_call cleanup (ccs_request_id session)));
  _ ← on_session (modify terminated);
  throw error.
Definition ensure_live (cleanup : Interrupts) (registry : ContributionStore) (now : Z) : call_m () :=
  session ← the_session;
  if ccs_deadline_millis session <=? now then
    abandon cleanup (call_error DeadlineExceeded "contribution call exceeded its 30-second deadline")
  else
  h ← gets snd;
  _ ← lift (ensure_current_host (ccs_identity session) h);
  if negb (is_current registry session) then
    abandon cleanup (call_error StaleIdentity "contribution route changed before completion")
  else mret ().

Definition resume (interrupts cleanup : Interrupts) (registry : ContributionStore) (broker_result : Value)
    (raw_result_bytes now : Z) : call_m GuestStep :=
  _ ← ensure_live cleanup registry now;
  session ← the_session;
  _ ← throw_if (ccs_terminal session || negb (ccs_waiting_for_broker session))
        (call_error SequenceViolation "contribution call is not waiting for a broker result");
  _ ← on_session (modify (set_waiting false));
  step ← or_else (on_host (resume_contribution_call interrupts (ccs_request_id session) broker_result
                             raw_result_bytes))
           (λ error, throw (host_rejected "resume" error));
  _ ← or_else (on_session (accept_step step))
        (λ error, _ ← ignore (on_host (cancel_broker_call cleanup (ccs_request_id session))); throw error);
  mret step.

Definition provenance (s : ContributionCallSession) : ContributionCallProvenance :=
  let i := ccs_identity s in
  MkProvenance (ccs_call_id s) (ccs_contribution_id s) (ccs_contract_major s) (ci_project_id i)
    (ci_plugin_id i) (ci_package_digest i) (ci_activation_generation i) (ci_host_instance_id i)
    (ccs_origin s) (ccs_broker_steps s).

Definition finish (cleanup : Interrupts) (registry : ContributionStore) (step : GuestStep) (now : Z)
    : call_m ContributionCallOutcome :=
  _ ← ensure_live cleanup registry now;
  session ← the_session;
  _ ← throw_if (ccs_terminal session)
        (call_error SequenceViolation "contribution call already reached a terminal state");
  _ ← throw_if (negb (str_eq (step_call_id step) (ccs_call_id session)))
        (call_error SequenceViolation "contribution terminal call id does not match admission");
  match step with
  | CompleteStep _ value =>
      _ ← on_session (modify terminated);
      _ ← lift (validate_terminal_result (ccs_kind session) (ccs_output_schema session) value);
      mret (CallCompleted value (provenance session))
  | ErrorStep _ code =>
      _ ← on_session (modify terminated);
      mret (CallFailed code (provenance session))
  | BrokerRequestStep _ _ _ _ _ =>
      throw (call_error SequenceViolation "contribution call has not reached a terminal step")
  end.

Definition cancel (interrupts : Interrupts) : call_m bool :=
  session ← the_session;
  if ccs_terminal session then mret false else
  cancelled ← or_else (on_host (cancel_broker_call interrupts (ccs_request_id session)))
                (λ error, throw (host_rejected "cancel" error));
  _ ← on_session (modify terminated);
  mret cancelled.
End calls.
