(* ===== verification/ContributionCallProps.v ===== *)
(** * Properties of contribution calls

    When a call is admitted, what the broker gets to see of it, when it has an
    outcome, and that a client that answers the guest's requests comes to the end of
    it. *)
From S2P Require Import Prelude Text Errors External Ids Digest Host Stateful WasmHost WasmHostProps.
From S2P Require Import WasmHostInvariant JsonSchema JsonSchemaProps Contribution ContributionCall.
Import ContributionCallErrorCode.
#[local] Open Scope Z_scope.

#[local] Arguments validate_instance : simpl never.

Section calls.
Context `{Wasmtime} `{SerdeNumber} `{!SerdeToVec} `{!SerdeFromU64} `{!GuestStepJson} `{Sha256}.
Context `{!SerdeToVecTotal}.
Implicit Types (h : WasmPluginHost) (s : ContributionCallSession) (registry : ContributionStore).

(** ** Admission *)

(** Handles for brokered permissions only, in the form the host gives them. *)
Definition handle_set_ok (handles : gmap string string) : Prop :=
  Z.of_nat (size handles) <= MAX_CONTRIBUTION_CALL_HANDLES
  ∧ ∀ permission handle_id, handles !! permission = Some handle_id →
      brokered_permission permission = true ∧ malformed_handle handle_id = false.
(** The schemas of published contributions are schemas. *)
Definition schemas_ok registry : Prop :=
  ∀ p c record schema, get registry p c = Some record →
    c_input_schema (r_contribution record) = Some schema
      ∨ c_output_schema (r_contribution record) = Some schema →
    schema_ok 8 (schema_value schema).
(** The value encodes to at most so many bytes. *)
Definition fits (value : Value) (limit : Z) : Prop :=
  ∃ bytes, to_vec value = Ok bytes ∧ vec_len bytes <= limit.

Record admissible registry (request : ContributionCallRequest) (now : Z) h
    (admitted : ContributionRecord * BoundedJsonSchema * Z) : Prop := {
  ad_handles : handle_set_ok (cr_supplied_handles request);
  ad_record : get registry (cr_project_id request) (cr_contribution_id request) = Some admitted.1.1;
  ad_kind : c_kind (r_contribution admitted.1.1) ≠ ContributionKind.Skill;
  ad_identity : host_identity h = record_identity admitted.1.1;
  ad_input : ∃ schema, c_input_schema (r_contribution admitted.1.1) = Some schema
                       ∧ conforms (schema_value schema) (cr_input request);
  ad_bytes : fits (cr_input request) MAX_CONTRIBUTION_CALL_BYTES;
  ad_output : c_output_schema (r_contribution admitted.1.1) = Some admitted.1.2;
  ad_deadline : admitted.2 = now + CONTRIBUTION_CALL_DEADLINE_MILLIS ∧ admitted.2 <= u64_max
}.

Lemma validate_handle_set_Ok handles : validate_handle_set handles = Ok () ↔ handle_set_ok handles.
Proof.
  unfold validate_handle_set, handle_set_ok. rewrite bind_unit_Ok_iff, fail_if_Ok, Z.ltb_ge.
  apply and_iff_compat_l. rewrite for_each_Ok, Forall_forall. setoid_rewrite elem_of_sorted_keys.
  split.
  - intros Hall permission handle_id Hl. specialize (Hall permission ltac:(by eexists)). cbv beta in Hall.
    rewrite Hl in Hall. apply fail_if_Ok, orb_false_elim in Hall as [Hp%negb_false_iff Hm]. by split.
  - intros Hall permission [handle_id Hl]. destruct (Hall permission handle_id Hl) as [Hp Hm].
    rewrite Hl. unfold is_some_and. by rewrite Hp, Hm.
Qed.
Lemma identity_eq i j :
  negb (bool_decide (ci_project_id i = ci_project_id j))
  || negb (bool_decide (ci_plugin_id i = ci_plugin_id j))
  || negb (bool_decide (ci_package_digest i = ci_package_digest j))
  || negb (bool_decide (ci_activation_generation i = ci_activation_generation j))
  || negb (bool_decide (ci_host_instance_id i = ci_host_instance_id j)) = false ↔ i = j.
Proof.
  rewrite !orb_false_iff, !negb_false_iff, !bool_decide_eq_true. destruct i, j; cbn. naive_solver.
Qed.
Lemma ensure_current_host_Ok identity h : ensure_current_host identity h = Ok () ↔ host_identity h = identity.
Proof. unfold ensure_current_host. by rewrite fail_if_Ok, identity_eq. Qed.
Lemma encoded_len_fits value code limit :
  (∃ n, encoded_len value code = Ok n ∧ n <= limit) ↔ fits value limit.
Proof.
  unfold encoded_len, fits. destruct (to_vec_total value) as [bytes ->]. cbn. split.
  - intros (n & [= <-] & ?). by exists bytes.
  - intros (b & [= <-] & ?). by eexists.
Qed.
Lemma recode_Ok {E A} code message (r : result (fault E) A) a :
  map_err (recode code message) r = Ok a ↔ r = Ok a.
Proof. apply map_err_Ok. Qed.

Lemma admit_Ok registry request now h admitted :
  schemas_ok registry →
  admit_call registry request now h = Ok admitted ↔ admissible registry request now h admitted.
Proof.
  intros Hschemas. unfold admit_call. destruct admitted as [[record output] deadline]. split.
  - rewrite bind_unit_Ok_iff, validate_handle_set_Ok. intros [Hh Ha].
    apply bind_Ok_iff in Ha as (r & Hr%ok_or_Ok & Ha).
    apply bind_unit_Ok_iff in Ha as [Hk%fail_if_Ok Ha]. apply bool_decide_eq_false in Hk.
    apply bind_unit_Ok_iff in Ha as [Hid%ensure_current_host_Ok Ha].
    apply bind_Ok_iff in Ha as (n & Hn & Ha). apply bind_unit_Ok_iff in Ha as [Hle%fail_if_Ok Ha].
    apply bind_Ok_iff in Ha as (input & Hi%ok_or_Ok & Ha).
    apply bind_unit_Ok_iff in Ha as [Hv%recode_Ok Ha].
    apply bind_Ok_iff in Ha as (o & Ho%ok_or_Ok & Ha). apply bind_Ok_iff in Ha as (d & Hd%ok_or_Ok & Ha).
    injection Ha as -> -> ->. unfold checked_add_u64 in Hd.
    destruct (_ <=? u64_max) eqn:Hmax; [|done]. injection Hd as <-. apply Z.leb_le in Hmax.
    split; cbn; try done.
    + exists input. split; [done|]. apply (validate_instance_decides input); [by eauto|done].
    + apply (encoded_len_fits _ InvalidInput). exists n. split; [done|]. by apply Z.ltb_ge.
  - intros []; cbn in *. rewrite (proj2 (validate_handle_set_Ok _)) by done. cbn. rewrite ad_record0. cbn.
    rewrite bool_decide_eq_false_2 by done. cbn. rewrite (proj2 (ensure_current_host_Ok _ _)) by done. cbn.
    destruct (proj2 (encoded_len_fits _ InvalidInput _) ad_bytes0) as (n & -> & Hn). cbn.
    rewrite (proj2 (Z.ltb_ge _ _)) by done. cbn. destruct ad_input0 as (input & Hi & Hc). rewrite Hi. cbn.
    rewrite (proj2 (proj1 (validate_instance_decides input _ ltac:(eauto))) Hc). cbn.
    rewrite ad_output0. cbn. destruct ad_deadline0 as [-> Hmax]. unfold checked_add_u64.
    by rewrite (proj2 (Z.leb_le _ _)).
Qed.
Lemma no_panic_recode {A} code message (r : result (fault JsonSchemaError) A) :
  no_panic r → no_panic (map_err (recode code message) r).
Proof. unfold no_panic. by destruct r as [|[]]. Qed.
Lemma encoded_len_no_panic value code : no_panic (encoded_len value code).
Proof. unfold encoded_len. destruct (to_vec_total value) as [bytes ->]. done. Qed.
Lemma admit_no_panic registry request now h :
  schemas_ok registry → no_panic (admit_call registry request now h).
Proof.
  intros Hschemas. unfold admit_call, call_error.
  apply no_panic_bind; [unfold validate_handle_set, call_error; repeat panic_step|intros _ _].
  apply no_panic_bind; [auto with panics|intros record Hr%ok_or_Ok].
  apply no_panic_bind; [auto with panics|intros _ _].
  apply no_panic_bind; [unfold ensure_current_host, call_error; auto with panics|intros _ _].
  apply no_panic_bind; [apply encoded_len_no_panic|intros n _].
  apply no_panic_bind; [auto with panics|intros _ _].
  apply no_panic_bind; [auto with panics|intros schema Hs%ok_or_Ok].
  apply no_panic_bind; [apply no_panic_recode, validate_instance_decides; eauto|intros _ _].
  repeat panic_step.
Qed.
Lemma validate_terminal_result_decides kind schema value :
  schema_ok 8 (schema_value schema) →
  decides (validate_terminal_result kind schema value)
    (fits value (call_byte_limit kind) ∧ conforms (schema_value schema) value).
Proof.
  intros Hs. unfold validate_terminal_result. pose proof (validate_instance_decides schema value Hs) as [Hv Hn].
  unfold fits, encoded_len. destruct (to_vec_total value) as [bytes Hb]. rewrite Hb. cbn.
  apply decides_bind.
  - apply decides_fail_if. rewrite Z.ltb_ge. naive_solver.
  - intros _. split; [by rewrite recode_Ok|by apply no_panic_recode].
Qed.

(** ** A session and its host *)

(** A call in flight at the host is this session's, and the session is waiting for
    it; its handles and its steps are within their bounds. *)
Record call_ok s h : Prop := {
  co_host : host_ok h;
  co_handles : handle_set_ok (ccs_supplied_handles s);
  co_steps : 0 <= ccs_broker_steps s <= MAX_GUEST_BROKER_STEPS;
  co_waiting : ccs_waiting_for_broker s = true → ccs_terminal s = false;
  co_schema : schema_ok 8 (schema_value (ccs_output_schema s));
  co_inflight b : wh_broker_call h = Some b →
    bc_request_id b = ccs_request_id s ∧ bc_call_id b = ccs_call_id s ∧ bc_steps b = ccs_broker_steps s
    ∧ ccs_waiting_for_broker s = true
}.

(** The route of the call is what it was at its admission, and there is time left. *)
Definition live registry (now : Z) s h : Prop :=
  now < ccs_deadline_millis s ∧ host_identity h = ccs_identity s
  ∧ ∃ record, get registry (ci_project_id (ccs_identity s)) (ccs_contribution_id s) = Some record
      ∧ r_plugin_id record = ci_plugin_id (ccs_identity s)
      ∧ r_package_digest record = ci_package_digest (ccs_identity s)
      ∧ r_activation_generation record = ci_activation_generation (ccs_identity s)
      ∧ r_host_instance_id record = ci_host_instance_id (ccs_identity s)
      ∧ c_contract_major (r_contribution record) = ccs_contract_major s.
Lemma is_current_true registry s :
  is_current registry s = true ↔
  ∃ record, get registry (ci_project_id (ccs_identity s)) (ccs_contribution_id s) = Some record
      ∧ r_plugin_id record = ci_plugin_id (ccs_identity s)
      ∧ r_package_digest record = ci_package_digest (ccs_identity s)
      ∧ r_activation_generation record = ci_activation_generation (ccs_identity s)
      ∧ r_host_instance_id record = ci_host_instance_id (ccs_identity s)
      ∧ c_contract_major (r_contribution record) = ccs_contract_major s.
Proof.
  unfold is_current. destruct (get _ _ _) as [record|]; cbn; [|naive_solver].
  rewrite !andb_true_iff, !bool_decide_eq_true, Z.eqb_eq. naive_solver.
Qed.

(** The call is over at the host: a cancellation of it leaves none in flight. *)
Lemma cancel_own_call I s h :
  call_ok s h →
  post (cancel_broker_call I (ccs_request_id s)) h
    (λ _ h', host_ok h' ∧ wh_broker_call h' = None) (λ _ h', host_ok h' ∧ wh_broker_call h' = None).
Proof.
  intros Hok. pose proof (co_host s h Hok) as Hh. apply post_state.
  split; [by eapply host_step_ok; [|apply CancelStep]|]. apply post_state.
  eapply post_mono; [apply cancel_broker_call_post; by apply host_ok_call_runtime|..]; [|by intros e h' ->].
  intros [] h'; [by intros (b & h1 & _ & _ & _ & ->)|by intros [? ->]].
Qed.
Lemma call_ok_idle s s' h0 h :
  call_ok s h0 → host_ok h → wh_broker_call h = None →
  ccs_supplied_handles s' = ccs_supplied_handles s →
  ccs_broker_steps s' = ccs_broker_steps s ∨ ccs_broker_steps s' = 0 →
  ccs_output_schema s' = ccs_output_schema s →
  (ccs_waiting_for_broker s' = true → ccs_terminal s' = false) → call_ok s' h.
Proof.
  intros [] Hh Hb Hs Hn Hsch Hw. split; rewrite ?Hs, ?Hsch; auto; [|intros b; by rewrite Hb].
  unfold MAX_GUEST_BROKER_STEPS in *. destruct Hn as [-> | ->]; lia.
Qed.

Lemma post_on_host {E A} (m : stateful WasmPluginHost E A) (sh : ContributionCallSession * WasmPluginHost) Q R :
  post (on_host m) sh Q R ↔ post m sh.2 (λ a h, Q a (sh.1, h)) (λ e h, R e (sh.1, h)).
Proof. apply (post_zoom snd (λ h (sh : ContributionCallSession * WasmPluginHost), (sh.1, h))). Qed.
Lemma post_on_session {E A} (m : stateful ContributionCallSession E A) (sh : ContributionCallSession * WasmPluginHost) Q R :
  post (on_session m) sh Q R ↔ post m sh.1 (λ a s, Q a (s, sh.2)) (λ e s, R e (s, sh.2)).
Proof. apply (post_zoom fst (λ s (sh : ContributionCallSession * WasmPluginHost), (s, sh.2))). Qed.
Lemma post_the_session (sh : ContributionCallSession * WasmPluginHost) Q R :
  post the_session sh Q R ↔ Q sh.1 sh.
Proof. unfold the_session. by rewrite post_gets. Qed.
#[local] Hint Rewrite @post_on_host @post_on_session @post_the_session : post.
#[local] Ltac run := post_run; cbn [fst snd].

(** A step is accepted when it is of this call and asks for a supplied handle. *)
Definition accepted (step : GuestStep) s s' : Prop :=
  step_call_id step = ccs_call_id s ∧
  match step with
  | BrokerRequestStep _ handle_id permission _ _ =>
      ccs_supplied_handles s !! permission = Some handle_id
      ∧ s' = set_progress (ccs_broker_steps s + 1) true (ccs_terminal s) s
  | CompleteStep _ _ | ErrorStep _ _ => s' = set_waiting false s
  end.
Lemma accept_step_post step s :
  post (accept_step step) s (λ _, accepted step s) (λ e s', s' = s ∧ e ≠ Panic).
Proof.
  unfold accept_step. run. unfold str_eq. case_bool_decide as Hid; cbn [negb]; [|done].
  destruct step as [id handle permission op args|id v|id code]; run; [|done..].
  case_bool_decide; cbn [negb]; run; done.
Qed.

(** Only the session's progress may change, and what is terminal stays so. *)
Definition same_call s s' : Prop :=
  ∃ steps waiting terminal, (ccs_terminal s = true → terminal = true)
    ∧ s' = set_progress steps waiting terminal s.
Lemma same_call_intro s steps waiting terminal :
  (ccs_terminal s = true → terminal = true) → same_call s (set_progress steps waiting terminal s).
Proof. intros Ht. by exists steps, waiting, terminal. Qed.
Lemma same_call_refl s : same_call s s.
Proof.
  pose proof (same_call_intro s (ccs_broker_steps s) (ccs_waiting_for_broker s) (ccs_terminal s) ltac:(done)).
  by destruct s.
Qed.
Lemma same_call_terminated s : same_call s (terminated s).
Proof. by apply same_call_intro. Qed.
Lemma same_call_waiting s waiting : same_call s (set_waiting waiting s).
Proof. by apply same_call_intro. Qed.
Lemma same_call_trans s1 s2 s3 : same_call s1 s2 → same_call s2 s3 → same_call s1 s3.
Proof.
  intros (? & ? & t2 & Ht2 & ->) (n3 & w3 & t3 & Ht3 & ->).
  exists n3, w3, t3. split; [auto|done].
Qed.
Lemma accepted_same_call step s s' : accepted step s s' → same_call s s'.
Proof.
  intros [_ Ha]. destruct step; [destruct Ha as [_ ->]|subst..];
    [by apply same_call_intro|apply same_call_waiting..].
Qed.
#[local] Hint Resolve same_call_refl same_call_terminated same_call_waiting : core.

Lemma give_up_post {A} I error s h (Q : A → _ → Prop) :
  call_ok s h → error ≠ Panic →
  post (abandon I error) (s, h) Q
    (λ e sh, e ≠ Panic ∧ call_ok sh.1 sh.2 ∧ sh.1 = terminated s ∧ wh_broker_call sh.2 = None).
Proof.
  intros Hok He. unfold abandon. run.
  eapply post_mono; [by apply cancel_own_call|..]; intros a h' [Hh Hb]; run;
    (split_and!; [done| |done|done]); eapply call_ok_idle; eauto.
Qed.
Lemma ensure_live_post I registry now s h :
  call_ok s h →
  post (ensure_live I registry now) (s, h) (λ _ sh, sh = (s, h) ∧ live registry now s h)
    (λ e sh, e ≠ Panic ∧ ¬ live registry now s h ∧ call_ok sh.1 sh.2
             ∧ (sh = (s, h) ∨ sh.1 = terminated s ∧ wh_broker_call sh.2 = None)).
Proof.
  intros Hok. unfold ensure_live, live. run. destruct (_ <=? now) eqn:Hd.
  { apply Z.leb_le in Hd. eapply post_mono; [by apply (give_up_post _ _ _ _ (λ _ _, False))|..]; [done|].
    intros e sh (? & ? & ? & ?). split_and!; [done|lia|done|by right]. }
  apply Z.leb_gt in Hd. run.
  destruct (ensure_current_host (ccs_identity s) h) as [[]|e] eqn:Hid; run.
  2: { split_and!; [| |done|by left].
       - intros ->. unfold ensure_current_host in Hid. by destruct (_ || _) in Hid.
       - intros (_ & Hi & _). apply ensure_current_host_Ok in Hi. congruence. }
  apply ensure_current_host_Ok in Hid. destruct (is_current registry s) eqn:Hc; cbn [negb]; run.
  { apply is_current_true in Hc. by split_and!. }
  eapply post_mono; [by apply (give_up_post _ _ _ _ (λ _ _, False))|..]; [done|].
  intros e sh (? & ? & ? & ?). split_and!; [done| |done|by right].
  intros (_ & _ & Hr). apply is_current_true in Hr. congruence.
Qed.

Lemma resume_post I cleanup registry value raw now s h :
  0 <= raw → call_ok s h →
  post (resume I cleanup registry value raw now) (s, h)
    (λ step sh, live registry now s h ∧ ccs_waiting_for_broker s = true
                ∧ accepted step (set_waiting false s) sh.1 ∧ call_ok sh.1 sh.2)
    (λ e sh, e ≠ Panic ∧ same_call s sh.1 ∧ call_ok sh.1 sh.2).
Proof.
  intros Hraw Hok. unfold resume. run. eapply post_mono; [by apply ensure_live_post|..].
  2: { intros e sh (He & _ & Hok' & Hsh). split_and!; [done| |done].
       by destruct Hsh as [->|[-> _]]. }
  intros _ ? [-> Hlive]. run. destruct (ccs_terminal s || _) eqn:Hseq; run.
  { by split_and!. }
  apply orb_false_elim in Hseq as [Hterm Hwait%negb_false_iff].
  eapply post_mono; [apply resume_broker_call_post; by apply host_ok_call_runtime, Hok|..].
  2: { intros e h' ->. run. split_and!; [done|done|].
       eapply (call_ok_idle s); eauto; done || apply quarantined_ok. }
  intros step h' Hres. pose proof (resumed_ok _ _ _ _ _ Hraw (co_host _ _ Hok) Hres) as Hh'. run.
  destruct Hres as [(b & h1 & digest & Hb & Hbid & Hlt & _ & Hstep & _ & Hc & Hh1)].
  destruct (co_inflight _ _ Hok b Hb) as (_ & Hcall & Hsteps & _).
  assert (∀ s', ccs_waiting_for_broker s' = true → ccs_terminal s' = false →
    ccs_supplied_handles s' = ccs_supplied_handles s → ccs_output_schema s' = ccs_output_schema s →
    ccs_broker_steps s' = ccs_broker_steps s + 1 → ccs_request_id s' = ccs_request_id s →
    ccs_call_id s' = ccs_call_id s → call_ok s' h') as Hgoes_on.
  { intros s' Hw Ht Hsup Hsch Hn Hrid Hcid.
    split; rewrite ?Hsup, ?Hsch, ?Hn; [done|by apply Hok| |done|by apply Hok|].
    - pose proof (co_steps _ _ Hok). lia.
    - intros b'. rewrite Hh1. unfold after_step. destruct (step_is_terminal step); cbn; [done|].
      intros [= <-]. cbn. split_and!; congruence. }
  eapply post_mono; [apply accept_step_post|..].
  - intros _ s' [Hid Hacc]. run. split_and!; [done..|].
    destruct step as [id handle permission op args|id v|id code]; [destruct Hacc as [_ ->]|subst s'..].
    + by apply Hgoes_on.
    + eapply (call_ok_idle s); [done|done|by rewrite Hh1|done|by left|done..].
    + eapply (call_ok_idle s); [done|done|by rewrite Hh1|done|by left|done..].
  - intros e s' [-> He]. run.
    eapply post_mono; [by apply (cancel_own_call cleanup (set_progress (ccs_broker_steps s + 1) true false s)), Hgoes_on|..];
      intros a h2 [Hh2 Hb2]; run; (split_and!; [done|done|]); eapply (call_ok_idle s); eauto; done.
Qed.

Lemma finish_post cleanup registry step now s h :
  call_ok s h →
  post (finish cleanup registry step now) (s, h)
    (λ outcome sh, live registry now s h ∧ ccs_terminal s = false ∧ step_call_id step = ccs_call_id s
       ∧ sh = (terminated s, h)
       ∧ match outcome, step with
         | CallCompleted value p, CompleteStep _ result =>
             value = result ∧ p = provenance s ∧ fits value (call_byte_limit (ccs_kind s))
             ∧ conforms (schema_value (ccs_output_schema s)) value
         | CallFailed code p, ErrorStep _ code' => code = code' ∧ p = provenance s
         | _, _ => False
         end)
    (λ e sh, e ≠ Panic ∧ same_call s sh.1).
Proof.
  intros Hok. unfold finish. run. eapply post_mono; [by apply ensure_live_post|..].
  2: { intros e sh (He & _ & _ & [->|[-> _]]); by split. }
  intros _ ? [-> Hlive]. run. destruct (ccs_terminal s) eqn:Hterm; run; [done|].
  unfold str_eq. case_bool_decide as Hid; cbn [negb]; run; [|done].
  destruct step as [id handle permission op args|id value|id code]; run; [done| |by split_and!].
  destruct (validate_terminal_result_decides (ccs_kind s) (ccs_output_schema s) value) as [Hv Hn];
    [by apply Hok|].
  destruct (validate_terminal_result _ _ _) as [[]|e] eqn:Hr; run; [|split; [by intros ->|done]].
  destruct (proj1 Hv eq_refl) as [Hf Hc]. by split_and!.
Qed.

Definition new_session (id : HostRequestId) (call_id : string) (request : ContributionCallRequest)
    (admitted : ContributionRecord * BoundedJsonSchema * Z) : ContributionCallSession :=
  let '(record, output_schema, deadline) := admitted in
  let c := r_contribution record in
  MkSession id call_id (record_identity record) (cr_contribution_id request) (c_contract_major c)
    (c_kind c) output_schema (cr_origin request) deadline (cr_supplied_handles request) 0 false false.

Lemma begin_post I cleanup n id registry request now h :
  host_ok h → schemas_ok registry →
  post (begin I cleanup n id registry request now) h
    (λ ss h', ∃ admitted, admissible registry request now h admitted
       ∧ accepted ss.2 (new_session id (call_id_of n) request admitted) ss.1
       ∧ wh_broker_call h = None ∧ call_ok ss.1 h')
    (λ e h', e ≠ Panic ∧ host_ok h'
       ∧ (h' = h ∨ (∃ admitted, admissible registry request now h admitted)
                   ∧ (refused h h' ∨ wh_broker_call h' = None))).
Proof.
  intros Hok Hschemas. unfold begin. run.
  destruct (admit_call registry request now h) as [[[record output] deadline]|e] eqn:Ha; run.
  2: { split_and!; [|done|by left]. intros ->. by apply (admit_no_panic registry request now h). }
  apply admit_Ok in Ha as Had; [|done].
  eapply post_mono; [by apply begin_broker_call_post, host_ok_loaded|..].
  2: { intros e h' He. run. pose proof (fails_closed_ok _ _ _ Hok He) as Hok'.
       split_and!; [done|done|right; split; [by eexists|]]. destruct He as [?| ->]; [by left|by right]. }
  intros step h' Hbegun. pose proof (begun_ok _ _ _ _ _ Hok Hbegun) as Hok'.
  destruct Hbegun as [_ _ Hfree _ _ Hstep (h1 & digest & Hc & Hh1)]. rewrite Hstep.
  set (s := MkSession id _ _ _ _ _ _ _ _ _ _ _ _).
  assert (Hs : s = new_session id (call_id_of n) request (record, output, deadline)) by done.
  pose proof (accept_step_post step s) as Hpost. unfold post in Hpost.
  assert (schema_ok 8 (schema_value output)) as Hsch.
  { eapply Hschemas; [apply Had|]. right. apply Had. }
  assert (call_ok (set_progress 1 true false s) h') as Hok1.
  { split; cbn; [done|by apply Had|unfold MAX_GUEST_BROKER_STEPS; lia|done|done|].
    intros b. rewrite Hh1. unfold after_step. destruct (step_is_terminal step); cbn; [done|].
    intros [= <-]. by cbn. }
  destruct (accept_step step s) as [s' [[]|e]]; run.
  - exists (record, output, deadline). cbn [fst snd]. rewrite <-Hs. split_and!; [done|done|done|].
    destruct Hpost as [_ Hacc].
    destruct step as [id' handle permission op args|id' v|id' code]; [by destruct Hacc as [_ ->]|subst s'..];
      (eapply (call_ok_idle _ _ _ _ Hok1); [done|by rewrite Hh1|done|by right|done..]).
  - destruct Hpost as [-> He]. eapply post_mono; [by apply (cancel_own_call _ _ _ Hok1)|..];
      intros a h2 [Hh2 Hb2]; run;
      (split_and!; [done|done|right; split; [by eexists|by right]]).
Qed.

(** C14: A contribution call is admitted only for a published contribution that is
    not a skill, at the host that runs exactly the published instance, with handles
    of the right form, an input that fits and conforms to the declared schema, and a
    deadline; the session then stands for that publication, and the guest's first
    step is of this call and asks for no handle that was not supplied.  A refused
    call reports an error, does not touch the host unless it was admissible, and
    leaves nothing of its own in flight. *)
Theorem begin_correct I cleanup n id registry request now h :
  host_ok h → schemas_ok registry →
  match begin I cleanup n id registry request now h with
  | (h', Ok (s, step)) =>
      ∃ admitted, admissible registry request now h admitted
        ∧ accepted step (new_session id (call_id_of n) request admitted) s
        ∧ wh_broker_call h = None ∧ call_ok s h'
  | (h', Err e) =>
      e ≠ Panic ∧ host_ok h'
      ∧ (h' = h ∨ (∃ admitted, admissible registry request now h admitted)
                  ∧ (refused h h' ∨ wh_broker_call h' = None))
  end.
Proof.
  intros Hok Hschemas. pose proof (begin_post I cleanup n id registry request now h Hok Hschemas) as Hp.
  unfold post in Hp. by destruct (begin _ _ _ _ _ _ _ _) as [h' [[s step]|e]].
Qed.

(** C15: A call has an outcome only while its route is what it was at admission (the
    host runs the published instance, the contribution is published by it with the
    same contract) and before its deadline, and not twice; a result is reported only
    if the guest's terminal step of this call carries it, it fits the budget of its
    kind and conforms to the declared output schema; the provenance is the
    session's. *)
Theorem finish_correct cleanup registry step now s h :
  call_ok s h →
  match finish cleanup registry step now (s, h) with
  | (sh, Ok outcome) =>
      live registry now s h ∧ ccs_terminal s = false ∧ step_call_id step = ccs_call_id s
      ∧ sh = (terminated s, h)
      ∧ match outcome, step with
        | CallCompleted value p, CompleteStep _ result =>
            value = result ∧ p = provenance s ∧ fits value (call_byte_limit (ccs_kind s))
            ∧ conforms (schema_value (ccs_output_schema s)) value
        | CallFailed code p, ErrorStep _ code' => code = code' ∧ p = provenance s
        | _, _ => False
        end
  | (sh, Err e) => e ≠ Panic ∧ same_call s sh.1
  end.
Proof.
  intros Hok. pose proof (finish_post cleanup registry step now s h Hok) as Hp. unfold post in Hp.
  by destruct (finish _ _ _ _ _) as [sh [outcome|e]].
Qed.

(** ** A whole call *)

(** What a client does in one round: the registry and the clock it looks at, its
    answer to a request, and what happens meanwhile to the request in flight. *)
Record Round := MkRound {
  rd_interrupts : Interrupts;
  rd_cleanup : Interrupts;
  rd_registry : ContributionStore;
  rd_now : Z;
  rd_result : Value;
  rd_raw : Z
}.
(** Answer the guest's requests until it comes to a terminal step, then finish. *)
Fixpoint complete_call (fuel : nat) (rounds : nat → GuestStep → Round) (step : GuestStep)
    : stateful (ContributionCallSession * WasmPluginHost) call_fault (option ContributionCallOutcome) :=
  match fuel with
  | O => mret None
  | S fuel =>
      let r := rounds fuel step in
      if step_is_terminal step then
        outcome ← finish (rd_cleanup r) (rd_registry r) step (rd_now r); mret (Some outcome)
      else
        step ← resume (rd_interrupts r) (rd_cleanup r) (rd_registry r) (rd_result r) (rd_raw r) (rd_now r);
        complete_call fuel rounds step
  end.

(** The provenance of an outcome is of this call, whatever its progress. *)
Definition outcome_of s (outcome : ContributionCallOutcome) : Prop :=
  match outcome with
  | CallCompleted value p =>
      (∃ s', same_call s s' ∧ p = provenance s') ∧ 0 <= cp_broker_steps p <= MAX_GUEST_BROKER_STEPS
      ∧ fits value (call_byte_limit (ccs_kind s)) ∧ conforms (schema_value (ccs_output_schema s)) value
  | CallFailed _ p =>
      (∃ s', same_call s s' ∧ p = provenance s') ∧ 0 <= cp_broker_steps p <= MAX_GUEST_BROKER_STEPS
  end.

Lemma same_call_outcome s s' outcome : same_call s s' → outcome_of s' outcome → outcome_of s outcome.
Proof.
  intros Hs. assert (ccs_kind s' = ccs_kind s ∧ ccs_output_schema s' = ccs_output_schema s) as [Hk Ho].
  { by destruct Hs as (? & ? & ? & _ & ->). }
  destruct outcome as [value p|code p]; cbn; rewrite ?Hk, ?Ho;
    intros [(s2 & ? & ?) ?]; (split; [exists s2; split; [by eapply same_call_trans|done]|done]).
Qed.

(** The steps that are still to come. *)
Definition steps_left (step : GuestStep) s : Z :=
  if step_is_terminal step then 1 else MAX_GUEST_BROKER_STEPS - ccs_broker_steps s + 2.

Lemma complete_call_post fuel rounds step s h :
  (∀ n t, 0 <= rd_raw (rounds n t)) → call_ok s h →
  steps_left step s <= Z.of_nat fuel →
  post (complete_call fuel rounds step) (s, h)
    (λ r sh, ∃ outcome, r = Some outcome ∧ outcome_of s outcome ∧ ccs_terminal sh.1 = true)
    (λ e sh, e ≠ Panic ∧ same_call s sh.1).
Proof.
  intros Hraw. revert step s h. induction fuel as [|fuel IH]; intros step s h Hok Hfuel.
  { pose proof (co_steps _ _ Hok). unfold steps_left in Hfuel. destruct (step_is_terminal step); lia. }
  cbn [complete_call]. cbn zeta. destruct (step_is_terminal step) eqn:Ht; run.
  - eapply post_mono; [by apply finish_post|..]; [|done].
    intros outcome sh (_ & _ & _ & -> & Ho). run. exists outcome. split_and!; [done| |done].
    pose proof (co_steps _ _ Hok).
    destruct outcome as [value p|code p], step; try done; cbn;
      [destruct Ho as (-> & -> & ? & ?)|destruct Ho as (-> & ->)]; split_and!; try done; first [exists s; by split; [apply same_call_refl|]|cbn; lia].
  - eapply post_mono; [by apply resume_post|..]; [|naive_solver].
    intros step' [s' h'] (_ & _ & Hacc & Hok'). cbn in Hacc, Hok'.
    assert (same_call s s') as Hs.
    { eapply same_call_trans; [apply same_call_waiting|by eapply accepted_same_call]. }
    eapply post_mono; [apply IH; [done|]|..]; cbn beta.
    + unfold steps_left in *. rewrite Ht in Hfuel. destruct Hacc as [_ Hacc].
      pose proof (co_steps _ _ Hok). destruct step'; cbn; [|lia..].
      destruct Hacc as [_ ->]. cbn. lia.
    + intros r sh (outcome & ? & ? & ?). exists outcome. split_and!; [done|by eapply same_call_outcome|done].
    + intros e sh [? ?]. split; [done|by eapply same_call_trans].
Qed.

(** C16: A contribution call comes to an end.  Once it has begun, a client that
    answers the guest's requests and then asks for the outcome gets one, or an
    error, after at most [MAX_GUEST_BROKER_STEPS] answers, whatever the guest does and
    however the registry and the clock move meanwhile; an outcome is of this call,
    counts at most [MAX_GUEST_BROKER_STEPS] broker steps and, if it is a result, fits
    and conforms to the declared schema. *)
Theorem contribution_call_ends I cleanup n id registry request now h h1 s step rounds :
  host_ok h → schemas_ok registry → (∀ n t, 0 <= rd_raw (rounds n t)) →
  begin I cleanup n id registry request now h = (h1, Ok (s, step)) →
  match complete_call (Z.to_nat MAX_GUEST_BROKER_STEPS + 2) rounds step (s, h1) with
  | (sh, Ok (Some outcome)) => outcome_of s outcome ∧ ccs_terminal sh.1 = true
  | (_, Ok None) => False
  | (sh, Err e) => e ≠ Panic ∧ same_call s sh.1
  end.
Proof.
  intros Hok Hschemas Hraw Hbegin.
  destruct (post_Ok _ _ _ _ _ _ Hbegin (begin_post I cleanup n id registry request now h Hok Hschemas))
    as (admitted & _ & _ & _ & Hcall). cbn in Hcall.
  assert (steps_left step s <= Z.of_nat (Z.to_nat MAX_GUEST_BROKER_STEPS + 2)) as Hfuel.
  { unfold steps_left. pose proof (co_steps _ _ Hcall). unfold MAX_GUEST_BROKER_STEPS in *.
    destruct (step_is_terminal step); lia. }
  pose proof (complete_call_post _ rounds step s h1 Hraw Hcall Hfuel) as Hp. unfold post in Hp.
  destruct (complete_call _ _ _ _) as [sh [[outcome|]|e]]; naive_solver.
Qed.
End calls.
