(* ===== verification/ManifestProps.v ===== *)
(** * Properties of plugin manifests

    What a well-formed manifest is, that validation decides it, and what a valid
    manifest guarantees to the components that read it: its contributions can
    be staged, and its descriptor meets the resolver's checks except for the
    duplicates manifests do not rule out. *)
From S2P Require Import Prelude Text Errors External Ids Model Permission.
From S2P Require Import JsonSchema Contribution ContributionProps Digest Host ContributionStore Manifest.
#[local] Open Scope Z_scope.

(** ** Permission requests *)

Definition host_pattern_wf (host : string) : Prop :=
  let domain := str_bytes (default host (strip_prefix "*." host)) in
  "."%char ∈ domain ∧ head domain ≠ Some "."%char ∧ last domain ≠ Some "."%char ∧
  Forall (λ c, host_byte c = true) domain.
Definition purpose_wf (s : string) : Prop :=
  str_trim s = s ∧ s ≠ "" ∧ str_len s <= 1024 ∧
  ∀ c, c ∈ chars s → is_control c = false ∧ is_bidi_control c = false.
Definition positive_bound_wf (o : option Z) : Prop := ∃ n, o = Some n ∧ 0 < n <= 1048576.

(** The constraints each permission carries, and no others. *)
Definition permission_constraints_wf (p : PermissionRequest) : Prop :=
  (pr_name p = "project.fs.read" ∧ pr_paths p ≠ [] ∧ pr_operations p = [] ∧ pr_schemes p = [] ∧
   pr_hosts p = [] ∧ pr_methods p = [] ∧ pr_max_response_bytes p = None ∧
   (∀ path, path ∈ pr_paths p → relative_path_wf path) ∧ positive_bound_wf (pr_max_bytes p)) ∨
  (pr_name p = "workspace.r.inspect" ∧ pr_operations p ≠ [] ∧ pr_paths p = [] ∧ pr_schemes p = [] ∧
   pr_hosts p = [] ∧ pr_methods p = [] ∧ pr_max_response_bytes p = None ∧
   (∀ o, o ∈ pr_operations p → o = "metadata" ∨ o = "preview") ∧ positive_bound_wf (pr_max_bytes p)) ∨
  (pr_name p = "network.fetch" ∧ pr_schemes p ≠ [] ∧ pr_hosts p ≠ [] ∧ pr_methods p ≠ [] ∧
   pr_paths p = [] ∧ pr_operations p = [] ∧ pr_max_bytes p = None ∧
   (∀ s, s ∈ pr_schemes p → s = "https") ∧ (∀ h, h ∈ pr_hosts p → host_pattern_wf h) ∧
   (∀ m, m ∈ pr_methods p → m = "GET" ∨ m = "HEAD") ∧ positive_bound_wf (pr_max_response_bytes p)).
Definition permission_wf (p : PermissionRequest) : Prop :=
  (∀ s, pr_purpose p = Some s → purpose_wf s) ∧
  (∀ l, l ∈ [pr_paths p; pr_operations p; pr_schemes p; pr_hosts p; pr_methods p] → vec_len l <= 64) ∧
  permission_constraints_wf p.

Lemma unsafe_purpose_false s : unsafe_purpose s = false ↔ purpose_wf s.
Proof.
  unfold unsafe_purpose, purpose_wf, MAX_PERMISSION_PURPOSE_BYTES.
  rewrite !orb_false_iff, negb_false_iff, str_eq_true, str_is_empty_false, Z.ltb_ge, !existsb_False.
  naive_solver.
Qed.
Lemma positive_bound_Ok o name : validate_positive_bound o name = Ok () ↔ positive_bound_wf o.
Proof. apply validate_positive_bound_Ok. Qed.
Lemma nonempty_false {A} (l : list A) : nonempty l = false ↔ l = [].
Proof. by destruct l. Qed.
Lemma one_of_two_false (l : list string) a b :
  existsb (λ o, negb (str_eq o a || str_eq o b)) l = false ↔ ∀ o, o ∈ l → o = a ∨ o = b.
Proof.
  rewrite existsb_False. setoid_rewrite negb_false_iff. setoid_rewrite orb_true_iff.
  by setoid_rewrite str_eq_true.
Qed.

Lemma validate_permission_request_Ok p : validate_permission_request p = Ok () ↔ permission_wf p.
Proof.
  unfold validate_permission_request, permission_wf, permission_constraints_wf.
  rewrite !bind_unit_Ok_iff, fail_if_Ok, for_each_Ok, !Forall_cons, Forall_nil.
  unfold check_item_count, MAX_PERMISSION_CONSTRAINT_ITEMS. rewrite !fail_if_Ok, !Z.ltb_ge. simpl.
  assert (Hpurpose : is_some_and unsafe_purpose (pr_purpose p) = false ↔
    ∀ s, pr_purpose p = Some s → purpose_wf s).
  { destruct (pr_purpose p); simpl; [rewrite unsafe_purpose_false|]; naive_solver. }
  rewrite Hpurpose. clear Hpurpose.
  assert (Hlens : vec_len (pr_paths p) <= 64 ∧ vec_len (pr_operations p) <= 64 ∧
    vec_len (pr_schemes p) <= 64 ∧ vec_len (pr_hosts p) <= 64 ∧ vec_len (pr_methods p) <= 64 ∧ True ↔
    ∀ l, l ∈ [pr_paths p; pr_operations p; pr_schemes p; pr_hosts p; pr_methods p] → vec_len l <= 64).
  { rewrite <-Forall_forall, !Forall_cons, Forall_nil. done. }
  rewrite Hlens. clear Hlens. apply and_iff_compat_l, and_iff_compat_l.
  destruct (str_eq (pr_name p) "project.fs.read") eqn:E1; [|destruct (str_eq (pr_name p) "workspace.r.inspect") eqn:E2;
    [|destruct (str_eq (pr_name p) "network.fetch") eqn:E3]].
  - apply str_eq_true in E1. rewrite E1, !bind_unit_Ok_iff, fail_if_Ok, !orb_false_iff, !nonempty_false,
      vec_is_empty_false, is_some_false, positive_bound_Ok.
    unfold validate_relative_paths. rewrite for_each_Ok, Forall_forall.
    setoid_rewrite validate_relative_path_Ok.
    split; [intros; left; tauto|intros [?|[[? _]|[? _]]]; [tauto|discriminate..]].
  - apply str_eq_true in E2. rewrite E2, !bind_unit_Ok_iff, !fail_if_Ok, !orb_false_iff, !nonempty_false,
      vec_is_empty_false, is_some_false, positive_bound_Ok, one_of_two_false.
    split; [intros; right; left; tauto|intros [[? _]|[?|[? _]]]; [discriminate|tauto|discriminate]].
  - apply str_eq_true in E3. rewrite E3, !bind_unit_Ok_iff, !fail_if_Ok, !orb_false_iff, !nonempty_false,
      !vec_is_empty_false, is_some_false, positive_bound_Ok, one_of_two_false, existsb_False,
      for_each_Ok, Forall_forall.
    setoid_rewrite validate_host_pattern_Ok. setoid_rewrite negb_false_iff. setoid_rewrite str_eq_true.
    split; [intros; right; right; tauto|intros [[? _]|[[? _]|?]]; [discriminate..|tauto]].
  - apply str_eq_false in E1, E2, E3.
    split; [done|intros [[? _]|[[? _]|[? _]]]; done].
Qed.

(** ** Contract majors *)

(** The value of a string of decimal digits. *)
Definition digits_value (l : list ascii) : Z := foldl (λ n c, n * 10 + (code c - 48)) 0 l.
Lemma foldl_digits_mono l n :
  0 <= n → Forall (λ c, is_ascii_digit c = true) l → n <= foldl (λ n c, n * 10 + (code c - 48)) n l.
Proof.
  revert n. induction l as [|c l IH]; intros n Hn Hl; simpl; [lia|].
  apply Forall_cons in Hl as [Hc Hl]. unfold is_ascii_digit, in_range in Hc. bool_prop.
  specialize (IH (n * 10 + (code c - 48)) ltac:(lia) Hl). lia.
Qed.
Lemma parse_digits_Some acc l n :
  0 <= acc <= u64_max →
  parse_digits acc l = Some n ↔
  Forall (λ c, is_ascii_digit c = true) l ∧ n = foldl (λ n c, n * 10 + (code c - 48)) acc l ∧
  n <= u64_max.
Proof.
  revert acc. induction l as [|c l IH]; intros acc Hacc; simpl.
  - rewrite Forall_nil. naive_solver lia.
  - rewrite Forall_cons. destruct (is_ascii_digit c) eqn:Hc; [|naive_solver].
    pose proof Hc as Hr. unfold is_ascii_digit, in_range in Hr. bool_prop.
    destruct (Z.leb_spec (acc * 10 + (code c - 48)) u64_max) as [Hle|Hgt].
    + rewrite IH by lia. naive_solver.
    + split; [done|]. intros ([_ Hl] & -> & Hn).
      pose proof (foldl_digits_mono l (acc * 10 + (code c - 48)) ltac:(lia) Hl). lia.
Qed.

(** ** Manifests *)

Section manifest.
Context `{Semver, SerdeNumber}.
Implicit Types (m : WorkspacePluginManifest).

Definition contribution_provided (provides : list ManifestProvide) (c : ContributionDeclaration) : Prop :=
  ∃ p, p ∈ provides ∧ mp_capability p = cd_id c ∧ mp_contract_major p = cd_contract_major c.

Record manifest_wf m : Prop := {
  mw_version : m_schema_version m = 1 ∨ m_schema_version m = 2;
  mw_v1 : m_schema_version m = 1 → m_contributions m = [];
  mw_name : m_name m ≠ "";
  mw_api : m_api_version m ≠ "" ∧ VersionReq_parse (m_api_version m) = Ok ();
  mw_scope : as_str (rt_scope (m_runtime m)) = "project";
  mw_entry : relative_path_wf (rt_entry (m_runtime m));
  mw_provide_paths : ∀ p path, p ∈ m_provides m → mp_path p = Some path → relative_path_wf path;
  mw_skill_paths : ∀ c path, c ∈ m_contributions m → cd_skill_path c = Some path → relative_path_wf path;
  mw_lengths : vec_len (m_provides m) <= 64 ∧ vec_len (m_requires m) <= 64 ∧
    vec_len (m_optional m) <= 64 ∧ vec_len (m_permissions m) <= 64 ∧ vec_len (m_contributions m) <= 32;
  mw_permissions : (∀ p, p ∈ m_permissions m → permission_wf p) ∧ NoDup (pr_name <$> m_permissions m);
  mw_activation : (∀ e, e ∈ m_activation m → ∃ s, e = "onCapability:" +:+ s ∧ identifier_wf s) ∧
    NoDup (m_activation m);
  mw_provides : (∀ p, p ∈ m_provides m → mp_contract_major p ≠ 0) ∧ NoDup (mp_capability <$> m_provides m);
  mw_contributions : (∀ c, c ∈ m_contributions m →
      declaration_wf c ∧ contribution_provided (m_provides m) c) ∧ NoDup (cd_id <$> m_contributions m)
}.

Lemma strip_prefix_app p s t : strip_prefix p s = Some t ↔ s = p +:+ t.
Proof.
  rewrite strip_prefix_Some. split; [intros Hs|intros ->].
  - apply (inj str_bytes). by rewrite Hs, str_bytes_app.
  - by rewrite str_bytes_app.
Qed.

Lemma check_permission_Ok seen p s :
  check_permission seen p = Ok s ↔ permission_wf p ∧ pr_name p ∉ seen ∧ s = {[ pr_name p ]} ∪ seen.
Proof.
  unfold check_permission. rewrite !bind_unit_Ok_iff, fail_if_Ok, bool_decide_eq_false.
  rewrite validate_permission_request_Ok. naive_solver.
Qed.
Lemma check_activation_Ok seen e s :
  check_activation seen e = Ok s ↔
  (∃ c, e = "onCapability:" +:+ c ∧ identifier_wf c) ∧ e ∉ seen ∧ s = {[ e ]} ∪ seen.
Proof.
  unfold check_activation. rewrite bind_Ok_iff. setoid_rewrite ok_or_Ok.
  setoid_rewrite strip_prefix_app. setoid_rewrite drop_bind_Ok. setoid_rewrite bind_unit_Ok_iff.
  setoid_rewrite fail_if_Ok. setoid_rewrite bool_decide_eq_false.
  assert (Hid : ∀ c (f : ExtensionError → ExtensionError),
    is_ok (map_err f (Ident_new Capability c)) = true ↔ identifier_wf c).
  { intros c f. pose proof (Ident_new_Ok Capability c) as Hi.
    destruct (Ident_new Capability c) as [i|]; simpl.
    - split; [|done]. intros _. by destruct (proj1 (Hi i) eq_refl).
    - split; [done|]. intros Hw. discriminate (proj2 (Hi (MkIdent c)) (conj Hw eq_refl)). }
  setoid_rewrite Hid. naive_solver.
Qed.
Lemma check_provide_Ok seen p s :
  check_provide seen p = Ok s ↔
  mp_contract_major p ≠ 0 ∧ as_str (mp_capability p) ∉ seen ∧ s = {[ as_str (mp_capability p) ]} ∪ seen.
Proof.
  unfold check_provide. rewrite !bind_unit_Ok_iff, !fail_if_Ok, bool_decide_eq_false, Z.eqb_neq.
  naive_solver.
Qed.
Lemma check_contribution_Ok ps seen c s :
  check_contribution ps seen c = Ok s ↔
  (declaration_wf c ∧ matches_provide ps c = true) ∧ as_str (cd_id c) ∉ seen ∧
  s = {[ as_str (cd_id c) ]} ∪ seen.
Proof.
  unfold check_contribution. rewrite !bind_unit_Ok_iff, !fail_if_Ok, bool_decide_eq_false, negb_false_iff.
  rewrite map_err_Ok, validate_shape_Ok. naive_solver.
Qed.

Lemma NoDup_as_str {A k} (f : A → Ident k) l : NoDup ((λ a, as_str (f a)) <$> l) ↔ NoDup (f <$> l).
Proof. change ((λ a, as_str (f a)) <$> l) with ((as_str ∘ f) <$> l). by rewrite list_fmap_compose, NoDup_fmap by apply _. Qed.

(** Where capabilities are provided once, matching is membership. *)
Lemma matches_provide_true ps c :
  NoDup (mp_capability <$> ps) → matches_provide ps c = true ↔ contribution_provided ps c.
Proof.
  intros Hnd. unfold matches_provide, contribution_provided. rewrite list_filter_bool.
  set (l := filter _ ps).
  assert (Hl : ∀ p, p ∈ l ↔ p ∈ ps ∧ mp_capability p = cd_id c).
  { intros p. unfold l. rewrite list_elem_of_filter, bool_decide_eq_true. tauto. }
  assert (Hone : ∀ p q, p ∈ l → q ∈ l → NoDup (mp_capability <$> l) → p = q).
  { intros p q Hp Hq Hn. pose proof Hp as [i Hi]%list_elem_of_lookup. pose proof Hq as [j Hj]%list_elem_of_lookup.
    assert (i = j) as ->; [|congruence].
    eapply (NoDup_lookup (mp_capability <$> l)); [done|rewrite list_lookup_fmap, Hi; simpl; done|].
    rewrite list_lookup_fmap, Hj. simpl. apply Hl in Hp as [_ ->], Hq as [_ ->]. done. }
  assert (Hndl : NoDup (mp_capability <$> l)).
  { eapply sublist_NoDup; [exact Hnd|]. apply fmap_sublist, sublist_filter. }
  destruct l as [|p [|q l']].
  - split; [done|]. intros (p & Hp & Hc & _). exfalso. apply (not_elem_of_nil p), Hl. done.
  - rewrite Z.eqb_eq. split.
    + intros Hm. exists p. destruct (proj1 (Hl p) ltac:(by left)). done.
    + intros (q & Hq & Hc & Hm). assert (q ∈ [p]) as ->%list_elem_of_singleton by (by apply Hl). done.
  - exfalso. assert (p = q) as -> by (apply Hone; [by left|right; by left|done]).
    rewrite !fmap_cons in Hndl. apply NoDup_cons in Hndl as [Hn _]. apply Hn. by left.
Qed.

Lemma relative_paths_Ok {A} (f : A → option string) l :
  validate_relative_paths (omap f l) = Ok () ↔
  ∀ a path, a ∈ l → f a = Some path → relative_path_wf path.
Proof.
  unfold validate_relative_paths. rewrite for_each_Ok, Forall_forall.
  setoid_rewrite validate_relative_path_Ok. setoid_rewrite list_elem_of_omap. naive_solver.
Qed.

Lemma validate_manifest_Ok m : validate_manifest m = Ok () ↔ manifest_wf m.
Proof.
  unfold validate_manifest.
  rewrite !bind_unit_Ok_iff, !fail_if_Ok, !negb_false_iff, !drop_bind_Ok.
  rewrite (seen_loop_empty_Ok pr_name permission_wf) by apply check_permission_Ok.
  rewrite (seen_loop_empty_Ok id (λ e, ∃ c, e = "onCapability:" +:+ c ∧ identifier_wf c))
    by apply check_activation_Ok.
  rewrite (seen_loop_empty_Ok (λ p, as_str (mp_capability p)) (λ p, mp_contract_major p ≠ 0))
    by apply check_provide_Ok.
  rewrite (seen_loop_empty_Ok (λ c, as_str (cd_id c))
    (λ c, declaration_wf c ∧ matches_provide (m_provides m) c = true)) by apply check_contribution_Ok.
  rewrite !NoDup_as_str, list_fmap_id, !relative_paths_Ok, map_err_Ok, !str_is_empty_false, str_eq_true.
  unfold validate_relative_entry, validate_relative_paths. rewrite for_each_Ok, Forall_singleton,
    validate_relative_path_Ok.
  rewrite andb_true_iff, andb_false_iff, !Z.leb_le, negb_false_iff, vec_is_empty_true, Z.eqb_neq, !Z.ltb_ge.
  unfold MIN_MANIFEST_SCHEMA_VERSION, MANIFEST_SCHEMA_VERSION, MAX_MANIFEST_PROVIDES,
    MAX_MANIFEST_REQUIRES, MAX_MANIFEST_OPTIONAL, MAX_MANIFEST_PERMISSIONS, MAX_CONTRIBUTIONS_PER_PACKAGE.
  split.
  - intros (Hv & Hv1 & ? & ? & ? & ? & ? & ? & ? & ? & ? & ? & ? & ? & ? & ? & [Hmaj Hnd] & [Hcon ?] & _).
    split; try done.
    + lia.
    + tauto.
    + split; [|done]. intros c Hc. destruct (Hcon c Hc) as [? Hm]. split; [done|].
      by apply matches_provide_true in Hm.
  - intros [Hv Hv1 ? [??] ? ? ? ? (?&?&?&?&?) [??] [??] [? Hnd] [Hcon ?]].
    split_and!; try done; try lia.
    + destruct (decide (m_schema_version m = 1)); [right|left]; auto.
    + intros c Hc. destruct (Hcon c Hc) as [? Hm]. split; [done|]. by apply matches_provide_true.
Qed.

(** C25: parsing accepts exactly the manifests of at most 256 KiB that
    deserialize and are well formed: a known schema version, contributions only
    in version 2, a project scope, normalized paths, bounded lists, distinct and
    well-formed permissions, activation events and capabilities, and every
    contribution matched by one provided capability of the same major.  What it
    returns is the deserialized value. *)
Theorem parse_manifest_correct `{!SerdeManifest} (bytes : list ascii) :
  match parse_manifest bytes with
  | Ok m => vec_len bytes <= 262144 ∧ from_slice bytes = Ok m ∧ manifest_wf m
  | Err e =>
      (262144 < vec_len bytes ∧ e = ManifestTooLarge (vec_len bytes) 262144) ∨
      (vec_len bytes <= 262144 ∧ ∃ message, from_slice bytes = Err message ∧ e = ManifestParse message) ∨
      (vec_len bytes <= 262144 ∧ ∃ m, from_slice bytes = Ok m ∧ ¬ manifest_wf m ∧
         validate_manifest m = Err e)
  end.
Proof.
  unfold parse_manifest, MAX_MANIFEST_BYTES. change (256 * 1024) with 262144.
  destruct (Z.ltb_spec 262144 (vec_len bytes)); simpl; [by left|].
  destruct (from_slice bytes) as [m|message] eqn:Hs; simpl; [|naive_solver].
  pose proof (validate_manifest_Ok m) as Hm.
  destruct (validate_manifest m) as [[]|e] eqn:E; simpl; [split_and!; [lia|done|by apply Hm]|].
  right. right. split; [lia|]. exists m. split_and!; [done| |done].
  intros Hw. discriminate (proj2 Hm Hw).
Qed.

(** A valid manifest's contributions can always be staged. *)
Theorem manifest_contributions_stage (m : WorkspacePluginManifest) i :
  validate_manifest m = Ok () →
  stage i (m_contributions m) = Ok (MkCandidate i (contribution_of <$> m_contributions m)).
Proof.
  intros Hw%validate_manifest_Ok. apply stage_Ok. destruct (mw_contributions m Hw) as [Hc Hnd].
  split_and!; [apply (mw_lengths m Hw)| |done|done]. intros d Hd. by apply Hc.
Qed.

(** The requirements repeat neither among themselves nor as optional ones, which
    validation leaves open. *)
Definition requirements_distinct (m : WorkspacePluginManifest) : Prop :=
  NoDup (mr_capability <$> m_requires m) ∧ NoDup (mr_capability <$> m_optional m) ∧
  ∀ r o, r ∈ m_requires m → o ∈ m_optional m → mr_capability r ≠ mr_capability o.

(** the descriptor of a valid manifest passes the resolver's descriptor check
    exactly in the project scope and when its requirements are distinct. *)
Theorem manifest_descriptor (m : WorkspacePluginManifest) (k : ScopeKindId) :
  validate_manifest m = Ok () →
  validate_for_scope (normalize (to_descriptor m)) k = Ok () ↔
  as_str k = "project" ∧ requirements_distinct m.
Proof.
  unfold requirements_distinct.
  intros Hw%validate_manifest_Ok. rewrite validate_for_scope_normalized.
  pose proof (mw_lengths m Hw) as (Hp & Hr & Ho & _). pose proof (mw_scope m Hw) as Hs.
  pose proof (proj2 (mw_provides m Hw)) as Hnd.
  assert (Hf : ∀ l, req_capability <$> (requirement_of <$> l) = mr_capability <$> l)
    by (intros l; by rewrite <-list_fmap_compose).
  split.
  - intros [_ _ _ _ _ Hnr Hno Hdis Hk]. simpl in *. rewrite Hf in Hnr, Hno. split_and!; try done.
    + by apply list_elem_of_singleton in Hk as ->.
    + intros r o Hri Hoi. apply (Hdis (requirement_of r) (requirement_of o));
        by apply list_elem_of_fmap_2.
  - intros (Hk & Hnr & Hno & Hdis). split; simpl; rewrite ?Hf; try done.
    + unfold vec_len in *. by rewrite length_fmap.
    + unfold vec_len in *. by rewrite length_fmap.
    + unfold vec_len in *. by rewrite length_fmap.
    + apply NoDup_singleton.
    + by rewrite <-list_fmap_compose.
    + intros r o (r' & -> & Hr')%list_elem_of_fmap (o' & -> & Ho')%list_elem_of_fmap. by apply Hdis.
    + apply list_elem_of_singleton. apply (inj as_str). congruence.
Qed.
End manifest.
