(* ===== verification/Evolution.v ===== *)
(** * Capability evolution

    Model of [evolution.rs], [evaluation.rs], [builder.rs] and [gardener.rs] of
    [crates/rho-extension-runtime/src]: standing policies and their envelopes,
    the staging of candidates, sealed evaluation plans and the decision on the
    evidence, manual promotion, and the compare-and-swap of a lineage's accepted
    digest.  [serde_json]'s encoding of a plan is a parameter. *)
From S2P Require Import Prelude Text Errors External Digest Permission.
#[local] Open Scope Z_scope.

(** ** evolution.rs: policies *)

Inductive AutonomyLevel :=
| A0Off | A1Observe | A2Distill | A3Draft | A4ReviewToActivate | A5EnvelopeAutonomous.
(** The derived order is the order of the constructors. *)
Definition autonomy_rank (a : AutonomyLevel) : Z :=
  match a with
  | A0Off => 0 | A1Observe => 1 | A2Distill => 2 | A3Draft => 3 | A4ReviewToActivate => 4
  | A5EnvelopeAutonomous => 5
  end.
Definition DEFAULT_LINEAGE_AUTONOMY : AutonomyLevel := A3Draft.

Record EvolutionEnvelopes := MkEnvelopes {
  env_capability_namespaces : list string;
  env_permission_classes : list string;
  env_runtime_kinds : list string;
  env_data_classes : list string
}.
Definition subset (candidate allowed : list string) : bool :=
  forallb (λ item, existsb (λ a, str_eq a item) allowed) candidate.
Definition envelopes_contain (self candidate : EvolutionEnvelopes) : bool :=
  subset (env_capability_namespaces candidate) (env_capability_namespaces self)
  && subset (env_permission_classes candidate) (env_permission_classes self)
  && subset (env_runtime_kinds candidate) (env_runtime_kinds self)
  && subset (env_data_classes candidate) (env_data_classes self).

Inductive FailureClass :=
| InputPreconditionMismatch | PluginDefect | EnvironmentDependencyDrift | HostRuntimeDefect
| PermissionPolicyDenial | UpstreamCapabilityChange | UserCancellationOrStaleState
| SecurityViolation | UnknownFailure.
Definition is_autonomous_repair_eligible (f : FailureClass) : bool :=
  match f with PluginDefect => true | _ => false end.

Module LineageState.
Inductive t := Observing | Distilled | Executable | Deprecated | Archived.
End LineageState.
Module VersionState.
Inductive t :=
| Draft | Validating | Evaluating | Ready | Activating | Accepted | Rejected | Failed | RollbackReady.
#[global] Instance t_eq_dec : EqDecision t.
Proof. solve_decision. Defined.
End VersionState.

Inductive PolicyMatch := WithinEnvelope | RequiresTrustedReview | PolicyRejected.

Record StandingPolicy := MkPolicy {
  sp_policy_id : string;
  sp_revision : Z;
  sp_project_id : ScopeId;
  sp_lineage_id : string;
  sp_autonomy : AutonomyLevel;
  sp_envelopes : EvolutionEnvelopes;
  sp_revoked : bool
}.
Definition StandingPolicy_new (policy_id : string) (revision : Z) (project_id : ScopeId)
    (lineage_id : string) (autonomy : AutonomyLevel) (envelopes : EvolutionEnvelopes) : StandingPolicy :=
  MkPolicy policy_id revision project_id lineage_id autonomy envelopes false.
Definition policy_is_active (p : StandingPolicy) : bool := negb (sp_revoked p).
Definition autonomy_can_transition_to (p : StandingPolicy) (next : AutonomyLevel) : bool :=
  autonomy_rank next <=? autonomy_rank (sp_autonomy p).

Definition validate_candidate_against_policy (policy : StandingPolicy) (project_id : ScopeId)
    (lineage_id : string) (candidate_envelopes : EvolutionEnvelopes)
    (candidate_digest expected_parent_digest : PackageDigest) : PolicyMatch :=
  if bool_decide (candidate_digest = expected_parent_digest)
     || negb (bool_decide (sp_project_id policy = project_id))
     || negb (str_eq (sp_lineage_id policy) lineage_id) then PolicyRejected
  else if negb (policy_is_active policy) then PolicyRejected
  else if envelopes_contain (sp_envelopes policy) candidate_envelopes then WithinEnvelope
  else RequiresTrustedReview.

(** ** evaluation.rs *)

Record EvaluationPlan := MkPlan {
  ep_plan_id : string;
  ep_project_id : ScopeId;
  ep_lineage_id : string;
  ep_plugin_id : PluginId;
  ep_baseline_digest : PackageDigest;
  ep_candidate_digest : PackageDigest;
  ep_protected_fixture_set_digest : PackageDigest;
  ep_mandatory_cases : list string;
  ep_required_layers : list string;
  ep_minimum_improvement_rule : option string;
  ep_rejection_conditions : list string
}.
Record SealedEvaluationPlan := MkSealed { se_plan : EvaluationPlan; se_seal_digest : PackageDigest }.

Module EvaluationError.
Inductive t :=
| TamperedFixture | MandatoryRegressionFailed | SafetyInvariantViolated | UnsealedPlan | PlanMismatch
| LayerFailed | RejectionConditionTriggered | DuplicateEvidence | PromotionNotAccepted.
End EvaluationError.
Import EvaluationError.

Module EvaluationDecision.
Inductive t := Accept | Reject | Inconclusive.
#[global] Instance t_eq_dec : EqDecision t.
Proof. solve_decision. Defined.
End EvaluationDecision.
Import EvaluationDecision.

Definition has_duplicates (values : list string) : bool := any_reinserted id ∅ values.
Definition has_duplicates_by {T} (key : T → string) (values : list T) : bool :=
  any_reinserted key ∅ values.

(** [serde_json::to_vec] of a plan: different plans have different encodings, and
    an encoding fits in memory. *)
Class SerdePlan := {
  plan_to_vec : EvaluationPlan → result string (list ascii);
  plan_to_vec_faithful p q v : plan_to_vec p = Ok v → plan_to_vec q = Ok v → p = q;
  plan_to_vec_len p v : plan_to_vec p = Ok v → u64_len v
}.

Definition seal_tag : list ascii := str_bytes "rho-evaluation-plan-v1".
Definition seal `{Sha256, SerdePlan} (p : EvaluationPlan)
    : result EvaluationError.t SealedEvaluationPlan :=
  _ ← fail_if (str_is_empty (ep_plan_id p)
               || bool_decide (ep_baseline_digest p = ep_candidate_digest p)
               || vec_is_empty (ep_mandatory_cases p) || vec_is_empty (ep_required_layers p)
               || vec_is_empty (ep_rejection_conditions p)
               || has_duplicates (ep_mandatory_cases p) || has_duplicates (ep_required_layers p)
               || has_duplicates (ep_rejection_conditions p)) UnsealedPlan;
  encoded ← map_err (λ _, UnsealedPlan) (plan_to_vec p);
  Ok (MkSealed p (from_inventory [(seal_tag, encoded)])).

Record LayerResult := MkLayer { lr_layer : string; lr_passed : bool; lr_notes : list string }.
Record CaseResult := MkCase { cr_case_id : string; cr_passed : bool; cr_observation : string }.
Record EvaluationEvidence := MkEvidence {
  ev_evidence_id : string;
  ev_plan_id : string;
  ev_plan_seal_digest : PackageDigest;
  ev_candidate_digest : PackageDigest;
  ev_layers : list LayerResult;
  ev_cases : list CaseResult;
  ev_triggered : list string;
  ev_safety_invariants_held : bool;
  ev_claimed_improvement_met : bool
}.

Definition check_case (e : EvaluationEvidence) (case_id : string) : result EvaluationError.t () :=
  result ← ok_or (List.find (λ c, str_eq (cr_case_id c) case_id) (ev_cases e)) TamperedFixture;
  fail_if (negb (cr_passed result)) MandatoryRegressionFailed.
Definition check_layer (e : EvaluationEvidence) (layer_id : string) : result EvaluationError.t () :=
  result ← ok_or (List.find (λ l, str_eq (lr_layer l) layer_id) (ev_layers e)) TamperedFixture;
  fail_if (negb (lr_passed result)) LayerFailed.

Definition evidence_decide (e : EvaluationEvidence) (sealed_plan : SealedEvaluationPlan)
    : result EvaluationError.t EvaluationDecision.t :=
  let plan := se_plan sealed_plan in
  _ ← fail_if (negb (str_eq (ev_plan_id e) (ep_plan_id plan))
               || negb (bool_decide (ev_plan_seal_digest e = se_seal_digest sealed_plan))
               || negb (bool_decide (ev_candidate_digest e = ep_candidate_digest plan))) PlanMismatch;
  _ ← fail_if (has_duplicates_by cr_case_id (ev_cases e) || has_duplicates_by lr_layer (ev_layers e)
               || has_duplicates (ev_triggered e)) DuplicateEvidence;
  _ ← for_each (check_case e) (ep_mandatory_cases plan);
  _ ← for_each (check_layer e) (ep_required_layers plan);
  _ ← fail_if (existsb (λ layer, negb (lr_passed layer)) (ev_layers e)) LayerFailed;
  _ ← for_each (λ condition,
        fail_if (negb (existsb (λ c, str_eq c condition) (ep_rejection_conditions plan)))
          TamperedFixture) (ev_triggered e);
  _ ← fail_if (negb (vec_is_empty (ev_triggered e))) RejectionConditionTriggered;
  _ ← fail_if (negb (ev_safety_invariants_held e)) SafetyInvariantViolated;
  if is_some (ep_minimum_improvement_rule plan) && negb (ev_claimed_improvement_met e)
  then Ok Inconclusive else Ok Accept.

Record ManualPromotion := MkPromotion {
  mp_candidate_digest : PackageDigest;
  mp_parent_digest : PackageDigest;
  mp_rollback_digest : PackageDigest;
  mp_evidence_id : string;
  mp_plan_seal_digest : PackageDigest;
  mp_project_id : ScopeId;
  mp_lineage_id : string;
  mp_plugin_id : PluginId
}.
Definition authorize (e : EvaluationEvidence) (sealed_plan : SealedEvaluationPlan)
    (parent_digest rollback_digest : PackageDigest) : result EvaluationError.t ManualPromotion :=
  let plan := se_plan sealed_plan in
  decision ← evidence_decide e sealed_plan;
  _ ← fail_if (negb (bool_decide (decision = Accept))
               || negb (bool_decide (parent_digest = ep_baseline_digest plan))
               || negb (bool_decide (rollback_digest = ep_baseline_digest plan))) PromotionNotAccepted;
  Ok (MkPromotion (ep_candidate_digest plan) parent_digest rollback_digest (ev_evidence_id e)
        (se_seal_digest sealed_plan) (ep_project_id plan) (ep_lineage_id plan) (ep_plugin_id plan)).

(** ** evolution.rs: lineages *)

Record LineageVersion := MkVersion {
  lv_package_digest : PackageDigest;
  lv_parent_digest : PackageDigest;
  lv_state : VersionState.t
}.
Record PluginLineage := MkLineage {
  pl_lineage_id : string;
  pl_project_id : ScopeId;
  pl_plugin_id : PluginId;
  pl_accepted_digest : option PackageDigest;
  pl_rollback_digest : option PackageDigest;
  pl_state : LineageState.t;
  pl_versions : list LineageVersion;
  pl_parent_lineage_ids : list string
}.
Definition PluginLineage_new (lineage_id : string) (project_id : ScopeId) (plugin_id : PluginId)
    (accepted_digest : option PackageDigest) : PluginLineage :=
  MkLineage lineage_id project_id plugin_id accepted_digest None LineageState.Distilled [] [].

Definition try_publish (l : PluginLineage) (expected_old : PackageDigest) (promotion : ManualPromotion)
    : PluginLineage * bool :=
  if negb (bool_decide (pl_accepted_digest l = Some expected_old))
     || negb (bool_decide (mp_parent_digest promotion = expected_old))
     || negb (bool_decide (mp_rollback_digest promotion = expected_old))
     || negb (bool_decide (mp_project_id promotion = pl_project_id l))
     || negb (str_eq (mp_lineage_id promotion) (pl_lineage_id l))
     || negb (bool_decide (mp_plugin_id promotion = pl_plugin_id l))
     || bool_decide (mp_candidate_digest promotion = expected_old)
  then (l, false)
  else
    (MkLineage (pl_lineage_id l) (pl_project_id l) (pl_plugin_id l)
       (Some (mp_candidate_digest promotion)) (pl_accepted_digest l) (pl_state l) (pl_versions l)
       (pl_parent_lineage_ids l), true).

(** ** builder.rs *)

Definition MAX_PACKAGE_FILES : Z := 4096.

Record CandidateProfile := MkProfile {
  cp_candidate_id : string;
  cp_project_id : ScopeId;
  cp_lineage_id : string;
  cp_plugin_id : PluginId;
  cp_package_digest : PackageDigest;
  cp_parent_digest : PackageDigest;
  cp_autonomy : AutonomyLevel
}.
Record BuildProvenance := MkProvenance {
  bp_source_digest : PackageDigest;
  bp_manifest_digest : PackageDigest;
  bp_dependency_lock_digest : PackageDigest;
  bp_build_input_digest : PackageDigest;
  bp_builder_identity_class : string;
  bp_tool_versions : list string;
  bp_generated_file_inventory : list string
}.
Inductive StaticValidation := ValidationPass | ValidationFail (reasons : list string).
Record StagedCandidate := MkStaged {
  sc_profile : CandidateProfile;
  sc_provenance : BuildProvenance;
  sc_static_validation : StaticValidation
}.
Module BuilderError.
Inductive t := EnvelopeWidened | AuthorityEscape | AutonomyTooHigh | NoopCandidate | InvalidProvenance.
End BuilderError.
Import BuilderError.

(** [BTreeMap<(ScopeId, String), StagedCandidate>]. *)
Record StagingLedger := MkLedger { ledger_candidates : gmap (ScopeId * string) StagedCandidate }.
Definition StagingLedger_new : StagingLedger := MkLedger ∅.

Definition valid_staged_path (path : string) : bool :=
  negb (str_is_empty path) && (str_len path <=? MAX_RELATIVE_PATH_BYTES)
  && negb (starts_with_char "/" path) && negb (starts_with_char "\" path)
  && negb (str_contains ":" path)
  && negb (existsb (λ component, str_is_empty component || str_eq component "." || str_eq component "..")
             (str_split is_separator path)).

Definition invalid_provenance (c : StagedCandidate) : bool :=
  let profile := sc_profile c in
  let provenance := sc_provenance c in
  str_is_empty (cp_candidate_id profile) || str_is_empty (cp_lineage_id profile)
  || str_is_empty (bp_builder_identity_class provenance) || vec_is_empty (bp_tool_versions provenance)
  || vec_is_empty (bp_generated_file_inventory provenance)
  || (MAX_PACKAGE_FILES <? vec_len (bp_generated_file_inventory provenance))
  || existsb (λ path, negb (valid_staged_path path)) (bp_generated_file_inventory provenance).

Definition staging_key (c : StagedCandidate) : ScopeId * string :=
  (cp_project_id (sc_profile c), cp_candidate_id (sc_profile c)).

Definition stage_candidate (l : StagingLedger) (policy : StandingPolicy)
    (candidate_envelopes : EvolutionEnvelopes) (c : StagedCandidate)
    : StagingLedger * result BuilderError.t () :=
  let profile := sc_profile c in
  if negb (policy_is_active policy)
     || negb (bool_decide (sp_project_id policy = cp_project_id profile))
     || negb (str_eq (sp_lineage_id policy) (cp_lineage_id profile)) then (l, Err AuthorityEscape)
  else if negb (envelopes_contain (sp_envelopes policy) candidate_envelopes) then (l, Err EnvelopeWidened)
  else if (autonomy_rank A3Draft <? autonomy_rank (cp_autonomy profile))
          || (autonomy_rank (sp_autonomy policy) <? autonomy_rank (cp_autonomy profile)) then
    (l, Err AutonomyTooHigh)
  else if bool_decide (cp_package_digest profile = cp_parent_digest profile) then (l, Err NoopCandidate)
  else if invalid_provenance c then (l, Err InvalidProvenance)
  else if is_some (ledger_candidates l !! staging_key c) then (l, Err InvalidProvenance)
  else (MkLedger (<[staging_key c := c]> (ledger_candidates l)), Ok ()).

Definition discard (l : StagingLedger) (project_id : ScopeId) (candidate_id : string)
    : StagingLedger * bool :=
  (MkLedger (delete (project_id, candidate_id) (ledger_candidates l)),
   is_some (ledger_candidates l !! (project_id, candidate_id))).
Definition get_candidate (l : StagingLedger) (project_id : ScopeId) (candidate_id : string)
    : option StagedCandidate := ledger_candidates l !! (project_id, candidate_id).
Definition project_candidates (l : StagingLedger) (project_id : ScopeId) : list StagedCandidate :=
  omap (λ k : ScopeId * string,
          if bool_decide (k.1 = project_id) then ledger_candidates l !! k else None)
    (sorted_keys (ledger_candidates l)).

Definition candidate_within_envelope (policy : StandingPolicy) (project_id : ScopeId)
    (lineage_id : string) (candidate_envelopes : EvolutionEnvelopes) : bool :=
  policy_is_active policy && bool_decide (sp_project_id policy = project_id)
  && str_eq (sp_lineage_id policy) lineage_id
  && envelopes_contain (sp_envelopes policy) candidate_envelopes.

(** ** gardener.rs *)

Record RepairCandidate := MkRepair {
  rc_candidate_id : string;
  rc_lineage_id : string;
  rc_parent_digest : PackageDigest;
  rc_candidate_digest : PackageDigest
}.
Definition repair_eligibility (failure : FailureClass) : bool := is_autonomous_repair_eligible failure.
Definition repair_parent_must_match (l : PluginLineage) (c : RepairCandidate) : bool :=
  str_eq (pl_lineage_id l) (rc_lineage_id c)
  && bool_decide (pl_accepted_digest l = Some (rc_parent_digest c))
  && negb (bool_decide (rc_candidate_digest c = rc_parent_digest c)).

Definition autonomous_activation_allowed (policy : StandingPolicy) (l : PluginLineage)
    (candidate_envelopes : EvolutionEnvelopes) (candidate_digest parent_digest : PackageDigest)
    (evaluation_decision : EvaluationDecision.t) : bool :=
  if negb (policy_is_active policy) then false
  else if autonomy_rank (sp_autonomy policy) <? autonomy_rank A5EnvelopeAutonomous then false
  else if negb (bool_decide (evaluation_decision = Accept))
          || negb (bool_decide (sp_project_id policy = pl_project_id l))
          || negb (str_eq (sp_lineage_id policy) (pl_lineage_id l))
          || negb (bool_decide (pl_accepted_digest l = Some parent_digest)) then false
  else match validate_candidate_against_policy policy (pl_project_id l) (pl_lineage_id l)
               candidate_envelopes candidate_digest parent_digest with
       | WithinEnvelope => true
       | _ => false
       end.

Definition merge_must_not_widen_permissions (merged : EvolutionEnvelopes)
    (parents : list EvolutionEnvelopes) : bool :=
  negb (vec_is_empty parents)
  && forallb (λ class, forallb (λ parent, existsb (λ c, str_eq c class) (env_permission_classes parent))
                         parents) (env_permission_classes merged).

Definition accepted_digest_is_preserved (l : PluginLineage) (previous_accepted : PackageDigest)
    (version_state : VersionState.t) : bool :=
  bool_decide (pl_accepted_digest l = Some previous_accepted)
  || (bool_decide (version_state = VersionState.Accepted)
      && bool_decide (pl_rollback_digest l = Some previous_accepted)).
