(* ===== verification/EvolutionProps.v ===== *)
(** * Properties of capability evolution

    The decision on evidence, what a seal binds, the history of a lineage's
    accepted digest, the staging ledger and the bound a standing policy puts on
    autonomous activation. *)
From S2P Require Import Prelude Text Errors External Digest Permission Evolution.
#[local] Open Scope Z_scope.
Import EvaluationError EvaluationDecision BuilderError.

(** ** Envelopes *)

Definition within_envelopes (inner outer : EvolutionEnvelopes) : Prop :=
  env_capability_namespaces inner ⊆ env_capability_namespaces outer ∧
  env_permission_classes inner ⊆ env_permission_classes outer ∧
  env_runtime_kinds inner ⊆ env_runtime_kinds outer ∧
  env_data_classes inner ⊆ env_data_classes outer.

Lemma str_mem_true s l : existsb (λ a, str_eq a s) l = true ↔ s ∈ l.
Proof. rewrite existsb_True. setoid_rewrite str_eq_true. naive_solver. Qed.
Lemma subset_true l k : subset l k = true ↔ l ⊆ k.
Proof. unfold subset. rewrite forallb_True. by setoid_rewrite str_mem_true. Qed.
Lemma envelopes_contain_true outer inner :
  envelopes_contain outer inner = true ↔ within_envelopes inner outer.
Proof. unfold envelopes_contain, within_envelopes. rewrite !andb_true_iff, !subset_true. tauto. Qed.
#[global] Instance within_envelopes_preorder : PreOrder within_envelopes.
Proof.
  split; [intros e; by split_and!|]. intros e f g (?&?&?&?) (?&?&?&?). split_and!; etrans; eauto.
Qed.

(** ** Evaluation *)

Section evaluation.
Implicit Types (e : EvaluationEvidence) (p : EvaluationPlan) (sp : SealedEvaluationPlan).

(** The conditions the hard gates put on the evidence. *)
Definition bound_to_plan e sp : Prop :=
  ev_plan_id e = ep_plan_id (se_plan sp) ∧ ev_plan_seal_digest e = se_seal_digest sp ∧
  ev_candidate_digest e = ep_candidate_digest (se_plan sp).
Definition unambiguous e : Prop :=
  NoDup (cr_case_id <$> ev_cases e) ∧ NoDup (lr_layer <$> ev_layers e) ∧ NoDup (ev_triggered e).
Definition gates_pass e p : Prop :=
  (∀ id, id ∈ ep_mandatory_cases p → ∃ r, r ∈ ev_cases e ∧ cr_case_id r = id ∧ cr_passed r = true) ∧
  (∀ id, id ∈ ep_required_layers p → ∃ r, r ∈ ev_layers e ∧ lr_layer r = id) ∧
  (∀ r, r ∈ ev_layers e → lr_passed r = true) ∧
  ev_triggered e = [] ∧ ev_safety_invariants_held e = true.
Definition improvement_shown e p : Prop :=
  ep_minimum_improvement_rule p ≠ None → ev_claimed_improvement_met e = true.

Lemma has_duplicates_false l : has_duplicates l = false ↔ NoDup l.
Proof.
  unfold has_duplicates. rewrite any_reinserted_false, list_fmap_id. set_solver.
Qed.
Lemma has_duplicates_by_false {T} (key : T → string) l :
  has_duplicates_by key l = false ↔ NoDup (key <$> l).
Proof. unfold has_duplicates_by. rewrite any_reinserted_false. set_solver. Qed.

(** With distinct keys, the first match is the only one. *)
Lemma find_key {T} (key : T → string) (l : list T) s x :
  NoDup (key <$> l) →
  List.find (λ y, str_eq (key y) s) l = Some x ↔ x ∈ l ∧ key x = s.
Proof.
  intros Hnd. split.
  - intros Hf. by apply find_Some_iff in Hf as [? ?%str_eq_true].
  - intros [Hx Hk]. induction l as [|y l IH]; [by apply not_elem_of_nil in Hx|]. simpl.
    apply NoDup_cons in Hnd as [Hy Hnd]. destruct (str_eq (key y) s) eqn:E.
    + apply str_eq_true in E. apply elem_of_cons in Hx as [->|Hx]; [done|].
      exfalso. apply Hy. rewrite E, <-Hk. by apply list_elem_of_fmap_2.
    + apply elem_of_cons in Hx as [->|Hx]; [by apply str_eq_false in E|auto].
Qed.

Lemma check_case_Ok e id :
  NoDup (cr_case_id <$> ev_cases e) →
  check_case e id = Ok () ↔ ∃ r, r ∈ ev_cases e ∧ cr_case_id r = id ∧ cr_passed r = true.
Proof.
  intros Hnd. unfold check_case. rewrite bind_Ok_iff. setoid_rewrite ok_or_Ok.
  setoid_rewrite (find_key cr_case_id _ _ _ Hnd). setoid_rewrite fail_if_Ok.
  setoid_rewrite negb_false_iff. naive_solver.
Qed.
Lemma check_layer_Ok e id :
  NoDup (lr_layer <$> ev_layers e) →
  check_layer e id = Ok () ↔ ∃ r, r ∈ ev_layers e ∧ lr_layer r = id ∧ lr_passed r = true.
Proof.
  intros Hnd. unfold check_layer. rewrite bind_Ok_iff. setoid_rewrite ok_or_Ok.
  setoid_rewrite (find_key lr_layer _ _ _ Hnd). setoid_rewrite fail_if_Ok.
  setoid_rewrite negb_false_iff. naive_solver.
Qed.

Lemma bound_guard e sp :
  negb (str_eq (ev_plan_id e) (ep_plan_id (se_plan sp)))
  || negb (bool_decide (ev_plan_seal_digest e = se_seal_digest sp))
  || negb (bool_decide (ev_candidate_digest e = ep_candidate_digest (se_plan sp))) = false ↔
  bound_to_plan e sp.
Proof.
  unfold bound_to_plan. rewrite !orb_false_iff, !negb_false_iff, str_eq_true, !bool_decide_eq_true. tauto.
Qed.
Lemma unambiguous_guard e :
  has_duplicates_by cr_case_id (ev_cases e) || has_duplicates_by lr_layer (ev_layers e)
  || has_duplicates (ev_triggered e) = false ↔ unambiguous e.
Proof.
  unfold unambiguous. rewrite !orb_false_iff, has_duplicates_false, !has_duplicates_by_false. tauto.
Qed.

Lemma improvement_guard e p d :
  (if is_some (ep_minimum_improvement_rule p) && negb (ev_claimed_improvement_met e)
   then Ok Inconclusive else Ok Accept) = Ok (E:=EvaluationError.t) d ↔
  (improvement_shown e p ∧ d = Accept) ∨ (¬ improvement_shown e p ∧ d = Inconclusive).
Proof.
  unfold improvement_shown.
  destruct (ep_minimum_improvement_rule _), (ev_claimed_improvement_met e); simpl; naive_solver.
Qed.

Lemma evidence_decide_Ok e sp d :
  evidence_decide e sp = Ok d ↔
  bound_to_plan e sp ∧ unambiguous e ∧ gates_pass e (se_plan sp) ∧
  ((improvement_shown e (se_plan sp) ∧ d = Accept) ∨
   (¬ improvement_shown e (se_plan sp) ∧ d = Inconclusive)).
Proof.
  unfold evidence_decide. rewrite !bind_unit_Ok_iff, !fail_if_Ok, bound_guard, unambiguous_guard,
    !negb_false_iff, vec_is_empty_true, existsb_False, !for_each_Ok, !Forall_forall, improvement_guard.
  setoid_rewrite fail_if_Ok. setoid_rewrite negb_false_iff. setoid_rewrite str_mem_true.
  unfold gates_pass. split.
  - intros (? & Hu & Hcases & Hlayers & Hall & _ & Ht & ? & ?). pose proof Hu as (Hc & Hl & _).
    split_and!; try done.
    + intros id Hid. by apply check_case_Ok, Hcases.
    + intros id Hid. destruct (proj1 (check_layer_Ok e id Hl) (Hlayers id Hid)) as (r & ? & ? & _). eauto.
  - intros (? & Hu & (Hcases & Hlayers & Hall & Ht & ?) & ?). pose proof Hu as (Hc & Hl & _).
    split_and!; try done.
    + intros id Hid. by apply check_case_Ok; [|apply Hcases].
    + intros id Hid. apply check_layer_Ok; [done|]. destruct (Hlayers id Hid) as (r & ? & ?). eauto.
    + rewrite Ht. intros ? ?%not_elem_of_nil. done.
Qed.
Lemma evidence_decide_total e sp :
  bound_to_plan e sp → unambiguous e → gates_pass e (se_plan sp) → ∃ d, evidence_decide e sp = Ok d.
Proof.
  intros Hb Hu Hg. setoid_rewrite evidence_decide_Ok. unfold improvement_shown.
  destruct (ep_minimum_improvement_rule (se_plan sp)), (ev_claimed_improvement_met e); naive_solver.
Qed.
(** The errors of the gates. *)
Lemma check_case_Err e id err :
  check_case e id = Err err → err = TamperedFixture ∨ err = MandatoryRegressionFailed.
Proof. unfold check_case. destruct (List.find _ _); simpl; [destruct (cr_passed c)|]; naive_solver. Qed.
Lemma check_layer_Err e id err : check_layer e id = Err err → err = TamperedFixture ∨ err = LayerFailed.
Proof. unfold check_layer. destruct (List.find _ _); simpl; [destruct (lr_passed l)|]; naive_solver. Qed.
Lemma gate_errors e sp err :
  evidence_decide e sp = Err err → bound_to_plan e sp → unambiguous e →
  err ≠ PlanMismatch ∧ err ≠ DuplicateEvidence.
Proof.
  unfold evidence_decide. intros E Hb%bound_guard Hu%unambiguous_guard. rewrite Hb, Hu in E.
  rewrite !bind_fail_if_false in E.
  apply bind_Err_iff in E as [(? & _ & [->| ->]%check_case_Err)%for_each_Err|(_ & _ & E)]; [done..|].
  apply bind_Err_iff in E as [(? & _ & [->| ->]%check_layer_Err)%for_each_Err|(_ & _ & E)]; [done..|].
  apply bind_Err_iff in E as [[_ <-]%fail_if_Err|(_ & _ & E)]; [done|].
  apply bind_Err_iff in E as [(? & _ & [_ <-]%fail_if_Err)%for_each_Err|(_ & _ & E)]; [done|].
  result_err E; [done..|]. destruct (is_some _ && _); done.
Qed.

End evaluation.

(** ** Seals *)

Section seals.
Context `{Sha256, SerdePlan}.
Implicit Types (e : EvaluationEvidence) (p q : EvaluationPlan) (sp : SealedEvaluationPlan).

Definition plan_wf p : Prop :=
  ep_plan_id p ≠ "" ∧ ep_baseline_digest p ≠ ep_candidate_digest p ∧
  ep_mandatory_cases p ≠ [] ∧ ep_required_layers p ≠ [] ∧ ep_rejection_conditions p ≠ [] ∧
  NoDup (ep_mandatory_cases p) ∧ NoDup (ep_required_layers p) ∧ NoDup (ep_rejection_conditions p).

Lemma seal_Ok p sp :
  seal p = Ok sp ↔ plan_wf p ∧ ∃ v, plan_to_vec p = Ok v ∧ sp = MkSealed p (from_inventory [(seal_tag, v)]).
Proof.
  unfold seal, plan_wf, str_is_empty.
  rewrite bind_unit_Ok_iff, fail_if_Ok, !orb_false_iff, !bool_decide_eq_false, !vec_is_empty_false,
    !has_duplicates_false, bind_Ok_iff.
  setoid_rewrite map_err_Ok. split; [intros (? & v & ? & [= <-])|intros (? & v & ? & ->)]; split;
    try tauto; by exists v.
Qed.


(** ** Lineages *)

(** An accepted evaluation that leads from one digest to another. *)
Definition promoted (project : ScopeId) (lineage : string) (plugin : PluginId) (a b : PackageDigest) : Prop :=
  ∃ p sp e, seal p = Ok sp ∧ evidence_decide e sp = Ok Accept ∧
    ep_project_id p = project ∧ ep_lineage_id p = lineage ∧ ep_plugin_id p = plugin ∧
    ep_baseline_digest p = a ∧ ep_candidate_digest p = b ∧ a ≠ b.
(** A promotion as [authorize] makes them. *)
Definition authorized (m : ManualPromotion) : Prop :=
  ∃ p sp e parent rollback, seal p = Ok sp ∧ authorize e sp parent rollback = Ok m.

Lemma authorize_Ok e sp parent rollback m :
  authorize e sp parent rollback = Ok m ↔
  evidence_decide e sp = Ok Accept ∧ parent = ep_baseline_digest (se_plan sp) ∧
  rollback = ep_baseline_digest (se_plan sp) ∧
  m = MkPromotion (ep_candidate_digest (se_plan sp)) parent rollback (ev_evidence_id e)
        (se_seal_digest sp) (ep_project_id (se_plan sp)) (ep_lineage_id (se_plan sp))
        (ep_plugin_id (se_plan sp)).
Proof.
  unfold authorize. rewrite bind_Ok_iff. setoid_rewrite bind_unit_Ok_iff. setoid_rewrite fail_if_Ok.
  setoid_rewrite orb_false_iff. setoid_rewrite orb_false_iff. setoid_rewrite negb_false_iff.
  setoid_rewrite bool_decide_eq_true. naive_solver.
Qed.
Lemma authorized_promoted m :
  authorized m →
  promoted (mp_project_id m) (mp_lineage_id m) (mp_plugin_id m) (mp_parent_digest m) (mp_candidate_digest m).
Proof.
  intros (p & sp & e & parent & rollback & Hs & (Hd & -> & -> & ->)%authorize_Ok).
  pose proof Hs as (Hw & v & _ & ->)%seal_Ok. exists p, (MkSealed p (from_inventory [(seal_tag, v)])), e. simpl.
  split_and!; try done. apply Hw.
Qed.

Lemma try_publish_true l old m l' :
  try_publish l old m = (l', true) →
  pl_accepted_digest l = Some old ∧ mp_parent_digest m = old ∧ mp_project_id m = pl_project_id l ∧
  mp_lineage_id m = pl_lineage_id l ∧ mp_plugin_id m = pl_plugin_id l ∧ mp_candidate_digest m ≠ old ∧
  pl_accepted_digest l' = Some (mp_candidate_digest m) ∧ pl_rollback_digest l' = Some old ∧
  pl_project_id l' = pl_project_id l ∧ pl_lineage_id l' = pl_lineage_id l ∧
  pl_plugin_id l' = pl_plugin_id l.
Proof.
  unfold try_publish. destruct (_ || bool_decide (mp_candidate_digest m = old)) eqn:E; [done|].
  intros [= <-]. rewrite !orb_false_iff, !negb_false_iff, !bool_decide_eq_true, str_eq_true,
    bool_decide_eq_false in E. simpl. naive_solver.
Qed.
Lemma try_publish_false l old m l' : try_publish l old m = (l', false) → l' = l.
Proof. unfold try_publish. destruct (_ || _); congruence. Qed.

Definition run_publish (l : PluginLineage) (attempt : PackageDigest * ManualPromotion) : PluginLineage :=
  (try_publish l attempt.1 attempt.2).1.

(** C27: the accepted digest of a lineage only moves along accepted evaluations:
    after any attempts to publish authorized promotions, there is a chain of
    promotions of this project, lineage and plugin from the first accepted
    digest to the current one, and the rollback digest is the one just before
    it on that chain. *)
Theorem lineage_history lineage project plugin d0 (attempts : list (PackageDigest * ManualPromotion)) :
  Forall (λ a, authorized a.2) attempts →
  let l := foldl run_publish (PluginLineage_new lineage project plugin (Some d0)) attempts in
  ∃ d, pl_accepted_digest l = Some d ∧ rtc (promoted project lineage plugin) d0 d ∧
    match pl_rollback_digest l with
    | None => d = d0
    | Some r => rtc (promoted project lineage plugin) d0 r ∧ promoted project lineage plugin r d
    end.
Proof.
  intros Hall. cbn zeta.
  set (Inv l := pl_project_id l = project ∧ pl_lineage_id l = lineage ∧ pl_plugin_id l = plugin ∧
    ∃ d, pl_accepted_digest l = Some d ∧ rtc (promoted project lineage plugin) d0 d ∧
      match pl_rollback_digest l with
      | None => d = d0
      | Some r => rtc (promoted project lineage plugin) d0 r ∧ promoted project lineage plugin r d
      end).
  enough (Hinv : Inv (foldl run_publish (PluginLineage_new lineage project plugin (Some d0)) attempts))
    by apply Hinv.
  assert (Hinit : Inv (PluginLineage_new lineage project plugin (Some d0)))
    by (split_and!; [done..|]; exists d0; split_and!; done).
  revert Hinit. generalize (PluginLineage_new lineage project plugin (Some d0)).
  induction Hall as [|[old m] attempts Hm _ IH]; intros l Hl; [done|]. simpl. apply IH.
  unfold run_publish. simpl. destruct (try_publish l old m) as [l' []] eqn:E; simpl;
    [|by apply try_publish_false in E as ->].
  apply try_publish_true in E as (Ha & Hp & Hproj & Hlin & Hplug & _ & Ha' & Hr' & Hproj' & Hlin' & Hplug').
  destruct Hl as (<- & <- & <- & d & Hd & Hrtc & _). rewrite Ha in Hd. injection Hd as <-.
  apply authorized_promoted in Hm. simpl in Hm. rewrite Hproj, Hlin, Hplug, Hp in Hm.
  split_and!; [done..|]. exists (mp_candidate_digest m). rewrite Hr'. split_and!; [done| |done|done].
  by eapply rtc_r.
Qed.
End seals.

(** ** Standing policies *)

(** autonomous activation is allowed exactly under an active policy of the
    lineage's project at the highest autonomy level, for an accepted evaluation
    of a candidate that differs from its parent, whose parent is the accepted
    digest, and whose envelopes lie within the policy's. *)
Theorem autonomous_activation_bound policy l env candidate parent decision :
  autonomous_activation_allowed policy l env candidate parent decision = true ↔
  sp_revoked policy = false ∧ sp_autonomy policy = A5EnvelopeAutonomous ∧ decision = Accept ∧
  sp_project_id policy = pl_project_id l ∧ sp_lineage_id policy = pl_lineage_id l ∧
  pl_accepted_digest l = Some parent ∧ candidate ≠ parent ∧ within_envelopes env (sp_envelopes policy).
Proof.
  rewrite <-envelopes_contain_true.
  unfold autonomous_activation_allowed, validate_candidate_against_policy, policy_is_active.
  destruct (sp_revoked policy); simpl; [naive_solver|].
  assert (Ha : autonomy_rank (sp_autonomy policy) <? 5 = false ↔ sp_autonomy policy = A5EnvelopeAutonomous)
    by by destruct (sp_autonomy policy).
  destruct (autonomy_rank (sp_autonomy policy) <? 5); [naive_solver|].
  destruct (decide (decision = Accept)) as [->|]; [|rewrite bool_decide_false by done; simpl; naive_solver].
  destruct (decide (sp_project_id policy = pl_project_id l)) as [Hp|]; simpl;
    [rewrite (bool_decide_true _ Hp)|rewrite bool_decide_false by done; simpl; naive_solver].
  destruct (str_eq (sp_lineage_id policy) (pl_lineage_id l)) eqn:Hl; simpl;
    [|apply str_eq_false in Hl; naive_solver].
  apply str_eq_true in Hl.
  destruct (decide (pl_accepted_digest l = Some parent)) as [Hacc|]; simpl;
    [rewrite (bool_decide_true _ Hacc)|rewrite bool_decide_false by done; simpl; naive_solver].
  destruct (decide (candidate = parent)) as [->|Hc]; simpl;
    [rewrite bool_decide_true by done; simpl; naive_solver|rewrite bool_decide_false by done; simpl].
  destruct (envelopes_contain _ _); naive_solver.
Qed.

(** A merge keeps to the permissions every parent has. *)
Lemma merge_narrows merged parents :
  merge_must_not_widen_permissions merged parents = true ↔
  parents ≠ [] ∧ ∀ parent, parent ∈ parents → env_permission_classes merged ⊆ env_permission_classes parent.
Proof.
  unfold merge_must_not_widen_permissions.
  rewrite andb_true_iff, negb_true_iff, vec_is_empty_false, forallb_True.
  setoid_rewrite forallb_True. setoid_rewrite str_mem_true. set_solver.
Qed.

(** ** The staging ledger *)

Definition staged_path_wf (path : string) : Prop :=
  0 < str_len path <= 1024 ∧ ":"%char ∉ str_bytes path ∧
  ∀ k, k ∈ split_bytes is_separator (str_bytes path) → k ≠ [] ∧ k ≠ ["."%char] ∧ k ≠ ["."; "."]%char.
Definition provenance_wf (c : StagedCandidate) : Prop :=
  cp_candidate_id (sc_profile c) ≠ "" ∧ cp_lineage_id (sc_profile c) ≠ "" ∧
  bp_builder_identity_class (sc_provenance c) ≠ "" ∧ bp_tool_versions (sc_provenance c) ≠ [] ∧
  bp_generated_file_inventory (sc_provenance c) ≠ [] ∧
  vec_len (bp_generated_file_inventory (sc_provenance c)) <= 4096 ∧
  ∀ path, path ∈ bp_generated_file_inventory (sc_provenance c) → staged_path_wf path.

Lemma starts_with_sep_false c s :
  is_separator c = true →
  (∀ k, k ∈ split_bytes is_separator (str_bytes s) → k ≠ []) → starts_with_char c s = false.
Proof.
  intros Hc Hk. unfold starts_with_char. destruct (str_bytes s) as [|d l] eqn:E; [done|].
  apply bool_decide_eq_false. intros ->. apply (Hk []); [|done]. simpl. rewrite Hc. by left.
Qed.
Lemma valid_staged_path_true path : valid_staged_path path = true ↔ staged_path_wf path.
Proof.
  unfold valid_staged_path, staged_path_wf, MAX_RELATIVE_PATH_BYTES.
  rewrite !andb_true_iff, !negb_true_iff, Z.leb_le, str_contains_false, existsb_False.
  pose proof (str_is_empty_len path) as He. pose proof (str_len_nonneg path).
  unfold str_split. setoid_rewrite list_elem_of_fmap.
  assert (Hk : ∀ l, str_is_empty (of_bytes l) || str_eq (of_bytes l) "." || str_eq (of_bytes l) ".." = false ↔
    l ≠ [] ∧ l ≠ ["."%char] ∧ l ≠ ["."; "."]%char).
  { intros l. unfold str_is_empty. rewrite !orb_false_iff, bool_decide_eq_false, !str_eq_false, !of_bytes_eq. tauto. }
  split.
  - intros (((((Hne & ?) & _) & _) & ?) & Hall). split_and!; [|done..|].
    + destruct (decide (str_len path = 0)) as [Hz|]; [apply He in Hz; congruence|lia].
    + intros k Hin. apply Hk, Hall. eauto.
  - intros ([? ?] & ? & Hall). split_and!; try done.
    + destruct (str_is_empty path); [|done]. assert (str_len path = 0) by by apply He. lia.
    + apply starts_with_sep_false; [done|]. intros k Hin. by apply Hall.
    + apply starts_with_sep_false; [done|]. intros k Hin. by apply Hall.
    + intros ? (k & -> & Hin). apply Hk. auto.
Qed.
Lemma invalid_provenance_false c : invalid_provenance c = false ↔ provenance_wf c.
Proof.
  unfold invalid_provenance, provenance_wf, MAX_PACKAGE_FILES, str_is_empty.
  rewrite !orb_false_iff, !bool_decide_eq_false, !vec_is_empty_false, Z.ltb_ge, existsb_False.
  setoid_rewrite negb_false_iff. setoid_rewrite valid_staged_path_true. tauto.
Qed.

(** staging accepts a candidate exactly within an active policy of its
    project and lineage: envelopes inside the policy's, autonomy at most that of
    a draft and of the policy, a digest other than its parent's, complete
    provenance with normalized paths, and an unused key.  It then adds just
    that candidate; a refusal leaves the ledger unchanged and names the reason. *)
Theorem stage_candidate_correct l policy env c l' res :
  stage_candidate l policy env c = (l', res) →
  let profile := sc_profile c in
  match res with
  | Ok _ => sp_revoked policy = false ∧ sp_project_id policy = cp_project_id profile ∧
      sp_lineage_id policy = cp_lineage_id profile ∧ within_envelopes env (sp_envelopes policy) ∧
      autonomy_rank (cp_autonomy profile) <= 3 ∧
      autonomy_rank (cp_autonomy profile) <= autonomy_rank (sp_autonomy policy) ∧
      cp_package_digest profile ≠ cp_parent_digest profile ∧ provenance_wf c ∧
      ledger_candidates l !! staging_key c = None ∧
      ledger_candidates l' = <[staging_key c := c]> (ledger_candidates l)
  | Err err => l' = l ∧
      match err with
      | AuthorityEscape => ¬ (sp_revoked policy = false ∧ sp_project_id policy = cp_project_id profile ∧
          sp_lineage_id policy = cp_lineage_id profile)
      | EnvelopeWidened => ¬ within_envelopes env (sp_envelopes policy)
      | AutonomyTooHigh => 3 < autonomy_rank (cp_autonomy profile) ∨
          autonomy_rank (sp_autonomy policy) < autonomy_rank (cp_autonomy profile)
      | NoopCandidate => cp_package_digest profile = cp_parent_digest profile
      | InvalidProvenance => ¬ provenance_wf c ∨ ledger_candidates l !! staging_key c ≠ None
      end
  end.
Proof.
  unfold stage_candidate, policy_is_active. cbn zeta. change (autonomy_rank A3Draft) with 3.
  destruct (_ || negb (str_eq _ _)) eqn:E1.
  { intros [= <- <-]. split; [done|]. intros (Hr & Hp & Hl%str_eq_true).
    rewrite Hr, Hl, bool_decide_true in E1 by done. done. }
  rewrite !orb_false_iff, !negb_false_iff, bool_decide_eq_true, str_eq_true in E1.
  destruct E1 as [[?%negb_true_iff ?] ?].
  pose proof (envelopes_contain_true (sp_envelopes policy) env) as Henv.
  destruct (envelopes_contain _ _); simpl; cycle 1.
  { intros [= <- <-]. split; [done|]. intros Hw. by discriminate (proj2 Henv Hw). }
  destruct (_ || (autonomy_rank (sp_autonomy policy) <? _)) eqn:E3.
  { intros [= <- <-]. split; [done|]. by rewrite orb_true_iff, !Z.ltb_lt in E3. }
  rewrite orb_false_iff, !Z.ltb_ge in E3. destruct E3 as [? ?].
  case_bool_decide; [by intros [= <- <-]|].
  pose proof (invalid_provenance_false c) as Hprov.
  destruct (invalid_provenance c).
  { intros [= <- <-]. split; [done|]. left. intros Hw. discriminate (proj2 Hprov Hw). }
  destruct (is_some _) eqn:Ek.
  { intros [= <- <-]. split; [done|]. right. by apply is_some_not_None. }
  apply is_some_false in Ek. intros [= <- <-]. simpl. split_and!; try done; first [by apply Henv|by apply Hprov].
Qed.
