(* ===== verification/Observation.v ===== *)
(** * Observation and suggestions

    Model of [crates/rho-extension-runtime/src/observation.rs]: the opt-in model of
    a project's experience traces, and of the patterns, recipes and skills that may
    be suggested from them.  The clock is an input. *)
From S2P Require Import Prelude Text Errors External Ids Digest Stateful Evolution.
#[local] Open Scope Z_scope.

Definition MAX_TRACE_REFERENCES : Z := 64.
Definition MAX_PATTERN_FEATURES : Z := 64.
Definition MAX_RECIPE_STEPS : Z := 64.
Definition MAX_OBSERVATION_TEXT_BYTES : Z := 16 * 1024.
Definition MAX_SKILL_INSTRUCTION_BYTES : Z := 64 * 1024.

Inductive OutcomeClass := Success | Failure | Corrected | UnknownOutcome.

Record RedactionProfile := MkRedaction {
  rp_retain_structure : bool;
  rp_retain_outcome_labels : bool;
  rp_allow_raw_prompts : bool;
  rp_allow_raw_credentials : bool;
  rp_allow_full_source : bool
}.
Definition profile_is_valid (p : RedactionProfile) : bool :=
  negb (rp_allow_raw_prompts p) && negb (rp_allow_raw_credentials p) && negb (rp_allow_full_source p).

Record ExperienceTraceRef := MkTrace {
  tr_trace_ref_id : string;
  tr_project_id : ScopeId;
  tr_source_task_id : option string;
  tr_source_run_id : option string;
  tr_artifact_ids : list string;
  tr_normalized_pattern_features : list string;
  tr_outcome_class : OutcomeClass;
  tr_redaction_profile : RedactionProfile;
  tr_excluded : bool;
  tr_expires_at_millis : option Z
}.
Definition trace_is_valid (t : ExperienceTraceRef) : bool :=
  profile_is_valid (tr_redaction_profile t)
  && (vec_len (tr_artifact_ids t) <=? MAX_TRACE_REFERENCES)
  && (vec_len (tr_normalized_pattern_features t) <=? MAX_PATTERN_FEATURES)
  && forallb (λ feature, str_len feature <=? MAX_OBSERVATION_TEXT_BYTES) (tr_normalized_pattern_features t).
Definition trace_is_eligible (now : Z) (t : ExperienceTraceRef) : bool :=
  negb (tr_excluded t)
  && match tr_expires_at_millis t with Some expiry => now <? expiry | None => true end.
Definition set_excluded (t : ExperienceTraceRef) : ExperienceTraceRef :=
  MkTrace (tr_trace_ref_id t) (tr_project_id t) (tr_source_task_id t) (tr_source_run_id t)
    (tr_artifact_ids t) (tr_normalized_pattern_features t) (tr_outcome_class t) (tr_redaction_profile t)
    true (tr_expires_at_millis t).

Record PatternObservation := MkPattern {
  po_pattern_id : string;
  po_project_id : ScopeId;
  po_trace_ref_ids : list string;
  po_explanation : string
}.
Record Recipe := MkRecipe {
  re_recipe_id : string;
  re_project_id : ScopeId;
  re_purpose : string;
  re_input_schema : string;
  re_preconditions : list string;
  re_ordered_steps : list string;
  re_output_schema : string;
  re_provenance_refs : list string;
  re_revision : Z
}.
Definition recipe_is_valid (r : Recipe) : bool :=
  negb (str_is_empty (re_purpose r)) && negb (str_is_empty (re_input_schema r))
  && negb (vec_is_empty (re_ordered_steps r)) && negb (str_is_empty (re_output_schema r))
  && negb (vec_is_empty (re_provenance_refs r))
  && (vec_len (re_preconditions r) <=? MAX_RECIPE_STEPS) && (vec_len (re_ordered_steps r) <=? MAX_RECIPE_STEPS)
  && forallb (λ value, str_len value <=? MAX_OBSERVATION_TEXT_BYTES)
       [re_purpose r; re_input_schema r; re_output_schema r].
Record SkillSuggestion := MkSkill {
  sk_skill_id : string;
  sk_project_id : ScopeId;
  sk_recipe_id : string;
  sk_instructions : string
}.

Record ObservationModel := MkModel {
  om_traces : gmap ScopeId (gmap string ExperienceTraceRef);
  om_patterns : list PatternObservation;
  om_recipes : list Recipe;
  om_skills : list SkillSuggestion;
  om_enabled : gset ScopeId
}.
Definition set_traces traces (m : ObservationModel) : ObservationModel :=
  MkModel traces (om_patterns m) (om_recipes m) (om_skills m) (om_enabled m).
Definition push_pattern p (m : ObservationModel) : ObservationModel :=
  MkModel (om_traces m) (om_patterns m ++ [p]) (om_recipes m) (om_skills m) (om_enabled m).
Definition push_recipe r (m : ObservationModel) : ObservationModel :=
  MkModel (om_traces m) (om_patterns m) (om_recipes m ++ [r]) (om_skills m) (om_enabled m).
Definition push_skill s (m : ObservationModel) : ObservationModel :=
  MkModel (om_traces m) (om_patterns m) (om_recipes m) (om_skills m ++ [s]) (om_enabled m).

Inductive ObservationError := Disabled | CrossProject | Ineligible | DuplicateObservation.
#[global] Instance ObservationError_eq_dec : EqDecision ObservationError.
Proof. solve_decision. Defined.

Definition ObservationModel_new : ObservationModel := MkModel ∅ [] [] [] ∅.
Definition enable (project : ScopeId) (m : ObservationModel) : ObservationModel :=
  MkModel (om_traces m) (om_patterns m) (om_recipes m) (om_skills m) ({[project]} ∪ om_enabled m).
Definition is_enabled (project : ScopeId) (m : ObservationModel) : bool := bool_decide (project ∈ om_enabled m).

(** [self.traces.get(project).and_then(|traces| traces.get(id))]. *)
Definition trace_of (m : ObservationModel) (project : ScopeId) (id : string) : option ExperienceTraceRef :=
  om_traces m !! project ≫= lookup id.
(** Another project has a trace of this id. *)
Definition trace_elsewhere (m : ObservationModel) (project : ScopeId) (id : string) : bool :=
  existsb (λ pt : ScopeId * gmap string ExperienceTraceRef,
    negb (bool_decide (pt.1 = project)) && is_some (pt.2 !! id)) (map_to_list (om_traces m)).
Definition usable (m : ObservationModel) (now : Z) (project : ScopeId) (id : string) : bool :=
  is_some_and (λ t, trace_is_valid t && trace_is_eligible now t) (trace_of m project id).

Abbreviation observe_m A := (stateful ObservationModel ObservationError A).
Definition require_enabled (project : ScopeId) : observe_m () :=
  m ← gets (λ m, m); throw_if (negb (is_enabled project m)) Disabled.

Definition add_trace (trace : ExperienceTraceRef) (now : Z) : observe_m () :=
  _ ← require_enabled (tr_project_id trace);
  _ ← throw_if (negb (trace_is_valid trace)) Ineligible;
  _ ← throw_if (negb (trace_is_eligible now trace)) Ineligible;
  m ← gets (λ m, m);
  let project := tr_project_id trace in
  let traces := default ∅ (om_traces m !! project) in
  (* [entry(project).or_default()] stays when the trace is a duplicate. *)
  _ ← modify (set_traces (<[project := traces]> (om_traces m)));
  _ ← throw_if (is_some (traces !! tr_trace_ref_id trace)) DuplicateObservation;
  modify (set_traces (<[project := <[tr_trace_ref_id trace := trace]> traces]> (om_traces m))).

(** The check of one trace of a pattern. *)
Definition check_pattern_trace (m : ObservationModel) (project : ScopeId) (now : Z) (id : string)
    : result ObservationError () :=
  match trace_of m project id with
  | Some trace => fail_if (negb (trace_is_valid trace && trace_is_eligible now trace)) Ineligible
  | None => Err (if trace_elsewhere m project id then CrossProject else Ineligible)
  end.
Definition add_pattern (pattern : PatternObservation) (now : Z) : observe_m () :=
  _ ← require_enabled (po_project_id pattern);
  _ ← throw_if (vec_is_empty (po_trace_ref_ids pattern)
                || (MAX_TRACE_REFERENCES <? vec_len (po_trace_ref_ids pattern))
                || str_is_empty (po_explanation pattern)
                || (MAX_OBSERVATION_TEXT_BYTES <? str_len (po_explanation pattern))) Ineligible;
  m ← gets (λ m, m);
  _ ← throw_if (negb (is_some (om_traces m !! po_project_id pattern))) Ineligible;
  _ ← lift (for_each (check_pattern_trace m (po_project_id pattern) now) (po_trace_ref_ids pattern));
  _ ← throw_if (existsb (λ e, bool_decide (po_project_id e = po_project_id pattern)
                              && str_eq (po_pattern_id e) (po_pattern_id pattern)) (om_patterns m))
        DuplicateObservation;
  modify (push_pattern pattern).

Definition provenance_is_eligible (m : ObservationModel) (project : ScopeId) (refs : list string) (now : Z)
    : bool :=
  forallb (λ reference,
    usable m now project reference
    || existsb (λ p, bool_decide (po_project_id p = project) && str_eq (po_pattern_id p) reference
                     && is_some (om_traces m !! project)
                     && forallb (usable m now project) (po_trace_ref_ids p)) (om_patterns m)) refs.
Definition add_recipe (recipe : Recipe) (now : Z) : observe_m () :=
  _ ← require_enabled (re_project_id recipe);
  _ ← throw_if (negb (recipe_is_valid recipe)) Ineligible;
  m ← gets (λ m, m);
  let project := re_project_id recipe in
  let elsewhere := existsb (λ reference,
        trace_elsewhere m project reference
        || existsb (λ p, negb (bool_decide (po_project_id p = project)) && str_eq (po_pattern_id p) reference)
             (om_patterns m)) (re_provenance_refs recipe) in
  _ ← throw_if (negb (provenance_is_eligible m project (re_provenance_refs recipe) now))
        (if elsewhere then CrossProject else Ineligible);
  _ ← throw_if (existsb (λ e, bool_decide (re_project_id e = project)
                              && str_eq (re_recipe_id e) (re_recipe_id recipe)) (om_recipes m))
        DuplicateObservation;
  modify (push_recipe recipe).

Definition add_skill (skill : SkillSuggestion) (now : Z) : observe_m () :=
  _ ← require_enabled (sk_project_id skill);
  m ← gets (λ m, m);
  recipe ← lift (ok_or (List.find (λ r, str_eq (re_recipe_id r) (sk_recipe_id skill)
                                       && bool_decide (re_project_id r = sk_project_id skill)) (om_recipes m))
                   Ineligible);
  _ ← throw_if (negb (provenance_is_eligible m (re_project_id recipe) (re_provenance_refs recipe) now)) Ineligible;
  _ ← throw_if (str_is_empty (sk_instructions skill)
                || (MAX_SKILL_INSTRUCTION_BYTES <? str_len (sk_instructions skill))) Ineligible;
  _ ← throw_if (existsb (λ e, bool_decide (sk_project_id e = sk_project_id skill)
                              && str_eq (sk_skill_id e) (sk_skill_id skill)) (om_skills m))
        DuplicateObservation;
  modify (push_skill skill).

Definition exclude_trace (project : ScopeId) (id : string) : observe_m () :=
  m ← gets (λ m, m);
  match trace_of m project id with
  | None => throw (if trace_elsewhere m project id then CrossProject else Ineligible)
  | Some _ => modify (set_traces (alter (alter set_excluded id) project (om_traces m)))
  end.

Definition self_grant_attempt_rejected `{Sha256} (candidate_envelopes : EvolutionEnvelopes)
    (policy : StandingPolicy) : bool :=
  match validate_candidate_against_policy policy (sp_project_id policy) (sp_lineage_id policy)
          candidate_envelopes (from_inventory [(str_bytes "x", str_bytes "x")])
          (from_inventory [(str_bytes "y", str_bytes "y")]) with
  | RequiresTrustedReview | PolicyRejected => true
  | WithinEnvelope => false
  end.
