(* ===== verification/ObservationProps.v ===== *)
(** * Properties of observation

    Nothing is recorded without consent or against the redaction profile, a project
    neither sees nor changes what belongs to another, and a trace that is excluded is
    never used again. *)
From S2P Require Import Prelude Text Errors External Ids Stateful Evolution Observation.
#[local] Open Scope Z_scope.

(** ** Calls *)

Inductive ObservationCall :=
| CallEnable (project : ScopeId)
| CallAddTrace (trace : ExperienceTraceRef) (now : Z)
| CallAddPattern (pattern : PatternObservation) (now : Z)
| CallAddRecipe (recipe : Recipe) (now : Z)
| CallAddSkill (skill : SkillSuggestion) (now : Z)
| CallExclude (project : ScopeId) (id : string).
Definition observe (c : ObservationCall) : stateful ObservationModel ObservationError () :=
  match c with
  | CallEnable project => modify (enable project)
  | CallAddTrace trace now => add_trace trace now
  | CallAddPattern pattern now => add_pattern pattern now
  | CallAddRecipe recipe now => add_recipe recipe now
  | CallAddSkill skill now => add_skill skill now
  | CallExclude project id => exclude_trace project id
  end.
Definition project_of (c : ObservationCall) : ScopeId :=
  match c with
  | CallEnable project | CallExclude project _ => project
  | CallAddTrace trace _ => tr_project_id trace
  | CallAddPattern pattern _ => po_project_id pattern
  | CallAddRecipe recipe _ => re_project_id recipe
  | CallAddSkill skill _ => sk_project_id skill
  end.
Definition observe_all (calls : list ObservationCall) (m : ObservationModel) : ObservationModel :=
  foldl (λ m c, (observe c m).1) m calls.

(** ** What an accepted call means *)

Implicit Types (m : ObservationModel) (p : ScopeId) (t : ExperienceTraceRef).

(** A reference a suggestion may rest on: a usable trace, or a pattern of usable
    traces, of the project. *)
Definition supported m (now : Z) p (reference : string) : Prop :=
  usable m now p reference = true
  ∨ ∃ pattern, pattern ∈ om_patterns m ∧ po_project_id pattern = p ∧ po_pattern_id pattern = reference
      ∧ ∀ id, id ∈ po_trace_ref_ids pattern → usable m now p id = true.

Lemma usable_Some m now p id :
  usable m now p id = true ↔
  ∃ t, trace_of m p id = Some t ∧ trace_is_valid t = true ∧ trace_is_eligible now t = true.
Proof.
  unfold usable. destruct (trace_of m p id) as [t|]; cbn; [|naive_solver].
  rewrite andb_true_iff. naive_solver.
Qed.
Lemma usable_project m now p id : usable m now p id = true → is_some (om_traces m !! p) = true.
Proof. rewrite usable_Some. unfold trace_of. by intros (t & Ht & _); destruct (om_traces m !! p). Qed.
Lemma provenance_supported m p refs now :
  provenance_is_eligible m p refs now = true ↔ ∀ reference, reference ∈ refs → 
    usable m now p reference = true
    ∨ ∃ pattern, pattern ∈ om_patterns m ∧ po_project_id pattern = p ∧ po_pattern_id pattern = reference
      ∧ is_some (om_traces m !! p) = true ∧ ∀ id, id ∈ po_trace_ref_ids pattern → usable m now p id = true.
Proof.
  unfold provenance_is_eligible. rewrite forallb_True. apply forall_proper; intros reference.
  apply forall_proper; intros _. rewrite orb_true_iff, existsb_True. apply or_iff_compat_l.
  apply exist_proper; intros pattern.
  rewrite !andb_true_iff, bool_decide_eq_true, str_eq_true, forallb_True. tauto.
Qed.
Lemma provenance_is_supported m p refs now :
  provenance_is_eligible m p refs now = true → ∀ reference, reference ∈ refs → supported m now p reference.
Proof.
  rewrite provenance_supported. intros Hall reference Hin.
  destruct (Hall reference Hin) as [?|(pattern & ? & ? & ? & _ & ?)]; [by left|right; by exists pattern].
Qed.

(** The call has been accepted for these reasons, and this is what it did. *)
Definition accepted_call (c : ObservationCall) m m' : Prop :=
  match c with
  | CallEnable p => m' = enable p m
  | CallAddTrace t now =>
      tr_project_id t ∈ om_enabled m ∧ trace_is_valid t = true ∧ trace_is_eligible now t = true
      ∧ trace_of m (tr_project_id t) (tr_trace_ref_id t) = None
      ∧ m' = set_traces (<[tr_project_id t := <[tr_trace_ref_id t := t]>
               (default ∅ (om_traces m !! tr_project_id t))]> (om_traces m)) m
  | CallAddPattern pattern now =>
      po_project_id pattern ∈ om_enabled m
      ∧ po_trace_ref_ids pattern ≠ [] ∧ vec_len (po_trace_ref_ids pattern) ≤ MAX_TRACE_REFERENCES
      ∧ (∀ id, id ∈ po_trace_ref_ids pattern → usable m now (po_project_id pattern) id = true)
      ∧ (∀ e, e ∈ om_patterns m → po_project_id e = po_project_id pattern → po_pattern_id e ≠ po_pattern_id pattern)
      ∧ m' = push_pattern pattern m
  | CallAddRecipe recipe now =>
      re_project_id recipe ∈ om_enabled m ∧ recipe_is_valid recipe = true
      ∧ (∀ reference, reference ∈ re_provenance_refs recipe → supported m now (re_project_id recipe) reference)
      ∧ (∀ e, e ∈ om_recipes m → re_project_id e = re_project_id recipe → re_recipe_id e ≠ re_recipe_id recipe)
      ∧ m' = push_recipe recipe m
  | CallAddSkill skill now =>
      sk_project_id skill ∈ om_enabled m
      ∧ (∃ recipe, recipe ∈ om_recipes m ∧ re_recipe_id recipe = sk_recipe_id skill
           ∧ re_project_id recipe = sk_project_id skill
           ∧ ∀ reference, reference ∈ re_provenance_refs recipe → supported m now (sk_project_id skill) reference)
      ∧ 0 < str_len (sk_instructions skill) ≤ MAX_SKILL_INSTRUCTION_BYTES
      ∧ (∀ e, e ∈ om_skills m → sk_project_id e = sk_project_id skill → sk_skill_id e ≠ sk_skill_id skill)
      ∧ m' = push_skill skill m
  | CallExclude p id =>
      is_Some (trace_of m p id) ∧ m' = set_traces (alter (alter set_excluded id) p (om_traces m)) m
  end.

Lemma post_require_enabled p m Q R :
  post (require_enabled p) m Q R ↔ if bool_decide (p ∈ om_enabled m) then Q () m else R Disabled m.
Proof. unfold require_enabled, is_enabled. post_run. by case_bool_decide. Qed.
#[local] Hint Rewrite @post_require_enabled : post.

Lemma str_nonempty_len (s : string) : str_is_empty s = false → 0 < str_len s.
Proof.
  intros Hs. assert (0 ≤ str_len s) by (unfold str_len; lia). assert (str_len s ≠ 0); [|lia].
  intros Hz%str_is_empty_len. by rewrite Hz in Hs.
Qed.
Lemma observe_post c m :
  post (observe c) m (λ _ m', accepted_call c m m') (λ _ m', m' = m).
Proof.
  destruct c as [p|t now|pattern now|recipe now|skill now|p id]; cbn [observe accepted_call].
  - by post_run.
  - unfold add_trace. post_run. case_bool_decide as He; [|done]. post_run.
    destruct (trace_is_valid t) eqn:Hv; cbn [negb]; post_run; [|done].
    destruct (trace_is_eligible now t) eqn:Hel; cbn [negb]; post_run; [|done].
    destruct (is_some (_ !! tr_trace_ref_id t)) eqn:Hd; post_run.
    + unfold is_some in Hd. destruct (om_traces m !! tr_project_id t) as [traces|] eqn:Ht; [|done].
      destruct m. unfold set_traces. cbn in *. f_equal. by apply insert_id.
    + split_and!; [done..| |].
      * unfold trace_of. destruct (om_traces m !! tr_project_id t); [by apply is_some_false|done].
      * done.
  - unfold add_pattern. post_run. case_bool_decide as He; [|done]. post_run.
    destruct (_ || _) eqn:Hshape; post_run; [done|].
    destruct (is_some (om_traces m !! po_project_id pattern)) eqn:Hp; cbn [negb]; post_run; [|done].
    destruct (for_each _ _) as [[]|e] eqn:Hall; post_run; [|done].
    destruct (existsb _ _) eqn:Hdup; post_run; [done|].
    rewrite !orb_false_iff in Hshape. destruct Hshape as (((Hne & Hmax%Z.ltb_ge) & _) & _).
    apply for_each_Ok in Hall. rewrite Forall_forall in Hall.
    split_and!; [done|by apply vec_is_empty_false|done| | |done].
    + intros id Hid. specialize (Hall id Hid). unfold check_pattern_trace in Hall. apply usable_Some.
      destruct (trace_of m _ id) as [t|]; [|done].
      apply fail_if_Ok, negb_false_iff, andb_prop in Hall as [? ?]. by exists t.
    + intros e Hin Hproj Heq. pose proof (proj1 (existsb_False _ _) Hdup e Hin) as Hf. cbn in Hf.
      by rewrite Hproj, Heq, bool_decide_eq_true_2, (proj2 (str_eq_true _ _)) in Hf.
  - unfold add_recipe. post_run. case_bool_decide as He; [|done]. post_run.
    destruct (recipe_is_valid recipe) eqn:Hv; cbn [negb]; post_run; [|done].
    destruct (provenance_is_eligible _ _ _ _) eqn:Hprov; cbn [negb]; post_run; [|done].
    destruct (existsb _ (om_recipes m)) eqn:Hdup; post_run; [done|].
    split_and!; [done|done|by apply provenance_is_supported| |done].
    intros e Hin Hproj Heq. pose proof (proj1 (existsb_False _ _) Hdup e Hin) as Hf. cbn in Hf.
    by rewrite Hproj, Heq, bool_decide_eq_true_2, (proj2 (str_eq_true _ _)) in Hf.
  - unfold add_skill. post_run. case_bool_decide as He; [|done]. post_run.
    destruct (List.find _ _) as [recipe|] eqn:Hf; cbn [ok_or]; post_run; [|done].
    apply find_some in Hf as [Hin%list_elem_of_In Hf].
    apply andb_prop in Hf as [Hid%str_eq_true Hproj%bool_decide_eq_true].
    destruct (provenance_is_eligible _ _ _ _) eqn:Hprov; cbn [negb]; post_run; [|done].
    destruct (_ || _) eqn:Hshape; post_run; [done|]. destruct (existsb _ _) eqn:Hdup; post_run; [done|].
    apply orb_false_iff in Hshape as [Hne Hmax%Z.ltb_ge].
    split_and!; [done| |by apply str_nonempty_len|done| |done].
    + exists recipe. split_and!; [done..|]. rewrite <-Hproj. by apply provenance_is_supported.
    + intros e Hine Hproje Heq. pose proof (proj1 (existsb_False _ _) Hdup e Hine) as Hf. cbn in Hf.
      by rewrite Hproje, Heq, bool_decide_eq_true_2, (proj2 (str_eq_true _ _)) in Hf.
  - unfold exclude_trace. post_run. destruct (trace_of m p id) as [t|] eqn:Ht; post_run; [|done].
    by split; [eexists|].
Qed.

(** ** Projects are isolated *)

(** What one project has in the model. *)
Record ProjectView := MkView {
  pv_enabled : bool;
  pv_traces : option (gmap string ExperienceTraceRef);
  pv_patterns : list PatternObservation;
  pv_recipes : list Recipe;
  pv_skills : list SkillSuggestion
}.
Definition view m p : ProjectView :=
  MkView (is_enabled p m) (om_traces m !! p)
    (filter (λ x, po_project_id x = p) (om_patterns m))
    (filter (λ x, re_project_id x = p) (om_recipes m))
    (filter (λ x, sk_project_id x = p) (om_skills m)).
(** [CrossProject] and [Ineligible] both refuse; which of them depends on what the
    other projects have. *)
Definition refusal (r : result ObservationError ()) : result ObservationError () :=
  match r with Err CrossProject => Err Ineligible | _ => r end.

Section runs.
Context {S E : Type}.
Lemma run_throw_if {B} c (e : E) (k : () → stateful S E B) s :
  (throw_if c e ≫= k) s = if c then (s, Err e) else k () s.
Proof. by destruct c. Qed.
Lemma run_lift {A B} (r : result E A) (k : A → stateful S E B) s :
  (lift r ≫= k) s = match r with Ok a => k a s | Err e => (s, Err e) end.
Proof. by destruct r. Qed.
Lemma run_gets {A B} (f : S → A) (k : A → stateful S E B) s : (gets f ≫= k) s = k (f s) s.
Proof. done. Qed.
Lemma run_modify {B} (f : S → S) (k : () → stateful S E B) s : (modify f ≫= k) s = k () (f s).
Proof. done. Qed.
End runs.
Lemma run_require_enabled {B} p (k : () → stateful ObservationModel ObservationError B) m :
  (require_enabled p ≫= k) m = if is_enabled p m then k () m else (m, Err Disabled).
Proof.
  unfold require_enabled, mbind, stateful_bind, gets, throw_if. by destruct (is_enabled p m).
Qed.
#[local] Hint Rewrite @run_throw_if @run_lift @run_gets @run_modify @run_require_enabled : run.

Lemma existsb_of_project {A} (project : A → ScopeId) p (f : A → bool) l :
  existsb (λ x, bool_decide (project x = p) && f x) l = existsb f (filter (λ x, project x = p) l).
Proof.
  induction l as [|x l IH]; [done|]. cbn [existsb]. rewrite filter_cons, IH.
  destruct (decide (project x = p)) as [Heq|Hne]; [by rewrite bool_decide_eq_true_2|by rewrite bool_decide_eq_false_2].
Qed.
Lemma find_of_project {A} (project : A → ScopeId) p (f : A → bool) l :
  List.find (λ x, f x && bool_decide (project x = p)) l = List.find f (filter (λ x, project x = p) l).
Proof.
  induction l as [|x l IH]; [done|]. cbn [List.find]. rewrite filter_cons, IH.
  destruct (decide (project x = p)) as [Heq|Hne].
  - rewrite bool_decide_eq_true_2, andb_true_r by done. cbn [List.find]. by destruct (f x).
  - by rewrite bool_decide_eq_false_2, andb_false_r by done.
Qed.
Lemma filter_push {A} (project : A → ScopeId) p (x : A) l :
  filter (λ x, project x = p) (l ++ [x])
  = filter (λ x, project x = p) l ++ (if bool_decide (project x = p) then [x] else []).
Proof.
  rewrite filter_app, filter_cons, filter_nil. by destruct (decide (project x = p)) as [Heq|Hne];
    [rewrite bool_decide_eq_true_2|rewrite bool_decide_eq_false_2].
Qed.

Section same_view.
Context (m1 m2 : ObservationModel) (p : ScopeId) (Hview : view m1 p = view m2 p).

Lemma view_enabled : is_enabled p m1 = is_enabled p m2.
Proof. by injection Hview. Qed.
Lemma view_traces : om_traces m1 !! p = om_traces m2 !! p.
Proof. by injection Hview. Qed.
Lemma view_patterns :
  filter (λ x, po_project_id x = p) (om_patterns m1) = filter (λ x, po_project_id x = p) (om_patterns m2).
Proof. by injection Hview. Qed.
Lemma view_recipes :
  filter (λ x, re_project_id x = p) (om_recipes m1) = filter (λ x, re_project_id x = p) (om_recipes m2).
Proof. by injection Hview. Qed.
Lemma view_skills :
  filter (λ x, sk_project_id x = p) (om_skills m1) = filter (λ x, sk_project_id x = p) (om_skills m2).
Proof. by injection Hview. Qed.
Lemma view_trace_of id : trace_of m1 p id = trace_of m2 p id.
Proof. unfold trace_of. by rewrite view_traces. Qed.
Lemma view_usable now id : usable m1 now p id = usable m2 now p id.
Proof. unfold usable. by rewrite view_trace_of. Qed.
Lemma view_pattern q : po_project_id q = p → q ∈ om_patterns m1 ↔ q ∈ om_patterns m2.
Proof.
  intros Hq. pose proof view_patterns as Heq.
  assert (Hin : ∀ l, q ∈ l ↔ q ∈ filter (λ x, po_project_id x = p) l) by (intros l; rewrite list_elem_of_filter; tauto).
  by rewrite (Hin (om_patterns m1)), (Hin (om_patterns m2)), Heq.
Qed.
Lemma view_provenance refs now : provenance_is_eligible m1 p refs now = provenance_is_eligible m2 p refs now.
Proof.
  apply eq_true_iff_eq. rewrite !provenance_supported. apply forall_proper; intros reference.
  apply forall_proper; intros _. rewrite view_usable, view_traces. apply or_iff_compat_l.
  apply exist_proper; intros q. setoid_rewrite view_usable.
  split; intros (Hin & Hq & ?); (split; [|done]); by apply (view_pattern q Hq).
Qed.
End same_view.

(** Two runs of a call in models that agree on its project. *)
Definition agree p (r1 r2 : ObservationModel * result ObservationError ()) : Prop :=
  view r1.1 p = view r2.1 p ∧ refusal r1.2 = refusal r2.2.
Lemma view_set_traces m1 m2 p tm1 tm2 : view m1 p = view m2 p → tm1 !! p = tm2 !! p →
  view (set_traces tm1 m1) p = view (set_traces tm2 m2) p.
Proof. unfold view, is_enabled. cbn. by intros [= -> _ -> -> ->] ->. Qed.
Lemma view_push_pattern m1 m2 p x : view m1 p = view m2 p → view (push_pattern x m1) p = view (push_pattern x m2) p.
Proof. unfold view, is_enabled. cbn. rewrite !filter_app. by intros [= -> -> -> -> ->]. Qed.
Lemma view_push_recipe m1 m2 p x : view m1 p = view m2 p → view (push_recipe x m1) p = view (push_recipe x m2) p.
Proof. unfold view, is_enabled. cbn. rewrite !filter_app. by intros [= -> -> -> -> ->]. Qed.
Lemma view_push_skill m1 m2 p x : view m1 p = view m2 p → view (push_skill x m1) p = view (push_skill x m2) p.
Proof. unfold view, is_enabled. cbn. rewrite !filter_app. by intros [= -> -> -> -> ->]. Qed.
Lemma view_enable m1 m2 p : view m1 p = view m2 p → view (enable p m1) p = view (enable p m2) p.
Proof.
  unfold view, is_enabled. cbn. intros [= _ -> -> -> ->]. by rewrite !bool_decide_eq_true_2 by set_solver.
Qed.

Lemma agree_if p (b : bool) (r1 r2 s1 s2 : ObservationModel * result ObservationError ()) :
  agree p r1 s1 → agree p r2 s2 → agree p (if b then r1 else r2) (if b then s1 else s2).
Proof. by destruct b. Qed.

Lemma refusal_elsewhere (b1 b2 : bool) :
  refusal (Err (if b1 then CrossProject else Ineligible)) = refusal (Err (if b2 then CrossProject else Ineligible)).
Proof. by destruct b1, b2. Qed.
Lemma refusal_bind (r1 r2 k1 k2 : result ObservationError ()) :
  refusal r1 = refusal r2 → refusal k1 = refusal k2 → refusal (_ ← r1; k1) = refusal (_ ← r2; k2).
Proof. by destruct r1 as [[]|[]], r2 as [[]|[]]. Qed.
Lemma check_pattern_traces_agree m1 m2 p now ids : view m1 p = view m2 p →
  refusal (for_each (check_pattern_trace m1 p now) ids) = refusal (for_each (check_pattern_trace m2 p now) ids).
Proof.
  intros Hview. induction ids as [|id ids IH]; [done|]. cbn [for_each].
  apply refusal_bind; [|done]. unfold check_pattern_trace. rewrite (view_trace_of _ _ _ Hview).
  destruct (trace_of m2 p id); [done|apply refusal_elsewhere].
Qed.
Lemma agree_Err p m1 m2 e1 e2 :
  view m1 p = view m2 p → refusal (Err e1) = refusal (Err e2) → agree p (m1, Err e1) (m2, Err e2).
Proof. done. Qed.
Lemma agree_Ok p m1 m2 : view m1 p = view m2 p → agree p (m1, Ok ()) (m2, Ok ()).
Proof. done. Qed.
(** Go into the branches of two runs that decide alike. *)
Ltac agree_branches := repeat (apply agree_if; try by apply agree_Err).

Lemma add_trace_agree m1 m2 t now :
  view m1 (tr_project_id t) = view m2 (tr_project_id t) →
  agree (tr_project_id t) (add_trace t now m1) (add_trace t now m2).
Proof.
  intros Hview. unfold add_trace. autorewrite with run. cbn beta zeta.
  rewrite (view_enabled _ _ _ Hview), (view_traces _ _ _ Hview). agree_branches.
  - apply agree_Err; [|done]. apply view_set_traces; [done|]. by rewrite !lookup_insert_eq.
  - apply agree_Ok, view_set_traces; [|by rewrite !lookup_insert_eq].
    apply view_set_traces; [done|]. by rewrite !lookup_insert_eq.
Qed.
Lemma add_pattern_agree m1 m2 pattern now :
  view m1 (po_project_id pattern) = view m2 (po_project_id pattern) →
  agree (po_project_id pattern) (add_pattern pattern now m1) (add_pattern pattern now m2).
Proof.
  intros Hview. unfold add_pattern. autorewrite with run. cbn beta zeta.
  rewrite (view_enabled _ _ _ Hview), (view_traces _ _ _ Hview). agree_branches.
  pose proof (check_pattern_traces_agree _ _ _ now (po_trace_ref_ids pattern) Hview) as Hchecks.
  rewrite !existsb_of_project, (view_patterns _ _ _ Hview).
  destruct (for_each _ _) as [[]|e1], (for_each _ _) as [[]|e2]; [|by destruct e2|by destruct e1|by apply agree_Err].
  agree_branches. by apply agree_Ok, view_push_pattern.
Qed.
Lemma add_recipe_agree m1 m2 recipe now :
  view m1 (re_project_id recipe) = view m2 (re_project_id recipe) →
  agree (re_project_id recipe) (add_recipe recipe now m1) (add_recipe recipe now m2).
Proof.
  intros Hview. unfold add_recipe. autorewrite with run. cbn beta zeta.
  rewrite (view_enabled _ _ _ Hview), (view_provenance _ _ _ Hview), !existsb_of_project, (view_recipes _ _ _ Hview).
  agree_branches; [apply agree_Err; [done|apply refusal_elsewhere]|]. by apply agree_Ok, view_push_recipe.
Qed.
Lemma add_skill_agree m1 m2 skill now :
  view m1 (sk_project_id skill) = view m2 (sk_project_id skill) →
  agree (sk_project_id skill) (add_skill skill now m1) (add_skill skill now m2).
Proof.
  intros Hview. unfold add_skill. autorewrite with run. cbn beta zeta.
  rewrite (view_enabled _ _ _ Hview), !find_of_project, !existsb_of_project,
    (view_recipes _ _ _ Hview), (view_skills _ _ _ Hview).
  destruct (List.find _ _) as [recipe|] eqn:Hf; cbn [ok_or]; agree_branches.
  apply find_some in Hf as [Hin%list_elem_of_In _]. apply list_elem_of_filter in Hin as [Hproj _].
  rewrite Hproj, (view_provenance _ _ _ Hview). autorewrite with run. cbn beta. agree_branches. by apply agree_Ok, view_push_skill.
Qed.
Lemma exclude_trace_agree m1 m2 p id :
  view m1 p = view m2 p → agree p (exclude_trace p id m1) (exclude_trace p id m2).
Proof.
  intros Hview. unfold exclude_trace. autorewrite with run. rewrite (view_trace_of _ _ _ Hview).
  destruct (trace_of m2 p id); [|apply agree_Err; [done|apply refusal_elsewhere]].
  apply agree_Ok, view_set_traces; [done|]. by rewrite !lookup_alter_eq, (view_traces _ _ _ Hview).
Qed.
Lemma observe_agree c m1 m2 :
  view m1 (project_of c) = view m2 (project_of c) → agree (project_of c) (observe c m1) (observe c m2).
Proof.
  destruct c; cbn [observe project_of]; intros Hview;
    eauto using add_trace_agree, add_pattern_agree, add_recipe_agree, add_skill_agree, exclude_trace_agree.
  by apply agree_Ok, view_enable.
Qed.

(** A call leaves what the other projects have. *)
Lemma view_other m q tm : tm !! q = om_traces m !! q → view (set_traces tm m) q = view m q.
Proof. unfold view, is_enabled. cbn. by intros ->. Qed.
Lemma filter_other {A} (project : A → ScopeId) q (x : A) l : project x ≠ q →
  filter (λ x, project x = q) (l ++ [x]) = filter (λ x, project x = q) l.
Proof. intros Hne. by rewrite filter_push, bool_decide_eq_false_2, app_nil_r. Qed.
Lemma observe_view_other c m q : project_of c ≠ q → view (observe c m).1 q = view m q.
Proof.
  intros Hne. pose proof (observe_post c m) as Hpost. unfold post in Hpost.
  destruct (observe c m) as [m' [[]|e]]; cbn [fst]; [|by subst].
  destruct c as [p|t now|pattern now|recipe now|skill now|p id]; cbn [accepted_call project_of] in *;
    destruct_and?; subst.
  - unfold view, is_enabled. cbn. f_equal. apply bool_decide_ext. set_solver.
  - apply view_other. by rewrite lookup_insert_ne.
  - unfold view, is_enabled. cbn. by rewrite filter_other.
  - unfold view, is_enabled. cbn. by rewrite filter_other.
  - unfold view, is_enabled. cbn. by rewrite filter_other.
  - apply view_other. by rewrite lookup_alter_ne.
Qed.

(** ** The invariant of the model *)

(** The references of a recipe name a trace or a pattern of its project. *)
Definition known m p (reference : string) : Prop :=
  is_Some (trace_of m p reference)
  ∨ ∃ pattern, pattern ∈ om_patterns m ∧ po_project_id pattern = p ∧ po_pattern_id pattern = reference.
Record observation_ok m : Prop := {
  ok_traces : ∀ p id t, trace_of m p id = Some t →
    p ∈ om_enabled m ∧ tr_project_id t = p ∧ tr_trace_ref_id t = id ∧ trace_is_valid t = true;
  ok_patterns : ∀ x, x ∈ om_patterns m →
    po_project_id x ∈ om_enabled m ∧ po_trace_ref_ids x ≠ []
    ∧ vec_len (po_trace_ref_ids x) ≤ MAX_TRACE_REFERENCES
    ∧ ∀ id, id ∈ po_trace_ref_ids x → is_Some (trace_of m (po_project_id x) id);
  ok_recipes : ∀ x, x ∈ om_recipes m →
    re_project_id x ∈ om_enabled m ∧ recipe_is_valid x = true
    ∧ ∀ reference, reference ∈ re_provenance_refs x → known m (re_project_id x) reference;
  ok_skills : ∀ x, x ∈ om_skills m →
    sk_project_id x ∈ om_enabled m ∧ 0 < str_len (sk_instructions x) ≤ MAX_SKILL_INSTRUCTION_BYTES
    ∧ ∃ recipe, recipe ∈ om_recipes m ∧ re_recipe_id recipe = sk_recipe_id x
                ∧ re_project_id recipe = sk_project_id x;
  ok_pattern_ids : NoDup ((λ x, (po_project_id x, po_pattern_id x)) <$> om_patterns m);
  ok_recipe_ids : NoDup ((λ x, (re_project_id x, re_recipe_id x)) <$> om_recipes m);
  ok_skill_ids : NoDup ((λ x, (sk_project_id x, sk_skill_id x)) <$> om_skills m)
}.

Lemma usable_known m now p id : usable m now p id = true → is_Some (trace_of m p id).
Proof. rewrite usable_Some. naive_solver. Qed.
Lemma supported_known m now p reference : supported m now p reference → known m p reference.
Proof. intros [Hu|(x & ? & ? & ? & _)]; [left; by eapply usable_known|right; eauto]. Qed.

(** Nothing that a model has is taken back by a call. *)
Record extends m m' : Prop := {
  ext_enabled : om_enabled m ⊆ om_enabled m';
  ext_traces : ∀ p id, is_Some (trace_of m p id) → is_Some (trace_of m' p id);
  ext_patterns : ∀ x, x ∈ om_patterns m → x ∈ om_patterns m';
  ext_recipes : ∀ x, x ∈ om_recipes m → x ∈ om_recipes m'
}.
Lemma known_extends m m' p reference : extends m m' → known m p reference → known m' p reference.
Proof.
  intros Hext [Hk|(x & Hx & ? & ?)]; [left; by apply (ext_traces _ _ Hext)|right].
  exists x. split; [by apply (ext_patterns _ _ Hext)|done].
Qed.
Lemma extends_refl m : extends m m.
Proof. done. Qed.

Lemma trace_of_insert m tm p q id : trace_of (set_traces (<[p := tm]> (om_traces m)) m) q id
  = if bool_decide (q = p) then tm !! id else trace_of m q id.
Proof.
  unfold trace_of. cbn. case_bool_decide as Hq; [subst; by rewrite lookup_insert_eq|].
  by rewrite lookup_insert_ne.
Qed.
Lemma trace_of_add m t q id :
  let p := tr_project_id t in
  trace_of (set_traces (<[p := <[tr_trace_ref_id t := t]> (default ∅ (om_traces m !! p))]> (om_traces m)) m) q id
  = if bool_decide (q = p ∧ id = tr_trace_ref_id t) then Some t else trace_of m q id.
Proof.
  intros p. rewrite trace_of_insert. destruct (decide (q = p)) as [->|Hq];
    [rewrite bool_decide_eq_true_2 by done|by rewrite !bool_decide_eq_false_2 by naive_solver].
  destruct (decide (id = tr_trace_ref_id t)) as [->|Hid].
  - by rewrite lookup_insert_eq, bool_decide_eq_true_2 by done.
  - rewrite lookup_insert_ne, bool_decide_eq_false_2 by naive_solver.
    unfold trace_of. by destruct (om_traces m !! p).
Qed.
Lemma trace_of_exclude m p id q id' : trace_of (set_traces (alter (alter set_excluded id) p (om_traces m)) m) q id'
  = if bool_decide (q = p ∧ id' = id) then set_excluded <$> trace_of m q id' else trace_of m q id'.
Proof.
  unfold trace_of. cbn. destruct (decide (q = p)) as [->|Hq];
    [rewrite lookup_alter_eq|by rewrite lookup_alter_ne, bool_decide_eq_false_2 by naive_solver].
  destruct (om_traces m !! p) as [tm|]; cbn; [|by case_bool_decide].
  destruct (decide (id' = id)) as [->|Hid].
  - by rewrite lookup_alter_eq, bool_decide_eq_true_2 by done.
  - by rewrite lookup_alter_ne, bool_decide_eq_false_2 by naive_solver.
Qed.

Lemma accepted_extends c m m' : accepted_call c m m' → extends m m'.
Proof.
  destruct c as [p|t now|pattern now|recipe now|skill now|p id]; cbn [accepted_call]; intros Hc;
    destruct_and?; subst; split; cbn; try set_solver.
  - intros q id Hid. rewrite trace_of_add. by case_bool_decide.
  - intros q id' Hid. rewrite trace_of_exclude. case_bool_decide; [by apply fmap_is_Some|done].
Qed.
Lemma NoDup_push {A B} (f : A → B) l x : NoDup (f <$> l) → (∀ y, y ∈ l → f y ≠ f x) → NoDup (f <$> (l ++ [x])).
Proof.
  intros Hl Hx. rewrite fmap_app. apply NoDup_app. split_and!; [done| |apply NoDup_singleton].
  intros z (y & -> & Hy)%list_elem_of_fmap Hz. apply list_elem_of_singleton in Hz. by apply (Hx y).
Qed.

Lemma new_ok : observation_ok ObservationModel_new.
Proof.
  split; cbn; try apply NoDup_nil_2; try (intros x Hx; by apply not_elem_of_nil in Hx).
  intros p id t Ht. unfold trace_of in Ht. cbn in Ht. by rewrite lookup_empty in Ht.
Qed.
(** The members that were there stay well formed. *)
Lemma kept_patterns m m' : observation_ok m → extends m m' → ∀ x, x ∈ om_patterns m →
  po_project_id x ∈ om_enabled m' ∧ po_trace_ref_ids x ≠ []
  ∧ vec_len (po_trace_ref_ids x) ≤ MAX_TRACE_REFERENCES
  ∧ ∀ id, id ∈ po_trace_ref_ids x → is_Some (trace_of m' (po_project_id x) id).
Proof.
  intros Hok Hext x Hx. destruct (ok_patterns _ Hok x Hx) as (? & ? & ? & Hids).
  split_and!; [by apply (ext_enabled _ _ Hext)|done|done|]. intros id Hid. by apply (ext_traces _ _ Hext), Hids.
Qed.
Lemma kept_recipes m m' : observation_ok m → extends m m' → ∀ x, x ∈ om_recipes m →
  re_project_id x ∈ om_enabled m' ∧ recipe_is_valid x = true
  ∧ ∀ reference, reference ∈ re_provenance_refs x → known m' (re_project_id x) reference.
Proof.
  intros Hok Hext x Hx. destruct (ok_recipes _ Hok x Hx) as (? & ? & Hrefs).
  split_and!; [by apply (ext_enabled _ _ Hext)|done|]. intros reference Hr. by eapply known_extends, Hrefs.
Qed.
Lemma kept_skills m m' : observation_ok m → extends m m' → ∀ x, x ∈ om_skills m →
  sk_project_id x ∈ om_enabled m' ∧ 0 < str_len (sk_instructions x) ≤ MAX_SKILL_INSTRUCTION_BYTES
  ∧ ∃ recipe, recipe ∈ om_recipes m' ∧ re_recipe_id recipe = sk_recipe_id x
              ∧ re_project_id recipe = sk_project_id x.
Proof.
  intros Hok Hext x Hx. destruct (ok_skills _ Hok x Hx) as (? & ? & recipe & Hr & ?).
  split; [by apply (ext_enabled _ _ Hext)|split; [done|]]. exists recipe. split; [by apply (ext_recipes _ _ Hext)|done].
Qed.
Lemma accepted_ok c m m' : observation_ok m → accepted_call c m m' → observation_ok m'.
Proof.
  intros Hok Hc. pose proof (accepted_extends _ _ _ Hc) as Hext. pose proof Hok as Hok'.
  pose proof (kept_patterns _ _ Hok Hext) as HP. pose proof (kept_recipes _ _ Hok Hext) as HR.
  pose proof (kept_skills _ _ Hok Hext) as HS. destruct Hok as [Htr _ _ _ Hnp Hnr Hns].
  destruct c as [p|t now|pattern now|recipe now|skill now|p id]; cbn [accepted_call] in Hc; destruct_and?; subst m'.
  - split; try done. intros q id t Ht. destruct (Htr q id t Ht) as (? & ? & ? & ?). split_and!; [set_solver|done..].
  - split; try done. intros q id u Hu. rewrite trace_of_add in Hu.
    case_bool_decide as Hq; [destruct Hq as [-> ->]; by simplify_eq|]. by apply Htr.
  - split; try done; cbn.
    + intros x [Hx| ->%list_elem_of_singleton]%elem_of_app; [by apply HP|].
      split_and!; try done. intros id Hid. eapply usable_known. eauto.
    + apply NoDup_push; [done|]. intros y Hy [= ? ?]. naive_solver.
  - split; try done; cbn.
    + intros x [Hx| ->%list_elem_of_singleton]%elem_of_app; [by apply HR|].
      split_and!; try done. intros r Hr. apply (known_extends m); [done|]. eapply supported_known. eauto.
    + apply NoDup_push; [done|]. intros y Hy [= ? ?]. naive_solver.
  - split; try done; cbn.
    + intros x [Hx| ->%list_elem_of_singleton]%elem_of_app; [by apply HS|]. naive_solver.
    + apply NoDup_push; [done|]. intros y Hy [= ? ?]. naive_solver.
  - split; try done. intros q id' u Hu. rewrite trace_of_exclude in Hu.
    case_bool_decide; [|by apply Htr]. apply fmap_Some in Hu as (v & Hv & ->). exact (Htr q id' v Hv).
Qed.
Lemma observe_cases c m :
  ((observe c m).2 = Ok () ∧ accepted_call c m (observe c m).1)
  ∨ (is_ok (observe c m).2 = false ∧ (observe c m).1 = m).
Proof.
  pose proof (observe_post c m) as Hpost. unfold post in Hpost. destruct (observe c m) as [m' [[]|e]]; auto.
Qed.
Lemma observe_ok c m : observation_ok m → observation_ok (observe c m).1.
Proof. intros Hok. destruct (observe_cases c m) as [[_ Hc]|[_ ->]]; [by eapply accepted_ok|done]. Qed.
Lemma observe_all_ok calls m : observation_ok m → observation_ok (observe_all calls m).
Proof. revert m. induction calls as [|c calls IH]; intros m Hok; [done|]. by apply IH, observe_ok. Qed.

(** the model of observation is well formed after every sequence of calls: each
    trace is kept under its own project and id and respects the redaction profile, only
    enabled projects have anything, the references of patterns, recipes and skills
    exist in their own project, and no id is used twice in a project; a call that is
    refused changes nothing. *)
Theorem observation_invariant (calls : list ObservationCall) (c : ObservationCall) :
  let m := observe_all calls ObservationModel_new in
  observation_ok m
  ∧ (is_ok (observe c m).2 = false → (observe c m).1 = m).
Proof.
  split; [apply observe_all_ok, new_ok|]. intros Herr.
  destruct (observe_cases c (observe_all calls ObservationModel_new)) as [[Hok _]|[_ ->]]; [|done].
  by rewrite Hok in Herr.
Qed.

(** ** No project learns of another *)

Definition of_project p (calls : list ObservationCall) : list ObservationCall :=
  filter (λ c, project_of c = p) calls.
Lemma observe_all_view p calls m1 m2 :
  view m1 p = view m2 p → view (observe_all calls m1) p = view (observe_all (of_project p calls) m2) p.
Proof.
  revert m1 m2. induction calls as [|c calls IH]; intros m1 m2 Hview; [done|].
  unfold of_project. rewrite filter_cons. cbn [observe_all foldl]. destruct (decide (project_of c = p)) as [<-|Hne].
  - apply IH. by apply observe_agree.
  - apply IH. by rewrite observe_view_other.
Qed.

(** C31: what a project has, and what its calls return, is as if the other projects'
    calls had never been made, but for which of the refusals [CrossProject] and
    [Ineligible] names a reference that the project does not have. *)
Theorem observation_isolated (calls : list ObservationCall) (c : ObservationCall) m :
  let p := project_of c in
  view (observe_all calls m) p = view (observe_all (of_project p calls) m) p
  ∧ refusal (observe c (observe_all calls m)).2 = refusal (observe c (observe_all (of_project p calls) m)).2.
Proof.
  intros p. assert (Hview : view (observe_all calls m) p = view (observe_all (of_project p calls) m) p)
    by by apply observe_all_view.
  split; [done|]. by apply observe_agree.
Qed.

(** ** Exclusion is for good *)

Definition is_excluded m p id : bool := is_some_and tr_excluded (trace_of m p id).
Lemma excluded_unusable m p id now : is_excluded m p id = true → usable m now p id = false.
Proof.
  unfold is_excluded, usable. destruct (trace_of m p id) as [t|]; [|done]. cbn. unfold trace_is_eligible.
  intros ->. by rewrite andb_false_r.
Qed.
Lemma observe_excluded c m p id : is_excluded m p id = true → is_excluded (observe c m).1 p id = true.
Proof.
  intros Hex. destruct (observe_cases c m) as [[_ Hc]|[_ ->]]; [|done].
  destruct c as [q|t now|pattern now|recipe now|skill now|q id']; cbn [accepted_call] in Hc; destruct_and?;
    match goal with Hm : (observe _ _).1 = _ |- _ => rewrite Hm end; try done.
  - unfold is_excluded in *. rewrite trace_of_add. case_bool_decide as Hq; [|done].
    destruct Hq as [-> ->]. by match goal with Hn : trace_of _ _ _ = None |- _ => rewrite Hn in Hex end.
  - unfold is_excluded in *. rewrite trace_of_exclude. case_bool_decide; [|done]. by destruct (trace_of m p id).
Qed.
Lemma observe_all_excluded calls m p id :
  is_excluded m p id = true → is_excluded (observe_all calls m) p id = true.
Proof. revert m. induction calls as [|c calls IH]; intros m Hex; [done|]. by apply IH, observe_excluded. Qed.
Lemma exclude_excluded m p id :
  (observe (CallExclude p id) m).2 = Ok () → is_excluded (observe (CallExclude p id) m).1 p id = true.
Proof.
  intros Hr. destruct (observe_cases (CallExclude p id) m) as [[_ [[t Ht] Hm]]|[Hf _]]; [|by rewrite Hr in Hf].
  rewrite Hm. unfold is_excluded. by rewrite trace_of_exclude, bool_decide_eq_true_2, Ht.
Qed.
(** A suggestion that does not rest on the trace. *)
Definition rests_elsewhere m (now : Z) p (id reference : string) : Prop :=
  (reference ≠ id ∧ usable m now p reference = true)
  ∨ ∃ pattern, pattern ∈ om_patterns m ∧ po_project_id pattern = p ∧ po_pattern_id pattern = reference
      ∧ id ∉ po_trace_ref_ids pattern.
Lemma supported_elsewhere m now p id reference :
  is_excluded m p id = true → supported m now p reference → rests_elsewhere m now p id reference.
Proof.
  intros Hex%(excluded_unusable _ _ _ now) [Hu|(x & ? & ? & ? & Hall)]; [left|right].
  - split; [|done]. intros ->. by rewrite Hex in Hu.
  - exists x. split_and!; [done..|]. intros Hin. by rewrite Hall in Hex.
Qed.

(** once a trace has been excluded, no pattern over it, no recipe and no skill that
    rests on it or on a pattern over it is accepted, whatever is called meanwhile and
    whatever time it is; the record of the trace is kept and only marked. *)
Theorem exclusion_permanent p id m calls :
  (observe (CallExclude p id) m).2 = Ok () →
  let m' := observe_all calls (observe (CallExclude p id) m).1 in
  trace_of (observe (CallExclude p id) m).1 p id = set_excluded <$> trace_of m p id
  ∧ (∀ pattern now, po_project_id pattern = p → (observe (CallAddPattern pattern now) m').2 = Ok () →
       id ∉ po_trace_ref_ids pattern)
  ∧ (∀ recipe now, re_project_id recipe = p → (observe (CallAddRecipe recipe now) m').2 = Ok () →
       ∀ reference, reference ∈ re_provenance_refs recipe → rests_elsewhere m' now p id reference)
  ∧ (∀ skill now, sk_project_id skill = p → (observe (CallAddSkill skill now) m').2 = Ok () →
       ∃ recipe, recipe ∈ om_recipes m' ∧ re_recipe_id recipe = sk_recipe_id skill ∧ re_project_id recipe = p
         ∧ ∀ reference, reference ∈ re_provenance_refs recipe → rests_elsewhere m' now p id reference).
Proof.
  intros Hr m'. pose proof (exclude_excluded _ _ _ Hr) as Hex.
  apply (observe_all_excluded calls) in Hex. fold m' in Hex.
  assert (Hacc : ∀ c, (observe c m').2 = Ok () → accepted_call c m' (observe c m').1).
  { intros c Hc. destruct (observe_cases c m') as [[_ ?]|[Hf _]]; [done|]. by rewrite Hc in Hf. }
  split_and!.
  - destruct (observe_cases (CallExclude p id) m) as [[_ [_ Hm]]|[Hf _]]; [|by rewrite Hr in Hf].
    by rewrite Hm, trace_of_exclude, bool_decide_eq_true_2.
  - intros pattern now <- Hc Hin. apply Hacc in Hc. destruct Hc as (_ & _ & _ & Hall & _).
    pose proof (excluded_unusable _ _ _ now Hex) as Hu. by rewrite Hall in Hu.
  - intros recipe now <- Hc reference Hin. apply Hacc in Hc. destruct Hc as (_ & _ & Hall & _).
    by apply supported_elsewhere, Hall.
  - intros skill now <- Hc. apply Hacc in Hc. destruct Hc as (_ & (recipe & ? & ? & ? & Hall) & _).
    exists recipe. split_and!; [done..|]. intros reference Hin. by apply supported_elsewhere, Hall.
Qed.
