(* ===== verification/ViewerDocument.v ===== *)
(** * Viewer documents

    Model of [crates/rho-extension-runtime/src/viewer_document.rs]: the documents
    that a plugin may have shown, and the results of its commands. *)
From S2P Require Import Prelude Text Errors External Contribution.
#[local] Open Scope Z_scope.

Definition PLUGIN_VIEWER_DOCUMENT_CONTRACT : string := "rho.plugin_viewer_document.v1".
Definition MAX_VIEWER_BLOCKS : Z := 128.
Definition MAX_VIEWER_TEXT_BYTES : Z := 64 * 1024.
Definition MAX_VIEWER_TABLE_ROWS : Z := 500.
Definition MAX_VIEWER_TABLE_COLUMNS : Z := 100.
Definition MAX_VIEWER_KEY_VALUE_ITEMS : Z := 128.
Definition MAX_VIEWER_DOCUMENT_JSON_BYTES : Z := 1024 * 1024.

Module ViewerNoticeToneV1.
Inductive t := Info | Warning | Error.
End ViewerNoticeToneV1.
Record ViewerKeyValueItemV1 := MkItem { kv_key : string; kv_value : string }.
Inductive ViewerBlockV1 :=
| Text (text : string)
| Code (code : string) (language : option string)
| KeyValue (items : list ViewerKeyValueItemV1)
| Table (columns : list string) (rows : list (list string))
| Notice (tone : ViewerNoticeToneV1.t) (text : string)
| ArtifactImageRef (artifact_id media_type alt : string).
Record ViewerDocumentV1 := MkDocument { vd_contract : string; vd_title : string; vd_blocks : list ViewerBlockV1 }.
Inductive PluginCommandResultV1 :=
| Notification (message : string)
| ResultDocument (document : ViewerDocumentV1)
| ArtifactRef (artifact_id : string).

(** What [serde_json] does by the derived code: reading a value as one of these
    types, and encoding a document. *)
Class ViewerSerde `{SerdeNumber} := {
  document_from_value : Value → option ViewerDocumentV1;
  document_to_vec : ViewerDocumentV1 → option (list ascii);
  command_result_from_value : Value → option PluginCommandResultV1
}.

(** ** Texts *)

Definition contains_disallowed_control (character : Z) : bool :=
  is_control character && negb ((character =? 10) || (character =? 13) || (character =? 9)).
Definition validate_single_line (value : string) (maximum_bytes : Z) (label : string) : result string () :=
  fail_if (str_is_empty value || negb (str_eq (str_trim value) value) || (maximum_bytes <? str_len value)
           || existsb is_control (chars value) || contains_bidi_override value)
    (label +:+ " is invalid").
Definition validate_display_text (value : string) (maximum_bytes : Z) (label : string) : result string () :=
  fail_if ((maximum_bytes <? str_len value) || str_contains (byte_of 0) value
           || existsb contains_disallowed_control (chars value) || contains_bidi_override value)
    (label +:+ " is invalid").
Definition validate_not_trusted_surface_text (value label : string) : result string () :=
  let lowercase := str_to_lowercase value in
  fail_if (existsb (λ term, str_contains_str term lowercase) reserved_terms)
    (label +:+ " uses reserved trusted-surface terminology").

Definition language_byte (byte : ascii) : bool :=
  is_ascii_lowercase byte || is_ascii_digit byte || one_of ["+"; "#"; "-"; "_"]%char byte.
Definition invalid_language (language : string) : bool :=
  str_is_empty language || (32 <? str_len language) || negb (forallb language_byte (str_bytes language)).
Definition artifact_byte (byte : ascii) : bool :=
  is_ascii_lowercase byte || is_ascii_uppercase byte || is_ascii_digit byte || one_of ["_"; "-"; "."]%char byte.
Definition invalid_artifact_id (artifact_id : string) : bool :=
  str_is_empty artifact_id || (128 <? str_len artifact_id) || negb (forallb artifact_byte (str_bytes artifact_id)).
Definition image_media_types : list string := ["image/png"; "image/jpeg"; "image/gif"; "image/webp"].

(** ** Documents *)

Definition exceeds (what : string) (maximum : Z) (unit : string) : string :=
  what +:+ " exceeds " +:+ pretty maximum +:+ " " +:+ unit.

Definition validate_row (columns : list string) (row : list string) : result string () :=
  _ ← fail_if (negb (vec_len row =? vec_len columns)) "Viewer table row width does not match columns";
  for_each (λ cell, validate_display_text cell MAX_VIEWER_TEXT_BYTES "Viewer table cell") row.
Definition validate_block (block : ViewerBlockV1) : result string () :=
  match block with
  | Text text | Notice _ text => validate_display_text text MAX_VIEWER_TEXT_BYTES "Viewer text"
  | Code code language =>
      _ ← validate_display_text code MAX_VIEWER_TEXT_BYTES "Viewer code";
      fail_if (is_some_and invalid_language language) "Viewer code language is invalid"
  | KeyValue items =>
      _ ← fail_if (MAX_VIEWER_KEY_VALUE_ITEMS <? vec_len items)
            (exceeds "Viewer key/value block" MAX_VIEWER_KEY_VALUE_ITEMS "items");
      for_each (λ item,
        _ ← validate_single_line (kv_key item) 1024 "Viewer key";
        validate_display_text (kv_value item) MAX_VIEWER_TEXT_BYTES "Viewer value") items
  | Table columns rows =>
      _ ← fail_if (vec_is_empty columns || (MAX_VIEWER_TABLE_COLUMNS <? vec_len columns))
            ("Viewer table must have 1 to " +:+ pretty MAX_VIEWER_TABLE_COLUMNS +:+ " columns");
      _ ← fail_if (MAX_VIEWER_TABLE_ROWS <? vec_len rows) (exceeds "Viewer table" MAX_VIEWER_TABLE_ROWS "rows");
      _ ← for_each (λ column, validate_single_line column 1024 "Viewer table column") columns;
      for_each (validate_row columns) rows
  | ArtifactImageRef artifact_id media_type alt =>
      _ ← fail_if (invalid_artifact_id artifact_id) "Viewer Artifact ID is invalid";
      _ ← fail_if (negb (bool_decide (media_type ∈ image_media_types)))
            "Viewer Artifact media type is unsupported";
      validate_single_line alt 1024 "Viewer image alt text"
  end.

(** [ViewerDocumentV1::artifact_image_refs]. *)
Definition artifact_image_refs (d : ViewerDocumentV1) : list (string * string) :=
  omap (λ block, match block with
    | ArtifactImageRef artifact_id media_type _ => Some (artifact_id, media_type)
    | _ => None
    end) (vd_blocks d).

Section serde.
Context `{SerdeNumber, !SerdeToVec, !ViewerSerde}.

Definition validate_document (d : ViewerDocumentV1) : result string () :=
  _ ← fail_if (negb (str_eq (vd_contract d) PLUGIN_VIEWER_DOCUMENT_CONTRACT))
        "ViewerDocument contract is unsupported";
  _ ← validate_single_line (vd_title d) 128 "ViewerDocument title";
  _ ← validate_not_trusted_surface_text (vd_title d) "ViewerDocument title";
  _ ← fail_if (MAX_VIEWER_BLOCKS <? vec_len (vd_blocks d)) (exceeds "ViewerDocument" MAX_VIEWER_BLOCKS "blocks");
  _ ← for_each validate_block (vd_blocks d);
  bytes ← ok_or (document_to_vec d) "ViewerDocument could not be encoded";
  fail_if (MAX_VIEWER_DOCUMENT_JSON_BYTES <? vec_len bytes)
    (exceeds "ViewerDocument" MAX_VIEWER_DOCUMENT_JSON_BYTES "bytes").
Definition parse_document (value : Value) : result string ViewerDocumentV1 :=
  bytes ← map_err (λ _, "ViewerDocument could not be encoded") (to_vec value);
  _ ← fail_if (MAX_VIEWER_DOCUMENT_JSON_BYTES <? vec_len bytes)
        (exceeds "ViewerDocument" MAX_VIEWER_DOCUMENT_JSON_BYTES "bytes");
  document ← ok_or (document_from_value value) "ViewerDocument shape is invalid";
  _ ← validate_document document;
  Ok document.

Definition validate_command_result (r : PluginCommandResultV1) : result string () :=
  match r with
  | Notification message =>
      _ ← validate_display_text message 1024 "Plugin notification";
      validate_not_trusted_surface_text message "Plugin notification"
  | ResultDocument document => validate_document document
  | ArtifactRef artifact_id => fail_if (invalid_artifact_id artifact_id) "Plugin command Artifact ID is invalid"
  end.
Definition parse_command_result (value : Value) : result string PluginCommandResultV1 :=
  bytes ← map_err (λ _, "Plugin command result could not be encoded") (to_vec value);
  _ ← fail_if (MAX_VIEWER_DOCUMENT_JSON_BYTES <? vec_len bytes)
        "Plugin command result exceeds its byte budget";
  result ← ok_or (command_result_from_value value) "Plugin command result shape is invalid";
  _ ← validate_command_result result;
  Ok result.
End serde.
