(* ===== verification/ViewerDocumentProps.v ===== *)
(** * Properties of viewer documents

    What an accepted document or command result can contain, said without the order
    and the shape of the checks. *)
From S2P Require Import Prelude Text Errors External Contribution ViewerDocument.
#[local] Open Scope Z_scope.

(** ** The contract *)

Definition control_char (c : Z) : Prop := c < 32 ∨ 127 ≤ c ≤ 159.
Definition bidi_char (c : Z) : Prop := c ∈ [1564; 8206; 8207] ∨ 8234 ≤ c ≤ 8238 ∨ 8294 ≤ c ≤ 8297.

(** A label: one line, trimmed. *)
Record label_ok (maximum : Z) (s : string) : Prop := {
  lb_nonempty : s ≠ "";
  lb_trimmed : str_trim s = s;
  lb_len : str_len s ≤ maximum;
  lb_chars : ∀ c, c ∈ chars s → ¬ control_char c ∧ ¬ bidi_char c
}.
(** A text: line breaks and tabs are the only controls. *)
Record text_ok (maximum : Z) (s : string) : Prop := {
  tx_len : str_len s ≤ maximum;
  tx_nul : byte_of 0 ∉ str_bytes s;
  tx_chars : ∀ c, c ∈ chars s → ¬ bidi_char c ∧ (control_char c → c ∈ [9; 10; 13])
}.
(** The text does not speak for the application. *)
Definition no_reserved_term (s : string) : Prop :=
  ∀ term, term ∈ reserved_terms → ¬ ∃ a b, str_bytes (str_to_lowercase s) = a ++ str_bytes term ++ b.
(** A name that is no path: letters, digits, [_], [-] and [.]. *)
Definition token_ok (maximum : Z) (byte_ok : ascii → bool) (s : string) : Prop :=
  0 < str_len s ≤ maximum ∧ ∀ b, b ∈ str_bytes s → byte_ok b = true.

Definition block_ok (block : ViewerBlockV1) : Prop :=
  match block with
  | Text text | Notice _ text => text_ok MAX_VIEWER_TEXT_BYTES text
  | Code code language =>
      text_ok MAX_VIEWER_TEXT_BYTES code ∧ (∀ l, language = Some l → token_ok 32 language_byte l)
  | KeyValue items =>
      vec_len items ≤ MAX_VIEWER_KEY_VALUE_ITEMS
      ∧ ∀ item, item ∈ items → label_ok 1024 (kv_key item) ∧ text_ok MAX_VIEWER_TEXT_BYTES (kv_value item)
  | Table columns rows =>
      1 ≤ vec_len columns ≤ MAX_VIEWER_TABLE_COLUMNS ∧ vec_len rows ≤ MAX_VIEWER_TABLE_ROWS
      ∧ (∀ column, column ∈ columns → label_ok 1024 column)
      ∧ ∀ row, row ∈ rows → length row = length columns ∧ ∀ cell, cell ∈ row → text_ok MAX_VIEWER_TEXT_BYTES cell
  | ArtifactImageRef artifact_id media_type alt =>
      token_ok 128 artifact_byte artifact_id ∧ media_type ∈ image_media_types ∧ label_ok 1024 alt
  end.
Record document_ok `{ViewerSerde} (d : ViewerDocumentV1) : Prop := {
  dc_contract : vd_contract d = PLUGIN_VIEWER_DOCUMENT_CONTRACT;
  dc_title : label_ok 128 (vd_title d);
  dc_trusted : no_reserved_term (vd_title d);
  dc_count : vec_len (vd_blocks d) ≤ MAX_VIEWER_BLOCKS;
  dc_blocks : ∀ block, block ∈ vd_blocks d → block_ok block;
  dc_size : ∃ bytes, document_to_vec d = Some bytes ∧ vec_len bytes ≤ MAX_VIEWER_DOCUMENT_JSON_BYTES
}.
Definition result_ok `{ViewerSerde} (r : PluginCommandResultV1) : Prop :=
  match r with
  | Notification message => text_ok 1024 message ∧ no_reserved_term message
  | ResultDocument document => document_ok document
  | ArtifactRef artifact_id => token_ok 128 artifact_byte artifact_id
  end.

(** ** The checks decide it *)

Lemma is_control_char c : is_control c = true ↔ control_char c.
Proof. unfold is_control, control_char. rewrite orb_true_iff, andb_true_iff. lia. Qed.
Lemma is_bidi_char c : is_bidi_control c = true ↔ bidi_char c.
Proof.
  unfold is_bidi_control, bidi_char. rewrite !orb_true_iff, !andb_true_iff, !elem_of_cons, elem_of_nil, !Z.eqb_eq. lia.
Qed.
Lemma no_bidi s : contains_bidi_override s = false ↔ ∀ c, c ∈ chars s → ¬ bidi_char c.
Proof. unfold contains_bidi_override. rewrite existsb_False. setoid_rewrite <-is_bidi_char. by setoid_rewrite not_true_iff_false. Qed.
Lemma validate_single_line_Ok s maximum label : validate_single_line s maximum label = Ok () ↔ label_ok maximum s.
Proof.
  unfold validate_single_line. rewrite fail_if_Ok, !orb_false_iff, negb_false_iff, str_eq_true, no_bidi, existsb_False,
    Z.ltb_ge. unfold str_is_empty. rewrite bool_decide_eq_false.
  setoid_rewrite <-not_true_iff_false. setoid_rewrite is_control_char.
  split; [intros ((((? & ?) & ?) & ?) & ?); split; naive_solver|intros [? ? ? ?]; naive_solver].
Qed.
Lemma validate_display_text_Ok s maximum label : validate_display_text s maximum label = Ok () ↔ text_ok maximum s.
Proof.
  unfold validate_display_text. rewrite fail_if_Ok, !orb_false_iff, no_bidi, existsb_False, Z.ltb_ge, str_contains_false.
  assert (Hc : ∀ c, contains_disallowed_control c = false ↔ (control_char c → c ∈ [9; 10; 13])).
  { intros c. unfold contains_disallowed_control. rewrite andb_false_iff, negb_false_iff, !orb_true_iff,
      !elem_of_cons, elem_of_nil, !Z.eqb_eq, <-is_control_char. destruct (is_control c); naive_solver. }
  setoid_rewrite Hc. split; [intros (((? & ?) & ?) & ?); split; naive_solver|intros [? ? ?]; naive_solver].
Qed.
Lemma validate_not_trusted_Ok s label : validate_not_trusted_surface_text s label = Ok () ↔ no_reserved_term s.
Proof.
  unfold validate_not_trusted_surface_text, no_reserved_term. rewrite fail_if_Ok, existsb_False.
  setoid_rewrite <-not_true_iff_false. by setoid_rewrite str_contains_str_true.
Qed.
Lemma token_ok_iff s maximum byte_ok :
  str_is_empty s || (maximum <? str_len s) || negb (forallb byte_ok (str_bytes s)) = false ↔ token_ok maximum byte_ok s.
Proof.
  rewrite !orb_false_iff, negb_false_iff, forallb_True, Z.ltb_ge. unfold token_ok.
  pose proof (str_len_nonneg s). pose proof (str_is_empty_len s). destruct (str_is_empty s); naive_solver lia.
Qed.
Lemma invalid_language_false l : invalid_language l = false ↔ token_ok 32 language_byte l.
Proof. apply token_ok_iff. Qed.
Lemma invalid_artifact_id_false i : invalid_artifact_id i = false ↔ token_ok 128 artifact_byte i.
Proof. apply token_ok_iff. Qed.
Lemma vec_len_one {A} (l : list A) : vec_is_empty l = false ↔ 1 ≤ vec_len l.
Proof. unfold vec_len. destruct l; cbn; [|split; [lia|done]]. split; [done|lia]. Qed.
Lemma for_each_elem {A} (body : A → result string ()) (P : A → Prop) l :
  (∀ x, body x = Ok () ↔ P x) → for_each body l = Ok () ↔ ∀ x, x ∈ l → P x.
Proof. intros Hb. rewrite for_each_Ok, Forall_forall. by setoid_rewrite Hb. Qed.

Lemma validate_row_Ok columns row : validate_row columns row = Ok () ↔
  length row = length columns ∧ ∀ cell, cell ∈ row → text_ok MAX_VIEWER_TEXT_BYTES cell.
Proof.
  unfold validate_row. rewrite bind_unit_Ok_iff, fail_if_Ok, negb_false_iff, Z.eqb_eq.
  rewrite (for_each_elem _ _ _ (λ cell, validate_display_text_Ok cell _ _)). unfold vec_len. by rewrite Nat2Z.inj_iff.
Qed.
Lemma validate_block_Ok block : validate_block block = Ok () ↔ block_ok block.
Proof.
  destruct block as [text|code language|items|columns rows|tone text|artifact_id media_type alt];
    cbn [validate_block block_ok]; rewrite ?bind_unit_Ok_iff, ?fail_if_Ok.
  - apply validate_display_text_Ok.
  - rewrite validate_display_text_Ok. apply and_iff_compat_l. destruct language as [l|]; cbn; [|naive_solver].
    rewrite invalid_language_false. naive_solver.
  - rewrite Z.ltb_ge. apply and_iff_compat_l, for_each_elem. intros item.
    by rewrite bind_unit_Ok_iff, validate_single_line_Ok, validate_display_text_Ok.
  - rewrite orb_false_iff, vec_len_one, !Z.ltb_ge.
    rewrite (for_each_elem _ _ _ (λ c, validate_single_line_Ok c _ _)), (for_each_elem _ _ _ (validate_row_Ok columns)).
    tauto.
  - apply validate_display_text_Ok.
  - by rewrite invalid_artifact_id_false, negb_false_iff, bool_decide_eq_true, validate_single_line_Ok.
Qed.

Section serde.
Context `{SerdeNumber, !SerdeToVec, !ViewerSerde}.

Lemma validate_document_Ok d : validate_document d = Ok () ↔ document_ok d.
Proof.
  unfold validate_document. rewrite !bind_unit_Ok_iff, !fail_if_Ok, negb_false_iff, str_eq_true, Z.ltb_ge.
  rewrite validate_single_line_Ok, validate_not_trusted_Ok, (for_each_elem _ _ _ validate_block_Ok), bind_Ok_iff.
  setoid_rewrite ok_or_Ok. setoid_rewrite fail_if_Ok. setoid_rewrite Z.ltb_ge.
  split; [intros (? & ? & ? & ? & ? & ?); by split|intros []; tauto].
Qed.
Lemma validate_command_result_Ok r : validate_command_result r = Ok () ↔ result_ok r.
Proof.
  destruct r; cbn [validate_command_result result_ok].
  - by rewrite bind_unit_Ok_iff, validate_display_text_Ok, validate_not_trusted_Ok.
  - apply validate_document_Ok.
  - by rewrite fail_if_Ok, invalid_artifact_id_false.
Qed.
(** Reading a value: bounded, well-formed JSON first, then the checks. *)
Definition reads {A} (from_value : Value → option A) (value : Value) (a : A) : Prop :=
  (∃ bytes, to_vec value = Ok bytes ∧ vec_len bytes ≤ MAX_VIEWER_DOCUMENT_JSON_BYTES) ∧ from_value value = Some a.

Lemma parse_document_Ok value d :
  parse_document value = Ok d ↔ reads document_from_value value d ∧ document_ok d.
Proof.
  unfold parse_document, reads. rewrite bind_Ok_iff. setoid_rewrite map_err_Ok. setoid_rewrite bind_unit_Ok_iff.
  setoid_rewrite fail_if_Ok. setoid_rewrite Z.ltb_ge. setoid_rewrite bind_Ok_iff. setoid_rewrite ok_or_Ok.
  setoid_rewrite bind_unit_Ok_iff. setoid_rewrite validate_document_Ok. naive_solver.
Qed.
Lemma parse_command_result_Ok value r :
  parse_command_result value = Ok r ↔ reads command_result_from_value value r ∧ result_ok r.
Proof.
  unfold parse_command_result, reads. rewrite bind_Ok_iff. setoid_rewrite map_err_Ok. setoid_rewrite bind_unit_Ok_iff.
  setoid_rewrite fail_if_Ok. setoid_rewrite Z.ltb_ge. setoid_rewrite bind_Ok_iff. setoid_rewrite ok_or_Ok.
  setoid_rewrite bind_unit_Ok_iff. setoid_rewrite validate_command_result_Ok. naive_solver.
Qed.
End serde.

Lemma artifact_image_refs_elem d id media_type : (id, media_type) ∈ artifact_image_refs d ↔
  ∃ alt, ArtifactImageRef id media_type alt ∈ vd_blocks d.
Proof.
  unfold artifact_image_refs. rewrite list_elem_of_omap. split.
  - intros (block & Hin & Hb). destruct block; simplify_eq. eauto.
  - intros (alt & Hin). by exists (ArtifactImageRef id media_type alt).
Qed.
Lemma artifact_byte_no_path : artifact_byte "/" = false ∧ artifact_byte "\" = false ∧ artifact_byte ":" = false.
Proof. by vm_compute. Qed.

(** C32: a value is accepted as a viewer document or a command result exactly when it is
    small enough, has the shape and meets the contract: bounded numbers of blocks, rows,
    columns and bytes, tables that are rectangular, no control or bidirectional
    characters, no title or notification in the application's name; and the artifacts a
    document asks for are images of a known type, named by tokens that are no paths. *)
Theorem viewer_payloads_correct `{SerdeNumber, !SerdeToVec, !ViewerSerde} (value : Value) :
  (∀ d, parse_document value = Ok d ↔ reads document_from_value value d ∧ document_ok d)
  ∧ (∀ r, parse_command_result value = Ok r ↔ reads command_result_from_value value r ∧ result_ok r)
  ∧ (∀ d id media_type, parse_document value = Ok d → (id, media_type) ∈ artifact_image_refs d →
       media_type ∈ image_media_types ∧ token_ok 128 artifact_byte id
       ∧ ∀ separator, separator ∈ ["/"; "\"; ":"]%char → separator ∉ str_bytes id).
Proof.
  split_and!; [intros d; apply parse_document_Ok|intros r; apply parse_command_result_Ok|].
  intros d id media_type [_ Hd]%parse_document_Ok (alt & Hin)%artifact_image_refs_elem.
  destruct (dc_blocks _ Hd _ Hin) as (Hid & ? & _). split_and!; [done|done|].
  intros sep Hsep Hin'%(proj2 Hid). destruct artifact_byte_no_path as (? & ? & ?).
  rewrite !elem_of_cons, elem_of_nil in Hsep. naive_solver congruence.
Qed.
