(* ===== verification/PluginNetwork.v ===== *)
(** * Network fetches of plugins

    Model of [crates/rho-server/src/plugin_network.rs]: the URL and address policy,
    and the engine that fetches over at most three redirects.  URLs are the [url]
    crate's, a parameter; the resolver, the transport and the authorizer are trait
    objects whose answers may depend on everything that has happened so far.  The
    engine's state is the history of its calls to them. *)
From S2P Require Import Prelude Text Errors Stateful Glob.
#[local] Open Scope Z_scope.

Definition MAX_PLUGIN_NETWORK_URL_BYTES : Z := 2048.
Definition MAX_PLUGIN_NETWORK_RESPONSE_BYTES : Z := 1024 * 1024.
Definition MAX_PLUGIN_NETWORK_REDIRECTS : Z := 3.

(** ** Addresses *)

Inductive IpAddr :=
| V4 (a b c d : Z)
| V6 (s0 s1 s2 s3 s4 s5 s6 s7 : Z).
#[global] Instance IpAddr_eq_dec : EqDecision IpAddr.
Proof. solve_decision. Defined.

(** [(lo..=hi).contains(&x)]. *)
Definition within (lo hi x : Z) : bool := (lo <=? x) && (x <=? hi).
Definition is_public_ipv4 (a b c : Z) : bool :=
  negb ((a =? 0) || (a =? 10) || (a =? 127)
        || ((a =? 100) && within 64 127 b)
        || ((a =? 169) && (b =? 254))
        || ((a =? 172) && within 16 31 b)
        || ((a =? 192) && (b =? 168))
        || ((a =? 192) && (b =? 0) && (c =? 0))
        || ((a =? 192) && (b =? 0) && (c =? 2))
        || ((a =? 192) && (b =? 88) && (c =? 99))
        || ((a =? 198) && ((b =? 18) || (b =? 19)))
        || ((a =? 198) && (b =? 51) && (c =? 100))
        || ((a =? 203) && (b =? 0) && (c =? 113))
        || within 224 255 a).

(** The Standard Library's [is_unspecified], [is_loopback], [is_multicast] and
    [to_ipv4_mapped]. *)
Definition is_unspecified (s : list Z) : bool := forallb (λ x, x =? 0) s.
Definition is_loopback (s : list Z) : bool := bool_decide (s = [0; 0; 0; 0; 0; 0; 0; 1]).
Definition is_multicast (s : list Z) : bool := Z.land (default 0 (s !! 0%nat)) 65280 =? 65280.
Definition is_ipv4_mapped (s : list Z) : bool := bool_decide (take 6 s = [0; 0; 0; 0; 0; 65535]).
Definition is_public_ipv6 (s0 s1 s2 s3 s4 s5 s6 s7 : Z) : bool :=
  let segments := [s0; s1; s2; s3; s4; s5; s6; s7] in
  if is_unspecified segments || is_loopback segments || is_multicast segments || is_ipv4_mapped segments
     || (Z.land s0 65024 =? 64512)
     || (Z.land s0 65472 =? 65152)
     || (Z.land s0 65472 =? 65216)
     || (s0 =? 8194)
     || ((s0 =? 8193) && (s1 <=? 511))
     || ((s0 =? 8193) && (s1 =? 3512))
     || ((s0 =? 8193) && (s1 =? 2))
     || ((s0 =? 16383) && (Z.land s1 65520 =? 0))
  then false
  else Z.land s0 57344 =? 8192.
Definition is_public_ip (address : IpAddr) : bool :=
  match address with
  | V4 a b c _ => is_public_ipv4 a b c
  | V6 s0 s1 s2 s3 s4 s5 s6 s7 => is_public_ipv6 s0 s1 s2 s3 s4 s5 s6 s7
  end.

(** [Ipv4Addr::from_str]: four decimal numbers below 256 without leading zeros,
    separated by dots.  (An IPv6 address has a colon, and a host with a colon is
    refused by [valid_host] with the same error.) *)
Definition octet (l : list ascii) : bool :=
  match l with
  | [] => false
  | c :: l' =>
      forallb is_ascii_digit l && (vec_is_empty l' || negb (code c =? 48)) && (vec_len l <=? 3)
      && (foldl (λ n d, 10 * n + (code d - 48)) 0 l <? 256)
  end.
Definition is_ipv4_literal (host : string) : bool :=
  let parts := split_bytes (one_of ["."%char]) (str_bytes host) in
  (vec_len parts =? 4) && forallb octet parts.

(** ** Hosts *)

Definition host_char (byte : ascii) : bool :=
  is_ascii_lowercase byte || is_ascii_digit byte || one_of ["."; "-"]%char byte.
Definition valid_label (label : string) : bool :=
  negb (str_is_empty label) && (str_len label <=? 63)
  && negb (starts_with_char "-" label) && negb (ends_with_char "-" label).
Definition valid_host (host : string) : bool :=
  negb (str_is_empty host) && (str_len host <=? 253) && str_contains "." host
  && negb (starts_with_char "." host) && negb (ends_with_char "." host)
  && forallb host_char (str_bytes host)
  && forallb valid_label (str_split (one_of ["."%char]) host).
Definition host_matches (pattern host : string) : bool :=
  if negb (valid_host (default pattern (strip_prefix "*." pattern))) || negb (valid_host host) then false
  else match strip_prefix "*." pattern with
       | Some suffix =>
           (str_len suffix <? str_len host) && ends_with suffix host
           && bool_decide (byte_before suffix host = Some "."%char)
       | None => str_eq pattern host
       end.

(** ** Requests *)

Record NetworkFetchRequest := MkFetch {
  nf_url : string;
  nf_method : string;
  nf_max_response_bytes : Z;
  nf_expected_project_revision : Z
}.
Record NetworkFetchPolicy := MkPolicy {
  np_allowed_hosts : list string;
  np_allowed_methods : list string;
  np_max_response_bytes : Z;
  np_current_project_revision : Z
}.
Record NetworkHop := MkHop {
  nh_url : string;
  nh_origin : string;
  nh_host : string;
  nh_method : string;
  nh_addresses : list IpAddr
}.
Record NetworkHopAuthorization := MkAuthorization {
  na_scheme : string;
  na_host : string;
  na_method : string;
  na_requested_response_bytes : Z
}.
Record NetworkTransportResponse := MkTransportResponse {
  nt_status : Z;
  nt_safe_headers : gmap string string;
  nt_location : option string;
  nt_body : list ascii
}.
Record NetworkFetchResult := MkFetchResult {
  fr_status : Z;
  fr_headers : gmap string string;
  fr_final_origin : string;
  fr_content_type : option string;
  fr_content_encoding : string;
  fr_content : string;
  fr_size_bytes : Z;
  fr_truncated : bool;
  fr_redirect_count : Z
}.
Module NetworkFetchErrorCode.
Inductive t := InvalidUrl | HostNotAllowed | MethodNotAllowed | StaleProject | DnsFailed | NonPublicAddress
  | AuthorizationDenied | RedirectMissingLocation | TooManyRedirects | ResponseTooLarge | Timeout | TransportFailed.
#[global] Instance t_eq_dec : EqDecision t.
Proof. solve_decision. Defined.
End NetworkFetchErrorCode.
Import NetworkFetchErrorCode.
Record NetworkFetchError := MkFetchError { fe_code : NetworkFetchErrorCode.t; fe_completion_uncertain : bool }.
Definition fetch_error (code : NetworkFetchErrorCode.t) : NetworkFetchError := MkFetchError code false.
Definition with_uncertain (uncertain : bool) (e : NetworkFetchError) : NetworkFetchError :=
  MkFetchError (fe_code e) (fe_completion_uncertain e || uncertain).

(** ** What the engine relies on *)

(** The [url] crate, [StatusCode::from_u16] of the [http] crate and the standard
    encoding of the [base64] crate. *)
Class NetworkLibraries := {
  Url : Type;
  url_parse : string → option Url;
  url_scheme : Url → string;
  url_username : Url → string;
  url_password : Url → option string;
  url_fragment : Url → option string;
  url_port_or_known_default : Url → option Z;
  url_host_str : Url → option string;
  url_join : Url → string → option Url;
  url_to_string : Url → string;
  status_is_valid : Z → bool;
  base64_encode : list ascii → string
}.

(** A call of the engine to the outside, with the answer. *)
Inductive NetworkEvent :=
| Authorized (authorization : NetworkHopAuthorization) (answer : result NetworkFetchError ())
| Resolved (host : string) (answer : option (result NetworkFetchError (list IpAddr)))
| Sent (hop : NetworkHop) (maximum_bytes : Z) (answer : option (result NetworkFetchError NetworkTransportResponse)).
(** The authorizer, the resolver and the transport.  [None]: the deadline of the
    fetch passes while the engine waits for this answer. *)
Record NetworkWorld := MkWorld {
  world_authorize : list NetworkEvent → NetworkHopAuthorization → result NetworkFetchError ();
  world_resolve : list NetworkEvent → string → option (result NetworkFetchError (list IpAddr));
  world_send : list NetworkEvent → NetworkHop → Z → option (result NetworkFetchError NetworkTransportResponse)
}.

(** How [fetch_inner] ends without a value: with an error, or dropped at a wait. *)
Inductive interruption := FetchFailed (e : NetworkFetchError) | FetchDropped | FetchOutOfFuel.
(** The history, newest first, and the flag [dispatched]. *)
Record NetworkState := MkNetworkState { ns_history : list NetworkEvent; ns_dispatched : bool }.
Definition record_event (event : NetworkEvent) (s : NetworkState) : NetworkState :=
  MkNetworkState (event :: ns_history s) (ns_dispatched s).
Definition set_dispatched (s : NetworkState) : NetworkState := MkNetworkState (ns_history s) true.
Abbreviation net_m A := (stateful NetworkState interruption A).

(** ** The policy on URLs *)

Section libraries.
Context `{NetworkLibraries}.

Definition validate_url (url : string) (allowed_hosts : list string)
    : result NetworkFetchError (Url * string * string) :=
  _ ← fail_if (str_is_empty url || (MAX_PLUGIN_NETWORK_URL_BYTES <? str_len url) || existsb is_control (chars url))
        (fetch_error InvalidUrl);
  parsed ← ok_or (url_parse url) (fetch_error InvalidUrl);
  _ ← fail_if (negb (str_eq (url_scheme parsed) "https")
               || negb (str_is_empty (url_username parsed))
               || is_some (url_password parsed)
               || is_some (url_fragment parsed)
               || negb (bool_decide (url_port_or_known_default parsed = Some 443)))
        (fetch_error InvalidUrl);
  host ← ok_or (host ← url_host_str parsed;
                if negb (ends_with_char "." host) && negb (is_ipv4_literal host) && valid_host host
                then Some host else None)
           (fetch_error InvalidUrl);
  let host := to_ascii_lowercase host in
  _ ← fail_if (negb (existsb (λ allowed, host_matches allowed host) allowed_hosts)) (fetch_error HostNotAllowed);
  Ok (parsed, host, "https://" +:+ host).

Definition hop_authorization (request : NetworkFetchRequest) (host : string) : NetworkHopAuthorization :=
  MkAuthorization "https" host (nf_method request) (nf_max_response_bytes request).
Definition network_request_authorization (request : NetworkFetchRequest) (policy : NetworkFetchPolicy)
    : result NetworkFetchError NetworkHopAuthorization :=
  _ ← fail_if (negb (nf_expected_project_revision request =? np_current_project_revision policy))
        (fetch_error StaleProject);
  _ ← fail_if ((nf_max_response_bytes request =? 0)
               || (np_max_response_bytes policy <? nf_max_response_bytes request)
               || (MAX_PLUGIN_NETWORK_RESPONSE_BYTES <? nf_max_response_bytes request))
        (fetch_error ResponseTooLarge);
  _ ← fail_if (negb (existsb (λ method, str_eq method (nf_method request)) (np_allowed_methods policy))
               || negb (str_eq (nf_method request) "GET" || str_eq (nf_method request) "HEAD"))
        (fetch_error MethodNotAllowed);
  '(_, host, _) ← validate_url (nf_url request) (np_allowed_hosts policy);
  Ok (hop_authorization request host).

(** ** Responses *)

Definition is_redirect (status : Z) : bool := bool_decide (status ∈ [301; 302; 303; 307; 308]).
Definition safe_header_names : list string := ["content-type"; "content-length"; "etag"; "last-modified"].
Definition unsafe_header_value (value : string) : bool := (8192 <? str_len value) || existsb is_control (chars value).
Definition filter_safe_header_map (headers : gmap string string) : result NetworkFetchError (gmap string string) :=
  try_fold (λ safe name,
    match headers !! name with
    | Some value =>
        _ ← fail_if (unsafe_header_value value) (with_uncertain true (fetch_error TransportFailed));
        Ok (<[name := value]> safe)
    | None => Ok safe
    end) ∅ safe_header_names.

(** ** The engine *)

Section engine.
Context (world : NetworkWorld) (request : NetworkFetchRequest) (policy : NetworkFetchPolicy).

(** [r.map_err(|error| error.with_uncertain(dispatched.load()))?]. *)
Definition or_fail {A} (r : result NetworkFetchError A) : net_m A :=
  s ← gets (λ s, s); lift (map_err (λ e, FetchFailed (with_uncertain (ns_dispatched s) e)) r).
Definition fail_fetch {A} (code : NetworkFetchErrorCode.t) : net_m A :=
  s ← gets (λ s, s); throw (FetchFailed (with_uncertain (ns_dispatched s) (fetch_error code))).
(** [...await]: the fetch may be dropped here. *)
Definition await {A} (answer : option A) : net_m A := lift (ok_or answer FetchDropped).

Definition authorize (authorization : NetworkHopAuthorization) : net_m () :=
  s ← gets (λ s, s);
  let answer := world_authorize world (ns_history s) authorization in
  _ ← modify (record_event (Authorized authorization answer));
  or_fail answer.
Definition resolve (host : string) : net_m (list IpAddr) :=
  s ← gets (λ s, s);
  let answer := world_resolve world (ns_history s) host in
  _ ← modify (record_event (Resolved host answer));
  reply ← await answer;
  or_fail reply.
Definition send (hop : NetworkHop) : net_m NetworkTransportResponse :=
  s ← gets (λ s, s);
  let answer := world_send world (ns_history s) hop (nf_max_response_bytes request) in
  _ ← modify (record_event (Sent hop (nf_max_response_bytes request) answer));
  reply ← await answer;
  or_fail reply.

(** One turn of the loop, up to the response. *)
Definition fetch_hop (current : string) : net_m (Url * NetworkHop * NetworkTransportResponse) :=
  '(url, host, origin) ← or_fail (validate_url current (np_allowed_hosts policy));
  let authorization := hop_authorization request host in
  _ ← authorize authorization;
  addresses ← resolve host;
  _ ← (if vec_is_empty addresses || existsb (λ address, negb (is_public_ip address)) addresses
       then fail_fetch NonPublicAddress else mret ());
  _ ← authorize authorization;
  let hop := MkHop (url_to_string url) origin host (nf_method request) addresses in
  _ ← modify set_dispatched;
  response ← send hop;
  _ ← authorize authorization;
  mret (url, hop, response).
Definition next_url (url : Url) (location : option string) : net_m string :=
  match location with
  | None => fail_fetch RedirectMissingLocation
  | Some location =>
      if (MAX_PLUGIN_NETWORK_URL_BYTES <? str_len location) || existsb is_control (chars location)
      then fail_fetch InvalidUrl
      else match url_join url location with
           | None => fail_fetch InvalidUrl
           | Some joined => mret (url_to_string joined)
           end
  end.
Definition finish_fetch (hop : NetworkHop) (response : NetworkTransportResponse) (redirects : Z)
    : net_m NetworkFetchResult :=
  if nf_max_response_bytes request <? vec_len (nt_body response) then fail_fetch ResponseTooLarge else
  safe_headers ← lift (map_err FetchFailed (filter_safe_header_map (nt_safe_headers response)));
  mret (MkFetchResult (nt_status response) safe_headers (nh_origin hop) (safe_headers !! "content-type")
    "base64" (base64_encode (nt_body response)) (vec_len (nt_body response)) false redirects).
Fixpoint fetch_loop (fuel : nat) (current : string) (redirects : Z) : net_m NetworkFetchResult :=
  match fuel with
  | O => throw FetchOutOfFuel
  | S fuel =>
      '(url, hop, response) ← fetch_hop current;
      if negb (status_is_valid (nt_status response)) then fail_fetch TransportFailed else
      if is_redirect (nt_status response) then
        if MAX_PLUGIN_NETWORK_REDIRECTS <=? redirects then fail_fetch TooManyRedirects else
        next ← next_url url (nt_location response);
        fetch_loop fuel next (redirects + 1)
      else finish_fetch hop response redirects
  end.
Definition fetch_inner : net_m NetworkFetchResult :=
  _ ← lift (map_err FetchFailed (network_request_authorization request policy));
  fetch_loop 4 (nf_url request) 0.

(** The engine's [fetch]: the history of its calls, newest first, and the result.
    [None] would be a loop that goes on after the fourth hop. *)
Definition fetch : list NetworkEvent * option (result NetworkFetchError NetworkFetchResult) :=
  let '(s, r) := fetch_inner (MkNetworkState [] false) in
  (ns_history s,
   match r with
   | Ok result => Some (Ok result)
   | Err (FetchFailed e) => Some (Err e)
   | Err FetchDropped => Some (Err (with_uncertain (ns_dispatched s) (fetch_error Timeout)))
   | Err FetchOutOfFuel => None
   end).
End engine.
End libraries.

(** ** The resolver and the transport of the application *)

Definition ip_key (address : IpAddr) : list Z :=
  match address with
  | V4 a b c d => [4; a; b; c; d]
  | V6 s0 s1 s2 s3 s4 s5 s6 s7 => [6; s0; s1; s2; s3; s4; s5; s6; s7]
  end.
#[global] Instance ip_key_inj : Inj (=) (=) ip_key.
Proof. intros [] [] [=]; by subst. Qed.
#[global] Instance IpAddr_ord : RustOrd IpAddr := rcmp_on ip_key.
#[global] Instance IpAddr_ord_laws : RustOrdLaws IpAddr.
Proof. apply rcmp_on_laws, _. Qed.
(** [TokioNetworkResolver::resolve] on what [lookup_host] answers. *)
Definition tokio_resolve (looked_up : option (list IpAddr)) : result NetworkFetchError (list IpAddr) :=
  addresses ← ok_or looked_up (fetch_error DnsFailed);
  let addresses := dedup (rsort addresses) in
  _ ← fail_if (vec_is_empty addresses) (fetch_error DnsFailed);
  Ok addresses.

(** A response of [reqwest]: the values of [Location] and of the headers by name,
    [None] when they are not text, and the chunks of the body in order.  An error is
    known by whether it [is_timeout]. *)
Record HttpResponse := MkHttpResponse {
  hr_status : Z;
  hr_location : option (option string);
  hr_headers : string → option (option string);
  hr_chunks : list (result bool (list ascii))
}.
Definition classify_reqwest_error (is_timeout : bool) : NetworkFetchError :=
  fetch_error (if is_timeout then Timeout else TransportFailed).
Definition safe_response_headers (headers : string → option (option string))
    : result NetworkFetchError (gmap string string) :=
  try_fold (λ safe name,
    match headers name with
    | Some value =>
        value ← ok_or value (fetch_error TransportFailed);
        _ ← fail_if (unsafe_header_value value) (fetch_error TransportFailed);
        Ok (<[name := value]> safe)
    | None => Ok safe
    end) ∅ safe_header_names.
(** The loop over [response.chunk()]. *)
Fixpoint read_body (body : list ascii) (chunks : list (result bool (list ascii))) (maximum_bytes : Z)
    : result NetworkFetchError (list ascii) :=
  match chunks with
  | [] => Ok body
  | chunk :: chunks =>
      chunk ← map_err classify_reqwest_error chunk;
      _ ← fail_if (maximum_bytes <? Z.min (vec_len body + vec_len chunk) (2 ^ 64 - 1)) (fetch_error ResponseTooLarge);
      read_body (body ++ chunk) chunks maximum_bytes
  end.
(** [ReqwestNetworkTransport::send]: whether the client could be built and the method
    is one, and the reply to the request. *)
Definition reqwest_send (client_built method_read : bool) (reply : result bool HttpResponse) (maximum_bytes : Z)
    : result NetworkFetchError NetworkTransportResponse :=
  _ ← fail_if (negb client_built) (fetch_error TransportFailed);
  _ ← fail_if (negb method_read) (fetch_error MethodNotAllowed);
  response ← map_err classify_reqwest_error reply;
  location ← match hr_location response with
             | None => Ok None
             | Some value => Some <$> ok_or value (fetch_error InvalidUrl)
             end;
  safe_headers ← safe_response_headers (hr_headers response);
  if is_redirect (hr_status response)
  then Ok (MkTransportResponse (hr_status response) safe_headers location [])
  else body ← read_body [] (hr_chunks response) maximum_bytes;
       Ok (MkTransportResponse (hr_status response) safe_headers location body).
