(* ===== verification/PluginNetworkProps.v ===== *)
(** * Properties of network fetches

    Public addresses are those outside the special-purpose blocks.  Whatever the
    resolver, the transport and the authorizer answer, a request goes only to public
    addresses of an allowed host, under an authorization given just before; the engine
    stops after four requests at most, and an error after a request says so. *)
From S2P Require Import Prelude Text Errors Stateful Glob PluginNetwork.
#[local] Open Scope Z_scope.
Import NetworkFetchErrorCode.

(** ** Public addresses *)

(** Addresses as numbers of [width] bits, and the block [base/len]. *)
Definition v4_number (a b c d : Z) : Z := ((a * 256 + b) * 256 + c) * 256 + d.
Definition v6_number (s : list Z) : Z := foldl (λ n x, n * 65536 + x) 0 s.
Definition in_block (width : Z) (block : Z * Z) (address : Z) : Prop :=
  address / 2 ^ (width - block.2) = block.1 / 2 ^ (width - block.2).
(** The special-purpose blocks: this network, private, loopback, shared, link-local,
    protocol assignments, documentation, relays, benchmarks, multicast and reserved. *)
Definition special_v4 : list (Z * Z) :=
  [(v4_number 0 0 0 0, 8); (v4_number 10 0 0 0, 8); (v4_number 127 0 0 0, 8); (v4_number 100 64 0 0, 10);
   (v4_number 169 254 0 0, 16); (v4_number 172 16 0 0, 12); (v4_number 192 168 0 0, 16);
   (v4_number 192 0 0 0, 24); (v4_number 192 0 2 0, 24); (v4_number 192 88 99 0, 24);
   (v4_number 198 18 0 0, 15); (v4_number 198 51 100 0, 24); (v4_number 203 0 113 0, 24);
   (v4_number 224 0 0 0, 3)].
Definition global_v6 : Z * Z := (v6_number [8192; 0; 0; 0; 0; 0; 0; 0], 3).
(** The last block is [3fff::/28], the part of the documentation block [3fff::/20] that
    the code refuses. *)
Definition special_v6 : list (Z * Z) :=
  [(v6_number [8193; 0; 0; 0; 0; 0; 0; 0], 23); (v6_number [8193; 3512; 0; 0; 0; 0; 0; 0], 32);
   (v6_number [8194; 0; 0; 0; 0; 0; 0; 0], 16); (v6_number [16383; 0; 0; 0; 0; 0; 0; 0], 28)].

Definition octet_ok (x : Z) : Prop := 0 <= x < 256.
Definition segment_ok (x : Z) : Prop := 0 <= x < 65536.
Definition ip_ok (address : IpAddr) : Prop :=
  match address with
  | V4 a b c d => octet_ok a ∧ octet_ok b ∧ octet_ok c ∧ octet_ok d
  | V6 s0 s1 s2 s3 s4 s5 s6 s7 => Forall segment_ok [s0; s1; s2; s3; s4; s5; s6; s7]
  end.
Definition public (address : IpAddr) : Prop :=
  match address with
  | V4 a b c d => ∀ block, block ∈ special_v4 → ¬ in_block 32 block (v4_number a b c d)
  | V6 s0 s1 s2 s3 s4 s5 s6 s7 =>
      let number := v6_number [s0; s1; s2; s3; s4; s5; s6; s7] in
      in_block 128 global_v6 number ∧ ∀ block, block ∈ special_v6 → ¬ in_block 128 block number
  end.

Lemma land_high x k : 0 <= x < 65536 → 0 <= k <= 16 → Z.land x (65536 - 2 ^ k) = x / 2 ^ k * 2 ^ k.
Proof.
  intros Hx Hk. rewrite <-Z.shiftr_div_pow2, <-Z.shiftl_mul_pow2 by lia.
  replace (65536 - 2 ^ k) with (Z.shiftl (Z.ones (16 - k)) k).
  - apply Z.bits_inj'. intros n Hn. rewrite Z.land_spec, !Z.shiftl_spec by done.
    destruct (decide (k <= n)) as [Hkn|Hkn].
    + rewrite Z.shiftr_spec, Z.sub_add by lia. destruct (decide (n < 16)).
      * rewrite Z.ones_spec_low by lia. by rewrite andb_true_r.
      * rewrite Z.ones_spec_high, andb_false_r by lia. symmetry.
        destruct (decide (x = 0)) as [->|]; [apply Z.bits_0|].
        apply Z.bits_above_log2; [lia|]. apply Z.log2_lt_pow2; [lia|].
        apply Z.lt_le_trans with (2 ^ 16); [lia|]. apply Z.pow_le_mono_r; lia.
    + rewrite !(Z.testbit_neg_r _ (n - k)) by lia. by rewrite andb_false_r.
  - rewrite Z.shiftl_mul_pow2, Z.ones_equiv, <-Z.sub_1_r by lia.
    rewrite Z.mul_sub_distr_r, <-Z.pow_add_r by lia. replace (16 - k + k) with 16 by lia. lia.
Qed.

Lemma div_concat n x m k : 0 <= x < m → 0 < m → 0 < k → (n * m + x) / (k * m) = n / k.
Proof.
  intros Hx Hm Hk. rewrite Z.mul_comm, (Z.mul_comm k), <-Z.div_div by lia.
  rewrite (Z.mul_comm m n), Z.div_add_l by lia. by rewrite (Z.div_small x m), Z.add_0_r by lia.
Qed.

(** The blocks, read on octets and segments. *)
Lemma in_block_iff width base len address divisor quotient :
  2 ^ (width - len) = divisor → base / divisor = quotient →
  in_block width (base, len) address ↔ address / divisor = quotient.
Proof. unfold in_block. cbn. by intros -> ->. Qed.
Ltac block_tac := rewrite in_block_iff by (vm_compute; reflexivity); unfold v4_number, octet_ok in *;
  Z.to_euclidean_division_equations; lia.

Section blocks_v4.
Context (a b c d : Z) (Ha : octet_ok a) (Hb : octet_ok b) (Hc : octet_ok c) (Hd : octet_ok d).
Lemma block_a base : octet_ok base → in_block 32 (v4_number base 0 0 0, 8) (v4_number a b c d) ↔ a = base.
Proof. unfold in_block, v4_number, octet_ok in *. cbn [fst snd]. change (2 ^ (32 - 8)) with 16777216.
  intros Hx. Z.to_euclidean_division_equations. lia. Qed.
Lemma block_ab x y : octet_ok x → octet_ok y →
  in_block 32 (v4_number x y 0 0, 16) (v4_number a b c d) ↔ a = x ∧ b = y.
Proof. unfold in_block, v4_number, octet_ok in *. cbn [fst snd]. change (2 ^ (32 - 16)) with 65536.
  intros Hx Hy. Z.to_euclidean_division_equations. lia. Qed.
Lemma block_abc x y z : octet_ok x → octet_ok y → octet_ok z →
  in_block 32 (v4_number x y z 0, 24) (v4_number a b c d) ↔ a = x ∧ b = y ∧ c = z.
Proof. unfold in_block, v4_number, octet_ok in *. cbn [fst snd]. change (2 ^ (32 - 24)) with 256.
  intros Hx Hy Hz. Z.to_euclidean_division_equations. lia. Qed.
Lemma block_100_64 : in_block 32 (v4_number 100 64 0 0, 10) (v4_number a b c d) ↔ a = 100 ∧ 64 <= b <= 127.
Proof. block_tac. Qed.
Lemma block_172_16 : in_block 32 (v4_number 172 16 0 0, 12) (v4_number a b c d) ↔ a = 172 ∧ 16 <= b <= 31.
Proof. block_tac. Qed.
Lemma block_198_18 : in_block 32 (v4_number 198 18 0 0, 15) (v4_number a b c d) ↔ a = 198 ∧ (b = 18 ∨ b = 19).
Proof. block_tac. Qed.
Lemma block_224 : in_block 32 (v4_number 224 0 0 0, 3) (v4_number a b c d) ↔ 224 <= a <= 255.
Proof. block_tac. Qed.
End blocks_v4.

(** The blocks of IPv6 look at the first two segments only. *)
Lemma v6_top s0 s1 s2 s3 s4 s5 s6 s7 k : Forall segment_ok [s2; s3; s4; s5; s6; s7] → 0 < k →
  v6_number [s0; s1; s2; s3; s4; s5; s6; s7] / (k * 2 ^ 96) = (s0 * 65536 + s1) / k.
Proof.
  intros Hs Hk. assert (Hrest : 0 <= v6_number [s2; s3; s4; s5; s6; s7] < 2 ^ 96).
  { repeat (apply Forall_cons in Hs as [? Hs]). unfold segment_ok in *. cbn. lia. }
  rewrite <-(div_concat (s0 * 65536 + s1) _ (2 ^ 96) k Hrest) by lia. f_equal. cbn. lia.
Qed.
Section blocks_v6.
Context (s0 s1 s2 s3 s4 s5 s6 s7 : Z) (Hs : Forall segment_ok [s0; s1; s2; s3; s4; s5; s6; s7]).
Let number := v6_number [s0; s1; s2; s3; s4; s5; s6; s7].
Lemma in_block_v6 b0 b1 len : 0 <= len <= 32 → in_block 128 (v6_number [b0; b1; 0; 0; 0; 0; 0; 0], len) number ↔
  (s0 * 65536 + s1) / 2 ^ (32 - len) = (b0 * 65536 + b1) / 2 ^ (32 - len).
Proof.
  intros Hlen. unfold in_block. cbn [fst snd].
  replace (128 - len) with (32 - len + 96) by lia. rewrite Z.pow_add_r by lia.
  do 2 apply Forall_cons in Hs as [_ Hs]. unfold number. rewrite !v6_top; [done|..]; try lia; [by repeat constructor|done].
Qed.
Ltac v6_tac := rewrite in_block_v6 by lia; repeat (apply Forall_cons in Hs as [? Hs]); unfold segment_ok in *;
  match goal with |- context [2 ^ ?w] => let d := eval vm_compute in (2 ^ w) in change (2 ^ w) with d end;
  Z.to_euclidean_division_equations; lia.
Lemma block_global : in_block 128 global_v6 number ↔ 8192 <= s0 < 16384.
Proof. unfold global_v6. v6_tac. Qed.
Lemma block_2001 : in_block 128 (v6_number [8193; 0; 0; 0; 0; 0; 0; 0], 23) number ↔ s0 = 8193 ∧ s1 <= 511.
Proof. v6_tac. Qed.
Lemma block_2001_db8 : in_block 128 (v6_number [8193; 3512; 0; 0; 0; 0; 0; 0], 32) number ↔ s0 = 8193 ∧ s1 = 3512.
Proof. v6_tac. Qed.
Lemma block_2002 : in_block 128 (v6_number [8194; 0; 0; 0; 0; 0; 0; 0], 16) number ↔ s0 = 8194.
Proof. v6_tac. Qed.
Lemma block_3fff : in_block 128 (v6_number [16383; 0; 0; 0; 0; 0; 0; 0], 28) number ↔ s0 = 16383 ∧ s1 < 16.
Proof. v6_tac. Qed.
End blocks_v6.

Lemma list_forall_cons {A} (P : A → Prop) x l : (∀ y, y ∈ x :: l → P y) ↔ P x ∧ ∀ y, y ∈ l → P y.
Proof. setoid_rewrite elem_of_cons. naive_solver. Qed.
Lemma list_forall_nil {A} (P : A → Prop) : (∀ y, y ∈ [] → P y) ↔ True.
Proof. split; [done|]. intros _ y Hy. by apply not_elem_of_nil in Hy. Qed.
Lemma and_cong (P P2 Q Q2 : Prop) : (P ↔ P2) → (Q ↔ Q2) → P ∧ Q ↔ P2 ∧ Q2.
Proof. tauto. Qed.
Lemma and_assoc_iff (P Q R : Prop) : P ∧ (Q ∧ R) ↔ (P ∧ Q) ∧ R.
Proof. tauto. Qed.
Lemma and_True_r_iff (P : Prop) : P ∧ True ↔ P.
Proof. tauto. Qed.
Lemma is_public_ipv4_iff a b c d : ip_ok (V4 a b c d) → is_public_ipv4 a b c = true ↔ public (V4 a b c d).
Proof.
  intros (Ha & Hb & Hc & Hd). cbn [public]. unfold special_v4. rewrite !list_forall_cons, list_forall_nil.
  rewrite block_100_64, block_172_16, block_198_18, block_224, !block_a, !block_ab, !block_abc
    by (done || (unfold octet_ok; lia)).
  unfold is_public_ipv4, within. rewrite negb_true_iff, !orb_false_iff, !andb_false_iff, !orb_false_iff,
    !Z.eqb_neq, !Z.leb_gt, !and_assoc_iff, and_True_r_iff. unfold octet_ok in *.
  repeat match goal with |- (_ ∧ _) ↔ (_ ∧ _) => apply and_cong end; lia.
Qed.
(** Of the conditions on IPv6 those that matter within [2000::/3]. *)
Lemma is_public_ipv6_global s0 s1 s2 s3 s4 s5 s6 s7 : segment_ok s0 → segment_ok s1 → 8192 <= s0 < 16384 →
  is_public_ipv6 s0 s1 s2 s3 s4 s5 s6 s7
  = negb ((s0 =? 8194) || ((s0 =? 8193) && (s1 <=? 511)) || ((s0 =? 8193) && (s1 =? 3512))
          || ((s0 =? 8193) && (s1 =? 2)) || ((s0 =? 16383) && (s1 <? 16))).
Proof.
  unfold segment_ok. intros H0 H1 Hs. unfold is_public_ipv6, is_unspecified, is_loopback, is_multicast, is_ipv4_mapped. cbn.
  change 65280 with (65536 - 2 ^ 8). change 65024 with (65536 - 2 ^ 9). change 65472 with (65536 - 2 ^ 6).
  change 65520 with (65536 - 2 ^ 4). change 57344 with (65536 - 2 ^ 13). rewrite !land_high by lia.
  rewrite !bool_decide_eq_false_2 by (intros [=]; lia).
  rewrite (proj2 (Z.eqb_neq s0 0)) by lia. cbn [andb orb].
  assert (Hneq : ∀ k x, 0 < k → 16384 <= x → (s0 / k * k =? x) = false).
  { intros k x Hk Hx. apply Z.eqb_neq. pose proof (Z.mul_div_le s0 k Hk). lia. }
  rewrite !Hneq by lia. cbn [orb].
  assert (s0 / 2 ^ 13 * 2 ^ 13 = 8192) as -> by (change (2 ^ 13) with 8192; Z.to_euclidean_division_equations; lia).
  assert ((s1 / 2 ^ 4 * 2 ^ 4 =? 0) = (s1 <? 16)) as ->
    by (apply eq_true_iff_eq; rewrite Z.eqb_eq, Z.ltb_lt; change (2 ^ 4) with 16; Z.to_euclidean_division_equations; lia).
  by destruct (_ || _).
Qed.
Lemma is_public_ipv6_outside s0 s1 s2 s3 s4 s5 s6 s7 : segment_ok s0 → ¬ 8192 <= s0 < 16384 →
  is_public_ipv6 s0 s1 s2 s3 s4 s5 s6 s7 = false.
Proof.
  unfold segment_ok. intros H0 Hs. unfold is_public_ipv6. destruct (_ || _); [done|].
  change 57344 with (65536 - 2 ^ 13). rewrite land_high by lia. apply Z.eqb_neq.
  change (2 ^ 13) with 8192. Z.to_euclidean_division_equations; lia.
Qed.
Lemma is_public_ipv6_iff s0 s1 s2 s3 s4 s5 s6 s7 : ip_ok (V6 s0 s1 s2 s3 s4 s5 s6 s7) →
  is_public_ipv6 s0 s1 s2 s3 s4 s5 s6 s7 = true ↔ public (V6 s0 s1 s2 s3 s4 s5 s6 s7).
Proof.
  intros Hs. cbn [public]. unfold special_v6. rewrite !list_forall_cons, list_forall_nil.
  cbn zeta. rewrite block_global, block_2001, block_2001_db8, block_2002, block_3fff by done.
  apply Forall_cons in Hs as [H0 Hs]. apply Forall_cons in Hs as [H1 _].
  destruct (decide (8192 <= s0 < 16384)) as [Hg|Hg].
  - rewrite is_public_ipv6_global by done.
    rewrite negb_true_iff, !orb_false_iff, !andb_false_iff, !Z.eqb_neq, Z.leb_gt, Z.ltb_ge. lia.
  - rewrite is_public_ipv6_outside by done. split; [done|]. by intros [].
Qed.

(** Of the block [3fff::/20], which is set aside for documentation, only
    [3fff::/28] is refused: [3fff:100::1] is taken as public. *)
Example documentation_address_admitted :
  is_public_ip (V6 16383 256 0 0 0 0 0 1) = true
  ∧ in_block 128 (v6_number [16383; 0; 0; 0; 0; 0; 0; 0], 20) (v6_number [16383; 256; 0; 0; 0; 0; 0; 1]).
Proof. by vm_compute. Qed.

(** ** Hosts and URLs *)

(** The host is one of the patterns, or lies below the suffix of one. *)
Definition host_allowed (patterns : list string) (host : string) : Prop :=
  ∃ pattern, pattern ∈ patterns ∧
    (pattern = host ∨ ∃ suffix labels, str_bytes pattern = str_bytes "*." ++ suffix ∧ labels ≠ []
                        ∧ str_bytes host = labels ++ "."%char :: suffix).
Lemma host_matches_allowed pattern host : host_matches pattern host = true →
  pattern = host ∨ ∃ suffix labels, str_bytes pattern = str_bytes "*." ++ suffix ∧ labels ≠ []
                     ∧ str_bytes host = labels ++ "."%char :: suffix.
Proof.
  unfold host_matches. destruct (valid_host host) eqn:Hv; [|by rewrite orb_true_r].
  destruct (negb _ || _); [done|]. destruct (strip_prefix "*." pattern) as [suffix|] eqn:Hp.
  - rewrite host_suffix_iff. intros (labels & Hl). right. exists (str_bytes suffix), labels.
    split_and!; [by apply strip_prefix_Some| |done]. intros ->. unfold valid_host in Hv.
    rewrite !andb_true_iff, !negb_true_iff in Hv. destruct Hv as ((((_ & Hdot) & _) & _) & _).
    apply starts_with_char_false in Hdot. by rewrite Hl in Hdot.
  - rewrite str_eq_true. by left.
Qed.
Lemma to_ascii_lowercase_id host : valid_host host = true → to_ascii_lowercase host = host.
Proof.
  unfold valid_host. rewrite !andb_true_iff. intros ((_ & Hchars) & _). rewrite forallb_True in Hchars.
  unfold to_ascii_lowercase. rewrite <-(of_bytes_str_bytes host) at 2. f_equal.
  rewrite <-(list_fmap_id (str_bytes host)) at 2. apply list_fmap_ext. intros i c Hc%list_elem_of_lookup_2.
  apply Hchars in Hc. destruct (is_ascii_uppercase c) eqn:Hu; [|done].
  unfold host_char, is_ascii_lowercase, is_ascii_digit, is_ascii_uppercase, in_range in *.
  rewrite !orb_true_iff, !andb_true_iff, one_of_true in Hc. rewrite andb_true_iff in Hu.
  destruct Hc as [Hc|Hc]; [lia|]. rewrite !elem_of_cons, elem_of_nil in Hc.
  destruct Hc as [->|[->|[]]]; vm_compute in Hu; by destruct Hu.
Qed.

Section fetch.
Context `{NetworkLibraries} (request : NetworkFetchRequest) (policy : NetworkFetchPolicy).

(** A URL the policy admits: HTTPS at its port, no credentials, no fragment, a host
    name that is allowed and no address. *)
Record url_ok (url : Url) (host : string) : Prop := {
  uo_scheme : url_scheme url = "https";
  uo_username : url_username url = "";
  uo_password : url_password url = None;
  uo_fragment : url_fragment url = None;
  uo_port : url_port_or_known_default url = Some 443;
  uo_host : url_host_str url = Some host;
  uo_valid : valid_host host = true;
  uo_name : is_ipv4_literal host = false;
  uo_allowed : host_allowed (np_allowed_hosts policy) host
}.
Lemma validate_url_Ok current url host origin :
  validate_url current (np_allowed_hosts policy) = Ok (url, host, origin) →
  url_parse current = Some url ∧ url_ok url host ∧ origin = "https://" +:+ host
  ∧ str_len current <= MAX_PLUGIN_NETWORK_URL_BYTES.
Proof.
  unfold validate_url. intros Hv. rewrite bind_unit_Ok_iff, fail_if_Ok, !orb_false_iff, Z.ltb_ge in Hv.
  destruct Hv as (((_ & Hlen) & _) & Hv). apply bind_Ok_iff in Hv as (parsed & Hp%ok_or_Ok & Hv).
  rewrite bind_unit_Ok_iff, fail_if_Ok, !orb_false_iff, !negb_false_iff, str_eq_true, !is_some_false,
    bool_decide_eq_true in Hv. destruct Hv as (((((Hscheme & Huser) & Hpass) & Hfrag) & Hport) & Hv).
  apply bind_Ok_iff in Hv as (h & Hh%ok_or_Ok & Hv). apply bind_Some in Hh as (h' & Hh & Hif).
  destruct (_ && _) eqn:Hc in Hif; [|done]. injection Hif as ->.
  rewrite !andb_true_iff, !negb_true_iff in Hc. destruct Hc as ((_ & Hip) & Hvalid).
  rewrite to_ascii_lowercase_id in Hv by done.
  rewrite bind_unit_Ok_iff, fail_if_Ok, negb_false_iff, existsb_True in Hv. destruct Hv as ((pattern & Hin & Hm) & Hv).
  injection Hv as <- <- <-. split_and!; [done| |done|done]. split; try done.
  - by apply bool_decide_eq_true in Huser.
  - exists pattern. split; [done|]. by apply host_matches_allowed.
Qed.

(** A request the engine makes: to public addresses of an allowed host, for the
    method and the size of the request. *)
Record hop_ok (hop : NetworkHop) : Prop := {
  ho_url : ∃ url, url_ok url (nh_host hop) ∧ nh_url hop = url_to_string url;
  ho_origin : nh_origin hop = "https://" +:+ nh_host hop;
  ho_method : nh_method hop = nf_method request;
  ho_some : nh_addresses hop ≠ [];
  ho_public : ∀ address, address ∈ nh_addresses hop → is_public_ip address = true
}.
Definition authorized (host : string) : NetworkEvent := Authorized (hop_authorization request host) (Ok ()).
(** Before each request the host was authorized, resolved to these addresses, and
    authorized again, with nothing in between. *)
Definition sent_under (hop : NetworkHop) (maximum : Z) (before : list NetworkEvent) : Prop :=
  hop_ok hop ∧ maximum = nf_max_response_bytes request
  ∧ ∃ earlier, before = authorized (nh_host hop) :: Resolved (nh_host hop) (Some (Ok (nh_addresses hop)))
                          :: authorized (nh_host hop) :: earlier.
Fixpoint guarded (history : list NetworkEvent) : Prop :=
  match history with
  | [] => True
  | Sent hop maximum _ :: before => sent_under hop maximum before ∧ guarded before
  | _ :: before => guarded before
  end.
Definition is_sent (event : NetworkEvent) : bool := match event with Sent _ _ _ => true | _ => false end.
Definition sends (history : list NetworkEvent) : nat := length (filter (λ e, is_sent e = true) history).
Lemma sends_cons e history : sends (e :: history) = ((if is_sent e then 1 else 0) + sends history)%nat.
Proof. unfold sends. rewrite filter_cons. by destruct (is_sent e); case_decide. Qed.

Context (world : NetworkWorld).

Definition net_ok (s : NetworkState) : Prop :=
  guarded (ns_history s) ∧ (ns_dispatched s = true ↔ (0 < sends (ns_history s))%nat).
(** An end without a value: never for want of fuel, and certain only when nothing has
    been sent. *)
Definition end_ok (i : interruption) (s : NetworkState) : Prop :=
  net_ok s ∧ match i with
             | FetchFailed e => ns_dispatched s = true → fe_completion_uncertain e = true
             | FetchDropped => True
             | FetchOutOfFuel => False
             end.

Lemma uncertain_dispatched e (d : bool) : d = true → fe_completion_uncertain (with_uncertain d e) = true.
Proof. intros ->. apply orb_true_r. Qed.
Lemma post_or_fail {A} (r : result NetworkFetchError A) s Q R :
  post (or_fail r) s Q R ↔
  match r with Ok a => Q a s | Err e => R (FetchFailed (with_uncertain (ns_dispatched s) e)) s end.
Proof. unfold or_fail. post_run. by destruct r. Qed.
Lemma post_fail_fetch {A} code s (Q : A → NetworkState → Prop) R :
  post (fail_fetch code) s Q R ↔ R (FetchFailed (with_uncertain (ns_dispatched s) (fetch_error code))) s.
Proof. unfold fail_fetch. by post_run. Qed.
Lemma fail_end_ok s e : net_ok s → end_ok (FetchFailed (with_uncertain (ns_dispatched s) e)) s.
Proof. intros Hs. split; [done|]. apply uncertain_dispatched. Qed.

(** Events that are no requests keep the invariant. *)
Lemma net_ok_event e s : is_sent e = false → net_ok s → net_ok (record_event e s).
Proof.
  intros He [Hg Hd]. split; [by destruct e|]. unfold record_event. cbn [ns_history ns_dispatched].
  rewrite sends_cons, He. done.
Qed.
Lemma post_authorize host s Q R : net_ok s →
  (∀ s', s' = record_event (authorized host) s → net_ok s' → Q () s') →
  (∀ i s', end_ok i s' → sends (ns_history s') = sends (ns_history s) → R i s') →
  post (authorize world (hop_authorization request host)) s Q R.
Proof.
  intros Hs HQ HR. unfold authorize. post_run. rewrite post_or_fail.
  destruct (world_authorize _ _ _) as [[]|e] eqn:Ha.
  - apply HQ; [done|]. by apply net_ok_event.
  - apply HR; [|done]. apply fail_end_ok. by apply net_ok_event.
Qed.
Lemma post_resolve host s Q R : net_ok s →
  (∀ addresses s', s' = record_event (Resolved host (Some (Ok addresses))) s → net_ok s' → Q addresses s') →
  (∀ i s', end_ok i s' → sends (ns_history s') = sends (ns_history s) → R i s') →
  post (resolve world host) s Q R.
Proof.
  intros Hs HQ HR. unfold resolve, await. post_run.
  destruct (world_resolve _ _ _) as [[addresses|e]|] eqn:Ha; cbn [ok_or].
  - rewrite post_or_fail. apply HQ; [done|]. by apply net_ok_event.
  - rewrite post_or_fail. apply HR; [|done]. apply fail_end_ok. by apply net_ok_event.
  - apply HR; [|done]. split; [|done]. by apply net_ok_event.
Qed.
Lemma post_send hop s Q R : guarded (ns_history s) → ns_dispatched s = true →
  sent_under hop (nf_max_response_bytes request) (ns_history s) →
  (∀ response s', s' = record_event (Sent hop (nf_max_response_bytes request) (Some (Ok response))) s →
     net_ok s' → Q response s') →
  (∀ i s', end_ok i s' → sends (ns_history s') = S (sends (ns_history s)) → R i s') →
  post (send world request hop) s Q R.
Proof.
  intros Hg Hd Hunder HQ HR.
  assert (Hs : ∀ answer, net_ok (record_event (Sent hop (nf_max_response_bytes request) answer) s)).
  { intros answer. split; [done|]. unfold record_event. cbn [ns_history ns_dispatched].
    rewrite sends_cons, Hd. cbn. split; [lia|done]. }
  unfold send, await. post_run. destruct (world_send _ _ _ _) as [[response|e]|] eqn:Ha; cbn [ok_or].
  - rewrite post_or_fail. by apply HQ.
  - rewrite post_or_fail. apply HR; [|done]. by apply fail_end_ok.
  - by apply HR.
Qed.

(** The history after a hop that got its response. *)
Definition after_hop (hop : NetworkHop) (response : NetworkTransportResponse) (before : list NetworkEvent) : list NetworkEvent :=
  authorized (nh_host hop) :: Sent hop (nf_max_response_bytes request) (Some (Ok response)) :: before.
Ltac count_sends := subst; unfold record_event, set_dispatched; cbn [ns_history]; rewrite ?sends_cons; cbn; lia.
Lemma post_fetch_hop current s : net_ok s →
  post (fetch_hop world request policy current) s
    (λ '(url, hop, response) s', net_ok s' ∧ hop_ok hop ∧ sends (ns_history s') = S (sends (ns_history s))
       ∧ ∃ before, ns_history s' = after_hop hop response before)
    (λ i s', end_ok i s' ∧ (sends (ns_history s') <= S (sends (ns_history s)))%nat).
Proof.
  intros Hs. unfold fetch_hop. post_run. rewrite post_or_fail.
  destruct (validate_url _ _) as [[[url host] origin]|e] eqn:Hv; [|split; [by apply fail_end_ok|lia]].
  apply validate_url_Ok in Hv as (_ & Hurl & -> & _). post_run.
  apply post_authorize; [done| |intros i s' He ->; split; [done|lia]]. intros s1 E1 Hs1. post_run.
  apply post_resolve; [done| |intros i s' He ->; split; [done|count_sends]].
  intros addresses s2 E2 Hs2. post_run. destruct (_ || _) eqn:Hpub.
  { rewrite post_fail_fetch. split; [by apply fail_end_ok|count_sends]. }
  apply orb_false_iff in Hpub as [Hsome Hpub]. post_run.
  apply post_authorize; [done| |intros i s' He ->; split; [done|count_sends]].
  intros s3 E3 Hs3. post_run.
  set (hop := MkHop _ _ _ _ _). assert (Hhop : hop_ok hop).
  { split; cbn; [by exists url|done|done|by apply vec_is_empty_false|].
    intros a Ha. by apply negb_false_iff, (proj1 (existsb_False _ _) Hpub). }
  assert (E4 : ns_history s3 = authorized host :: Resolved host (Some (Ok addresses)) :: authorized host :: ns_history s).
  { by subst. }
  apply post_send; cbn [set_dispatched ns_history ns_dispatched]; [apply Hs3|done| | |].
  - split; [done|]. split; [done|]. by exists (ns_history s).
  - intros response s5 E5 Hs5. post_run. apply post_authorize; [done| |].
    + intros s6 E6 Hs6. post_run. split; [done|]. split; [done|]. split; [count_sends|].
      subst s6 s5. by eexists.
    + intros i s' He ->. split; [done|count_sends].
  - intros i s' He ->. split; [done|count_sends].
Qed.

Lemma filter_safe_header_map_Ok headers safe : filter_safe_header_map headers = Ok safe →
  ∀ name value, safe !! name = Some value → name ∈ safe_header_names ∧ headers !! name = Some value
    ∧ unsafe_header_value value = false.
Proof.
  apply (try_fold_inv (λ _ (safe : gmap string string), ∀ name value, safe !! name = Some value →
    name ∈ safe_header_names ∧ headers !! name = Some value ∧ unsafe_header_value value = false)).
  - intros name value Hn. by rewrite lookup_empty in Hn.
  - intros pre name rest s1 s2 Hl HI Hstep name' value' Hn.
    destruct (headers !! name) as [value|] eqn:Hh; [|injection Hstep as <-; by apply HI].
    apply bind_unit_Ok_iff in Hstep as (Hu%fail_if_Ok & [= <-]).
    destruct (decide (name' = name)) as [->|Hne]; [|rewrite lookup_insert_ne in Hn by done; by apply HI].
    rewrite lookup_insert_eq in Hn. injection Hn as <-. split_and!; [|done|done].
    rewrite Hl. apply elem_of_app. right. by left.
Qed.
Lemma filter_safe_header_map_Err headers e : filter_safe_header_map headers = Err e → fe_completion_uncertain e = true.
Proof.
  intros Hf. apply (try_fold_Err (λ _ _, True)) in Hf as (pre & name & rest & s1 & _ & _ & Hb); [|done|done].
  destruct (headers !! name); [|done]. apply bind_Err_iff in Hb as [[_ <-]%fail_if_Err|(? & _ & ?)]; done.
Qed.

(** What a result says of the response it comes from. *)
Record fetched (result : NetworkFetchResult) (hop : NetworkHop) (response : NetworkTransportResponse) : Prop := {
  ft_status : fr_status result = nt_status response ∧ is_redirect (nt_status response) = false;
  ft_headers : ∀ name value, fr_headers result !! name = Some value →
    name ∈ safe_header_names ∧ nt_safe_headers response !! name = Some value ∧ unsafe_header_value value = false;
  ft_type : fr_content_type result = fr_headers result !! "content-type";
  ft_origin : fr_final_origin result = nh_origin hop;
  ft_content : fr_content result = base64_encode (nt_body response) ∧ fr_size_bytes result = vec_len (nt_body response);
  ft_size : fr_size_bytes result <= nf_max_response_bytes request ∧ fr_truncated result = false
}.
Definition loop_done (result : NetworkFetchResult) (s : NetworkState) : Prop :=
  net_ok s ∧ Z.of_nat (sends (ns_history s)) = fr_redirect_count result + 1 ∧ (sends (ns_history s) <= 4)%nat
  ∧ ∃ hop response before, hop_ok hop ∧ ns_history s = after_hop hop response before ∧ fetched result hop response.
Definition loop_ended (i : interruption) (s : NetworkState) : Prop :=
  end_ok i s ∧ (sends (ns_history s) <= 4)%nat.

Lemma post_next_url url location s Q R : net_ok s → (∀ next, Q next s) → (∀ i, end_ok i s → R i s) →
  post (next_url url location) s Q R.
Proof.
  intros Hs HQ HR. unfold next_url.
  destruct location as [location|]; [|rewrite post_fail_fetch; by apply HR, fail_end_ok].
  destruct (_ || _); [rewrite post_fail_fetch; by apply HR, fail_end_ok|].
  destruct (url_join _ _); [by post_run|rewrite post_fail_fetch; by apply HR, fail_end_ok].
Qed.
Lemma post_fetch_loop fuel current redirects s : net_ok s →
  Z.of_nat fuel = 4 - redirects → Z.of_nat (sends (ns_history s)) = redirects → 0 <= redirects <= 3 →
  post (fetch_loop world request policy fuel current redirects) s loop_done loop_ended.
Proof.
  revert current redirects s. induction fuel as [|fuel IH]; intros current redirects s Hs Hfuel Hsends Hr; [lia|].
  cbn [fetch_loop]. post_run. eapply post_mono; [by apply post_fetch_hop| |].
  2:{ intros i s' [He Hle]. split; [done|lia]. }
  intros [[url hop] response] s1 (Hs1 & Hhop & Hs1n & before & Hhist).
  assert (Hend : ∀ i, end_ok i s1 → loop_ended i s1) by (intros i Hi; split; [done|lia]).
  destruct (negb _); [rewrite post_fail_fetch; by apply Hend, fail_end_ok|].
  destruct (is_redirect _) eqn:Hred.
  - destruct (MAX_PLUGIN_NETWORK_REDIRECTS <=? redirects) eqn:Hmax; [rewrite post_fail_fetch; by apply Hend, fail_end_ok|].
    unfold MAX_PLUGIN_NETWORK_REDIRECTS in Hmax. apply Z.leb_gt in Hmax. post_run.
    apply post_next_url; [done| |done]. intros next. apply IH; [done|lia..].
  - unfold finish_fetch. destruct (nf_max_response_bytes request <? vec_len (nt_body response)) eqn:Hsize;
      [rewrite post_fail_fetch; by apply Hend, fail_end_ok|]. apply Z.ltb_ge in Hsize. post_run.
    destruct (filter_safe_header_map _) as [safe|e] eqn:Hf; cbn [map_err].
    + split; [done|]. cbn [fr_redirect_count]. split; [lia|]. split; [lia|]. exists hop, response, before.
      split; [done|]. split; [done|]. split; try done. by apply filter_safe_header_map_Ok.
    + apply Hend. split; [done|]. intros _. by eapply filter_safe_header_map_Err.
Qed.

(** ** A fetch *)

(** A request that the policy admits. *)
Record request_ok : Prop := {
  ro_project : nf_expected_project_revision request = np_current_project_revision policy;
  ro_size : nf_max_response_bytes request ≠ 0 ∧ nf_max_response_bytes request <= np_max_response_bytes policy
            ∧ nf_max_response_bytes request <= MAX_PLUGIN_NETWORK_RESPONSE_BYTES;
  ro_method : nf_method request ∈ np_allowed_methods policy ∧ nf_method request ∈ ["GET"; "HEAD"]
}.
Lemma request_authorized authorization :
  network_request_authorization request policy = Ok authorization → request_ok.
Proof.
  unfold network_request_authorization.
  rewrite !bind_unit_Ok_iff, !fail_if_Ok, !orb_false_iff, !negb_false_iff, existsb_True, !Z.ltb_ge, Z.eqb_eq, Z.eqb_neq,
    orb_true_iff, !str_eq_true. intros (? & ((? & ?) & ?) & ((m & Hin & Hm) & Hget) & _). apply str_eq_true in Hm as ->.
  split; [done|done|]. split; [done|]. rewrite !elem_of_cons. tauto.
Qed.
Lemma post_fetch_inner :
  post (fetch_inner world request policy) (MkNetworkState [] false)
    (λ r s, request_ok ∧ loop_done r s) (λ i s, loop_ended i s ∧ (ns_history s ≠ [] → request_ok)).
Proof.
  assert (Hs : net_ok (MkNetworkState [] false)) by (split; [done|]; cbn; split; [done|unfold sends; cbn; lia]).
  unfold fetch_inner. post_run. destruct (network_request_authorization _ _) as [a|e] eqn:Ha; cbn [map_err].
  - apply request_authorized in Ha. eapply post_mono; [by apply post_fetch_loop|done|done].
  - split; [|done]. split; [|cbn; lia]. by split.
Qed.
Lemma fetch_run :
  let '(s, r) := fetch_inner world request policy (MkNetworkState [] false) in
  (fetch world request policy).1 = ns_history s ∧ net_ok s ∧ (sends (ns_history s) <= 4)%nat
  ∧ (ns_history s ≠ [] → request_ok)
  ∧ match r with
    | Ok result => (fetch world request policy).2 = Some (Ok result) ∧ loop_done result s
    | Err i => ∃ e, (fetch world request policy).2 = Some (Err e) ∧ end_ok i s
                    ∧ (ns_dispatched s = true → fe_completion_uncertain e = true)
    end.
Proof.
  pose proof post_fetch_inner as Hp. unfold post, fetch in *.
  destruct (fetch_inner _ _ _ _) as [s [result|i]]; cbn [fst snd].
  - destruct Hp as [Hreq Hd]. split; [done|]. split; [apply Hd|]. split; [apply Hd|]. done.
  - destruct Hp as [[He Hle] Hreq]. split; [done|]. split; [apply He|]. split; [done|]. split; [done|].
    destruct i as [e| |]; [exists e|eexists|by destruct He].
    + split; [done|]. split; [done|]. apply He.
    + split; [done|]. split; [done|]. intros Hd. by apply uncertain_dispatched.
Qed.
End fetch.

(** C33: whatever the resolver, the transport and the authorizer answer, a fetch makes at
    most four requests; each goes to a host the policy allows, by name and over HTTPS,
    at addresses that are all public, and nothing lies between it and the authorization
    for its host, method and size; a request the policy does not admit gets nowhere. *)
Theorem fetch_guarded `{NetworkLibraries} world request policy :
  let history := (fetch world request policy).1 in
  guarded request policy history ∧ (sends history <= 4)%nat ∧ (history ≠ [] → request_ok request policy).
Proof.
  pose proof (fetch_run request policy world) as Hr.
  destruct (fetch_inner _ _ _ _) as [s r]. destruct Hr as (-> & [Hg _] & Hle & Hreq & _). by split_and!.
Qed.

(** C34: a fetch always answers.  A result is that of the last request, which was
    authorized once more after the response: its body fits the request, its headers are
    four harmless ones, and the redirects are counted; an error says that the
    completion is uncertain whenever something has been sent. *)
Theorem fetch_answers `{NetworkLibraries} world request policy :
  let history := (fetch world request policy).1 in
  match (fetch world request policy).2 with
  | Some (Ok result) =>
      request_ok request policy
      ∧ Z.of_nat (sends history) = fr_redirect_count result + 1
      ∧ ∃ hop response before, hop_ok request policy hop ∧ history = after_hop request hop response before
          ∧ fetched request result hop response
  | Some (Err e) => (0 < sends history)%nat → fe_completion_uncertain e = true
  | None => False
  end.
Proof.
  pose proof (fetch_run request policy world) as Hr.
  destruct (fetch_inner _ _ _ _) as [s [result|i]]; destruct Hr as (-> & [_ Hd] & _ & Hreq & Hr).
  - destruct Hr as (-> & _ & Hn & _ & hop & response & before & ? & Hh & ?).
    split; [apply Hreq; by rewrite Hh|]. split; [done|]. by exists hop, response, before.
  - destruct Hr as (e & -> & _ & Hu). cbv zeta. intros Hs. by apply Hu, Hd.
Qed.

(** ** The transport of the application *)

Lemma read_body_Ok body chunks maximum r : maximum < 2 ^ 64 - 1 → vec_len body <= maximum →
  read_body body chunks maximum = Ok r →
  ∃ parts, chunks = Ok <$> parts ∧ r = body ++ concat parts ∧ vec_len r <= maximum.
Proof.
  intros Hmax. revert body. induction chunks as [|chunk chunks IH]; intros body Hbody Hr; cbn [read_body] in Hr.
  - injection Hr as <-. exists []. by rewrite app_nil_r.
  - apply bind_Ok_iff in Hr as (part & ->%map_err_Ok & Hr).
    apply bind_unit_Ok_iff in Hr as (Hsize%fail_if_Ok & Hr). apply Z.ltb_ge in Hsize.
    apply IH in Hr as (parts & -> & -> & Hlen); [|unfold vec_len in *; rewrite length_app; lia].
    exists (part :: parts). cbn. by rewrite app_assoc.
Qed.
(** What the application's resolver answers are the addresses looked up; what its
    transport answers is within the limit and without a body for a redirect. *)
Theorem transport_bounded reply maximum response :
  maximum < 2 ^ 64 - 1 → 0 <= maximum → reqwest_send true true reply maximum = Ok response →
  vec_len (nt_body response) <= maximum ∧ (is_redirect (nt_status response) = true → nt_body response = []).
Proof.
  intros Hmax Hpos. unfold reqwest_send. rewrite !bind_unit_Ok_iff. intros (_ & _ & Hr).
  apply bind_Ok_iff in Hr as (http & _ & Hr). apply bind_Ok_iff in Hr as (location & _ & Hr).
  apply bind_Ok_iff in Hr as (safe & _ & Hr). destruct (is_redirect (hr_status http)) eqn:Hred.
  - injection Hr as <-. cbn. unfold vec_len. cbn. split; [lia|done].
  - apply bind_Ok_iff in Hr as (body & Hb & [= <-]). cbn. rewrite Hred. split; [|done].
    apply read_body_Ok in Hb as (parts & _ & _ & ?); [done|done|]. unfold vec_len. cbn. lia.
Qed.
Theorem tokio_resolve_correct looked_up addresses :
  tokio_resolve looked_up = Ok addresses ↔
  ∃ found, looked_up = Some found ∧ addresses = dedup (rsort found) ∧ addresses ≠ [] ∧ NoDup addresses
           ∧ ∀ address, address ∈ addresses ↔ address ∈ found.
Proof.
  unfold tokio_resolve. rewrite bind_Ok_iff. setoid_rewrite ok_or_Ok. split.
  - intros (found & -> & Hr). apply bind_unit_Ok_iff in Hr as (Hne%fail_if_Ok & [= <-]).
    apply vec_is_empty_false in Hne. exists found. split_and!; [done|done|done|apply dedup_sorted_NoDup, rsort_sorted|].
    intros address. by rewrite elem_of_dedup, elem_of_rsort.
  - intros (found & -> & -> & Hne & _ & _). exists found. split; [done|].
    by rewrite bind_unit_Ok_iff, fail_if_Ok, vec_is_empty_false.
Qed.
