(* ===== verification/ProjectRoot.v ===== *)
(** * Project roots

    Model of [normalize_project_root] of [crates/rho-store/src/lib.rs] and of
    [required_project_root] of [query.rs] and [plugin_permission.rs]: the name by which
    a project is known to the stores. *)
From S2P Require Import Prelude Text.
#[local] Open Scope Z_scope.

Definition backslash_to_slash (c : ascii) : ascii := if decide (c = "\"%char) then "/"%char else c.
Definition trim_end_slashes (l : list ascii) : list ascii :=
  reverse (drop_while (one_of ["/"%char]) (reverse l)).
Definition normalize_project_root (root : string) : string :=
  let normalized := of_bytes (backslash_to_slash <$> str_bytes root) in
  if ends_with ":/" normalized then normalized
  else let trimmed := of_bytes (trim_end_slashes (str_bytes normalized)) in
       if str_is_empty trimmed && starts_with_char "/" normalized then "/" else trimmed.
Definition required_project_root (project_root : string) : result string string :=
  let normalized := normalize_project_root project_root in
  if str_is_empty (str_trim normalized) then Err "project root identity is required" else Ok normalized.

(** ** Normal forms *)

Lemma drop_while_suffix {A} (p : A → bool) l : ∃ k, l = k ++ drop_while p l ∧ ∀ x, x ∈ k → p x = true.
Proof.
  induction l as [|x l (k & Hk & Hp)]; [by exists []; split; [|intros x Hx; apply not_elem_of_nil in Hx]|].
  cbn [drop_while]. destruct (p x) eqn:Hx.
  - exists (x :: k). split; [by rewrite Hk at 1|]. intros y [->|?]%elem_of_cons; auto.
  - exists []. split; [done|]. intros y Hy. by apply not_elem_of_nil in Hy.
Qed.
Lemma drop_while_head {A} (p : A → bool) l x k : drop_while p l = x :: k → p x = false.
Proof.
  induction l as [|y l IH]; [done|]. cbn [drop_while]. destruct (p y) eqn:Hy; [done|]. by intros [= <- <-].
Qed.
Lemma drop_while_id {A} (p : A → bool) l : (∀ x k, l = x :: k → p x = false) → drop_while p l = l.
Proof. destruct l as [|x l]; [done|]. intros Hp. cbn [drop_while]. by rewrite (Hp x l). Qed.
Lemma trim_end_slashes_idem l : trim_end_slashes (trim_end_slashes l) = trim_end_slashes l.
Proof.
  unfold trim_end_slashes. rewrite reverse_involutive. f_equal. apply drop_while_id, drop_while_head.
Qed.
Lemma trim_end_slashes_elem l c : c ∈ trim_end_slashes l → c ∈ l.
Proof.
  unfold trim_end_slashes. rewrite elem_of_reverse. intros Hc.
  destruct (drop_while_suffix (one_of ["/"%char]) (reverse l)) as (k & Hk & _).
  apply elem_of_reverse. rewrite Hk. apply elem_of_app. by right.
Qed.
Lemma backslash_to_slash_not c : backslash_to_slash c ≠ "\"%char.
Proof. unfold backslash_to_slash. by case_decide. Qed.
Lemma backslash_to_slash_id (l : list ascii) : "\"%char ∉ l → backslash_to_slash <$> l = l.
Proof.
  intros Hl. rewrite <-(list_fmap_id l) at 2. apply list_fmap_ext. intros i c Hc%list_elem_of_lookup_2.
  unfold backslash_to_slash. case_decide; [by subst|done].
Qed.
Lemma normalize_no_backslash root : "\"%char ∉ str_bytes (normalize_project_root root).
Proof.
  assert (Hmap : ∀ l : list ascii, "\"%char ∉ backslash_to_slash <$> l).
  { intros l (c & Hc & _)%list_elem_of_fmap. by apply (backslash_to_slash_not c). }
  unfold normalize_project_root. destruct (ends_with _ _); [by rewrite str_bytes_of_bytes|].
  destruct (_ && _); [by intros Hin%list_elem_of_singleton|]. rewrite !str_bytes_of_bytes. by intros Hin%trim_end_slashes_elem%Hmap.
Qed.
Lemma trim_end_slashes_ends l : ends_with ":/" (of_bytes (trim_end_slashes l)) = false.
Proof.
  apply not_true_iff_false. rewrite ends_with_true, str_bytes_of_bytes. intros [k Hk].
  assert (Hlast : reverse (trim_end_slashes l) = "/"%char :: reverse (k ++ [":"%char])).
  { rewrite Hk. change (str_bytes ":/") with ([":"%char] ++ ["/"%char]). by rewrite app_assoc, reverse_snoc. }
  unfold trim_end_slashes in Hlast. rewrite reverse_involutive in Hlast.
  by apply drop_while_head in Hlast.
Qed.
(** A normal form is normal: every path by which the stores know a project leads to one
    name. *)
Lemma normalize_idempotent root :
  normalize_project_root (normalize_project_root root) = normalize_project_root root.
Proof.
  pose proof (normalize_no_backslash root) as Hno. unfold normalize_project_root at 1.
  rewrite backslash_to_slash_id, of_bytes_str_bytes by done. clear Hno. unfold normalize_project_root.
  destruct (ends_with ":/" (of_bytes (backslash_to_slash <$> str_bytes root))) eqn:He; [by rewrite He|].
  rewrite str_bytes_of_bytes. set (l := backslash_to_slash <$> str_bytes root).
  destruct (_ && _) eqn:Hroot; [by vm_compute|].
  rewrite trim_end_slashes_ends, str_bytes_of_bytes, trim_end_slashes_idem.
  destruct (str_is_empty (of_bytes (trim_end_slashes l))) eqn:Hempty; [|done].
  unfold str_is_empty in Hempty. apply bool_decide_eq_true in Hempty. by rewrite Hempty.
Qed.
