(* ===== verification/WorkspaceInspection.v ===== *)
(** * Inspection of workspace objects

    Model of [crates/rho-server/src/plugin_workspace.rs]: the registry of opaque object
    references, issued from a snapshot of an R workspace, by which plugins may inspect
    objects, and the bounded projection of an inspection.  The clock and the source of
    ids are inputs: the times and ids of one call, in order. *)
From S2P Require Import Prelude Text External Digest Stateful ProjectRoot.
#[local] Open Scope Z_scope.

Definition MAX_WORKSPACE_OBJECT_REFERENCES : Z := 512.
Definition MAX_WORKSPACE_METADATA_BYTES : Z := 64 * 1024.
Definition MAX_WORKSPACE_PREVIEW_BYTES : Z := 256 * 1024.
Definition MAX_WORKSPACE_PREVIEW_ROWS : Z := 100.
Definition MAX_WORKSPACE_PREVIEW_COLUMNS : Z := 50.
Definition MAX_WORKSPACE_PREVIEW_DEPTH : Z := 4.

(** [WorkspaceIdentity] and [ExpectedWorkspace] of [rho-protocol]. *)
Record WorkspaceIdentity := MkWorkspace {
  wi_workspace_id : string;
  wi_kernel_instance_id : string;
  wi_execution_seq : Z;
  wi_state_revision : Z;
  wi_project_revision : Z
}.
#[global] Instance WorkspaceIdentity_eq_dec : EqDecision WorkspaceIdentity.
Proof. solve_decision. Defined.
Record ExpectedWorkspace := MkExpected {
  ew_kernel_instance_id : option string;
  ew_state_revision : option Z;
  ew_project_revision : option Z
}.

Record WorkspaceInspectionContext := MkContext { cx_project_root : string; cx_workspace : WorkspaceIdentity }.
Record WorkspaceObjectReferenceView := MkView {
  ov_reference_id : string;
  ov_name : string;
  ov_classes : list string;
  ov_object_type : string;
  ov_preview_kind : string;
  ov_issued_at_millis : Z
}.
Record WorkspaceObjectReferenceRecord := MkRecord {
  or_view : WorkspaceObjectReferenceView;
  or_project_root : string;
  or_workspace : WorkspaceIdentity;
  or_object_identity_digest : string
}.
Inductive WorkspaceInspectOperation := Metadata | Preview.
Record WorkspaceInspectRequest := MkInspect { ir_object_reference : string; ir_operation : WorkspaceInspectOperation }.
Module WorkspaceInspectErrorCode.
Inductive t := InvalidProject | InvalidSnapshot | ReferenceLimit | UnknownReference | StaleWorkspace
  | ObjectChanged | MalformedResult | ResultTooLarge.
#[global] Instance t_eq_dec : EqDecision t.
Proof. solve_decision. Defined.
End WorkspaceInspectErrorCode.
Import WorkspaceInspectErrorCode.
Abbreviation inspect_error := WorkspaceInspectErrorCode.t.

Record WorkspaceObjectReferenceRegistry := MkRegistry { wr_references : gmap string WorkspaceObjectReferenceRecord }.
Definition WorkspaceObjectReferenceRegistry_new : WorkspaceObjectReferenceRegistry := MkRegistry ∅.

Definition same_workspace_lineage (left right : WorkspaceIdentity) : bool :=
  str_eq (wi_workspace_id left) (wi_workspace_id right)
  && str_eq (wi_kernel_instance_id left) (wi_kernel_instance_id right)
  && (wi_state_revision left =? wi_state_revision right)
  && (wi_project_revision left =? wi_project_revision right).
Definition validate_context (context : WorkspaceInspectionContext) : result inspect_error () :=
  fail_if (str_is_empty (cx_project_root context) || str_eq (cx_project_root context) "legacy_unscoped"
           || str_contains "\" (cx_project_root context)
           || negb (str_eq (normalize_project_root (cx_project_root context)) (cx_project_root context))
           || str_is_empty (wi_workspace_id (cx_workspace context))
           || str_is_empty (wi_kernel_instance_id (cx_workspace context))) InvalidProject.
Definition in_context (context : WorkspaceInspectionContext) (record : WorkspaceObjectReferenceRecord) : bool :=
  str_eq (or_project_root record) (cx_project_root context)
  && same_workspace_lineage (or_workspace record) (cx_workspace context).

(** [iter.map(f).collect::<Result<Vec<_>, _>>()]. *)
Fixpoint collect {E A B} (f : A → result E B) (l : list A) : result E (list B) :=
  match l with
  | [] => Ok []
  | x :: l => y ← f x; ys ← collect f l; Ok (y :: ys)
  end.

(** Reading a [WorkspaceIdentity] from a value, by serde's derived code. *)
Class IdentityFromValue `{SerdeNumber} := identity_from_value : Value → option WorkspaceIdentity.

Section inspection.
Context `{SerdeNumber, !SerdeToVec, !IdentityFromValue, !Sha256}.

(** [value.get(key)]. *)
Definition value_get (key : string) (v : Value) : option Value := as_object v ≫= map_get key.
(** [value.get("execution").filter(is_object).unwrap_or(value)]. *)
Definition execution_of (v : Value) : Value :=
  match value_get "execution" v with Some (VObject m) => VObject m | _ => v end.

Definition decode_workspace (response : Value) : result inspect_error WorkspaceIdentity :=
  value ← ok_or (value_get "workspace" response) MalformedResult;
  ok_or (identity_from_value value) MalformedResult.

Definition unbounded_string (maximum : Z) (value : string) : bool :=
  str_is_empty value || (maximum <? str_len value) || existsb is_control (chars value)
  || existsb is_bidi_control (chars value).
Definition bounded_string (value : option Value) (maximum : Z) : result inspect_error string :=
  ok_or (s ← value ≫= as_string; if unbounded_string maximum s then None else Some s) MalformedResult.

Record ObjectDescriptor := MkDescriptor {
  od_name : string;
  od_classes : list string;
  od_object_type : string;
  od_preview_kind : string;
  od_digest : string
}.
Definition descriptor_value (name : string) (classes : list string) (object_type preview_kind : string) : Value :=
  VObject [("classes", VArray (VString <$> classes)); ("name", VString name);
           ("preview_kind", VString preview_kind); ("typeof", VString object_type)].
Definition decode_classes (value : option Value) : result inspect_error (list string) :=
  match value with
  | Some (VString class) => class ← bounded_string (Some (VString class)) 256; Ok [class]
  | Some (VArray classes) => collect (λ value, bounded_string (Some value) 256) classes
  | _ => Err MalformedResult
  end.
Definition decode_object_descriptor (value : Value) : result inspect_error ObjectDescriptor :=
  name ← bounded_string (value_get "name" value) 256;
  classes ← decode_classes (value_get "classes" value);
  _ ← fail_if (32 <? vec_len classes) MalformedResult;
  object_type ← bounded_string (value_get "typeof" value) 128;
  preview_kind ← bounded_string (value_get "preview_kind" value) 128;
  bytes ← map_err (λ _, MalformedResult) (to_vec (descriptor_value name classes object_type preview_kind));
  Ok (MkDescriptor name classes object_type preview_kind (sha256_hex bytes)).

(** The recursion goes over the value; the two kinds of containers are its loops. *)
Fixpoint validate_preview (value : Value) (depth : Z) {struct value} : result inspect_error () :=
  _ ← fail_if (MAX_WORKSPACE_PREVIEW_DEPTH <? depth) ResultTooLarge;
  match value with
  | VArray values =>
      _ ← fail_if (MAX_WORKSPACE_PREVIEW_ROWS <? vec_len values) ResultTooLarge;
      (fix loop values := match values with
       | [] => Ok ()
       | value :: values => _ ← validate_preview value (depth + 1); loop values
       end) values
  | VObject values =>
      _ ← fail_if (MAX_WORKSPACE_PREVIEW_COLUMNS <? vec_len values) ResultTooLarge;
      (fix loop values := match values with
       | [] => Ok ()
       | (key, value) :: values =>
           _ ← fail_if ((512 <? str_len key) || existsb is_control (chars key)) MalformedResult;
           _ ← validate_preview value (depth + 1);
           loop values
       end) values
  | VString value => fail_if (64 * 1024 <? str_len value) ResultTooLarge
  | _ => Ok ()
  end.

(** ** The registry *)

Abbreviation registry_m A := (stateful WorkspaceObjectReferenceRegistry inspect_error A).

(** The loop that stages the records: the ids and times that remain, the ids staged so
    far, and the records in order. *)
Fixpoint stage_references (references : gmap string WorkspaceObjectReferenceRecord)
    (context : WorkspaceInspectionContext) (next_ids : list (list ascii)) (times : list Z)
    (staged_ids : gset string) (decoded : list ObjectDescriptor)
    : result inspect_error (list (string * WorkspaceObjectReferenceRecord)) :=
  match decoded with
  | [] => Ok []
  | d :: decoded =>
      let reference_id := "object." +:+ hex_encode (default [] (head next_ids)) in
      _ ← fail_if (is_some (references !! reference_id) || bool_decide (reference_id ∈ staged_ids)) ReferenceLimit;
      let view := MkView reference_id (od_name d) (od_classes d) (od_object_type d) (od_preview_kind d)
                    (default 0 (head times)) in
      staged ← stage_references references context (tail next_ids) (tail times) ({[reference_id]} ∪ staged_ids) decoded;
      Ok ((reference_id, MkRecord view (cx_project_root context) (cx_workspace context) (od_digest d)) :: staged)
  end.
(** [self.references.extend(staged)]. *)
Definition extend_references (staged : list (string * WorkspaceObjectReferenceRecord))
    (r : WorkspaceObjectReferenceRegistry) : WorkspaceObjectReferenceRegistry :=
  MkRegistry (foldl (λ m kv, <[kv.1 := kv.2]> m) (wr_references r) staged).
Definition issue_from_snapshot (context : WorkspaceInspectionContext) (snapshot_response : Value)
    (next_ids : list (list ascii)) (times : list Z) : registry_m (list WorkspaceObjectReferenceView) :=
  _ ← lift (validate_context context);
  workspace ← lift (decode_workspace snapshot_response);
  _ ← throw_if (negb (same_workspace_lineage workspace (cx_workspace context))) StaleWorkspace;
  objects ← lift (ok_or (value_get "objects" (execution_of snapshot_response) ≫= as_array) InvalidSnapshot);
  r ← gets (λ r, r);
  _ ← throw_if ((200 <? vec_len objects)
                || (MAX_WORKSPACE_OBJECT_REFERENCES <? Z.of_nat (size (wr_references r)) + vec_len objects))
        ReferenceLimit;
  decoded ← lift (collect decode_object_descriptor objects);
  let decoded := sort_by_key od_name decoded in
  _ ← throw_if (is_some (find_adjacent od_name decoded)) InvalidSnapshot;
  staged ← lift (stage_references (wr_references r) context next_ids times ∅ decoded);
  _ ← modify (extend_references staged);
  mret ((λ kv, or_view kv.2) <$> staged).

Record PreparedWorkspaceInspection := MkPrepared {
  pw_reference_id : string;
  pw_request_type : string;
  pw_arguments : Value;
  pw_expected_workspace : ExpectedWorkspace;
  pw_operation : WorkspaceInspectOperation;
  pw_record : WorkspaceObjectReferenceRecord
}.
Definition prepare (r : WorkspaceObjectReferenceRegistry) (context : WorkspaceInspectionContext)
    (request : WorkspaceInspectRequest) : result inspect_error PreparedWorkspaceInspection :=
  _ ← validate_context context;
  record ← ok_or (wr_references r !! ir_object_reference request) UnknownReference;
  _ ← fail_if (negb (in_context context record)) StaleWorkspace;
  Ok (MkPrepared (ir_object_reference request) "workspace.inspect_object"
        (VObject [("name", VString (ov_name (or_view record)))])
        (MkExpected (Some (wi_kernel_instance_id (cx_workspace context)))
           (Some (wi_state_revision (cx_workspace context))) (Some (wi_project_revision (cx_workspace context))))
        (ir_operation request) record).

Definition projected_keys : list string :=
  ["ok"; "name"; "classes"; "dimensions"; "size_bytes"; "typeof"; "preview_kind"].
Definition preview_keys : list string := ["preview"; "structure"].
(** [if let Some(value) = execution.get(key) { projected.insert(key, value) }]. *)
Definition project_keys (execution : Value) (keys : list string) : Map :=
  omap (λ key, pair key <$> value_get key execution) keys.
Definition maximum_of (operation : WorkspaceInspectOperation) : Z :=
  match operation with Metadata => MAX_WORKSPACE_METADATA_BYTES | Preview => MAX_WORKSPACE_PREVIEW_BYTES end.
Definition finish (context : WorkspaceInspectionContext) (prepared : PreparedWorkspaceInspection) (response : Value)
    : result inspect_error Value :=
  _ ← validate_context context;
  let record := pw_record prepared in
  _ ← fail_if (negb (in_context context record)
               || negb (str_eq (pw_reference_id prepared) (ov_reference_id (or_view record)))) StaleWorkspace;
  workspace ← decode_workspace response;
  _ ← fail_if (negb (same_workspace_lineage workspace (cx_workspace context))) StaleWorkspace;
  let execution := execution_of response in
  descriptor ← decode_object_descriptor execution;
  _ ← fail_if (negb (str_eq (od_digest descriptor) (or_object_identity_digest record))) ObjectChanged;
  let projected := project_keys execution projected_keys in
  projected ← match pw_operation prepared with
              | Metadata => Ok projected
              | Preview =>
                  _ ← for_each (λ key, match value_get key execution with
                                       | Some v => validate_preview v 0
                                       | None => Ok ()
                                       end) preview_keys;
                  Ok (projected ++ project_keys execution preview_keys)
              end;
  encoded ← map_err (λ _, MalformedResult) (to_vec (VObject projected));
  _ ← fail_if (maximum_of (pw_operation prepared) <? vec_len encoded) ResultTooLarge;
  Ok (VObject projected).

(** [retain], with the number of records that went. *)
Definition retain_references (keep : WorkspaceObjectReferenceRecord → bool) (r : WorkspaceObjectReferenceRegistry)
    : WorkspaceObjectReferenceRegistry * Z :=
  let kept := filter (λ kv, keep kv.2 = true) (wr_references r) in
  (MkRegistry kept, Z.of_nat (size (wr_references r)) - Z.of_nat (size kept)).
Definition invalidate_project (project_root : string) : WorkspaceObjectReferenceRegistry → WorkspaceObjectReferenceRegistry * Z :=
  retain_references (λ record, negb (str_eq (or_project_root record) project_root)).
Definition invalidate_workspace (workspace : WorkspaceIdentity) : WorkspaceObjectReferenceRegistry → WorkspaceObjectReferenceRegistry * Z :=
  retain_references (λ record, negb (bool_decide (or_workspace record = workspace))).
Definition list_for_context (r : WorkspaceObjectReferenceRegistry) (context : WorkspaceInspectionContext)
    : list WorkspaceObjectReferenceView :=
  or_view <$> filter (λ record, in_context context record = true) (btree_values (wr_references r)).
End inspection.
