(* ===== verification/WorkspaceInspectionProps.v ===== *)
(** * Properties of the inspection of workspace objects

    The registry holds a bounded number of references, each under its own id and in
    the context it was issued in; an issue takes place as a whole or not at all; an
    inspection ends only in the context of its reference, with the object of the same
    description, and shows a bounded selection of fields. *)
From S2P Require Import Prelude Text External Digest Stateful ProjectRoot WorkspaceInspection.
#[local] Open Scope Z_scope.
Import WorkspaceInspectErrorCode.

Section props.
Context `{SerdeNumber, !SerdeToVec, !IdentityFromValue, !Sha256}.
Implicit Types (r : WorkspaceObjectReferenceRegistry) (context : WorkspaceInspectionContext).

(** ** Previews *)

(** A value of at most [levels] levels, with bounded containers, keys and texts. *)
Fixpoint preview_ok (levels : nat) (v : Value) : Prop :=
  match levels with
  | O => False
  | S levels =>
      match v with
      | VArray l => vec_len l <= MAX_WORKSPACE_PREVIEW_ROWS ∧ ∀ x, x ∈ l → preview_ok levels x
      | VObject m =>
          vec_len m <= MAX_WORKSPACE_PREVIEW_COLUMNS
          ∧ ∀ key x, (key, x) ∈ m → str_len key <= 512 ∧ (∀ c, c ∈ chars key → is_control c = false) ∧ preview_ok levels x
      | VString s => str_len s <= 64 * 1024
      | _ => True
      end
  end.
Lemma all_cons {A} (P : A → Prop) x l : (∀ y, y ∈ x :: l → P y) ↔ P x ∧ ∀ y, y ∈ l → P y.
Proof. setoid_rewrite elem_of_cons. naive_solver. Qed.
Lemma all_nil {A} (P : A → Prop) : (∀ y, y ∈ [] → P y) ↔ True.
Proof. split; [done|]. intros _ y Hy. by apply not_elem_of_nil in Hy. Qed.
Lemma validate_preview_Ok levels v depth : 0 <= depth → Z.to_nat (5 - depth) = levels →
  validate_preview v depth = Ok () ↔ preview_ok levels v.
Proof.
  revert v depth. induction levels as [|levels IH]; intros v depth Hd Hl.
  - assert (Hdepth : (MAX_WORKSPACE_PREVIEW_DEPTH <? depth) = true)
      by (unfold MAX_WORKSPACE_PREVIEW_DEPTH; apply Z.ltb_lt; lia).
    destruct v; cbn [validate_preview preview_ok]; by rewrite Hdepth.
  - assert (Hdepth : (MAX_WORKSPACE_PREVIEW_DEPTH <? depth) = false)
      by (unfold MAX_WORKSPACE_PREVIEW_DEPTH; apply Z.ltb_ge; lia).
    assert (IHd : ∀ x, validate_preview x (depth + 1) = Ok () ↔ preview_ok levels x) by (intros x; apply IH; lia).
    destruct v as [|b|n|s|l|m]; cbn [validate_preview preview_ok]; rewrite Hdepth, bind_fail_if_false; try done.
    + by rewrite fail_if_Ok, Z.ltb_ge.
    + rewrite bind_unit_Ok_iff, fail_if_Ok, Z.ltb_ge. apply and_iff_compat_l.
      induction l as [|x l IHl]; [by rewrite all_nil|]. by rewrite bind_unit_Ok_iff, IHd, IHl, all_cons.
    + rewrite bind_unit_Ok_iff, fail_if_Ok, Z.ltb_ge. apply and_iff_compat_l.
      induction m as [|[key x] m IHm].
      { split; [|done]. intros _ k y Hy. by apply not_elem_of_nil in Hy. }
      rewrite !bind_unit_Ok_iff, IHd, IHm, fail_if_Ok, orb_false_iff, Z.ltb_ge, existsb_False.
      setoid_rewrite elem_of_cons. naive_solver.
Qed.

(** ** Descriptions *)

Definition text_field_ok (maximum : Z) (s : string) : Prop :=
  0 < str_len s <= maximum ∧ ∀ c, c ∈ chars s → is_control c = false ∧ is_bidi_control c = false.
Lemma bounded_string_Ok value maximum s :
  bounded_string value maximum = Ok s ↔ value = Some (VString s) ∧ text_field_ok maximum s.
Proof.
  unfold bounded_string. rewrite ok_or_Ok, bind_Some.
  assert (Hu : ∀ t, unbounded_string maximum t = false ↔ text_field_ok maximum t).
  { intros t. unfold unbounded_string, text_field_ok. rewrite !orb_false_iff, Z.ltb_ge, !existsb_False.
    pose proof (str_len_nonneg t). pose proof (str_is_empty_len t). destruct (str_is_empty t); naive_solver lia. }
  split.
  - intros (t & Ht & Hif). destruct (unbounded_string maximum t) eqn:E; [done|]. injection Hif as ->.
    apply Hu in E. split; [|done]. destruct value as [[]|]; cbn in Ht; simplify_eq; done.
  - intros [-> Hs]. exists s. split; [done|]. by rewrite (proj2 (Hu s)).
Qed.
Lemma collect_Ok {A B} (f : A → result inspect_error B) l ys :
  collect f l = Ok ys ↔ Forall2 (λ x y, f x = Ok y) l ys.
Proof.
  revert ys. induction l as [|x l IH]; intros ys; cbn [collect].
  - split; [by intros [= <-]|by intros ->%Forall2_nil_inv_l].
  - rewrite bind_Ok_iff. setoid_rewrite bind_Ok_iff. setoid_rewrite IH. split.
    + intros (y & Hy & ys' & Hys & [= <-]). by constructor.
    + intros (y & ys' & Hy & Hys & ->)%Forall2_cons_inv_l. eauto 10.
Qed.
Record descriptor_ok (d : ObjectDescriptor) : Prop := {
  dk_name : text_field_ok 256 (od_name d);
  dk_classes : vec_len (od_classes d) <= 32 ∧ ∀ class, class ∈ od_classes d → text_field_ok 256 class;
  dk_type : text_field_ok 128 (od_object_type d);
  dk_kind : text_field_ok 128 (od_preview_kind d);
  dk_digest : ∃ bytes, to_vec (descriptor_value (od_name d) (od_classes d) (od_object_type d) (od_preview_kind d)) = Ok bytes
                ∧ od_digest d = sha256_hex bytes
}.
Lemma decode_object_descriptor_Ok v d : decode_object_descriptor v = Ok d →
  descriptor_ok d ∧ value_get "name" v = Some (VString (od_name d)).
Proof.
  unfold decode_object_descriptor. intros Hd.
  apply bind_Ok_iff in Hd as (name & [Hn Hname]%bounded_string_Ok & Hd).
  apply bind_Ok_iff in Hd as (classes & Hc & Hd). apply bind_unit_Ok_iff in Hd as (Hlen%fail_if_Ok%Z.ltb_ge & Hd).
  apply bind_Ok_iff in Hd as (ty & [_ Hty]%bounded_string_Ok & Hd).
  apply bind_Ok_iff in Hd as (kind & [_ Hkind]%bounded_string_Ok & Hd).
  apply bind_Ok_iff in Hd as (bytes & Hb%map_err_Ok & [= <-]). split; [|done]. split; cbn; [done| |done|done|eauto].
  split; [done|]. unfold decode_classes in Hc. destruct (value_get "classes" v) as [[| | |class|l|]|]; try done.
  - apply bind_Ok_iff in Hc as (c & [_ Hc]%bounded_string_Ok & [= <-]). by intros ? ->%list_elem_of_singleton.
  - apply collect_Ok in Hc. intros class Hin. apply list_elem_of_lookup in Hin as [i Hi].
    eapply Forall2_lookup_r in Hc as (x & _ & Hx); [|done]. by apply bounded_string_Ok in Hx as [_ ?].
Qed.

(** ** The registry *)

Record context_ok context : Prop := {
  ck_project : cx_project_root context ≠ "" ∧ cx_project_root context ≠ "legacy_unscoped";
  ck_normal : normalize_project_root (cx_project_root context) = cx_project_root context;
  ck_workspace : wi_workspace_id (cx_workspace context) ≠ "" ∧ wi_kernel_instance_id (cx_workspace context) ≠ ""
}.
Lemma validate_context_Ok context : validate_context context = Ok () ↔ context_ok context.
Proof.
  unfold validate_context, str_is_empty. rewrite fail_if_Ok, !orb_false_iff, negb_false_iff, str_eq_true, str_eq_false,
    !bool_decide_eq_false, str_contains_false. split.
  - intros (((((? & ?) & _) & ?) & ?) & ?). by split.
  - intros [[? ?] Hn [? ?]]. split_and!; try done. rewrite <-Hn. apply normalize_no_backslash.
Qed.

(** A record issued for a description, in a context, under an id. *)
Definition issued_for context (d : ObjectDescriptor) (kv : string * WorkspaceObjectReferenceRecord) : Prop :=
  ov_reference_id (or_view kv.2) = kv.1 ∧ ov_name (or_view kv.2) = od_name d ∧ ov_classes (or_view kv.2) = od_classes d
  ∧ ov_object_type (or_view kv.2) = od_object_type d ∧ ov_preview_kind (or_view kv.2) = od_preview_kind d
  ∧ or_project_root kv.2 = cx_project_root context ∧ or_workspace kv.2 = cx_workspace context
  ∧ or_object_identity_digest kv.2 = od_digest d.
Lemma stage_references_Ok references context ids times seen ds staged :
  stage_references references context ids times seen ds = Ok staged →
  Forall2 (issued_for context) ds staged ∧ NoDup (staged.*1)
  ∧ ∀ id, id ∈ staged.*1 → references !! id = None ∧ id ∉ seen.
Proof.
  revert ids times seen staged. induction ds as [|d ds IH]; intros ids times seen staged; cbn [stage_references].
  { intros [= <-]. split_and!; [done|by constructor|]. intros id Hid. by apply not_elem_of_nil in Hid. }
  rewrite bind_unit_Ok_iff, fail_if_Ok, orb_false_iff, is_some_false, bool_decide_eq_false. intros ((Hnew & Hseen) & Hs).
  apply bind_Ok_iff in Hs as (rest & (Hrest & Hnd & Hfresh)%IH & [= <-]). rewrite fmap_cons. cbn [fst]. split_and!.
  - by constructor.
  - constructor; [|done]. intros Hin. apply Hfresh in Hin as [_ Hin]. set_solver.
  - intros id [->|Hid]%elem_of_cons; [done|]. apply Hfresh in Hid as [? ?]. set_solver.
Qed.

Definition extended (references : gmap string WorkspaceObjectReferenceRecord) (staged : list (string * WorkspaceObjectReferenceRecord)) :=
  foldl (λ m kv, <[kv.1 := kv.2]> m) references staged.
Lemma extended_lookup references staged id record : NoDup (staged.*1) →
  extended references staged !! id = Some record ↔
  (id, record) ∈ staged ∨ (id ∉ staged.*1 ∧ references !! id = Some record).
Proof.
  unfold extended. revert references. induction staged as [|[k x] staged IH]; intros references Hnd; cbn [foldl].
  { rewrite fmap_nil. split; [intros ?; right; split; [apply not_elem_of_nil|done]|].
    intros [Hin|[_ ?]]; [by apply not_elem_of_nil in Hin|done]. }
  rewrite fmap_cons in *. apply NoDup_cons in Hnd as [Hk Hnd]. rewrite IH by done.
  cbn [fst snd] in *. rewrite !elem_of_cons. destruct (decide (id = k)) as [->|Hne].
  - rewrite lookup_insert_eq. split.
    + intros [Hin|[_ [= ->]]]; auto.
    + intros [[[= ->]|Hin]|[Hno _]]; [by right|by left|]. destruct Hno. by left.
  - rewrite lookup_insert_ne by done. naive_solver.
Qed.
Lemma extended_size references staged :
  (size (extended references staged) <= size references + length staged)%nat.
Proof.
  unfold extended. revert references. induction staged as [|[k x] staged IH]; intros references; cbn [foldl length]; [lia|].
  specialize (IH (<[k:=x]> references)). rewrite map_size_insert in IH. destruct (references !! k); cbn in *; lia.
Qed.

Record registry_ok r : Prop := {
  rk_records : ∀ id record, wr_references r !! id = Some record →
    ov_reference_id (or_view record) = id ∧ context_ok (MkContext (or_project_root record) (or_workspace record))
    ∧ text_field_ok 256 (ov_name (or_view record));
  rk_size : Z.of_nat (size (wr_references r)) <= MAX_WORKSPACE_OBJECT_REFERENCES
}.
(** An issue that takes place: new references, in the context, one for each object of
    the snapshot by name; the old ones stay. *)
Record issue_done context r r' (views : list WorkspaceObjectReferenceView) : Prop := {
  id_context : context_ok context;
  id_fresh : ∀ view, view ∈ views → wr_references r !! ov_reference_id view = None;
  id_names : NoDup (ov_name <$> views);
  id_kept : ∀ id record, wr_references r !! id = Some record → wr_references r' !! id = Some record;
  id_new : ∀ id record, wr_references r' !! id = Some record → wr_references r !! id = Some record
    ∨ or_view record ∈ views ∧ ov_reference_id (or_view record) = id ∧ text_field_ok 256 (ov_name (or_view record))
      ∧ or_project_root record = cx_project_root context ∧ or_workspace record = cx_workspace context;
  id_issued : ∀ view, view ∈ views → ∃ record, wr_references r' !! ov_reference_id view = Some record ∧ or_view record = view;
  id_bound : Z.of_nat (size (wr_references r')) <= MAX_WORKSPACE_OBJECT_REFERENCES
}.

Lemma sort_by_key_sorted (l : list ObjectDescriptor) : StronglySorted rle (od_name <$> sort_by_key od_name l).
Proof.
  unfold sort_by_key. assert (Hs : StronglySorted (rle_on od_name) (merge_sort (rle_on od_name) l)).
  { apply StronglySorted_merge_sort; [intros x y z; apply (transitivity (R := rle))|intros x y; apply (total rle)]. }
  induction Hs as [|x l' Hs IH Hall]; [constructor|]. rewrite fmap_cons. constructor; [done|].
  by apply Forall_fmap.
Qed.
Lemma staged_views context ds staged : Forall2 (issued_for context) ds staged →
  ∀ view, view ∈ (λ kv : string * WorkspaceObjectReferenceRecord, or_view kv.2) <$> staged ↔
    ∃ record, (ov_reference_id view, record) ∈ staged ∧ or_view record = view.
Proof.
  intros Hfor view. rewrite list_elem_of_fmap. split.
  - intros ([id record] & -> & Hin). exists record. split; [|done].
    apply list_elem_of_lookup in Hin as [i Hi].
    destruct (Forall2_lookup_r _ _ _ _ _ Hfor Hi) as (d & _ & Hid & _). cbn in *. rewrite Hid. by eapply list_elem_of_lookup_2.
  - intros (record & Hin & <-). by exists (ov_reference_id (or_view record), record).
Qed.
Lemma staged_names context ds staged : Forall2 (issued_for context) ds staged →
  ov_name <$> ((λ kv : string * WorkspaceObjectReferenceRecord, or_view kv.2) <$> staged) = od_name <$> ds.
Proof. induction 1 as [|d kv ds staged Hi Hfor IH]; [done|]. rewrite !fmap_cons, IH. f_equal. apply Hi. Qed.
Lemma issue_post context snapshot ids times r :
  post (issue_from_snapshot context snapshot ids times) r
    (λ views r', issue_done context r r' views) (λ _ r', r' = r).
Proof.
  unfold issue_from_snapshot. post_run.
  destruct (validate_context context) as [[]|] eqn:Hc; [apply validate_context_Ok in Hc|done]. post_run.
  destruct (decode_workspace snapshot) as [workspace|]; [|done]. post_run.
  destruct (negb _); [done|]. post_run. destruct (ok_or _ _) as [objects|]; [|done]. post_run.
  destruct (_ || _) eqn:Hlimit; [done|]. apply orb_false_iff in Hlimit as [_ Hlimit%Z.ltb_ge]. post_run.
  destruct (collect _ _) as [decoded|] eqn:Hdec; [apply collect_Ok in Hdec|done]. post_run.
  destruct (is_some _) eqn:Hadj; [done|]. apply is_some_false in Hadj. post_run.
  destruct (stage_references _ _ _ _ _ _) as [staged|] eqn:Hst; [|done]. post_run.
  apply stage_references_Ok in Hst as (Hfor & Hnd & Hfresh).
  pose proof (staged_views _ _ _ Hfor) as Hviews.
  change (foldl _ _ staged) with (extended (wr_references r) staged).
  split; [done|..].
  - intros view (record & Hin & _)%Hviews. apply Hfresh. apply list_elem_of_fmap. by exists (ov_reference_id view, record).
  - rewrite (staged_names _ _ _ Hfor). apply find_adjacent_None_NoDup; [apply sort_by_key_sorted|done].
  - intros id record Hr. unfold extend_references. apply extended_lookup; [done|]. right. split; [|done].
    intros [Hnone _]%Hfresh. by rewrite Hnone in Hr.
  - intros id record. unfold extend_references. cbn. intros [Hin|[_ ?]]%extended_lookup; [right|by left|done].
    pose proof Hin as [i Hi]%list_elem_of_lookup. destruct (Forall2_lookup_r _ _ _ _ _ Hfor Hi) as (d & Hd & Hissued).
    destruct Hissued as (? & Hname & _ & _ & _ & ? & ? & _). cbn [fst snd] in *.
    split_and!; [apply Hviews; exists record; by subst|done|rewrite Hname|done|done].
    apply list_elem_of_lookup_2 in Hd. rewrite sort_by_key_perm in Hd. apply list_elem_of_lookup in Hd as [k Hk].
    destruct (Forall2_lookup_r _ _ _ _ _ Hdec Hk) as (v & _ & [Hok _]%decode_object_descriptor_Ok). apply Hok.
  - intros view (record & Hin & Hv)%Hviews. exists record. split; [|done]. apply extended_lookup; auto.
  - unfold extend_references. cbn. pose proof (extended_size (wr_references r) staged) as Hsize.
    apply Forall2_length in Hfor, Hdec. rewrite sort_by_key_perm in Hfor. unfold extended, vec_len in *. lia.
Qed.

Lemma retain_lookup keep r id record :
  wr_references (retain_references keep r).1 !! id = Some record ↔ wr_references r !! id = Some record ∧ keep record = true.
Proof. unfold retain_references. cbn. by rewrite map_lookup_filter_Some. Qed.
Lemma retain_size keep r :
  (size (wr_references (retain_references keep r).1) <= size (wr_references r))%nat.
Proof. unfold retain_references. cbn. apply map_subseteq_size, map_filter_subseteq. Qed.

Inductive RegistryCall :=
| CallIssue context (snapshot : Value) (ids : list (list ascii)) (times : list Z)
| CallInvalidateProject (project_root : string)
| CallInvalidateWorkspace (workspace : WorkspaceIdentity).
Definition registry_call (call : RegistryCall) r : WorkspaceObjectReferenceRegistry :=
  match call with
  | CallIssue context snapshot ids times => (issue_from_snapshot context snapshot ids times r).1
  | CallInvalidateProject project_root => (invalidate_project project_root r).1
  | CallInvalidateWorkspace workspace => (invalidate_workspace workspace r).1
  end.
Definition registry_calls (calls : list RegistryCall) : WorkspaceObjectReferenceRegistry :=
  foldl (λ r call, registry_call call r) WorkspaceObjectReferenceRegistry_new calls.

Lemma issue_done_ok context r r' views : registry_ok r → issue_done context r r' views → registry_ok r'.
Proof.
  intros Hr Hd. split; [|apply Hd]. intros id record Hrec.
  destruct (id_new _ _ _ _ Hd _ _ Hrec) as [Hold|(_ & <- & Hname & Hp & Hw)]; [by apply (rk_records _ Hr)|].
  split_and!; [done| |done]. rewrite Hp, Hw. destruct context. apply Hd.
Qed.
Lemma retain_ok keep r : registry_ok r → registry_ok (retain_references keep r).1.
Proof.
  intros Hr. split.
  - intros id record [Hrec _]%retain_lookup. by apply (rk_records _ Hr).
  - pose proof (retain_size keep r). pose proof (rk_size _ Hr). lia.
Qed.
Lemma registry_call_ok call r : registry_ok r → registry_ok (registry_call call r).
Proof.
  intros Hr. destruct call as [context snapshot ids times|project_root|workspace]; [|by apply retain_ok..].
  pose proof (issue_post context snapshot ids times r) as Hp. cbn [registry_call]. unfold post in Hp.
  destruct (issue_from_snapshot _ _ _ _ _) as [r' [views|e]]; cbn [fst]; [by eapply issue_done_ok|by subst].
Qed.
Lemma registry_calls_ok calls : registry_ok (registry_calls calls).
Proof.
  unfold registry_calls. assert (Hnew : registry_ok WorkspaceObjectReferenceRegistry_new).
  { split; cbn; [intros id record Hrec; by rewrite lookup_empty in Hrec|].
    rewrite map_size_empty. unfold MAX_WORKSPACE_OBJECT_REFERENCES. lia. }
  revert Hnew. generalize WorkspaceObjectReferenceRegistry_new.
  induction calls as [|call calls IH]; intros r Hr; [done|]. by apply IH, registry_call_ok.
Qed.

(** after every sequence of calls the registry holds at most 512 references, each
    under its id, with a checked name and context.  An issue adds one new reference for
    each object of the snapshot, in the caller's context, and keeps the old ones, or it
    fails and changes nothing; an invalidation takes exactly the references of the
    project or workspace. *)
Theorem reference_registry_correct (calls : list RegistryCall) (call : RegistryCall) :
  let r := registry_calls calls in
  registry_ok r
  ∧ match call with
    | CallIssue context snapshot ids times =>
        match issue_from_snapshot context snapshot ids times r with
        | (r', Ok views) => issue_done context r r' views
        | (r', Err _) => r' = r
        end
    | CallInvalidateProject project_root => ∀ id record,
        wr_references (registry_call call r) !! id = Some record ↔
        wr_references r !! id = Some record ∧ or_project_root record ≠ project_root
    | CallInvalidateWorkspace workspace => ∀ id record,
        wr_references (registry_call call r) !! id = Some record ↔
        wr_references r !! id = Some record ∧ or_workspace record ≠ workspace
    end.
Proof.
  intros r. split; [apply registry_calls_ok|].
  destruct call as [context snapshot ids times|project_root|workspace]; cbn [registry_call].
  - pose proof (issue_post context snapshot ids times r) as Hp. unfold post in Hp.
    by destruct (issue_from_snapshot _ _ _ _ _) as [r' [views|e]].
  - intros id record. unfold invalidate_project. by rewrite retain_lookup, negb_true_iff, str_eq_false.
  - intros id record. unfold invalidate_workspace. by rewrite retain_lookup, negb_true_iff, bool_decide_eq_false.
Qed.

(** ** Inspections *)

Definition same_lineage (left right : WorkspaceIdentity) : Prop :=
  wi_workspace_id left = wi_workspace_id right ∧ wi_kernel_instance_id left = wi_kernel_instance_id right
  ∧ wi_state_revision left = wi_state_revision right ∧ wi_project_revision left = wi_project_revision right.
Lemma same_workspace_lineage_true left right : same_workspace_lineage left right = true ↔ same_lineage left right.
Proof. unfold same_workspace_lineage, same_lineage. rewrite !andb_true_iff, !str_eq_true, !Z.eqb_eq. tauto. Qed.
Lemma in_context_true context record : in_context context record = true ↔
  or_project_root record = cx_project_root context ∧ same_lineage (or_workspace record) (cx_workspace context).
Proof. unfold in_context. by rewrite andb_true_iff, str_eq_true, same_workspace_lineage_true. Qed.

(** The fields an operation may show. *)
Definition shown_keys (operation : WorkspaceInspectOperation) : list string :=
  match operation with Metadata => projected_keys | Preview => projected_keys ++ preview_keys end.
(** What an inspection shows of the answer: fields of the object, from the list, previews
    only when checked, in bounded size. *)
Record shown (operation : WorkspaceInspectOperation) (response v : Value) : Prop := {
  sh_fields : v = VObject (project_keys (execution_of response) (shown_keys operation));
  sh_preview : operation = Preview → ∀ key x, key ∈ preview_keys → value_get key (execution_of response) = Some x →
    preview_ok 5 x;
  sh_size : ∃ bytes, to_vec v = Ok bytes ∧ vec_len bytes <= maximum_of operation
}.
Lemma project_keys_app execution keys keys' :
  project_keys execution (keys ++ keys') = project_keys execution keys ++ project_keys execution keys'.
Proof. apply omap_app. Qed.
Lemma prepare_Ok r context request prepared : prepare r context request = Ok prepared ↔
  context_ok context ∧ ∃ record, wr_references r !! ir_object_reference request = Some record
  ∧ in_context context record = true
  ∧ prepared = MkPrepared (ir_object_reference request) "workspace.inspect_object"
        (VObject [("name", VString (ov_name (or_view record)))])
        (MkExpected (Some (wi_kernel_instance_id (cx_workspace context)))
           (Some (wi_state_revision (cx_workspace context))) (Some (wi_project_revision (cx_workspace context))))
        (ir_operation request) record.
Proof.
  unfold prepare. rewrite bind_unit_Ok_iff, validate_context_Ok, bind_Ok_iff. setoid_rewrite ok_or_Ok.
  setoid_rewrite bind_unit_Ok_iff. setoid_rewrite fail_if_Ok. setoid_rewrite negb_false_iff.
  split; (intros (? & record & ? & ? & Heq); split; [done|]; exists record; split_and!; try done).
  - by injection Heq.
  - by subst.
Qed.
Lemma finish_Ok context prepared response v : finish context prepared response = Ok v →
  context_ok context ∧ in_context context (pw_record prepared) = true
  ∧ pw_reference_id prepared = ov_reference_id (or_view (pw_record prepared))
  ∧ (∃ workspace, decode_workspace response = Ok workspace ∧ same_lineage workspace (cx_workspace context))
  ∧ (∃ d, decode_object_descriptor (execution_of response) = Ok d ∧ od_digest d = or_object_identity_digest (pw_record prepared))
  ∧ shown (pw_operation prepared) response v.
Proof.
  unfold finish. rewrite bind_unit_Ok_iff, validate_context_Ok. intros (Hc & Hf). cbn zeta in Hf.
  rewrite bind_unit_Ok_iff, fail_if_Ok, orb_false_iff, !negb_false_iff, str_eq_true in Hf.
  destruct Hf as ((Hin & Hid) & Hf). apply bind_Ok_iff in Hf as (workspace & Hw & Hf).
  rewrite bind_unit_Ok_iff, fail_if_Ok, negb_false_iff, same_workspace_lineage_true in Hf. destruct Hf as (Hl & Hf).
  apply bind_Ok_iff in Hf as (d & Hd & Hf).
  rewrite bind_unit_Ok_iff, fail_if_Ok, negb_false_iff, str_eq_true in Hf. destruct Hf as (Hdig & Hf).
  apply bind_Ok_iff in Hf as (projected & Hp & Hf). apply bind_Ok_iff in Hf as (bytes & Hb%map_err_Ok & Hf).
  rewrite bind_unit_Ok_iff, fail_if_Ok, Z.ltb_ge in Hf. destruct Hf as (Hsize & [= <-]).
  split_and!; [done|done|done|by exists workspace|by exists d|]. destruct (pw_operation prepared).
  - injection Hp as <-. split; [done|done|by exists bytes].
  - apply bind_unit_Ok_iff in Hp as (Hall & [= <-]). split; [cbn [shown_keys]; by rewrite project_keys_app| |by exists bytes].
    intros _ key x Hkey Hx. rewrite for_each_Ok, Forall_forall in Hall. specialize (Hall key Hkey). cbn in Hall.
    rewrite Hx in Hall. by apply (validate_preview_Ok 5 x 0) in Hall.
Qed.

End props.
