(* ===== verification/LifecycleRecords.v ===== *)
(** * Records of plugin lifecycles

    Model of the data of [crates/rho-store/src/plugin_lifecycle.rs] and of the checks a
    caller's draft passes before it reaches the database.  The texts of JSON and of
    instants are those of [serde_json] and [chrono], parameters. *)
From S2P Require Import Prelude Text External ProjectRoot.
#[local] Open Scope Z_scope.

Definition DEFAULT_LIMIT : Z := 50.
Definition MAX_LIMIT : Z := 200.
Definition MAX_IDENTIFIER_BYTES : Z := 128.
Definition MAX_DETAILS_BYTES : Z := 8 * 1024.
Definition MAX_RETENTION_BATCH : Z := 100.
Definition TRANSITION_PHASES : list string :=
  ["requested"; "preflight"; "backup_prepared"; "grants_ready"; "candidate_activated"; "routing_closed";
   "calls_drained"; "handles_revoked"; "contributions_disposed"; "host_disposed"; "package_moved";
   "pointer_swapped"; "durable_committed"; "completed"].

(** The variants of [StoreError] that lifecycle operations return.  An error of SQLite
    is a constraint that refuses a row or any other failure of a statement. *)
Inductive SqliteFailure := ConstraintViolation | StatementFailed.
Inductive StoreError :=
| Sqlite (failure : SqliteFailure)
| Json
| Validation (message : string).

(** ** The rows *)

Record WorkspacePluginState := MkState {
  ws_project_root : string;
  ws_plugin_id : string;
  ws_directory_name : string;
  ws_plugin_version : string;
  ws_accepted_digest : option string;
  ws_pending_digest : option string;
  ws_rollback_digest : option string;
  ws_runtime_kind : string;
  ws_desired_state : string;
  ws_observed_state : string;
  ws_last_activation_generation : Z;
  ws_last_host_session_id : option string;
  ws_transition_id : option string;
  ws_last_error_code : option string;
  ws_enabled_at : option string;
  ws_disabled_at : option string;
  ws_updated_at : string
}.
Record WorkspacePluginTransition := MkTransition {
  wt_transition_id : string;
  wt_project_root : string;
  wt_plugin_id : string;
  wt_kind : string;
  wt_expected_old_digest : option string;
  wt_candidate_digest : option string;
  wt_rollback_digest : option string;
  wt_phase : string;
  wt_status : string;
  wt_requested_at : string;
  wt_updated_at : string;
  wt_completed_at : option string;
  wt_reason_code : option string;
  wt_backup_path_key : option string
}.
Record WorkspacePluginLifecycleEvent := MkLifecycleEvent {
  we_event_id : string;
  we_project_root : string;
  we_plugin_id : string;
  we_transition_id : option string;
  we_package_digest : option string;
  we_event_type : string;
  we_status : string;
  we_phase : string;
  we_reason_code : option string;
  we_details_json : string;
  we_created_at : string
}.
Record WorkspacePluginPackageTombstone := MkTombstone {
  wb_tombstone_id : string;
  wb_project_root : string;
  wb_plugin_id : string;
  wb_package_digest : string;
  wb_backup_path_key : string;
  wb_original_directory_name : string;
  wb_moved_at : string;
  wb_deleted_at : option string;
  wb_restored_at : option string;
  wb_retention_class : string;
  wb_reason_code : string
}.

(** ** The drafts *)

Record WorkspacePluginDiscoveredDraft := MkDiscovered {
  dd_project_root : string;
  dd_plugin_id : string;
  dd_directory_name : string;
  dd_plugin_version : string;
  dd_runtime_kind : string;
  dd_discovered_digest : string
}.
Record WorkspacePluginTransitionDraft := MkTransitionDraft {
  td_transition_id : string;
  td_project_root : string;
  td_plugin_id : string;
  td_kind : string;
  td_request_event_type : string;
  td_desired_state : string;
  td_expected_old_digest : option string;
  td_candidate_digest : option string;
  td_rollback_digest : option string;
  td_backup_path_key : option string
}.
Record WorkspacePluginTransitionAdvance := MkAdvance {
  ta_project_root : string;
  ta_transition_id : string;
  ta_expected_phase : string;
  ta_next_phase : string;
  ta_status : string;
  ta_observed_state : string;
  ta_accepted_digest : option string;
  ta_pending_digest : option string;
  ta_rollback_digest : option string;
  ta_clear_pending_digest : bool;
  ta_last_host_session_id : option string;
  ta_last_error_code : option string;
  ta_reason_code : option string;
  ta_event_type : string;
  ta_event_status : string;
  ta_details_json : string
}.
Record WorkspacePluginTombstoneDraft := MkTombstoneDraft {
  bd_tombstone_id : string;
  bd_project_root : string;
  bd_plugin_id : string;
  bd_package_digest : string;
  bd_backup_path_key : string;
  bd_original_directory_name : string;
  bd_retention_class : string;
  bd_reason_code : string
}.
Record WorkspacePluginPurgeDraft := MkPurgeDraft {
  pd_project_root : string;
  pd_tombstone_id : string;
  pd_plugin_id : string;
  pd_package_digest : string;
  pd_backup_path_key : string;
  pd_original_directory_name : string
}.
Record LifecycleEventInsert := MkEventInsert {
  ei_project_root : string;
  ei_plugin_id : string;
  ei_transition_id : option string;
  ei_package_digest : option string;
  ei_event_type : string;
  ei_status : string;
  ei_phase : string;
  ei_reason_code : option string;
  ei_details_json : string;
  ei_created_at : string
}.

(** ** The answers *)

Module PluginLifecycleMutationOutcome.
Inductive t := Applied | Unchanged | NotFound | Stale | Conflict.
#[global] Instance t_eq_dec : EqDecision t.
Proof. solve_decision. Defined.
End PluginLifecycleMutationOutcome.
Import PluginLifecycleMutationOutcome.
Abbreviation outcome := PluginLifecycleMutationOutcome.t.
Record WorkspacePluginTransitionRequestResult := MkRequestResult {
  rq_outcome : outcome;
  rq_state : WorkspacePluginState;
  rq_transition : WorkspacePluginTransition
}.
Record WorkspacePluginGenerationAllocation := MkAllocation { ga_outcome : outcome; ga_generation : Z }.
Record WorkspacePluginCrashOutcome := MkCrashOutcome {
  co_outcome : outcome;
  co_crash_count : Z;
  co_blocked : bool;
  co_state : WorkspacePluginState
}.
Record WorkspacePluginUninstallCompletion := MkUninstallCompletion {
  uc_outcome : outcome;
  uc_state : WorkspacePluginState;
  uc_transition : WorkspacePluginTransition;
  uc_tombstone : WorkspacePluginPackageTombstone
}.
Record WorkspacePluginRestoreCompletion := MkRestoreCompletion {
  rc_outcome : outcome;
  rc_state : WorkspacePluginState;
  rc_tombstone : WorkspacePluginPackageTombstone
}.
Record WorkspacePluginRetentionSweep := MkSweep {
  rs_outcome : outcome;
  rs_expired : list WorkspacePluginPackageTombstone
}.
Record WorkspacePluginPurgeResult := MkPurgeResult {
  pu_outcome : outcome;
  pu_tombstone : WorkspacePluginPackageTombstone
}.
Record WorkspacePluginReplacementCompletion := MkReplacementCompletion {
  pc_outcome : outcome;
  pc_state : WorkspacePluginState;
  pc_transition : WorkspacePluginTransition
}.

(** ** What the store relies on *)

(** [serde_json::from_str] and [to_string] on a [Value], SQLite's [json_valid], and
    [chrono]'s texts of instants, counted in nanoseconds.  Writing a [Value] to a
    string does not fail. *)
Class StoreLibraries `{SerdeNumber} := {
  json_from_str : string → option Value;
  json_text : Value → string;
  sqlite_json_valid : string → bool;
  to_rfc3339 : Z → string;
  parse_from_rfc3339 : string → option Z
}.

(** ** Checks *)

Abbreviation checked A := (result StoreError A).
Definition refuse_draft {A} (message : string) : checked A := Err (Validation message).
Definition require (c : bool) (message : string) : checked () := fail_if (negb c) (Validation message).
(** [o.map(f).transpose()]. *)
Definition transpose {A B} (f : A → checked B) (o : option A) : checked (option B) :=
  match o with Some a => b ← f a; Ok (Some b) | None => Ok None end.
Definition listed (names : list string) (value : string) : bool := bool_decide (value ∈ names).

Definition project_root_of (project_root : string) : checked string :=
  map_err Validation (required_project_root project_root).
(** [position]. *)
Fixpoint position (value : string) (l : list string) : option Z :=
  match l with
  | [] => None
  | x :: l => if str_eq x value then Some 0 else (λ n, n + 1) <$> position value l
  end.
Definition phase_rank (value : string) : checked Z :=
  ok_or (position value TRANSITION_PHASES) (Validation ("unsupported plugin transition phase: " +:+ value)).

Definition transition_kinds : list string :=
  ["enable"; "disable"; "uninstall"; "retry"; "upgrade"; "rollback"; "project_teardown"; "shutdown"].
Definition validate_transition_kind (value : string) : checked string :=
  if listed transition_kinds value then Ok value else refuse_draft "unsupported plugin transition kind".
(** [None] is the arm [unreachable!()]. *)
Definition desired_state_for_kind (kind : string) : option string :=
  if listed ["enable"; "retry"; "upgrade"; "rollback"] kind then Some "enabled"
  else if str_eq kind "uninstall" then Some "uninstalled"
  else if str_eq kind "disable" then Some "disabled"
  else if listed ["project_teardown"; "shutdown"] kind then Some "enabled_or_disabled"
  else None.
Definition transition_requires_expected_digest (kind : string) : bool :=
  listed ["disable"; "uninstall"; "upgrade"; "rollback"; "project_teardown"; "shutdown"] kind.
Definition desired_states : list string := ["disabled"; "enabled"; "uninstalled"].
Definition validate_desired_state (value : string) : checked string :=
  if listed desired_states value then Ok value else refuse_draft "unsupported plugin desired state".
Definition observed_states : list string :=
  ["discovered"; "disabled"; "resolving"; "activating"; "active"; "quiescing"; "disposing"; "stopped";
   "crashed"; "update_pending"; "rollback_pending"; "uninstalled"; "blocked"].
Definition validate_observed_state (value : string) : checked () :=
  require (listed observed_states value) "unsupported plugin observed state".
Definition transition_statuses : list string :=
  ["pending"; "running"; "completed"; "failed"; "cancelled"; "completion_uncertain"].
Definition validate_transition_status (value : string) : checked () :=
  require (listed transition_statuses value) "unsupported plugin transition status".
Definition is_terminal_transition_status (value : string) : bool := listed ["completed"; "failed"; "cancelled"] value.
(** [status IN ('pending', 'running', 'completion_uncertain')]. *)
Definition is_active_status (value : string) : bool := listed ["pending"; "running"; "completion_uncertain"] value.
Definition event_types : list string :=
  ["discovery"; "user_requested"; "preflight"; "grant_state"; "activation"; "routing_published"; "call_drain";
   "call_cancelled"; "handles_revoked"; "contributions_disposed"; "host_disposed"; "host_quarantined";
   "package_backed_up"; "pointer_cas"; "rollback"; "recovery"; "transition_completed"; "transition_failed"].
Definition validate_event_type (value : string) : checked () :=
  require (listed event_types value) "unsupported plugin lifecycle event type".
Definition event_statuses : list string := ["pending"; "completed"; "failed"; "cancelled"; "stale"; "uncertain"].
Definition validate_event_status (value : string) : checked () :=
  require (listed event_statuses value) "unsupported plugin lifecycle event status".

Definition identifier_byte (byte : ascii) : bool :=
  is_ascii_lowercase byte || is_ascii_uppercase byte || is_ascii_digit byte || one_of ["."; "_"; "-"]%char byte.
Definition validate_identifier (value label : string) : checked string :=
  let value := str_trim value in
  if str_is_empty value || (MAX_IDENTIFIER_BYTES <? str_len value) || negb (forallb identifier_byte (str_bytes value))
  then refuse_draft ("invalid " +:+ label)
  else Ok value.
Definition validate_directory_name (value : string) : checked string :=
  let value := str_trim value in
  if str_is_empty value || (MAX_IDENTIFIER_BYTES <? str_len value) || listed ["."; ".."] value
     || existsb (one_of ["/"; "\"; ":"]%char) (str_bytes value) || existsb is_control (chars value)
  then refuse_draft "invalid workspace plugin directory component"
  else Ok value.
Definition validate_opaque_key (value : string) : checked string :=
  value ← validate_identifier value "opaque backup key";
  if str_contains ":" value then refuse_draft "opaque backup key must not be a path" else Ok value.
Definition validate_version `{Semver} (value : string) : checked string :=
  let value := str_trim value in
  if (MAX_IDENTIFIER_BYTES <? str_len value) || negb (is_some (Version_parse value))
  then refuse_draft "plugin lifecycle version must be semantic"
  else Ok value.
Definition validate_runtime_kind (value : string) : checked string :=
  if str_eq value "wasm" then Ok value else refuse_draft "plugin lifecycle runtime kind must be wasm".
Definition validate_digest (value label : string) : checked string :=
  if negb (str_len value =? 64) || negb (forallb is_lower_hex (str_bytes value))
  then refuse_draft ("invalid " +:+ label)
  else Ok value.
Definition validate_optional_digest (value : option string) (label : string) : checked (option string) :=
  transpose (λ value, validate_digest value label) value.

(** ** Details of an event *)

Definition forbidden_detail_names : list string :=
  ["handle"; "credential"; "token"; "secret"; "content"; "payload"; "url"; "header"; "wasm"; "memory";
   "workspace_id"; "full_path"].
Definition forbidden_detail_key (key : string) : bool :=
  str_is_empty key || (64 <? str_len key) || existsb is_control (chars key)
  || existsb (λ forbidden, str_contains_str forbidden (to_ascii_lowercase key)) forbidden_detail_names.
Definition plain_detail_text (value : string) : bool :=
  (str_len value <=? 128) && negb (existsb is_control (chars value))
  && negb (str_contains_str "handle." value) && negb (str_contains_str "://" value)
  && negb (str_contains "/" value) && negb (str_contains "\" value).

Section details.
Context `{StoreLibraries}.

Definition safe_detail_value (value : Value) : bool :=
  is_null value || is_boolean value || is_number value || is_some_and plain_detail_text (as_string value).
Definition validate_details_json (value : string) : checked string :=
  _ ← require (str_len value <=? MAX_DETAILS_BYTES) "plugin lifecycle details exceed their byte budget";
  parsed ← ok_or (json_from_str value) Json;
  object ← ok_or (as_object parsed) (Validation "plugin lifecycle details must be an object");
  _ ← require (vec_len object <=? 24) "plugin lifecycle details contain too many fields";
  _ ← for_each (λ kv : string * Value,
        _ ← require (negb (forbidden_detail_key kv.1)) "plugin lifecycle details contain a forbidden field";
        require (safe_detail_value kv.2) "plugin lifecycle details contain an unsafe value") object;
  Ok (json_text parsed).
End details.

(** ** Checks of drafts *)

Section drafts.
Context `{StoreLibraries, !Semver}.

Definition validate_discovered (draft : WorkspacePluginDiscoveredDraft) : checked WorkspacePluginDiscoveredDraft :=
  project_root ← project_root_of (dd_project_root draft);
  plugin_id ← validate_identifier (dd_plugin_id draft) "plugin id";
  directory_name ← validate_directory_name (dd_directory_name draft);
  plugin_version ← validate_version (dd_plugin_version draft);
  runtime_kind ← validate_runtime_kind (dd_runtime_kind draft);
  discovered_digest ← validate_digest (dd_discovered_digest draft) "discovered digest";
  Ok (MkDiscovered project_root plugin_id directory_name plugin_version runtime_kind discovered_digest).

Definition desired_matches (kind desired_state : string) : bool :=
  if listed ["project_teardown"; "shutdown"] kind then listed ["enabled"; "disabled"] desired_state
  else bool_decide (Some desired_state = desired_state_for_kind kind).
Definition validate_transition_draft (draft : WorkspacePluginTransitionDraft) : checked WorkspacePluginTransitionDraft :=
  kind ← validate_transition_kind (td_kind draft);
  let request_event_type := str_trim (td_request_event_type draft) in
  _ ← require (listed ["user_requested"; "recovery"] request_event_type)
        "plugin transition request event must be user_requested or recovery";
  desired_state ← validate_desired_state (td_desired_state draft);
  _ ← require (desired_matches kind desired_state)
        ("transition kind " +:+ kind +:+ " requires desired state " +:+ default "" (desired_state_for_kind kind));
  expected_old_digest ← validate_optional_digest (td_expected_old_digest draft) "expected old digest";
  candidate_digest ← validate_optional_digest (td_candidate_digest draft) "candidate digest";
  rollback_digest ← validate_optional_digest (td_rollback_digest draft) "rollback digest";
  _ ← require (negb (listed ["enable"; "retry"] kind && negb (is_some candidate_digest)))
        "enable/retry transition requires a candidate digest";
  _ ← require (negb (listed ["upgrade"; "rollback"] kind
                     && (negb (is_some expected_old_digest) || negb (is_some candidate_digest))))
        "upgrade/rollback transition requires expected and candidate digests";
  _ ← require (negb (is_some expected_old_digest && bool_decide (expected_old_digest = candidate_digest)))
        "transition candidate digest must differ from expected old digest";
  transition_id ← validate_identifier (td_transition_id draft) "transition id";
  project_root ← project_root_of (td_project_root draft);
  plugin_id ← validate_identifier (td_plugin_id draft) "plugin id";
  backup_path_key ← transpose validate_opaque_key (td_backup_path_key draft);
  Ok (MkTransitionDraft transition_id project_root plugin_id kind request_event_type desired_state
        expected_old_digest candidate_digest rollback_digest backup_path_key).

Definition validate_transition_advance (draft : WorkspacePluginTransitionAdvance)
    : checked WorkspacePluginTransitionAdvance :=
  project_root ← project_root_of (ta_project_root draft);
  transition_id ← validate_identifier (ta_transition_id draft) "transition id";
  _ ← phase_rank (ta_expected_phase draft);
  _ ← phase_rank (ta_next_phase draft);
  _ ← validate_transition_status (ta_status draft);
  _ ← require (Bool.eqb (is_terminal_transition_status (ta_status draft)) (str_eq (ta_next_phase draft) "completed"))
        "terminal plugin transition status requires completed phase";
  _ ← validate_observed_state (ta_observed_state draft);
  _ ← validate_event_type (ta_event_type draft);
  _ ← validate_event_status (ta_event_status draft);
  reason_code ← transpose (λ value, validate_identifier value "reason code") (ta_reason_code draft);
  last_error_code ← transpose (λ value, validate_identifier value "error code") (ta_last_error_code draft);
  last_host_session_id ←
    transpose (λ value, validate_identifier value "host session id") (ta_last_host_session_id draft);
  accepted_digest ← validate_optional_digest (ta_accepted_digest draft) "accepted digest";
  pending_digest ← validate_optional_digest (ta_pending_digest draft) "pending digest";
  rollback_digest ← validate_optional_digest (ta_rollback_digest draft) "rollback digest";
  details_json ← validate_details_json (ta_details_json draft);
  Ok (MkAdvance project_root transition_id (ta_expected_phase draft) (ta_next_phase draft) (ta_status draft)
        (ta_observed_state draft) accepted_digest pending_digest rollback_digest (ta_clear_pending_digest draft)
        last_host_session_id last_error_code reason_code (ta_event_type draft) (ta_event_status draft) details_json).

Definition retention_classes : list string := ["recoverable"; "expired"; "purge_pending"].
Definition validate_tombstone (draft : WorkspacePluginTombstoneDraft) : checked WorkspacePluginTombstoneDraft :=
  _ ← require (listed retention_classes (bd_retention_class draft)) "unsupported plugin tombstone retention class";
  tombstone_id ← validate_identifier (bd_tombstone_id draft) "tombstone id";
  project_root ← project_root_of (bd_project_root draft);
  plugin_id ← validate_identifier (bd_plugin_id draft) "plugin id";
  package_digest ← validate_digest (bd_package_digest draft) "package digest";
  backup_path_key ← validate_opaque_key (bd_backup_path_key draft);
  original_directory_name ← validate_directory_name (bd_original_directory_name draft);
  reason_code ← validate_identifier (bd_reason_code draft) "reason code";
  Ok (MkTombstoneDraft tombstone_id project_root plugin_id package_digest backup_path_key original_directory_name
        (bd_retention_class draft) reason_code).
Definition validate_purge_draft (draft : WorkspacePluginPurgeDraft) : checked WorkspacePluginPurgeDraft :=
  project_root ← project_root_of (pd_project_root draft);
  tombstone_id ← validate_identifier (pd_tombstone_id draft) "tombstone id";
  plugin_id ← validate_identifier (pd_plugin_id draft) "plugin id";
  package_digest ← validate_digest (pd_package_digest draft) "package digest";
  backup_path_key ← validate_opaque_key (pd_backup_path_key draft);
  original_directory_name ← validate_directory_name (pd_original_directory_name draft);
  Ok (MkPurgeDraft project_root tombstone_id plugin_id package_digest backup_path_key original_directory_name).
End drafts.

(** ** A draft and its row *)

Definition ensure_purge_identity (tombstone : WorkspacePluginPackageTombstone) (draft : WorkspacePluginPurgeDraft)
    : checked () :=
  require (str_eq (wb_plugin_id tombstone) (pd_plugin_id draft)
           && str_eq (wb_package_digest tombstone) (pd_package_digest draft)
           && str_eq (wb_backup_path_key tombstone) (pd_backup_path_key draft)
           && str_eq (wb_original_directory_name tombstone) (pd_original_directory_name draft))
    "plugin purge identity does not match tombstone truth".
Definition ensure_tombstone_matches (tombstone : WorkspacePluginPackageTombstone)
    (draft : WorkspacePluginTombstoneDraft) : checked () :=
  require (str_eq (wb_plugin_id tombstone) (bd_plugin_id draft)
           && str_eq (wb_package_digest tombstone) (bd_package_digest draft)
           && str_eq (wb_backup_path_key tombstone) (bd_backup_path_key draft)
           && str_eq (wb_original_directory_name tombstone) (bd_original_directory_name draft)
           && str_eq (wb_retention_class tombstone) (bd_retention_class draft)
           && str_eq (wb_reason_code tombstone) (bd_reason_code draft)
           && negb (is_some (wb_deleted_at tombstone)) && negb (is_some (wb_restored_at tombstone)))
    "tombstone ID already belongs to different package evidence".
Definition synthetic_tombstone (draft : WorkspacePluginTombstoneDraft) : WorkspacePluginPackageTombstone :=
  MkTombstone (bd_tombstone_id draft) (bd_project_root draft) (bd_plugin_id draft) (bd_package_digest draft)
    (bd_backup_path_key draft) (bd_original_directory_name draft) "" None None (bd_retention_class draft)
    (bd_reason_code draft).
Definition transition_matches_draft (transition : WorkspacePluginTransition) (draft : WorkspacePluginTransitionDraft)
    : bool :=
  str_eq (wt_plugin_id transition) (td_plugin_id draft)
  && str_eq (wt_kind transition) (td_kind draft)
  && bool_decide (wt_expected_old_digest transition = td_expected_old_digest draft)
  && bool_decide (wt_candidate_digest transition = td_candidate_digest draft)
  && bool_decide (wt_rollback_digest transition = td_rollback_digest draft)
  && bool_decide (wt_backup_path_key transition = td_backup_path_key draft).
Definition synthetic_transition (draft : WorkspacePluginTransitionDraft) : WorkspacePluginTransition :=
  MkTransition (td_transition_id draft) (td_project_root draft) (td_plugin_id draft) (td_kind draft)
    (td_expected_old_digest draft) (td_candidate_digest draft) (td_rollback_digest draft) "requested" "pending"
    "" "" None None (td_backup_path_key draft).
