(* ===== verification/LifecycleDatabase.v ===== *)
(** * The lifecycle tables

    Model of the four lifecycle tables of [crates/rho-store/src/migration.rs] with their
    keys, checks and references, and of the connection of
    [crates/rho-store/src/plugin_lifecycle.rs]: statements that may fail, and
    transactions that commit as a whole or leave the tables alone.  Other connections to
    the same file work between the statements of this one, but not inside its
    transactions. *)
From S2P Require Import Prelude Text External Stateful LifecycleRecords.
#[local] Open Scope Z_scope.

(** Each table by its primary key. *)
Record Database := MkDatabase {
  db_states : gmap (string * string) WorkspacePluginState;
  db_transitions : gmap string WorkspacePluginTransition;
  db_events : gmap string WorkspacePluginLifecycleEvent;
  db_tombstones : gmap string WorkspacePluginPackageTombstone
}.
Definition Database_new : Database := MkDatabase ∅ ∅ ∅ ∅.

(** ** Checks of columns *)

(** SQLite's [length] counts the characters of a text before its first NUL. *)
Fixpoint until_nul (cs : list Z) : list Z :=
  match cs with
  | [] => []
  | c :: cs => if c =? 0 then [] else c :: until_nul cs
  end.
Definition sql_length (s : string) : Z := vec_len (until_nul (chars s)).
Definition length_between (lo hi : Z) (s : string) : bool := (lo <=? sql_length s) && (sql_length s <=? hi).
(** [c IS NULL OR check(c)]. *)
Definition null_or {A} (check : A → bool) (c : option A) : bool :=
  match c with Some value => check value | None => true end.
Definition is_lower_hex_char (c : Z) : bool := ((48 <=? c) && (c <=? 57)) || ((97 <=? c) && (c <=? 102)).
Definition digest_check (s : string) : bool := (sql_length s =? 64) && forallb is_lower_hex_char (chars s).
Definition short_text (s : string) : bool := length_between 1 128 s.
Definition path_free (s : string) : bool := negb (str_contains "/" s) && negb (str_contains "\" s).

Definition state_check (s : WorkspacePluginState) : bool :=
  negb (str_is_empty (ws_project_root s)) && short_text (ws_plugin_id s)
  && short_text (ws_directory_name s) && path_free (ws_directory_name s) && short_text (ws_plugin_version s)
  && null_or digest_check (ws_accepted_digest s) && null_or digest_check (ws_pending_digest s)
  && null_or digest_check (ws_rollback_digest s) && str_eq (ws_runtime_kind s) "wasm"
  && listed desired_states (ws_desired_state s) && listed observed_states (ws_observed_state s)
  && (0 <=? ws_last_activation_generation s) && null_or short_text (ws_last_host_session_id s)
  && null_or short_text (ws_transition_id s) && null_or short_text (ws_last_error_code s).
Definition transition_check (t : WorkspacePluginTransition) : bool :=
  short_text (wt_transition_id t) && negb (str_is_empty (wt_project_root t)) && short_text (wt_plugin_id t)
  && listed transition_kinds (wt_kind t) && null_or digest_check (wt_expected_old_digest t)
  && null_or digest_check (wt_candidate_digest t) && null_or digest_check (wt_rollback_digest t)
  && length_between 1 64 (wt_phase t) && listed transition_statuses (wt_status t)
  && null_or short_text (wt_reason_code t)
  && null_or (λ key, short_text key && path_free key && negb (str_contains ":" key)) (wt_backup_path_key t)
  && ((is_active_status (wt_status t) && negb (is_some (wt_completed_at t)))
      || (is_terminal_transition_status (wt_status t) && is_some (wt_completed_at t))).
Definition event_check `{StoreLibraries} (e : WorkspacePluginLifecycleEvent) : bool :=
  short_text (we_event_id e) && negb (str_is_empty (we_project_root e)) && short_text (we_plugin_id e)
  && null_or digest_check (we_package_digest e) && listed event_types (we_event_type e)
  && listed event_statuses (we_status e) && length_between 1 64 (we_phase e)
  && null_or short_text (we_reason_code e) && sqlite_json_valid (we_details_json e)
  && (str_len (we_details_json e) <=? 8192).
Definition tombstone_check (b : WorkspacePluginPackageTombstone) : bool :=
  short_text (wb_tombstone_id b) && negb (str_is_empty (wb_project_root b)) && short_text (wb_plugin_id b)
  && digest_check (wb_package_digest b)
  && short_text (wb_backup_path_key b) && path_free (wb_backup_path_key b) && negb (str_contains ":" (wb_backup_path_key b))
  && short_text (wb_original_directory_name b) && path_free (wb_original_directory_name b)
  && listed retention_classes (wb_retention_class b) && short_text (wb_reason_code b)
  && (negb (is_some (wb_deleted_at b)) || negb (is_some (wb_restored_at b))).

(** ** Keys and references *)

Definition state_key (s : WorkspacePluginState) : string * string := (ws_project_root s, ws_plugin_id s).
Definition plugin_of (t : WorkspacePluginTransition) : string * string := (wt_project_root t, wt_plugin_id t).
Definition is_active (t : WorkspacePluginTransition) : bool := is_active_status (wt_status t).
Definition some_row `{Countable K} {V} (p : V → bool) (m : gmap K V) : bool :=
  existsb (λ kv : K * V, p kv.2) (map_to_list m).
(** The index [idx_workspace_plugin_transitions_one_active]: the row clashes with another. *)
Definition second_active (t : WorkspacePluginTransition) (db : Database) : bool :=
  is_active t
  && some_row (λ u, is_active u && bool_decide (plugin_of u = plugin_of t)
                    && negb (str_eq (wt_transition_id u) (wt_transition_id t))) (db_transitions db).
Definition backup_key_taken (b : WorkspacePluginPackageTombstone) (db : Database) : bool :=
  some_row (λ c, str_eq (wb_backup_path_key c) (wb_backup_path_key b)
                 && negb (str_eq (wb_tombstone_id c) (wb_tombstone_id b))) (db_tombstones db).
Definition state_exists (project_root plugin_id : string) (db : Database) : bool :=
  is_some (db_states db !! (project_root, plugin_id)).
(** The reference of an event to its transition holds when its id is [NULL]. *)
Definition event_transition_exists (e : WorkspacePluginLifecycleEvent) (db : Database) : bool :=
  null_or (λ id, is_some_and (λ t, bool_decide (plugin_of t = (we_project_root e, we_plugin_id e)))
                   (db_transitions db !! id)) (we_transition_id e).

(** [ORDER BY column DESC]. *)
Record descending := MkDescending { ascending : string }.
#[global] Instance descending_ord : RustOrd descending := λ a b, rcmp (ascending b) (ascending a).
#[global] Instance descending_ord_laws : RustOrdLaws descending.
Proof.
  split.
  - intros [a] [b]. change (rcmp b a = Eq ↔ MkDescending a = MkDescending b). rewrite rcmp_eq. naive_solver.
  - intros [a] [b]. apply (rcmp_antisym b a).
  - intros [a] [b] [c] Hab Hbc. by apply (rcmp_trans c b a).
Qed.

(** ** Changes of one row *)

Abbreviation changed A := (result SqliteFailure (Database * A)).
Definition refused_unless {A} (c : bool) (r : changed A) : changed A := if c then r else Err ConstraintViolation.

Definition set_states states db := MkDatabase states (db_transitions db) (db_events db) (db_tombstones db).
Definition set_transitions transitions db := MkDatabase (db_states db) transitions (db_events db) (db_tombstones db).
Definition set_events events db := MkDatabase (db_states db) (db_transitions db) events (db_tombstones db).
Definition set_tombstones tombstones db := MkDatabase (db_states db) (db_transitions db) (db_events db) tombstones.

Definition put_state (s : WorkspacePluginState) (db : Database) : Database :=
  set_states (<[state_key s := s]> (db_states db)) db.
Definition put_transition (t : WorkspacePluginTransition) (db : Database) : Database :=
  set_transitions (<[wt_transition_id t := t]> (db_transitions db)) db.
Definition put_event (e : WorkspacePluginLifecycleEvent) (db : Database) : Database :=
  set_events (<[we_event_id e := e]> (db_events db)) db.
Definition put_tombstone (b : WorkspacePluginPackageTombstone) (db : Database) : Database :=
  set_tombstones (<[wb_tombstone_id b := b]> (db_tombstones db)) db.

Definition insert_state (s : WorkspacePluginState) (db : Database) : changed Z :=
  refused_unless (state_check s && negb (is_some (db_states db !! state_key s))) (Ok (put_state s db, 1)).
Definition insert_transition (t : WorkspacePluginTransition) (db : Database) : changed Z :=
  refused_unless (transition_check t && negb (is_some (db_transitions db !! wt_transition_id t))
                  && negb (second_active t db) && state_exists (wt_project_root t) (wt_plugin_id t) db)
    (Ok (put_transition t db, 1)).
Definition insert_event `{StoreLibraries} (e : WorkspacePluginLifecycleEvent) (db : Database) : changed Z :=
  refused_unless (event_check e && negb (is_some (db_events db !! we_event_id e))
                  && state_exists (we_project_root e) (we_plugin_id e) db && event_transition_exists e db)
    (Ok (put_event e db, 1)).
Definition insert_tombstone (b : WorkspacePluginPackageTombstone) (db : Database) : changed Z :=
  refused_unless (tombstone_check b && negb (is_some (db_tombstones db !! wb_tombstone_id b))
                  && negb (backup_key_taken b db) && state_exists (wb_project_root b) (wb_plugin_id b) db)
    (Ok (put_tombstone b db, 1)).

(** The rows an [UPDATE] finds, by key and by the rest of its condition. *)
Definition find_state (project_root plugin_id : string) (db : Database) : option WorkspacePluginState :=
  db_states db !! (project_root, plugin_id).
Definition find_transition (project_root transition_id : string) (db : Database) : option WorkspacePluginTransition :=
  t ← db_transitions db !! transition_id; if str_eq (wt_project_root t) project_root then Some t else None.
Definition find_tombstone (project_root tombstone_id : string) (db : Database) : option WorkspacePluginPackageTombstone :=
  b ← db_tombstones db !! tombstone_id; if str_eq (wb_project_root b) project_root then Some b else None.
(** [UPDATE ... SET] of the row found, if the condition holds of it: how many rows
    changed.  The new row keeps the columns of the keys. *)
Definition update_row {R} (found : option R) (where_ : R → bool) (set : R → R)
    (allowed : R → bool) (put : R → Database → Database) (db : Database) : changed Z :=
  match found with
  | Some row => if where_ row then refused_unless (allowed (set row)) (Ok (put (set row) db, 1)) else Ok (db, 0)
  | None => Ok (db, 0)
  end.
Definition update_state (project_root plugin_id : string) where_ set (db : Database) : changed Z :=
  update_row (find_state project_root plugin_id db) where_ set state_check put_state db.
Definition update_transition (project_root transition_id : string) where_ set (db : Database) : changed Z :=
  update_row (find_transition project_root transition_id db) where_ set
    (λ t, transition_check t && negb (second_active t db)) put_transition db.
Definition update_tombstone (project_root tombstone_id : string) where_ set (db : Database) : changed Z :=
  update_row (find_tombstone project_root tombstone_id db) where_ set
    (λ b, tombstone_check b && negb (backup_key_taken b db)) put_tombstone db.

(** ** The connection *)

(** The database it sees, the ids of the events to come, whether each of the next
    statements fails in SQLite (a busy file, a full disk), and what other connections
    do before each of the next statements outside a transaction. *)
Record Connection := MkConnection {
  cn_database : Database;
  cn_event_ids : list string;
  cn_faults : list bool;
  cn_others : list (Database → Database)
}.
Definition set_database (db : Database) (c : Connection) : Connection :=
  MkConnection db (cn_event_ids c) (cn_faults c) (cn_others c).
Definition next_statement (c : Connection) : Connection :=
  MkConnection (cn_database c) (cn_event_ids c) (tail (cn_faults c)) (cn_others c).
Abbreviation store_m A := (stateful Connection StoreError A).

(** [connection.execute(...)?] and [query_row(...)?]: a failing statement changes
    nothing. *)
Definition statement {A} (run : Database → changed A) : store_m A := λ c,
  if default false (head (cn_faults c)) then (next_statement c, Err (Sqlite StatementFailed))
  else match run (cn_database c) with
       | Ok (db, a) => (set_database db (next_statement c), Ok a)
       | Err failure => (next_statement c, Err (Sqlite failure))
       end.
Definition query {A} (f : Database → A) : store_m A := statement (λ db, Ok (db, f db)).
(** Other connections at work. *)
Definition meanwhile : store_m () :=
  modify (λ c, MkConnection (default id (head (cn_others c)) (cn_database c)) (cn_event_ids c) (cn_faults c)
                 (tail (cn_others c))).
Definition fresh_event_id : store_m string := λ c,
  (MkConnection (cn_database c) (tail (cn_event_ids c)) (cn_faults c) (cn_others c),
   Ok (default "" (head (cn_event_ids c)))).

(** How a transaction's code leaves it: by [commit()?], by [rollback()?], or by
    dropping it, which rolls back. *)
Inductive ending (A : Type) := Committed (a : A) | RolledBack (a : A) | Dropped (a : A).
Arguments Committed {A} a.
Arguments RolledBack {A} a.
Arguments Dropped {A} a.
Definition commit {A} (a : A) : store_m (ending A) := _ ← statement (λ db, Ok (db, ())); mret (Committed a).
Definition rollback {A} (a : A) : store_m (ending A) := _ ← statement (λ db, Ok (db, ())); mret (RolledBack a).
Definition drop_transaction {A} (a : A) : store_m (ending A) := mret (Dropped a).
(** An error in the body returns through [?], which drops the transaction. *)
Definition run_body {A} (body : store_m (ending A)) : store_m A := λ c,
  match body c with
  | (c', Ok (Committed a)) => (c', Ok a)
  | (c', Ok (RolledBack a)) | (c', Ok (Dropped a)) => (set_database (cn_database c) c', Ok a)
  | (c', Err e) => (set_database (cn_database c) c', Err e)
  end.
Definition in_transaction {A} (body : store_m (ending A)) : store_m A :=
  _ ← meanwhile;
  _ ← statement (λ db, Ok (db, ()));
  run_body body.
(** A statement outside a transaction. *)
Definition autocommit {A} (m : store_m A) : store_m A := _ ← meanwhile; m.
