(* ===== verification/StoreLifecycle.v ===== *)
(** * The store of plugin lifecycles

    Model of the operations of [crates/rho-store/src/plugin_lifecycle.rs]: discovery,
    transitions and their journal, activation generations, uninstall, restore,
    retention and purge of packages in the trash, replacement, crashes.  The clock is an
    input; one reading serves an operation, as in the code. *)
From S2P Require Import Prelude Text External Stateful ProjectRoot LifecycleRecords LifecycleDatabase.
#[local] Open Scope Z_scope.
Import PluginLifecycleMutationOutcome.

(** [o.ok_or_else(|| StoreError::Validation(message))?]. *)
Definition found_or {A} (o : option A) (message : string) : store_m A := lift (ok_or o (Validation message)).
(** [if c { return Err(StoreError::Validation(message)); }]. *)
Definition refuse_if (c : bool) (message : string) : store_m () := throw_if c (Validation message).
Definition is_value (o : option string) (value : string) : bool := bool_decide (o = Some value).

Definition get_state_on (project_root plugin_id : string) : store_m (option WorkspacePluginState) :=
  query (find_state project_root plugin_id).
Definition get_transition_on (project_root transition_id : string) : store_m (option WorkspacePluginTransition) :=
  query (find_transition project_root transition_id).
Definition get_tombstone_on (project_root tombstone_id : string) : store_m (option WorkspacePluginPackageTombstone) :=
  query (find_tombstone project_root tombstone_id).

(** The literal texts of JSON objects in the code. *)
Definition quoted (s : string) : string := quote +:+ s +:+ quote.
Definition object_text (fields : list (string * string)) : string :=
  "{" +:+ String.concat "," ((λ kv, quoted kv.1 +:+ ":" +:+ kv.2) <$> fields) +:+ "}".

(** ** Columns that an [UPDATE] sets *)

(** [COALESCE(value, column)]. *)
Definition coalesce (value column : option string) : option string := if is_some value then value else column.

Definition set_phase (phase status now : string) (completed_at reason_code : option string)
    (t : WorkspacePluginTransition) : WorkspacePluginTransition :=
  MkTransition (wt_transition_id t) (wt_project_root t) (wt_plugin_id t) (wt_kind t) (wt_expected_old_digest t)
    (wt_candidate_digest t) (wt_rollback_digest t) phase status (wt_requested_at t) now completed_at reason_code
    (wt_backup_path_key t).
Definition set_retention (retention_class : string) (deleted_at restored_at : option string)
    (b : WorkspacePluginPackageTombstone) : WorkspacePluginPackageTombstone :=
  MkTombstone (wb_tombstone_id b) (wb_project_root b) (wb_plugin_id b) (wb_package_digest b) (wb_backup_path_key b)
    (wb_original_directory_name b) (wb_moved_at b) deleted_at restored_at retention_class (wb_reason_code b).
(** [observed_state], [last_error_code] and [updated_at]. *)
Definition set_observed (observed_state : string) (last_error_code : option string) (now : string)
    (s : WorkspacePluginState) : WorkspacePluginState :=
  MkState (ws_project_root s) (ws_plugin_id s) (ws_directory_name s) (ws_plugin_version s) (ws_accepted_digest s)
    (ws_pending_digest s) (ws_rollback_digest s) (ws_runtime_kind s) (ws_desired_state s) observed_state
    (ws_last_activation_generation s) (ws_last_host_session_id s) (ws_transition_id s) last_error_code
    (ws_enabled_at s) (ws_disabled_at s) now.

Section store.
Context `{StoreLibraries, !SerdeFromU64, !Semver}.

Definition insert_lifecycle_event (event : LifecycleEventInsert) : store_m string :=
  _ ← lift (validate_event_type (ei_event_type event));
  _ ← lift (validate_event_status (ei_status event));
  _ ← lift (phase_rank (ei_phase event));
  details_json ← lift (validate_details_json (ei_details_json event));
  id ← fresh_event_id;
  let event_id := "event." +:+ id in
  _ ← statement (insert_event (MkLifecycleEvent event_id (ei_project_root event) (ei_plugin_id event)
        (ei_transition_id event) (ei_package_digest event) (ei_event_type event) (ei_status event) (ei_phase event)
        (ei_reason_code event) details_json (ei_created_at event)));
  mret event_id.

(** ** Discovery *)

Definition already_discovered (draft : WorkspacePluginDiscoveredDraft) (s : WorkspacePluginState) : bool :=
  str_eq (ws_directory_name s) (dd_directory_name draft)
  && str_eq (ws_plugin_version s) (dd_plugin_version draft)
  && str_eq (ws_runtime_kind s) (dd_runtime_kind draft)
  && (is_value (ws_pending_digest s) (dd_discovered_digest draft)
      || (is_value (ws_accepted_digest s) (dd_discovered_digest draft) && negb (is_some (ws_pending_digest s)))).
Definition discovered_again (draft : WorkspacePluginDiscoveredDraft) (now : string) (s : WorkspacePluginState)
    : WorkspacePluginState :=
  let accepted := is_value (ws_accepted_digest s) (dd_discovered_digest draft) in
  MkState (ws_project_root s) (ws_plugin_id s) (dd_directory_name draft) (dd_plugin_version draft)
    (ws_accepted_digest s) (if accepted then None else Some (dd_discovered_digest draft)) (ws_rollback_digest s)
    (dd_runtime_kind draft) (ws_desired_state s)
    (if negb (is_some (ws_accepted_digest s)) then "discovered"
     else if negb accepted then "update_pending" else ws_observed_state s)
    (ws_last_activation_generation s) (ws_last_host_session_id s) (ws_transition_id s) (ws_last_error_code s)
    (ws_enabled_at s) (ws_disabled_at s) now.
Definition first_discovered (draft : WorkspacePluginDiscoveredDraft) (now : string) : WorkspacePluginState :=
  MkState (dd_project_root draft) (dd_plugin_id draft) (dd_directory_name draft) (dd_plugin_version draft)
    None (Some (dd_discovered_digest draft)) None (dd_runtime_kind draft) "disabled" "discovered" 0 None None None
    None None now.
Definition upsert_discovered_workspace_plugin (now : Z) (draft : WorkspacePluginDiscoveredDraft)
    : store_m (outcome * WorkspacePluginState) :=
  draft ← lift (validate_discovered draft);
  let now := to_rfc3339 now in
  in_transaction (
    existing ← get_state_on (dd_project_root draft) (dd_plugin_id draft);
    outcome ← match existing with
              | Some existing =>
                  if already_discovered draft existing then mret Unchanged
                  else _ ← statement (update_state (dd_project_root draft) (dd_plugin_id draft) (λ _, true)
                              (discovered_again draft now));
                       mret Applied
              | None => _ ← statement (insert_state (first_discovered draft now)); mret Applied
              end;
    _ ← (if bool_decide (outcome = Applied)
         then _ ← insert_lifecycle_event (MkEventInsert (dd_project_root draft) (dd_plugin_id draft) None
                    (Some (dd_discovered_digest draft)) "discovery" "completed" "requested" None "{}" now);
              mret ()
         else mret ());
    state ← get_state_on (dd_project_root draft) (dd_plugin_id draft);
    state ← found_or state "workspace plugin state disappeared";
    commit (outcome, state)).

(** ** Requests *)

Definition first_phase (draft : WorkspacePluginTransitionDraft) (now : string) : WorkspacePluginTransition :=
  MkTransition (td_transition_id draft) (td_project_root draft) (td_plugin_id draft) (td_kind draft)
    (td_expected_old_digest draft) (td_candidate_digest draft) (td_rollback_digest draft) "requested" "pending"
    now now None None (td_backup_path_key draft).
Definition request_applied (draft : WorkspacePluginTransitionDraft) (now : string) (s : WorkspacePluginState)
    : WorkspacePluginState :=
  MkState (ws_project_root s) (ws_plugin_id s) (ws_directory_name s) (ws_plugin_version s) (ws_accepted_digest s)
    (coalesce (td_candidate_digest draft) (ws_pending_digest s))
    (coalesce (td_rollback_digest draft) (ws_rollback_digest s)) (ws_runtime_kind s) (td_desired_state draft)
    (ws_observed_state s) (ws_last_activation_generation s) (ws_last_host_session_id s)
    (Some (td_transition_id draft)) None (ws_enabled_at s) (ws_disabled_at s) now.
Definition active_transition_of (project_root plugin_id : string) (db : Database) : bool :=
  some_row (λ t, str_eq (wt_project_root t) project_root && str_eq (wt_plugin_id t) plugin_id && is_active t)
    (db_transitions db).
Definition request_workspace_plugin_transition (now : Z) (draft : WorkspacePluginTransitionDraft)
    : store_m WorkspacePluginTransitionRequestResult :=
  draft ← lift (validate_transition_draft draft);
  in_transaction (
    existing ← get_transition_on (td_project_root draft) (td_transition_id draft);
    match existing with
    | Some existing =>
        state ← get_state_on (td_project_root draft) (td_plugin_id draft);
        state ← found_or state "transition state is missing";
        if transition_matches_draft existing draft then commit (MkRequestResult Unchanged state existing)
        else throw (Validation "transition ID already belongs to different lifecycle intent")
    | None =>
        state ← get_state_on (td_project_root draft) (td_plugin_id draft);
        state ← found_or state "workspace plugin must be discovered before a transition is requested";
        if transition_requires_expected_digest (td_kind draft)
           && negb (bool_decide (ws_accepted_digest state = td_expected_old_digest draft))
        then commit (MkRequestResult Stale state (synthetic_transition draft)) else
        active ← query (active_transition_of (td_project_root draft) (td_plugin_id draft));
        if (active : bool) then commit (MkRequestResult Conflict state (synthetic_transition draft)) else
        let now := to_rfc3339 now in
        _ ← statement (insert_transition (first_phase draft now));
        _ ← statement (update_state (td_project_root draft) (td_plugin_id draft) (λ _, true) (request_applied draft now));
        _ ← insert_lifecycle_event (MkEventInsert (td_project_root draft) (td_plugin_id draft)
              (Some (td_transition_id draft)) (td_candidate_digest draft) (td_request_event_type draft) "pending"
              "requested" None "{}" now);
        state ← get_state_on (td_project_root draft) (td_plugin_id draft);
        state ← found_or state "transition state disappeared";
        transition ← get_transition_on (td_project_root draft) (td_transition_id draft);
        transition ← found_or transition "transition disappeared";
        commit (MkRequestResult Applied state transition)
    end).

(** ** Advances *)

Definition get_workspace_plugin_state (project_root plugin_id : string) : store_m (option WorkspacePluginState) :=
  project_root ← lift (project_root_of project_root);
  plugin_id ← lift (validate_identifier plugin_id "plugin id");
  autocommit (get_state_on project_root plugin_id).
Definition get_workspace_plugin_transition (project_root transition_id : string)
    : store_m (option WorkspacePluginTransition) :=
  project_root ← lift (project_root_of project_root);
  transition_id ← lift (validate_identifier transition_id "transition id");
  autocommit (get_transition_on project_root transition_id).
Definition get_workspace_plugin_tombstone (project_root tombstone_id : string)
    : store_m (option WorkspacePluginPackageTombstone) :=
  project_root ← lift (project_root_of project_root);
  tombstone_id ← lift (validate_identifier tombstone_id "tombstone id");
  autocommit (get_tombstone_on project_root tombstone_id).

Definition advanced (draft : WorkspacePluginTransitionAdvance) (now : string) (s : WorkspacePluginState)
    : WorkspacePluginState :=
  MkState (ws_project_root s) (ws_plugin_id s) (ws_directory_name s) (ws_plugin_version s)
    (coalesce (ta_accepted_digest draft) (ws_accepted_digest s))
    (if ta_clear_pending_digest draft then None else coalesce (ta_pending_digest draft) (ws_pending_digest s))
    (coalesce (ta_rollback_digest draft) (ws_rollback_digest s)) (ws_runtime_kind s) (ws_desired_state s)
    (ta_observed_state draft) (ws_last_activation_generation s)
    (coalesce (ta_last_host_session_id draft) (ws_last_host_session_id s)) (ws_transition_id s)
    (ta_last_error_code draft)
    (if str_eq (ta_observed_state draft) "active" then Some now else ws_enabled_at s)
    (if listed ["disabled"; "stopped"; "uninstalled"] (ta_observed_state draft) then Some now else ws_disabled_at s)
    now.
(** The second half, once the transition that was read allows the advance. *)
Definition advance_in_transaction (now : Z) (draft : WorkspacePluginTransitionAdvance) : store_m outcome :=
  let now := to_rfc3339 now in
  let completed_at := if is_terminal_transition_status (ta_status draft) then Some now else None in
  in_transaction (
    changed ← statement (update_transition (ta_project_root draft) (ta_transition_id draft)
                (λ t, str_eq (wt_phase t) (ta_expected_phase draft))
                (set_phase (ta_next_phase draft) (ta_status draft) now completed_at (ta_reason_code draft)));
    if negb (changed =? 1) then drop_transaction Stale else
    transition ← get_transition_on (ta_project_root draft) (ta_transition_id draft);
    plugin_id ← lift (ok_or (wt_plugin_id <$> transition) (Sqlite StatementFailed));
    _ ← statement (update_state (ta_project_root draft) plugin_id (λ _, true) (advanced draft now));
    _ ← insert_lifecycle_event (MkEventInsert (ta_project_root draft) plugin_id (Some (ta_transition_id draft))
          (coalesce (ta_accepted_digest draft) (ta_pending_digest draft)) (ta_event_type draft) (ta_event_status draft)
          (ta_next_phase draft) (ta_reason_code draft) (ta_details_json draft) now);
    commit Applied).
Definition advance_workspace_plugin_transition (now : Z) (draft : WorkspacePluginTransitionAdvance) : store_m outcome :=
  draft ← lift (validate_transition_advance draft);
  current ← get_workspace_plugin_transition (ta_project_root draft) (ta_transition_id draft);
  match current with
  | None => mret NotFound
  | Some current =>
      if str_eq (wt_phase current) (ta_next_phase draft) && str_eq (wt_status current) (ta_status draft)
      then mret Unchanged else
      if negb (str_eq (wt_phase current) (ta_expected_phase draft)) then mret Stale else
      next_rank ← lift (phase_rank (ta_next_phase draft));
      current_rank ← lift (phase_rank (wt_phase current));
      if (next_rank <=? current_rank) || is_terminal_transition_status (wt_status current) then mret Stale
      else advance_in_transaction now draft
  end.

(** ** Generations *)

Definition i64_max : Z := 2 ^ 63 - 1.
Definition set_generation (generation : Z) (now : string) (s : WorkspacePluginState) : WorkspacePluginState :=
  MkState (ws_project_root s) (ws_plugin_id s) (ws_directory_name s) (ws_plugin_version s) (ws_accepted_digest s)
    (ws_pending_digest s) (ws_rollback_digest s) (ws_runtime_kind s) (ws_desired_state s) (ws_observed_state s)
    generation (ws_last_host_session_id s) (ws_transition_id s) (ws_last_error_code s) (ws_enabled_at s)
    (ws_disabled_at s) now.
Definition may_allocate (project_root plugin_id transition_id : string) (expected_last_generation : Z)
    (db : Database) (s : WorkspacePluginState) : bool :=
  is_value (ws_transition_id s) transition_id && (ws_last_activation_generation s =? expected_last_generation)
  && is_some_and (λ t, bool_decide (plugin_of t = (project_root, plugin_id)) && is_active t)
       (db_transitions db !! transition_id).
Definition allocate_workspace_plugin_generation (now : Z) (project_root plugin_id transition_id : string)
    (expected_last_generation : Z) : store_m WorkspacePluginGenerationAllocation :=
  project_root ← lift (project_root_of project_root);
  plugin_id ← lift (validate_identifier plugin_id "plugin id");
  transition_id ← lift (validate_identifier transition_id "transition id");
  _ ← refuse_if ((expected_last_generation <? 0) || (expected_last_generation =? i64_max))
        "activation generation expectation is invalid";
  let next := expected_last_generation + 1 in
  changed ← autocommit (statement (λ db, update_state project_root plugin_id
              (may_allocate project_root plugin_id transition_id expected_last_generation db)
              (set_generation next (to_rfc3339 now)) db));
  state ← get_workspace_plugin_state project_root plugin_id;
  let generation := from_option ws_last_activation_generation expected_last_generation state in
  if changed =? 1 then mret (MkAllocation Applied generation) else
  state ← get_workspace_plugin_state project_root plugin_id;
  mret (MkAllocation (if is_some state then Stale else NotFound) generation).

(** ** Uninstall and restore *)

Definition uninstall_matches (transition_id : string) (draft : WorkspacePluginTombstoneDraft)
    (transition : WorkspacePluginTransition) (state : WorkspacePluginState) : bool :=
  let exact_transition :=
    str_eq (wt_plugin_id transition) (bd_plugin_id draft) && str_eq (wt_kind transition) "uninstall"
    && is_value (wt_expected_old_digest transition) (bd_package_digest draft)
    && is_value (wt_backup_path_key transition) (bd_backup_path_key draft) in
  let exact_state :=
    str_eq (ws_directory_name state) (bd_original_directory_name draft)
    && is_value (ws_accepted_digest state) (bd_package_digest draft)
    && str_eq (ws_desired_state state) "uninstalled" && is_value (ws_transition_id state) transition_id in
  let recoverable_user_uninstall :=
    str_eq (bd_retention_class draft) "recoverable" && str_eq (bd_reason_code draft) "user_uninstall" in
  exact_transition && exact_state && recoverable_user_uninstall.
Definition new_tombstone (draft : WorkspacePluginTombstoneDraft) (now : string) : WorkspacePluginPackageTombstone :=
  MkTombstone (bd_tombstone_id draft) (bd_project_root draft) (bd_plugin_id draft) (bd_package_digest draft)
    (bd_backup_path_key draft) (bd_original_directory_name draft) now None None (bd_retention_class draft)
    (bd_reason_code draft).
Definition uninstalled (now : string) (s : WorkspacePluginState) : WorkspacePluginState :=
  MkState (ws_project_root s) (ws_plugin_id s) (ws_directory_name s) (ws_plugin_version s) (ws_accepted_digest s)
    None (ws_rollback_digest s) (ws_runtime_kind s) "uninstalled" "uninstalled" (ws_last_activation_generation s)
    None (ws_transition_id s) None (ws_enabled_at s) (Some now) now.
Definition own_tombstone (existing : option WorkspacePluginPackageTombstone) (draft : WorkspacePluginTombstoneDraft)
    (now : string) : store_m WorkspacePluginPackageTombstone :=
  match existing with
  | Some existing => _ ← lift (ensure_tombstone_matches existing draft); mret existing
  | None =>
      _ ← statement (insert_tombstone (new_tombstone draft now));
      tombstone ← get_tombstone_on (bd_project_root draft) (bd_tombstone_id draft);
      found_or tombstone "uninstall tombstone disappeared"
  end.
Definition complete_workspace_plugin_uninstall (now : Z) (transition_id : string)
    (draft : WorkspacePluginTombstoneDraft) : store_m WorkspacePluginUninstallCompletion :=
  transition_id ← lift (validate_identifier transition_id "transition id");
  draft ← lift (validate_tombstone draft);
  let now := to_rfc3339 now in
  in_transaction (
    transition ← get_transition_on (bd_project_root draft) transition_id;
    transition ← found_or transition "uninstall transition is missing";
    state ← get_state_on (bd_project_root draft) (bd_plugin_id draft);
    state ← found_or state "uninstall plugin state is missing";
    existing ← get_tombstone_on (bd_project_root draft) (bd_tombstone_id draft);
    _ ← refuse_if (negb (uninstall_matches transition_id draft transition state))
          "uninstall completion does not match durable lifecycle identity";
    if str_eq (wt_phase transition) "completed" && str_eq (wt_status transition) "completed"
       && str_eq (ws_observed_state state) "uninstalled"
    then tombstone ← found_or existing "completed uninstall is missing tombstone truth";
         _ ← lift (ensure_tombstone_matches tombstone draft);
         commit (MkUninstallCompletion Unchanged state transition tombstone)
    else
    if negb (str_eq (wt_phase transition) "package_moved") || negb (is_active transition)
    then commit (MkUninstallCompletion Stale state transition (default (synthetic_tombstone draft) existing))
    else
    tombstone ← own_tombstone existing draft now;
    changed ← statement (update_transition (bd_project_root draft) transition_id
                (λ t, str_eq (wt_phase t) "package_moved" && is_active t)
                (set_phase "completed" "completed" now (Some now) (Some "user_uninstall")));
    if negb (changed =? 1) then rollback (MkUninstallCompletion Stale state transition tombstone) else
    state_changed ← statement (update_state (bd_project_root draft) (bd_plugin_id draft)
                      (λ s, is_value (ws_transition_id s) transition_id) (uninstalled now));
    _ ← refuse_if (negb (state_changed =? 1)) "uninstall terminal state update was stale";
    _ ← insert_lifecycle_event (MkEventInsert (bd_project_root draft) (bd_plugin_id draft) (Some transition_id)
          (Some (bd_package_digest draft)) "transition_completed" "completed" "completed" (Some "user_uninstall")
          (object_text [("package_ownership", quoted "trash"); ("recoverable", "true")]) now);
    state ← get_state_on (bd_project_root draft) (bd_plugin_id draft);
    state ← found_or state "uninstalled plugin state disappeared";
    transition ← get_transition_on (bd_project_root draft) transition_id;
    transition ← found_or transition "uninstall transition disappeared";
    commit (MkUninstallCompletion Applied state transition tombstone)).

Definition restored (now : string) (s : WorkspacePluginState) : WorkspacePluginState :=
  MkState (ws_project_root s) (ws_plugin_id s) (ws_directory_name s) (ws_plugin_version s) (ws_accepted_digest s)
    None (ws_rollback_digest s) (ws_runtime_kind s) "disabled" "disabled" (ws_last_activation_generation s)
    None None None (ws_enabled_at s) (Some now) now.
Definition complete_workspace_plugin_restore (now : Z) (project_root tombstone_id : string)
    : store_m WorkspacePluginRestoreCompletion :=
  project_root ← lift (project_root_of project_root);
  tombstone_id ← lift (validate_identifier tombstone_id "tombstone id");
  let now := to_rfc3339 now in
  in_transaction (
    tombstone ← get_tombstone_on project_root tombstone_id;
    tombstone ← found_or tombstone "plugin tombstone is missing";
    _ ← refuse_if (is_some (wb_deleted_at tombstone)) "deleted plugin tombstone cannot be restored";
    _ ← refuse_if (negb (str_eq (wb_retention_class tombstone) "recoverable")) "plugin tombstone is not recoverable";
    state ← get_state_on project_root (wb_plugin_id tombstone);
    state ← found_or state "restored plugin state is missing";
    let exact := str_eq (ws_directory_name state) (wb_original_directory_name tombstone)
                 && is_value (ws_accepted_digest state) (wb_package_digest tombstone) in
    _ ← refuse_if (negb exact) "restore tombstone does not match durable lifecycle identity";
    if is_some (wb_restored_at tombstone) && str_eq (ws_desired_state state) "disabled"
       && str_eq (ws_observed_state state) "disabled"
    then commit (MkRestoreCompletion Unchanged state tombstone) else
    if is_some (wb_restored_at tombstone) || negb (str_eq (ws_desired_state state) "uninstalled")
       || negb (str_eq (ws_observed_state state) "uninstalled")
    then commit (MkRestoreCompletion Stale state tombstone) else
    tombstone_changed ← statement (update_tombstone project_root tombstone_id
                          (λ b, negb (is_some (wb_restored_at b)))
                          (λ b, set_retention (wb_retention_class b) (wb_deleted_at b) (Some now) b));
    state_changed ← statement (update_state project_root (wb_plugin_id tombstone) (λ _, true) (restored now));
    _ ← refuse_if (negb (tombstone_changed =? 1) || negb (state_changed =? 1))
          "plugin Restore terminal update was stale";
    _ ← insert_lifecycle_event (MkEventInsert project_root (wb_plugin_id tombstone) None
          (Some (wb_package_digest tombstone)) "recovery" "completed" "completed" (Some "user_restore")
          (object_text [("package_ownership", quoted "discovery"); ("enabled", "false")]) now);
    state ← get_state_on project_root (wb_plugin_id tombstone);
    state ← found_or state "restored plugin state disappeared";
    tombstone ← get_tombstone_on project_root tombstone_id;
    tombstone ← found_or tombstone "restored tombstone disappeared";
    commit (MkRestoreCompletion Applied state tombstone)).

(** ** Retention and purge *)

(** [ORDER BY moved_at, tombstone_id LIMIT limit]. *)
Definition retention_candidates (project_root cutoff : string) (limit : Z) (db : Database)
    : list WorkspacePluginPackageTombstone :=
  take (Z.to_nat limit) (sort_by_key (λ b, (wb_moved_at b, wb_tombstone_id b))
    (List.filter (λ b, str_eq (wb_project_root b) project_root && str_eq (wb_retention_class b) "recoverable"
                       && bool_decide (rle (wb_moved_at b) cutoff)
                       && negb (is_some (wb_deleted_at b)) && negb (is_some (wb_restored_at b)))
       (map_to_list (db_tombstones db)).*2)).
Definition open_tombstone (retention_class : string) (b : WorkspacePluginPackageTombstone) : bool :=
  str_eq (wb_retention_class b) retention_class
  && negb (is_some (wb_deleted_at b)) && negb (is_some (wb_restored_at b)).
(** The loop over the candidates. *)
Fixpoint expire_candidates (project_root now : string) (candidates : list WorkspacePluginPackageTombstone)
    : store_m (list WorkspacePluginPackageTombstone) :=
  match candidates with
  | [] => mret []
  | candidate :: candidates =>
      changed ← statement (update_tombstone project_root (wb_tombstone_id candidate) (open_tombstone "recoverable")
                  (λ b, set_retention "expired" (wb_deleted_at b) (wb_restored_at b) b));
      _ ← refuse_if (negb (changed =? 1)) "plugin retention expiry update was stale";
      _ ← insert_lifecycle_event (MkEventInsert project_root (wb_plugin_id candidate) None
            (Some (wb_package_digest candidate)) "recovery" "completed" "completed" (Some "retention_expired")
            (object_text [("retention_class", quoted "expired")]) now);
      tombstone ← get_tombstone_on project_root (wb_tombstone_id candidate);
      tombstone ← found_or tombstone "expired plugin tombstone disappeared";
      expired ← expire_candidates project_root now candidates;
      mret (tombstone :: expired)
  end.
Definition expire_workspace_plugin_tombstones (now : Z) (project_root cutoff : string) (limit : Z)
    : store_m WorkspacePluginRetentionSweep :=
  project_root ← lift (project_root_of project_root);
  cutoff ← found_or (parse_from_rfc3339 cutoff) "plugin retention cutoff is invalid";
  let cutoff := to_rfc3339 cutoff in
  _ ← refuse_if ((limit =? 0) || (MAX_RETENTION_BATCH <? limit)) "plugin retention batch limit is invalid";
  let now := to_rfc3339 now in
  in_transaction (
    candidates ← query (retention_candidates project_root cutoff limit);
    expired ← expire_candidates project_root now candidates;
    commit (MkSweep (if vec_is_empty expired then Unchanged else Applied) expired)).

Definition request_workspace_plugin_purge (now : Z) (draft : WorkspacePluginPurgeDraft)
    : store_m WorkspacePluginPurgeResult :=
  draft ← lift (validate_purge_draft draft);
  let now := to_rfc3339 now in
  in_transaction (
    tombstone ← get_tombstone_on (pd_project_root draft) (pd_tombstone_id draft);
    tombstone ← found_or tombstone "plugin purge tombstone is missing";
    _ ← lift (ensure_purge_identity tombstone draft);
    if is_some (wb_deleted_at tombstone) && str_eq (wb_retention_class tombstone) "expired"
    then commit (MkPurgeResult Unchanged tombstone) else
    if is_some (wb_deleted_at tombstone) || is_some (wb_restored_at tombstone)
    then commit (MkPurgeResult Stale tombstone) else
    if str_eq (wb_retention_class tombstone) "purge_pending" then commit (MkPurgeResult Unchanged tombstone) else
    if negb (str_eq (wb_retention_class tombstone) "expired") then commit (MkPurgeResult Stale tombstone) else
    changed ← statement (update_tombstone (pd_project_root draft) (pd_tombstone_id draft) (open_tombstone "expired")
                (λ b, set_retention "purge_pending" (wb_deleted_at b) (wb_restored_at b) b));
    _ ← refuse_if (negb (changed =? 1)) "plugin purge request update was stale";
    _ ← insert_lifecycle_event (MkEventInsert (pd_project_root draft) (pd_plugin_id draft) None
          (Some (pd_package_digest draft)) "recovery" "pending" "completed" (Some "purge_requested")
          (object_text [("retention_class", quoted "purge_pending")]) now);
    tombstone ← get_tombstone_on (pd_project_root draft) (pd_tombstone_id draft);
    tombstone ← found_or tombstone "pending purge tombstone disappeared";
    commit (MkPurgeResult Applied tombstone)).
Definition complete_workspace_plugin_purge (now : Z) (draft : WorkspacePluginPurgeDraft)
    : store_m WorkspacePluginPurgeResult :=
  draft ← lift (validate_purge_draft draft);
  let now := to_rfc3339 now in
  in_transaction (
    tombstone ← get_tombstone_on (pd_project_root draft) (pd_tombstone_id draft);
    tombstone ← found_or tombstone "plugin purge tombstone is missing";
    _ ← lift (ensure_purge_identity tombstone draft);
    if is_some (wb_deleted_at tombstone) && str_eq (wb_retention_class tombstone) "expired"
    then commit (MkPurgeResult Unchanged tombstone) else
    if negb (open_tombstone "purge_pending" tombstone) then commit (MkPurgeResult Stale tombstone) else
    changed ← statement (update_tombstone (pd_project_root draft) (pd_tombstone_id draft) (open_tombstone "purge_pending")
                (λ b, set_retention "expired" (Some now) (wb_restored_at b) b));
    _ ← refuse_if (negb (changed =? 1)) "plugin purge completion update was stale";
    _ ← insert_lifecycle_event (MkEventInsert (pd_project_root draft) (pd_plugin_id draft) None
          (Some (pd_package_digest draft)) "recovery" "completed" "completed" (Some "purge_completed")
          (object_text [("package_ownership", quoted "deleted"); ("retention_class", quoted "expired")]) now);
    tombstone ← get_tombstone_on (pd_project_root draft) (pd_tombstone_id draft);
    tombstone ← found_or tombstone "completed purge tombstone disappeared";
    commit (MkPurgeResult Applied tombstone)).

(** ** Replacement *)

Definition replaced (candidate expected_old host_session_id now : string) (s : WorkspacePluginState)
    : WorkspacePluginState :=
  MkState (ws_project_root s) (ws_plugin_id s) (ws_directory_name s) (ws_plugin_version s) (Some candidate)
    None (Some expected_old) (ws_runtime_kind s) (ws_desired_state s) "active" (ws_last_activation_generation s)
    (Some host_session_id) (ws_transition_id s) None (Some now) (ws_disabled_at s) now.
Definition replacement_done (candidate expected_old host_session_id : string) (transition : WorkspacePluginTransition)
    (state : WorkspacePluginState) : bool :=
  str_eq (wt_phase transition) "completed" && str_eq (wt_status transition) "completed"
  && is_value (ws_accepted_digest state) candidate && is_value (ws_rollback_digest state) expected_old
  && is_value (ws_last_host_session_id state) host_session_id.
Definition pointer_swapped (t : WorkspacePluginTransition) : bool :=
  str_eq (wt_phase t) "pointer_swapped" && listed ["running"; "completion_uncertain"] (wt_status t).
Definition replacement_exact (candidate expected_old transition_id : string) (transition : WorkspacePluginTransition)
    (state : WorkspacePluginState) : bool :=
  pointer_swapped transition && str_eq (ws_desired_state state) "enabled"
  && is_value (ws_accepted_digest state) expected_old && is_value (ws_pending_digest state) candidate
  && is_value (ws_transition_id state) transition_id.
Definition complete_workspace_plugin_replacement (now : Z) (project_root transition_id host_session_id : string)
    : store_m WorkspacePluginReplacementCompletion :=
  project_root ← lift (project_root_of project_root);
  transition_id ← lift (validate_identifier transition_id "transition id");
  host_session_id ← lift (validate_identifier host_session_id "host session id");
  let now := to_rfc3339 now in
  in_transaction (
    transition ← get_transition_on project_root transition_id;
    transition ← found_or transition "replacement transition is missing";
    _ ← refuse_if (negb (listed ["upgrade"; "rollback"] (wt_kind transition)))
          "replacement completion requires Upgrade or Rollback";
    expected_old ← found_or (wt_expected_old_digest transition) "replacement expected digest is missing";
    candidate ← found_or (wt_candidate_digest transition) "replacement candidate digest is missing";
    let plugin_id := wt_plugin_id transition in
    state ← get_state_on project_root plugin_id;
    state ← found_or state "replacement plugin state is missing";
    if replacement_done candidate expected_old host_session_id transition state
    then commit (MkReplacementCompletion Unchanged state transition) else
    if negb (replacement_exact candidate expected_old transition_id transition state)
    then commit (MkReplacementCompletion Stale state transition) else
    transition_changed ← statement (update_transition project_root transition_id pointer_swapped
                           (set_phase "completed" "completed" now (Some now) None));
    state_changed ← statement (update_state project_root plugin_id
                      (λ s, is_value (ws_transition_id s) transition_id && is_value (ws_accepted_digest s) expected_old
                            && is_value (ws_pending_digest s) candidate)
                      (replaced candidate expected_old host_session_id now));
    _ ← refuse_if (negb (transition_changed =? 1) || negb (state_changed =? 1))
          "replacement pointer completion was stale";
    let details := json_text (VObject [("candidate_digest", VString candidate);
                     ("expected_old_digest", VString expected_old);
                     ("replacement_kind", VString (wt_kind transition))]) in
    _ ← insert_lifecycle_event (MkEventInsert project_root plugin_id (Some transition_id) (Some candidate)
          "transition_completed" "completed" "completed" None details now);
    state ← get_state_on project_root plugin_id;
    state ← found_or state "replacement state disappeared";
    transition ← get_transition_on project_root transition_id;
    transition ← found_or transition "replacement transition disappeared";
    commit (MkReplacementCompletion Applied state transition)).

(** ** Recovery and crashes *)

Definition recovery_phase (project_root plugin_id : string) (transition_id : option string) : store_m string :=
  match transition_id with
  | Some transition_id =>
      transition ← get_transition_on project_root transition_id;
      found_or (t ← transition; if str_eq (wt_plugin_id t) plugin_id then Some (wt_phase t) else None)
        "recovery transition is missing"
  | None => mret "completed"
  end.
Definition record_workspace_plugin_recovery_required (now : Z) (project_root plugin_id : string)
    (transition_id : option string) (reason_code : string) : store_m outcome :=
  project_root ← lift (project_root_of project_root);
  plugin_id ← lift (validate_identifier plugin_id "plugin id");
  transition_id ← lift (transpose (λ value, validate_identifier value "transition id") transition_id);
  reason_code ← lift (validate_identifier reason_code "recovery reason code");
  let now := to_rfc3339 now in
  in_transaction (
    state ← get_state_on project_root plugin_id;
    state ← found_or state "recovery plugin state is missing";
    if str_eq (ws_observed_state state) "blocked" && is_value (ws_last_error_code state) reason_code
    then commit Unchanged else
    if is_some transition_id && negb (bool_decide (ws_transition_id state = transition_id)) then commit Stale else
    phase ← recovery_phase project_root plugin_id transition_id;
    changed ← statement (update_state project_root plugin_id (λ _, true) (set_observed "blocked" (Some reason_code) now));
    _ ← refuse_if (negb (changed =? 1)) "recovery-required state update was stale";
    _ ← insert_lifecycle_event (MkEventInsert project_root plugin_id transition_id
          (coalesce (ws_pending_digest state) (ws_accepted_digest state)) "recovery" "failed" phase (Some reason_code)
          (object_text [("recovery_required", "true")]) now);
    commit Applied).

(** Ten minutes, in nanoseconds. *)
Definition crash_window : Z := 10 * 60 * 10 ^ 9.
Definition crashes_since (project_root plugin_id cutoff : string) (db : Database) : Z :=
  count_where (λ e, str_eq (we_project_root e) project_root && str_eq (we_plugin_id e) plugin_id
                    && str_eq (we_event_type e) "host_quarantined" && bool_decide (rle cutoff (we_created_at e)))
    (db_events db).
Definition usize_max : Z := 2 ^ 64 - 1.
Definition record_workspace_plugin_crash (now : Z) (project_root plugin_id package_digest host_session_id reason_code : string)
    : store_m WorkspacePluginCrashOutcome :=
  project_root ← lift (project_root_of project_root);
  plugin_id ← lift (validate_identifier plugin_id "plugin id");
  package_digest ← lift (validate_digest package_digest "package digest");
  host_session_id ← lift (validate_identifier host_session_id "host session id");
  reason_code ← lift (validate_identifier reason_code "crash reason code");
  let now_text := to_rfc3339 now in
  let cutoff := to_rfc3339 (now - crash_window) in
  in_transaction (
    state ← get_state_on project_root plugin_id;
    state ← found_or state "crashed plugin lifecycle state is missing";
    let exact := str_eq (ws_desired_state state) "enabled" && is_value (ws_accepted_digest state) package_digest
                 && is_value (ws_last_host_session_id state) host_session_id in
    if negb exact then commit (MkCrashOutcome Stale 0 false state) else
    prior_crashes ← query (crashes_since project_root plugin_id cutoff);
    let crash_count := Z.min (prior_crashes + 1) usize_max in
    let blocked := 3 <=? crash_count in
    let code := if blocked then "crash_loop_blocked" else reason_code in
    _ ← statement (update_state project_root plugin_id (λ _, true)
          (set_observed (if blocked then "blocked" else "crashed") (Some code) now_text));
    _ ← insert_lifecycle_event (MkEventInsert project_root plugin_id (ws_transition_id state) (Some package_digest)
          "host_quarantined" "failed" "completed" (Some code)
          (json_text (VObject [("crash_count", VNumber (num_from_u64 crash_count))])) now_text);
    updated ← get_state_on project_root plugin_id;
    updated ← found_or updated "crashed plugin state disappeared";
    commit (MkCrashOutcome Applied crash_count blocked updated)).

(** ** Listings, in the order of [ORDER BY] *)

(** [LIMIT] of [limit.unwrap_or(DEFAULT_LIMIT).min(MAX_LIMIT)]. *)
Definition listing_limit (limit : option Z) : nat := Z.to_nat (Z.min (default DEFAULT_LIMIT limit) MAX_LIMIT).
Definition list_workspace_plugin_states (project_root : string) (limit : option Z) : store_m (list WorkspacePluginState) :=
  project_root ← lift (project_root_of project_root);
  autocommit (query (λ db, take (listing_limit limit) (sort_by_key ws_plugin_id
    (List.filter (λ s, str_eq (ws_project_root s) project_root) (map_to_list (db_states db)).*2)))).
Definition list_nonterminal_workspace_plugin_transitions (project_root : string) (limit : option Z)
    : store_m (list WorkspacePluginTransition) :=
  project_root ← lift (project_root_of project_root);
  autocommit (query (λ db, take (listing_limit limit) (sort_by_key (λ t, (wt_requested_at t, wt_transition_id t))
    (List.filter (λ t, str_eq (wt_project_root t) project_root && is_active t) (map_to_list (db_transitions db)).*2)))).
Definition list_workspace_plugin_lifecycle_events (project_root : string) (limit : option Z)
    : store_m (list WorkspacePluginLifecycleEvent) :=
  project_root ← lift (project_root_of project_root);
  autocommit (query (λ db, take (listing_limit limit) (sort_by_key (λ e, (MkDescending (we_created_at e), we_event_id e))
    (List.filter (λ e, str_eq (we_project_root e) project_root) (map_to_list (db_events db)).*2)))).
Definition list_workspace_plugin_tombstones (project_root : string) (limit : option Z)
    : store_m (list WorkspacePluginPackageTombstone) :=
  project_root ← lift (project_root_of project_root);
  autocommit (query (λ db, take (listing_limit limit) (sort_by_key (λ b, (MkDescending (wb_moved_at b), wb_tombstone_id b))
    (List.filter (λ b, str_eq (wb_project_root b) project_root) (map_to_list (db_tombstones db)).*2)))).
End store.
