(* ===== verification/StoreService.v ===== *)
(** * The lifecycle service and the retention of the trash

    Model of [crates/rho-store/src/plugin_lifecycle_service.rs], through which one
    project reaches the store, and of [crates/rho-server/src/plugin_retention.rs], which
    orders the purge of a package: the durable request, the files, the durable
    completion.  The purge of the files is an input. *)
From S2P Require Import Prelude Text External Stateful ProjectRoot LifecycleRecords LifecycleDatabase StoreLifecycle.
#[local] Open Scope Z_scope.
Import PluginLifecycleMutationOutcome.

Section service.
Context `{StoreLibraries, !SerdeFromU64, !Semver}.

(** The project of the service and of the draft, when they agree. *)
Definition same_project (project_root draft_root message : string) : store_m string :=
  project_root ← lift (project_root_of project_root);
  draft_root ← lift (project_root_of draft_root);
  _ ← refuse_if (negb (str_eq project_root draft_root)) message;
  mret project_root.

Definition get_state (project_root plugin_id : string) : store_m (option WorkspacePluginState) :=
  project_root ← lift (project_root_of project_root); get_workspace_plugin_state project_root plugin_id.
Definition list_states (project_root : string) (limit : option Z) : store_m (list WorkspacePluginState) :=
  project_root ← lift (project_root_of project_root); list_workspace_plugin_states project_root limit.
Definition get_transition (project_root transition_id : string) : store_m (option WorkspacePluginTransition) :=
  project_root ← lift (project_root_of project_root); get_workspace_plugin_transition project_root transition_id.
Definition list_nonterminal_transitions (project_root : string) (limit : option Z)
    : store_m (list WorkspacePluginTransition) :=
  project_root ← lift (project_root_of project_root); list_nonterminal_workspace_plugin_transitions project_root limit.
Definition list_events (project_root : string) (limit : option Z) : store_m (list WorkspacePluginLifecycleEvent) :=
  project_root ← lift (project_root_of project_root); list_workspace_plugin_lifecycle_events project_root limit.
Definition get_tombstone (project_root tombstone_id : string) : store_m (option WorkspacePluginPackageTombstone) :=
  project_root ← lift (project_root_of project_root); get_workspace_plugin_tombstone project_root tombstone_id.
Definition list_tombstones (project_root : string) (limit : option Z) : store_m (list WorkspacePluginPackageTombstone) :=
  project_root ← lift (project_root_of project_root); list_workspace_plugin_tombstones project_root limit.

Definition discover (now : Z) (project_root : string) (draft : WorkspacePluginDiscoveredDraft)
    : store_m (outcome * WorkspacePluginState) :=
  project_root ← same_project project_root (dd_project_root draft)
    "workspace plugin discovery project does not match service project";
  upsert_discovered_workspace_plugin now (MkDiscovered project_root (dd_plugin_id draft) (dd_directory_name draft)
    (dd_plugin_version draft) (dd_runtime_kind draft) (dd_discovered_digest draft)).
Definition request_transition (now : Z) (project_root : string) (draft : WorkspacePluginTransitionDraft)
    : store_m WorkspacePluginTransitionRequestResult :=
  project_root ← same_project project_root (td_project_root draft)
    "workspace plugin transition project does not match service project";
  request_workspace_plugin_transition now (MkTransitionDraft (td_transition_id draft) project_root (td_plugin_id draft)
    (td_kind draft) (td_request_event_type draft) (td_desired_state draft) (td_expected_old_digest draft)
    (td_candidate_digest draft) (td_rollback_digest draft) (td_backup_path_key draft)).
Definition advance_transition (now : Z) (project_root : string) (draft : WorkspacePluginTransitionAdvance)
    : store_m outcome :=
  project_root ← same_project project_root (ta_project_root draft)
    "workspace plugin transition advance project does not match service project";
  advance_workspace_plugin_transition now (MkAdvance project_root (ta_transition_id draft) (ta_expected_phase draft)
    (ta_next_phase draft) (ta_status draft) (ta_observed_state draft) (ta_accepted_digest draft)
    (ta_pending_digest draft) (ta_rollback_digest draft) (ta_clear_pending_digest draft)
    (ta_last_host_session_id draft) (ta_last_error_code draft) (ta_reason_code draft) (ta_event_type draft)
    (ta_event_status draft) (ta_details_json draft)).
Definition allocate_generation (now : Z) (project_root plugin_id transition_id : string)
    (expected_last_generation : Z) : store_m WorkspacePluginGenerationAllocation :=
  project_root ← lift (project_root_of project_root);
  allocate_workspace_plugin_generation now project_root plugin_id transition_id expected_last_generation.
Definition complete_uninstall (now : Z) (project_root transition_id : string) (draft : WorkspacePluginTombstoneDraft)
    : store_m WorkspacePluginUninstallCompletion :=
  project_root ← same_project project_root (bd_project_root draft)
    "workspace plugin uninstall project does not match service project";
  complete_workspace_plugin_uninstall now transition_id (MkTombstoneDraft (bd_tombstone_id draft) project_root
    (bd_plugin_id draft) (bd_package_digest draft) (bd_backup_path_key draft) (bd_original_directory_name draft)
    (bd_retention_class draft) (bd_reason_code draft)).
Definition complete_restore (now : Z) (project_root tombstone_id : string) : store_m WorkspacePluginRestoreCompletion :=
  project_root ← lift (project_root_of project_root);
  complete_workspace_plugin_restore now project_root tombstone_id.
Definition expire_tombstones (now : Z) (project_root cutoff : string) (limit : Z) : store_m WorkspacePluginRetentionSweep :=
  project_root ← lift (project_root_of project_root);
  expire_workspace_plugin_tombstones now project_root cutoff limit.
Definition purge_draft_of (project_root : string) (draft : WorkspacePluginPurgeDraft) : WorkspacePluginPurgeDraft :=
  MkPurgeDraft project_root (pd_tombstone_id draft) (pd_plugin_id draft) (pd_package_digest draft)
    (pd_backup_path_key draft) (pd_original_directory_name draft).
Definition request_purge (now : Z) (project_root : string) (draft : WorkspacePluginPurgeDraft)
    : store_m WorkspacePluginPurgeResult :=
  project_root ← same_project project_root (pd_project_root draft)
    "workspace plugin purge project does not match service project";
  request_workspace_plugin_purge now (purge_draft_of project_root draft).
Definition complete_purge (now : Z) (project_root : string) (draft : WorkspacePluginPurgeDraft)
    : store_m WorkspacePluginPurgeResult :=
  project_root ← same_project project_root (pd_project_root draft)
    "workspace plugin purge project does not match service project";
  complete_workspace_plugin_purge now (purge_draft_of project_root draft).
Definition complete_replacement (now : Z) (project_root transition_id host_session_id : string)
    : store_m WorkspacePluginReplacementCompletion :=
  project_root ← lift (project_root_of project_root);
  complete_workspace_plugin_replacement now project_root transition_id host_session_id.
Definition record_recovery_required (now : Z) (project_root plugin_id : string) (transition_id : option string)
    (reason_code : string) : store_m outcome :=
  project_root ← lift (project_root_of project_root);
  record_workspace_plugin_recovery_required now project_root plugin_id transition_id reason_code.
Definition record_crash (now : Z) (project_root plugin_id package_digest host_session_id reason_code : string)
    : store_m WorkspacePluginCrashOutcome :=
  project_root ← lift (project_root_of project_root);
  record_workspace_plugin_crash now project_root plugin_id package_digest host_session_id reason_code.
End service.

(** ** Retention of the trash *)

Module PluginPackageOwnershipOutcome.
Inductive t := Moved | AlreadyMoved | Restored | AlreadyRestored | Purged | AlreadyPurged.
End PluginPackageOwnershipOutcome.
Import PluginPackageOwnershipOutcome.
Inductive PluginRetentionError :=
| Store (e : StoreError)
| Filesystem (message : string)
| NotReady (message : string).
Record PluginRetentionPurgeReport := MkPurgeReport {
  pr_plugin_id : string;
  pr_package_digest : string;
  pr_tombstone_id : string;
  pr_file_outcome : PluginPackageOwnershipOutcome.t;
  pr_tombstone : WorkspacePluginPackageTombstone
}.
(** The connection, and the purges of files asked for so far with the tables at that
    moment, newest first. *)
Record Retention := MkRetention { rt_connection : Connection; rt_purged : list (Database * WorkspacePluginPurgeDraft) }.
Abbreviation retention_m A := (stateful Retention PluginRetentionError A).
Definition on_store {A} (m : store_m A) : retention_m A := λ r,
  let '(c, answer) := m (rt_connection r) in (MkRetention c (rt_purged r), map_err Store answer).
Definition applied_or_unchanged (o : outcome) : bool := bool_decide (o = Applied) || bool_decide (o = Unchanged).

Definition draft_of_tombstone (b : WorkspacePluginPackageTombstone) : WorkspacePluginPurgeDraft :=
  MkPurgeDraft (wb_project_root b) (wb_tombstone_id b) (wb_plugin_id b) (wb_package_digest b) (wb_backup_path_key b)
    (wb_original_directory_name b).
(** [self.trash.purge_exact(...)?], which answers as [answer]. *)
Definition purge_files (answer : result string PluginPackageOwnershipOutcome.t) (draft : WorkspacePluginPurgeDraft)
    : retention_m PluginPackageOwnershipOutcome.t :=
  _ ← modify (λ r, MkRetention (rt_connection r) ((cn_database (rt_connection r), draft) :: rt_purged r));
  lift (map_err Filesystem answer).
Definition files_gone (o : PluginPackageOwnershipOutcome.t) : bool :=
  match o with Purged | AlreadyPurged => true | _ => false end.
Definition expire `{StoreLibraries, !SerdeFromU64, !Semver} (now : Z) (project_root cutoff : string) (limit : Z)
    : retention_m WorkspacePluginRetentionSweep :=
  on_store (expire_tombstones now project_root cutoff limit).
Definition purge_exact_tombstone `{StoreLibraries, !SerdeFromU64, !Semver} (requested_at completed_at : Z) (trash : result string PluginPackageOwnershipOutcome.t)
    (project_root tombstone_id : string) : retention_m PluginRetentionPurgeReport :=
  tombstone ← on_store (get_tombstone project_root tombstone_id);
  tombstone ← lift (ok_or tombstone (NotReady "tombstone is missing"));
  let draft := draft_of_tombstone tombstone in
  requested ← on_store (request_purge requested_at project_root draft);
  _ ← throw_if (negb (applied_or_unchanged (pu_outcome requested)))
        (NotReady ("tombstone retention state is " +:+ wb_retention_class (pu_tombstone requested)));
  file ← purge_files trash draft;
  _ ← throw_if (negb (files_gone file)) (NotReady "filesystem did not prove exact purge completion");
  completed ← on_store (complete_purge completed_at project_root draft);
  _ ← throw_if (negb (applied_or_unchanged (pu_outcome completed))) (NotReady "terminal purge persistence was stale");
  mret (MkPurgeReport (pd_plugin_id draft) (pd_package_digest draft) (pd_tombstone_id draft) file
          (pu_tombstone completed)).
