(* ===== verification/StoreInvariant.v ===== *)
(** * The invariant and the history of the lifecycle tables

    What holds of the tables of [LifecycleDatabase] at every moment, how they change in
    the course of time, and the calculus in which the operations of [StoreLifecycle] are
    shown to keep both: a triple whose invariant holds after every statement. *)
From S2P Require Import Prelude Text External Stateful ProjectRoot LifecycleRecords LifecycleDatabase StoreLifecycle.
#[local] Open Scope Z_scope.

(** ** Rows *)

Definition phase_of (t : WorkspacePluginTransition) : Z := default 0 (position (wt_phase t) TRANSITION_PHASES).
(** A transition has ended exactly in the phase [completed]. *)
Definition phase_ok (t : WorkspacePluginTransition) : Prop :=
  is_Some (position (wt_phase t) TRANSITION_PHASES)
  ∧ (is_terminal_transition_status (wt_status t) = true ↔ wt_phase t = "completed").
(** What a request asks for: an upgrade or a rollback names two different packages. *)
Definition replaces (t : WorkspacePluginTransition) : Prop :=
  wt_kind t ∈ ["upgrade"; "rollback"] →
  ∃ expected candidate, wt_expected_old_digest t = Some expected ∧ wt_candidate_digest t = Some candidate
    ∧ expected ≠ candidate.

(** Where a package in the trash stands. *)
Inductive trash_stage := Recoverable | Restored | Expired | PurgePending | Deleted.
Definition stage_of (b : WorkspacePluginPackageTombstone) : option trash_stage :=
  match wb_deleted_at b, wb_restored_at b with
  | None, None => if str_eq (wb_retention_class b) "recoverable" then Some Recoverable
                  else if str_eq (wb_retention_class b) "expired" then Some Expired
                  else if str_eq (wb_retention_class b) "purge_pending" then Some PurgePending else None
  | None, Some _ => if str_eq (wb_retention_class b) "recoverable" then Some Restored else None
  | Some _, None => if str_eq (wb_retention_class b) "expired" then Some Deleted else None
  | Some _, Some _ => None
  end.
Inductive stage_step : trash_stage → trash_stage → Prop :=
| step_restore : stage_step Recoverable Restored
| step_expire : stage_step Recoverable Expired
| step_purge : stage_step Expired PurgePending
| step_delete : stage_step PurgePending Deleted.

Definition details_ok `{StoreLibraries} (e : WorkspacePluginLifecycleEvent) : Prop :=
  ∃ object, we_details_json e = json_text (VObject object) ∧ vec_len object <= 24
    ∧ Forall (λ kv : string * Value, forbidden_detail_key kv.1 = false ∧ safe_detail_value kv.2 = true) object.

(** ** The invariant *)

Record db_ok `{StoreLibraries} (db : Database) : Prop := {
  state_rows k s : db_states db !! k = Some s → state_key s = k ∧ state_check s = true;
  transition_rows id t : db_transitions db !! id = Some t →
    wt_transition_id t = id ∧ transition_check t = true ∧ phase_ok t ∧ replaces t ∧ is_Some (db_states db !! plugin_of t);
  event_rows id e : db_events db !! id = Some e →
    we_event_id e = id ∧ event_check e = true ∧ details_ok e
    ∧ is_Some (db_states db !! (we_project_root e, we_plugin_id e))
    ∧ ∀ transition, we_transition_id e = Some transition →
        plugin_of <$> db_transitions db !! transition = Some (we_project_root e, we_plugin_id e);
  tombstone_rows id b : db_tombstones db !! id = Some b →
    wb_tombstone_id b = id ∧ tombstone_check b = true ∧ is_Some (stage_of b)
    ∧ is_Some (db_states db !! (wb_project_root b, wb_plugin_id b));
  one_active_transition id t id' t' : db_transitions db !! id = Some t → db_transitions db !! id' = Some t' →
    is_active t = true → is_active t' = true → plugin_of t = plugin_of t' → id = id';
  backup_keys_differ id b id' b' : db_tombstones db !! id = Some b → db_tombstones db !! id' = Some b' →
    wb_backup_path_key b = wb_backup_path_key b' → id = id';
  transition_of_state k s id : db_states db !! k = Some s → ws_transition_id s = Some id →
    plugin_of <$> db_transitions db !! id = Some k
}.

(** ** The history *)

Definition request_of (t : WorkspacePluginTransition) :=
  (wt_transition_id t, wt_project_root t, wt_plugin_id t, wt_kind t, wt_expected_old_digest t, wt_candidate_digest t,
   wt_rollback_digest t, wt_requested_at t, wt_backup_path_key t).
Definition evidence_of (b : WorkspacePluginPackageTombstone) :=
  (wb_tombstone_id b, wb_project_root b, wb_plugin_id b, wb_package_digest b, wb_backup_path_key b,
   wb_original_directory_name b, wb_moved_at b, wb_reason_code b).
(** A transition stays or, while it has not ended, goes to a later phase. *)
Definition transition_later (t t' : WorkspacePluginTransition) : Prop :=
  request_of t' = request_of t ∧ (t' = t ∨ (is_active t = true ∧ phase_of t < phase_of t')).
Definition tombstone_later (b b' : WorkspacePluginPackageTombstone) : Prop :=
  evidence_of b' = evidence_of b
  ∧ ∀ stage, stage_of b = Some stage → ∃ stage', stage_of b' = Some stage' ∧ rtc stage_step stage stage'.
Record evolves (db db' : Database) : Prop := {
  states_stay k s : db_states db !! k = Some s →
    ∃ s', db_states db' !! k = Some s' ∧ ws_last_activation_generation s <= ws_last_activation_generation s';
  transitions_proceed id t : db_transitions db !! id = Some t →
    ∃ t', db_transitions db' !! id = Some t' ∧ transition_later t t';
  events_stay id e : db_events db !! id = Some e → db_events db' !! id = Some e;
  tombstones_proceed id b : db_tombstones db !! id = Some b →
    ∃ b', db_tombstones db' !! id = Some b' ∧ tombstone_later b b'
}.
#[global] Instance transition_later_preorder : PreOrder transition_later.
Proof.
  split; [intros t; by split; [|left]|]. intros t u v [Hr Hs] [Hr' Hs']. split; [congruence|].
  destruct Hs as [->|[? ?]], Hs' as [->|[? ?]]; [by left|right..]; split; done || lia.
Qed.
#[global] Instance tombstone_later_preorder : PreOrder tombstone_later.
Proof.
  split; [intros b; split; [done|intros stage ?; by exists stage]|].
  intros b c d [Hr Hs] [Hr' Hs']. split; [congruence|]. intros stage (stage' & Hc & ?)%Hs.
  destruct (Hs' _ Hc) as (stage'' & ? & ?). exists stage''. split; [done|]. by etransitivity.
Qed.
#[global] Instance evolves_preorder : PreOrder evolves.
Proof.
  split; [intros db; split; [intros k s Hs; by exists s; split|eauto using transition_later_preorder..]|].
  1-2: intros id x ?; exists x; by split.
  intros d1 d2 d3 H1 H2. split.
  - intros k s (s' & Hs & ?)%(states_stay _ _ H1). destruct (states_stay _ _ H2 _ _ Hs) as (s'' & ? & ?).
    exists s''. split; [done|lia].
  - intros id t (t' & Ht & ?)%(transitions_proceed _ _ H1). destruct (transitions_proceed _ _ H2 _ _ Ht) as (t'' & ? & ?).
    exists t''. split; [done|]. by etransitivity.
  - intros id e ?%(events_stay _ _ H1). by apply (events_stay _ _ H2).
  - intros id b (b' & Hb & ?)%(tombstones_proceed _ _ H1). destruct (tombstones_proceed _ _ H2 _ _ Hb) as (b'' & ? & ?).
    exists b''. split; [done|]. by etransitivity.
Qed.

(** Rows of other projects stay as they are. *)
Record only_project (project_root : string) (db db' : Database) : Prop := {
  other_states k s : k.1 ≠ project_root → db_states db !! k = Some s ↔ db_states db' !! k = Some s;
  other_transitions id t : wt_project_root t ≠ project_root →
    db_transitions db !! id = Some t ↔ db_transitions db' !! id = Some t;
  other_events id e : we_project_root e ≠ project_root → db_events db !! id = Some e ↔ db_events db' !! id = Some e;
  other_tombstones id b : wb_project_root b ≠ project_root →
    db_tombstones db !! id = Some b ↔ db_tombstones db' !! id = Some b
}.
#[global] Instance only_project_preorder project_root : PreOrder (only_project project_root).
Proof.
  split; [done|]. intros d1 d2 d3 H1 H2. split; intros x y Hne.
  - by rewrite (other_states _ _ _ H1), (other_states _ _ _ H2).
  - by rewrite (other_transitions _ _ _ H1), (other_transitions _ _ _ H2).
  - by rewrite (other_events _ _ _ H1), (other_events _ _ _ H2).
  - by rewrite (other_tombstones _ _ _ H1), (other_tombstones _ _ _ H2).
Qed.

(** One change of the tables by an operation of a project. *)
Record db_step `{StoreLibraries} (project_root : string) (db db' : Database) : Prop := {
  step_ok : db_ok db';
  step_evolves : evolves db db';
  step_only : only_project project_root db db'
}.

Section steps.
Context `{StoreLibraries}.
Implicit Types (db : Database).

Lemma db_step_refl p db : db_ok db → db_step p db db.
Proof. by split. Qed.
Lemma db_step_trans p d1 d2 d3 : db_step p d1 d2 → db_step p d2 d3 → db_step p d1 d3.
Proof. intros [] []. split; [done|by etransitivity..]. Qed.

(** ** Changes of one row *)

Lemma some_row_false {V} (q : V → bool) (m : gmap string V) id v :
  some_row q m = false → m !! id = Some v → q v = false.
Proof.
  unfold some_row. rewrite existsb_False. intros Hq Hv. by apply (Hq (id, v)), elem_of_map_to_list.
Qed.

(** A row of a plugin state in place of another, or in a free place. *)
Lemma put_state_step db s :
  db_ok db → state_check s = true →
  (∀ s0, db_states db !! state_key s = Some s0 → ws_last_activation_generation s0 <= ws_last_activation_generation s) →
  (∀ id, ws_transition_id s = Some id → plugin_of <$> db_transitions db !! id = Some (state_key s)) →
  db_step (ws_project_root s) db (put_state s db).
Proof.
  intros Hok Hcheck Hgen Htr.
  assert (Hstay : ∀ k, is_Some (db_states db !! k) → is_Some (db_states (put_state s db) !! k)).
  { intros k Hk. cbn. destruct (decide (state_key s = k)) as [<-|Hk'].
    - by rewrite lookup_insert_eq.
    - by rewrite lookup_insert_ne. }
  destruct Hok as [Hs Ht He Hb Ha Hk Hst]. split; [split| |]; cbn.
  - intros k s' [[<- <-]|[? Hs']]%lookup_insert_Some; [done|]. by apply Hs.
  - intros id t (?&?&?&?&?)%Ht. split_and!; try done. by apply Hstay.
  - intros id e (?&?&?&?&?)%He. split_and!; try done. by apply Hstay.
  - intros id b (?&?&?&?)%Hb. split_and!; try done. by apply Hstay.
  - done.
  - done.
  - intros k s' id [[<- <-]|[? Hs']]%lookup_insert_Some Hid; [by apply Htr|]. by eapply Hst.
  - split; cbn.
    + intros k s0 Hs0. destruct (decide (state_key s = k)) as [<-|Hne].
      * exists s. rewrite lookup_insert_eq. split; [done|]. by apply Hgen.
      * exists s0. by rewrite lookup_insert_ne.
    + intros id t Ht0. by exists t.
    + done.
    + intros id b Hb0. by exists b.
  - split; cbn; try done. intros k s0 Hne. rewrite lookup_insert_ne; [done|]. intros <-. by apply Hne.
Qed.
Lemma put_transition_step db t :
  db_ok db → transition_check t = true → second_active t db = false → phase_ok t → replaces t →
  is_Some (db_states db !! plugin_of t) →
  (∀ t0, db_transitions db !! wt_transition_id t = Some t0 → transition_later t0 t) →
  db_step (wt_project_root t) db (put_transition t db).
Proof.
  intros Hok Hcheck Hactive Hphase Hrep Hstate Hlater.
  assert (Hplugin : ∀ id k, plugin_of <$> db_transitions db !! id = Some k →
            plugin_of <$> db_transitions (put_transition t db) !! id = Some k).
  { intros id k Hk. cbn. destruct (decide (wt_transition_id t = id)) as [<-|Hne].
    - rewrite lookup_insert_eq. destruct (db_transitions db !! _) as [t0|]; [|done].
      destruct (Hlater t0 eq_refl) as [Hr _]. injection Hr as ??????. cbn in *. unfold plugin_of in *. congruence.
    - by rewrite lookup_insert_ne. }
  assert (Hother : ∀ id u, db_transitions db !! id = Some u → wt_transition_id t ≠ id → is_active t = true →
            is_active u = true → plugin_of u ≠ plugin_of t).
  { intros id u Hu Hne Hat Hau Hp. unfold second_active in Hactive. rewrite Hat in Hactive. cbn in Hactive.
    apply (some_row_false _ _ _ _ Hactive) in Hu as Hf. rewrite Hau, bool_decide_eq_true_2 in Hf by done. cbn in Hf.
    apply negb_false_iff, str_eq_true in Hf. apply (transition_rows _ Hok) in Hu as [Hid _]. congruence. }
  destruct Hok as [Hs Ht He Hb Ha Hk Hst]. split; [split| |]; cbn.
  - done.
  - intros id u [[<- <-]|[? Hu]]%lookup_insert_Some; [by split_and!|by apply Ht].
  - intros id e (?&?&?&?&Hl)%He. split_and!; try done. intros transition Htr. by apply Hplugin, Hl.
  - done.
  - intros id u id' u' [[<- <-]|[Hne Hu]]%lookup_insert_Some [[<- <-]|[Hne' Hu']]%lookup_insert_Some Hau Hau' Hp.
    + done.
    + symmetry in Hp. by destruct (Hother id' u').
    + by destruct (Hother id u).
    + by eapply Ha.
  - done.
  - intros k s id Hs0 Hid. by eapply Hplugin, Hst.
  - split; cbn.
    + intros k s0 Hs0. by exists s0.
    + intros id t0 Ht0. destruct (decide (wt_transition_id t = id)) as [<-|Hne].
      * exists t. rewrite lookup_insert_eq. split; [done|]. by apply Hlater.
      * exists t0. rewrite lookup_insert_ne by done. by split; [|reflexivity].
    + done.
    + intros id b Hb0. by exists b.
  - split; cbn; try done. intros id u Hne. destruct (decide (wt_transition_id t = id)) as [<-|Hid].
    + rewrite lookup_insert_eq. split; [|intros [= ->]; done]. intros Hu.
      destruct (Hlater u Hu) as [Hr _]. injection Hr as ??????. congruence.
    + by rewrite lookup_insert_ne.
Qed.
Lemma put_event_step db e :
  db_ok db → event_check e = true → details_ok e → db_events db !! we_event_id e = None →
  is_Some (db_states db !! (we_project_root e, we_plugin_id e)) → event_transition_exists e db = true →
  db_step (we_project_root e) db (put_event e db).
Proof.
  intros [Hs Ht He Hb Ha Hk Hst] Hcheck Hdetails Hfresh Hstate Htr. split; [split| |]; cbn; try done.
  - intros id u [[<- <-]|[? Hu]]%lookup_insert_Some; [|by apply He]. split_and!; try done.
    intros transition Hid. unfold event_transition_exists in Htr. rewrite Hid in Htr. cbn in Htr.
    destruct (db_transitions db !! transition) as [t|]; [|done]. cbn in *. apply bool_decide_eq_true in Htr. by rewrite Htr.
  - split; cbn.
    + intros k s0 Hs0. by exists s0.
    + intros id t Ht0. by exists t.
    + intros id u Hu. rewrite lookup_insert_ne; [done|]. intros <-. congruence.
    + intros id b Hb0. by exists b.
  - split; cbn; try done. intros id u Hne. destruct (decide (we_event_id e = id)) as [<-|Hid].
    + rewrite lookup_insert_eq, Hfresh. split; [done|]. intros [= ->]. done.
    + by rewrite lookup_insert_ne.
Qed.
Lemma put_tombstone_step db b :
  db_ok db → tombstone_check b = true → backup_key_taken b db = false → is_Some (stage_of b) →
  is_Some (db_states db !! (wb_project_root b, wb_plugin_id b)) →
  (∀ b0, db_tombstones db !! wb_tombstone_id b = Some b0 → tombstone_later b0 b) →
  db_step (wb_project_root b) db (put_tombstone b db).
Proof.
  intros Hok Hcheck Hkey Hstage Hstate Hlater.
  assert (Hother : ∀ id c, db_tombstones db !! id = Some c → wb_tombstone_id b ≠ id →
            wb_backup_path_key c ≠ wb_backup_path_key b).
  { intros id c Hc Hne Heq. apply (some_row_false _ _ _ _ Hkey) in Hc as Hf.
    rewrite (proj2 (str_eq_true _ _)) in Hf by done. cbn in Hf. apply negb_false_iff, str_eq_true in Hf.
    apply (tombstone_rows _ Hok) in Hc as [Hid _]. congruence. }
  destruct Hok as [Hs Ht He Hb Ha Hk Hst]. split; [split| |]; cbn; try done.
  - intros id u [[<- <-]|[? Hu]]%lookup_insert_Some; [by split_and!|by apply Hb].
  - intros id u id' u' [[<- <-]|[Hne Hu]]%lookup_insert_Some [[<- <-]|[Hne' Hu']]%lookup_insert_Some Hp.
    + done.
    + symmetry in Hp. by destruct (Hother id' u').
    + by destruct (Hother id u).
    + by eapply Hk.
  - split; cbn.
    + intros k s0 Hs0. by exists s0.
    + intros id t Ht0. by exists t.
    + done.
    + intros id b0 Hb0. destruct (decide (wb_tombstone_id b = id)) as [<-|Hne].
      * exists b. rewrite lookup_insert_eq. split; [done|]. by apply Hlater.
      * exists b0. rewrite lookup_insert_ne by done. by split; [|reflexivity].
  - split; cbn; try done. intros id u Hne. destruct (decide (wb_tombstone_id b = id)) as [<-|Hid].
    + rewrite lookup_insert_eq. split; [|intros [= ->]; done]. intros Hu.
      destruct (Hlater u Hu) as [Hr _]. injection Hr as ?????. congruence.
    + by rewrite lookup_insert_ne.
Qed.
End steps.
