(* ===== verification/StoreTriples.v ===== *)
(** * A calculus of store operations

    Triples about the operations of [StoreLifecycle] whose invariant, that the tables
    are well formed and have changed by steps of one project, holds after every
    statement, failing ones included; and the rule for transactions. *)
From S2P Require Import Prelude Text External Stateful ProjectRoot LifecycleRecords LifecycleDatabase StoreLifecycle StoreInvariant.
#[local] Open Scope Z_scope.
Import PluginLifecycleMutationOutcome.

(** What a transaction finds when it begins. *)
Definition found_database (c : Connection) : Database := default id (head (cn_others c)) (cn_database c).
(** The events of a project that are in the second tables and not in the first. *)
Definition journaled (p : string) (db db' : Database) : Prop :=
  ∃ id e, db_events db !! id = None ∧ db_events db' !! id = Some e ∧ we_project_root e = p.
(** How a body may end: with an applied change, which is in the journal, or with the
    tables as they were. *)
Definition settled {A} (outcome_of : A → outcome) (p : string) (db : Database) (e : ending A) (db' : Database) : Prop :=
  match e with
  | Committed a => if decide (outcome_of a = Applied) then journaled p db db' else db' = db
  | RolledBack a | Dropped a => outcome_of a ≠ Applied
  end.
Definition same_events (db db' : Database) : Prop := db_events db' = db_events db.

Section triples.
Context `{StoreLibraries}.
Implicit Types (db : Database) (c : Connection).

Definition triple {A} (p : string) (P : Database → Prop) (m : store_m A) (Q : A → Database → Prop) : Prop :=
  ∀ c, db_ok (cn_database c) → P (cn_database c) →
    post m c (λ a c', db_step p (cn_database c) (cn_database c') ∧ Q a (cn_database c'))
             (λ _ c', db_step p (cn_database c) (cn_database c')).

Lemma triple_bind {A B} p P (m : store_m A) (f : A → store_m B) Q R :
  triple p P m Q → (∀ a, triple p (Q a) (f a) R) → triple p P (m ≫= f) R.
Proof.
  intros Hm Hf c Hok HP. rewrite post_bind. eapply post_mono; [by apply Hm| |done].
  cbn. intros a c' [Hstep HQ]. eapply post_mono; [apply Hf; [apply Hstep|done]| |]; cbn.
  - intros b c'' [? ?]. split; [by eapply db_step_trans|done].
  - intros e c'' ?. by eapply db_step_trans.
Qed.
Lemma triple_weaken {A} p (P P' : Database → Prop) (m : store_m A) (Q : A → Database → Prop) :
  triple p P' m Q → (∀ db, P db → P' db) → triple p P m Q.
Proof. intros Hm HP c Hok Hc. apply Hm; auto. Qed.
Lemma triple_ret {A} p (P : Database → Prop) (a : A) (Q : A → Database → Prop) :
  (∀ db, P db → Q a db) → triple p P (mret a) Q.
Proof. intros HQ c Hok HP. rewrite post_ret. split; [by apply db_step_refl|auto]. Qed.
Lemma triple_throw {A} p P e (Q : A → Database → Prop) : triple p P (throw e) Q.
Proof. intros c Hok HP. rewrite post_throw. by apply db_step_refl. Qed.
Lemma triple_lift {A} p (P : Database → Prop) (r : checked A) (Q : A → Database → Prop) :
  (∀ a db, r = Ok a → P db → Q a db) → triple p P (lift r) Q.
Proof. intros HQ c Hok HP. rewrite post_lift. destruct r; [split; [|by apply HQ]|]; by apply db_step_refl. Qed.
Lemma triple_lift_bind {A B} p P (r : checked A) (f : A → store_m B) Q :
  (∀ a, r = Ok a → triple p P (f a) Q) → triple p P (lift r ≫= f) Q.
Proof.
  intros Hf. apply (triple_bind _ _ _ _ (λ a db, r = Ok a ∧ P db)).
  - by apply triple_lift.
  - intros a c Hok [Hr HP]. by apply Hf.
Qed.
Lemma triple_found_bind {A B} p P (o : option A) message (f : A → store_m B) Q :
  (∀ a, o = Some a → triple p P (f a) Q) → triple p P (found_or o message ≫= f) Q.
Proof. intros Hf. apply triple_lift_bind. intros a ?%ok_or_Ok. auto. Qed.
Lemma triple_refuse_bind {B} p P (b : bool) message (f : () → store_m B) Q :
  (b = false → triple p P (f ()) Q) → triple p P (refuse_if b message ≫= f) Q.
Proof.
  intros Hf. apply (triple_bind _ _ _ _ (λ _ db, b = false ∧ P db)).
  - unfold refuse_if, throw_if. destruct b; [apply triple_throw|by apply triple_ret].
  - intros [] c Hok [Hb HP]. by apply Hf.
Qed.

(** A statement, when it does not fail. *)
Lemma triple_statement {A} p P (run : Database → changed A) (Q : A → Database → Prop) :
  (∀ db db' a, db_ok db → P db → run db = Ok (db', a) → db_step p db db' ∧ Q a db') →
  triple p P (statement run) Q.
Proof.
  intros Hrun c Hok HP. unfold post, statement. destruct (default false (head (cn_faults c))); [by apply db_step_refl|].
  destruct (run (cn_database c)) as [[db' a]|f] eqn:Hr; cbn; [by apply Hrun|by apply db_step_refl].
Qed.
Lemma triple_query {A} p (P : Database → Prop) (f : Database → A) (Q : A → Database → Prop) :
  (∀ db, P db → Q (f db) db) → triple p P (query f) Q.
Proof. intros HQ. apply triple_statement. intros db db' a Hok HP [= <- <-]. split; [by apply db_step_refl|auto]. Qed.
(** What a query of known tables answers. *)
Lemma triple_query_known {A B} p db (f : Database → A) (k : A → store_m B) Q :
  triple p (eq db) (k (f db)) Q → triple p (eq db) (query f ≫= k) Q.
Proof.
  intros Hk. apply (triple_bind _ _ _ _ (λ a db', a = f db ∧ db = db')).
  - apply triple_query. by intros db' <-.
  - by intros a c Hok [-> Hdb]; apply Hk.
Qed.
Lemma triple_query_bind {A B} p P (f : Database → A) (k : A → store_m B) Q :
  (∀ a, triple p P (k a) Q) → triple p P (query f ≫= k) Q.
Proof. intros Hk. apply (triple_bind _ _ _ _ (λ _, P)); [|done]. by apply triple_query. Qed.
Lemma triple_unit_statement {A} p P (a : A) (Q : A → Database → Prop) :
  (∀ db, P db → Q a db) → triple p P (_ ← statement (λ db, Ok (db, ())); mret a) Q.
Proof.
  intros HQ. apply (triple_bind _ _ _ _ (λ _, P)); [by apply (triple_query p P (λ _, ()))|].
  intros _. by apply triple_ret.
Qed.
Lemma triple_commit {A} p P (a : A) (Q : ending A → Database → Prop) :
  (∀ db, P db → Q (Committed a) db) → triple p P (commit a) Q.
Proof. apply triple_unit_statement. Qed.
Lemma triple_rollback {A} p P (a : A) (Q : ending A → Database → Prop) :
  (∀ db, P db → Q (RolledBack a) db) → triple p P (rollback a) Q.
Proof. apply triple_unit_statement. Qed.
Lemma triple_commit_unchanged {A} (outcome_of : A → outcome) p db (a : A) :
  outcome_of a ≠ Applied → triple p (eq db) (commit a) (settled outcome_of p db).
Proof. intros Ha. apply triple_commit. intros db' <-. cbn. by rewrite decide_False. Qed.
Lemma triple_commit_applied {A} (outcome_of : A → outcome) p db (a : A) :
  outcome_of a = Applied → triple p (journaled p db) (commit a) (settled outcome_of p db).
Proof. intros Ha. apply triple_commit. intros db' Hj. cbn. by rewrite decide_True. Qed.
Lemma triple_rollback_stale {A} (outcome_of : A → outcome) p P db (a : A) :
  outcome_of a ≠ Applied → triple p P (rollback a) (settled outcome_of p db).
Proof. intros Ha. by apply triple_rollback. Qed.

(** ** Changes of rows *)

Lemma update_row_Ok {R} (found : option R) where_ set allowed put db db' n :
  update_row found where_ set allowed put db = Ok (db', n) →
  (db' = db ∧ n = 0)
  ∨ ∃ row, found = Some row ∧ where_ row = true ∧ allowed (set row) = true ∧ db' = put (set row) db ∧ n = 1.
Proof.
  unfold update_row, refused_unless. destruct found as [row|]; [|intros [= <- <-]; by left].
  destruct (where_ row) eqn:Hw; [|intros [= <- <-]; by left].
  destruct (allowed (set row)) eqn:Ha; [|done]. intros [= <- <-]. right. by exists row.
Qed.
Lemma find_transition_Some p id db t :
  find_transition p id db = Some t ↔ db_transitions db !! id = Some t ∧ wt_project_root t = p.
Proof.
  unfold find_transition. destruct (db_transitions db !! id) as [u|]; cbn; [|naive_solver].
  destruct (str_eq (wt_project_root u) p) eqn:Hp.
  - apply str_eq_true in Hp. naive_solver.
  - apply str_eq_false in Hp. naive_solver.
Qed.
Lemma find_tombstone_Some p id db b :
  find_tombstone p id db = Some b ↔ db_tombstones db !! id = Some b ∧ wb_project_root b = p.
Proof.
  unfold find_tombstone. destruct (db_tombstones db !! id) as [c|]; cbn; [|naive_solver].
  destruct (str_eq (wb_project_root c) p) eqn:Hp.
  - apply str_eq_true in Hp. naive_solver.
  - apply str_eq_false in Hp. naive_solver.
Qed.

Lemma triple_insert_state db s :
  ws_transition_id s = None → 0 <= ws_last_activation_generation s →
  triple (ws_project_root s) (eq db) (statement (insert_state s)) (λ _, same_events db).
Proof.
  intros Hid Hgen. apply triple_statement. intros db' db'' n Hok <-. unfold insert_state, refused_unless.
  destruct (_ && _) eqn:Hc; [|done]. intros [= <- _]. split; [|done].
  apply andb_true_iff in Hc as [Hcheck Hnone%negb_true_iff%is_some_false].
  apply put_state_step; [done..|by rewrite Hnone|by rewrite Hid].
Qed.
(** An update that keeps the keys, does not lower the generation, and refers to the
    transition referred to before, to none, or to one that is known. *)
Lemma triple_update_state p plugin_id where_ set (P : Database → Prop) :
  (∀ db states, P db → P (set_states states db)) →
  (∀ s, state_key (set s) = state_key s) →
  (∀ db s, P db → where_ s = true → ws_last_activation_generation s <= ws_last_activation_generation (set s)
     ∧ (ws_transition_id (set s) = ws_transition_id s ∨ ws_transition_id (set s) = None
        ∨ ∀ id, ws_transition_id (set s) = Some id → plugin_of <$> db_transitions db !! id = Some (p, plugin_id))) →
  triple p P (statement (update_state p plugin_id where_ set)) (λ _, P).
Proof.
  intros Hstable Hkey Hset. apply triple_statement. intros db db' n Hok HP Hu.
  apply update_row_Ok in Hu as [[-> _]|(s & Hs & Hw & Hcheck & -> & _)]; [split; [by apply db_step_refl|done]|].
  split; [|by apply Hstable]. destruct (state_rows _ Hok _ _ Hs) as [Hk _]. destruct (Hset db s HP Hw) as [Hgen Hid].
  pose proof (Hkey s) as Hks. rewrite Hk in Hks. injection Hks as Hp Hplugin. rewrite <-Hp at 1.
  apply put_state_step; [done..| |]; rewrite Hkey, Hk.
  - intros s0 Hs0. unfold find_state in Hs. congruence.
  - intros id Hs'. destruct Hid as [Hid|[Hid|Hid]]; [|congruence|by apply Hid].
    rewrite Hid in Hs'. by apply (transition_of_state _ Hok _ _ _ Hs).
Qed.
Lemma triple_insert_transition db t :
  phase_ok t → replaces t →
  triple (wt_project_root t) (eq db) (statement (insert_transition t))
    (λ _ db', same_events db db' ∧ plugin_of <$> db_transitions db' !! wt_transition_id t = Some (plugin_of t)).
Proof.
  intros Hphase Hrep. apply triple_statement. intros db' db'' n Hok <-. unfold insert_transition, refused_unless.
  destruct (_ && _) eqn:Hc; [|done]. intros [= <- _].
  apply andb_true_iff in Hc as [[[Hcheck Hnone%negb_true_iff%is_some_false]%andb_true_iff Ha%negb_true_iff]%andb_true_iff Hs].
  split; [|split; [done|cbn; by rewrite lookup_insert_eq]].
  apply put_transition_step; try done; [|by rewrite Hnone]. unfold state_exists in Hs.
  destruct (db_states db !! plugin_of t) eqn:Hp; [by eexists|]. unfold plugin_of in Hp. by rewrite Hp in Hs.
Qed.
(** An advance of the rows that are where a phase says, to a later one. *)
Lemma triple_update_transition p id where_ phase status now completed_at reason_code (P : Database → Prop) :
  (∀ db transitions, P db → P (set_transitions transitions db)) →
  is_Some (position phase TRANSITION_PHASES) →
  (is_terminal_transition_status status = true ↔ phase = "completed") →
  (∀ db t, db_ok db → P db → db_transitions db !! id = Some t → where_ t = true →
     is_active t = true ∧ phase_of t < default 0 (position phase TRANSITION_PHASES)) →
  triple p P (statement (update_transition p id where_ (set_phase phase status now completed_at reason_code))) (λ _, P).
Proof.
  intros Hstable Hphase Hterminal Hlater. apply triple_statement. intros db db' n Hok HP Hu.
  apply update_row_Ok in Hu as [[-> _]|(t & [Ht Hp]%find_transition_Some & Hw & Hc & -> & _)];
    [split; [by apply db_step_refl|done]|].
  split; [|by apply Hstable]. apply andb_true_iff in Hc as [Hcheck Hactive%negb_true_iff].
  destruct (transition_rows _ Hok _ _ Ht) as (Hid & _ & _ & Hrep & Hstate). rewrite <-Hp.
  apply (put_transition_step db (set_phase phase status now completed_at reason_code t)); try done.
  cbn. rewrite Hid. intros t0 Ht0. simplify_eq. split; [done|]. right. by eapply Hlater.
Qed.
Lemma triple_insert_tombstone db b :
  is_Some (stage_of b) →
  triple (wb_project_root b) (eq db) (statement (insert_tombstone b)) (λ _, same_events db).
Proof.
  intros Hstage. apply triple_statement. intros db' db'' n Hok <-. unfold insert_tombstone, refused_unless.
  destruct (_ && _) eqn:Hc; [|done]. intros [= <- _]. split; [|done].
  apply andb_true_iff in Hc as [[[Hcheck Hnone%negb_true_iff%is_some_false]%andb_true_iff Ha%negb_true_iff]%andb_true_iff Hs].
  apply put_tombstone_step; try done; [|by rewrite Hnone]. unfold state_exists in Hs.
  destruct (db_states db !! _) eqn:Hp; [by eexists|done].
Qed.
Lemma triple_update_tombstone_row p id where_ set (P : Database → Prop) (Q : Z → Database → Prop) :
  (∀ db, P db → Q 0 db) →
  (∀ db b, P db → find_tombstone p id db = Some b → where_ b = true → Q 1 (put_tombstone (set b) db)) →
  (∀ b, evidence_of (set b) = evidence_of b) →
  (∀ db b, P db → find_tombstone p id db = Some b → where_ b = true → ∀ stage, stage_of b = Some stage →
     ∃ stage', stage_of (set b) = Some stage' ∧ rtc stage_step stage stage') →
  triple p P (statement (update_tombstone p id where_ set)) Q.
Proof.
  intros Hnone Hrow Hev Hset. apply triple_statement. intros db db' n Hok HP Hu.
  apply update_row_Ok in Hu as [[-> ->]|(b & Hf & Hw & Hc & -> & ->)];
    [split; [by apply db_step_refl|by apply Hnone]|].
  split; [|by apply Hrow]. apply andb_true_iff in Hc as [Hcheck Hkey%negb_true_iff].
  pose proof Hf as [Hb Hp]%find_tombstone_Some.
  destruct (tombstone_rows _ Hok _ _ Hb) as (Hid & _ & [stage Hstage] & Hstate).
  pose proof (Hev b) as He. injection He as Hi Hr Hpl _ _ _ _ _. rewrite <-Hp, <-Hr.
  destruct (Hset _ b HP Hf Hw _ Hstage) as (stage' & Hs' & ?).
  apply put_tombstone_step; try done; [by rewrite Hr, Hpl|].
  rewrite Hi, Hid. intros b0 Hb0. simplify_eq. split; [done|]. by eapply Hset.
Qed.
Lemma triple_update_tombstone p id where_ set (P Q : Database → Prop) :
  (∀ db tombstones, P db → Q (set_tombstones tombstones db)) →
  (∀ b, evidence_of (set b) = evidence_of b) →
  (∀ db b, P db → find_tombstone p id db = Some b → where_ b = true → ∀ stage, stage_of b = Some stage →
     ∃ stage', stage_of (set b) = Some stage' ∧ rtc stage_step stage stage') →
  triple p P (statement (update_tombstone p id where_ set)) (λ _, Q).
Proof.
  intros Hstable Hev Hset. apply triple_update_tombstone_row; [|intros db b HP _ _; by apply Hstable|done..].
  intros db HP. pose proof (Hstable db (db_tombstones db) HP) as HQ. by destruct db.
Qed.
Lemma details_validated value details : validate_details_json value = Ok details →
  ∃ object, details = json_text (VObject object) ∧ vec_len object <= 24
    ∧ Forall (λ kv : string * Value, forbidden_detail_key kv.1 = false ∧ safe_detail_value kv.2 = true) object.
Proof.
  unfold validate_details_json, require. intros Hv. result_inv Hv. subst.
  match goal with Hf : for_each _ _ = Ok _ |- _ => rename Hf into Hfields end. destruct x as [| | | | |m]; try done.
  injection Hsome0 as <-. exists m. apply negb_false_iff, Z.leb_le in Hguard0. split_and!; try done.
  destruct x1. apply for_each_Ok in Hfields. eapply Forall_impl; [exact Hfields|]. intros kv Hkv. cbn beta in Hkv.
  result_inv Hkv. split; [by destruct (forbidden_detail_key kv.1)|by apply negb_false_iff].
Qed.
Lemma triple_insert_event_row event (P Q : Database → Prop) :
  (∀ db e, P db → db_events db !! we_event_id e = None → we_project_root e = ei_project_root event → Q (put_event e db)) →
  triple (ei_project_root event) P (insert_lifecycle_event event) (λ _, Q).
Proof.
  intros HP. unfold insert_lifecycle_event. do 3 (apply triple_lift_bind; intros ? _).
  apply triple_lift_bind. intros details (object & Hd)%details_validated.
  apply (triple_bind _ _ _ _ (λ _, P)); [intros c Hok Hc; by split; [apply db_step_refl|]|]. intros id.
  apply (triple_bind _ _ _ _ (λ _, Q)); [|intros _; by apply triple_ret].
  apply triple_statement. intros db' db'' n Hok Hc. unfold insert_event, refused_unless.
  destruct (_ && _) eqn:Hcheck; [|done]. intros [= <- _].
  apply andb_true_iff in Hcheck as [[[Hcheck Hnone%negb_true_iff%is_some_false]%andb_true_iff Hs]%andb_true_iff Ht].
  split; [|by apply HP].
  set (e := MkLifecycleEvent _ _ _ _ _ _ _ _ _ _ _) in *. change (ei_project_root event) with (we_project_root e).
  apply put_event_step; try done; [by exists object|]. unfold state_exists in Hs. cbn in Hs |- *.
  destruct (db_states db' !! _) eqn:Hp; [by eexists|done].
Qed.
Lemma triple_insert_event event (P : Database → Prop) db :
  (∀ db', P db' → same_events db db' ∨ journaled (ei_project_root event) db db') →
  triple (ei_project_root event) P (insert_lifecycle_event event) (λ _, journaled (ei_project_root event) db).
Proof.
  intros HP. apply triple_insert_event_row. intros db' e Hc Hnone Hp.
  destruct (HP _ Hc) as [Hs|(id' & e' & ? & He' & ?)].
  - exists (we_event_id e), e. cbn. by rewrite lookup_insert_eq, <-Hs.
  - exists id', e'. cbn. rewrite lookup_insert_ne by congruence. done.
Qed.

(** ** Transactions *)

Lemma post_in_transaction {A} p (outcome_of : A → outcome) (body : store_m (ending A)) c :
  (∀ db, triple p (eq db) body (settled outcome_of p db)) → db_ok (found_database c) →
  post (in_transaction body) c
    (λ a c', db_step p (found_database c) (cn_database c')
             ∧ if decide (outcome_of a = Applied) then journaled p (found_database c) (cn_database c')
               else cn_database c' = found_database c)
    (λ _ c', cn_database c' = found_database c)
  .
Proof.
  intros Hbody Hok. unfold in_transaction. rewrite !post_bind. unfold meanwhile. rewrite post_modify.
  fold (found_database c). rewrite post_bind. unfold post at 1, statement. cbn.
  destruct (default false (head (cn_faults c))); [done|]. cbn. unfold post, run_body. cbn.
  set (c1 := set_database _ _). pose proof (Hbody (found_database c) c1 Hok eq_refl) as Hb. unfold post in Hb.
  destruct (body c1) as [c2 [[a|a|a]|e]]; cbn in *.
  - done.
  - destruct Hb as [_ Hb]. split; [by apply db_step_refl|]. by rewrite decide_False.
  - destruct Hb as [_ Hb]. split; [by apply db_step_refl|]. by rewrite decide_False.
  - done.
Qed.
End triples.
