(* ===== verification/StoreOperations.v ===== *)
(** * Every operation of the store is a step or nothing

    For each operation of [StoreLifecycle]: its transaction keeps the invariant of
    [StoreInvariant], changes rows of one project only, and has written to the journal
    when it answers [Applied]; otherwise the tables are as it found them. *)
From S2P Require Import Prelude Text External Stateful ProjectRoot LifecycleRecords LifecycleDatabase StoreLifecycle.
From S2P Require Import StoreInvariant StoreTriples.
#[local] Open Scope Z_scope.
Import PluginLifecycleMutationOutcome.

(** ** What validation establishes *)

Lemma project_root_of_Ok root p : project_root_of root = Ok p → p = normalize_project_root root.
Proof. unfold project_root_of, required_project_root. rewrite map_err_Ok. by destruct (str_is_empty _); [|intros [= <-]]. Qed.
Lemma validate_discovered_Ok `{Semver} draft d : validate_discovered draft = Ok d →
  dd_project_root d = normalize_project_root (dd_project_root draft).
Proof. unfold validate_discovered. intros Hd. result_inv Hd. subst. by apply project_root_of_Ok. Qed.
Lemma validate_transition_draft_Ok draft d : validate_transition_draft draft = Ok d →
  td_project_root d = normalize_project_root (td_project_root draft)
  ∧ (td_kind d ∈ ["upgrade"; "rollback"] → ∃ expected candidate,
       td_expected_old_digest d = Some expected ∧ td_candidate_digest d = Some candidate ∧ expected ≠ candidate).
Proof.
  unfold validate_transition_draft, require. intros Hd. result_inv Hd. subst. cbn.
  match goal with Hp : project_root_of _ = Ok _ |- _ => apply project_root_of_Ok in Hp as -> end.
  split; [done|]. intros Hk. unfold listed in *. bool_prop.
  match goal with Hg : bool_decide (_ ∈ ["upgrade"; _]) && _ = false |- _ =>
    rewrite bool_decide_eq_true_2 in Hg by done; cbn in Hg; apply orb_false_iff in Hg as [He Hc] end.
  destruct x1 as [expected|]; [|done]. destruct x2 as [candidate|]; [|done]. exists expected, candidate.
  split_and!; try done. intros ->. by rewrite bool_decide_eq_true_2 in Hguard3.
Qed.
Lemma phase_rank_Ok phase rank : phase_rank phase = Ok rank ↔ position phase TRANSITION_PHASES = Some rank.
Proof. apply ok_or_Ok. Qed.
Lemma validate_transition_advance_Ok `{StoreLibraries} draft d : validate_transition_advance draft = Ok d →
  ta_project_root d = normalize_project_root (ta_project_root draft)
  ∧ is_Some (position (ta_next_phase d) TRANSITION_PHASES)
  ∧ (is_terminal_transition_status (ta_status d) = true ↔ ta_next_phase d = "completed").
Proof.
  unfold validate_transition_advance, require. intros Hd. result_inv Hd. subst. cbn.
  match goal with Hp : project_root_of _ = Ok _ |- _ => apply project_root_of_Ok in Hp as -> end.
  split_and!; [done|by eexists; apply phase_rank_Ok|].
  match goal with Hg : negb (Bool.eqb _ _) = false |- _ => apply negb_false_iff, Bool.eqb_prop in Hg as -> end.
  apply str_eq_true.
Qed.
Lemma validate_tombstone_Ok draft d : validate_tombstone draft = Ok d →
  bd_project_root d = normalize_project_root (bd_project_root draft).
Proof. unfold validate_tombstone. intros Hd. result_inv Hd. subst. by apply project_root_of_Ok. Qed.
Lemma validate_purge_draft_Ok draft d : validate_purge_draft draft = Ok d →
  pd_project_root d = normalize_project_root (pd_project_root draft).
Proof. unfold validate_purge_draft. intros Hd. result_inv Hd. subst. by apply project_root_of_Ok. Qed.

Lemma position_bound value l n : position value l = Some n → 0 <= n < vec_len l.
Proof.
  unfold vec_len. revert n. induction l as [|x l IH]; intros n; [done|]. cbn [position length].
  destruct (str_eq x value); [intros [= <-]; lia|]. destruct (position value l) as [k|]; [|done].
  intros [= <-]. specialize (IH k eq_refl). lia.
Qed.

(** ** Transactions *)

(** An operation of one transaction, seen from what the transaction finds. *)
Definition transactional `{StoreLibraries} {A} (outcome_of : A → outcome) (p : string) (m : store_m A) : Prop :=
  ∀ c, db_ok (found_database c) →
    post m c
      (λ a c', db_step p (found_database c) (cn_database c')
               ∧ if decide (outcome_of a = Applied) then journaled p (found_database c) (cn_database c')
                 else cn_database c' = found_database c)
      (λ _ c', cn_database c' = cn_database c ∨ cn_database c' = found_database c).

(** One step through the code of a transaction that has changed nothing so far, or
    whose journal is not yet, or already, written. *)
Ltac tx_step :=
  lazymatch goal with
  | |- triple _ (eq _) (query _ ≫= _) _ => apply triple_query_known
  | |- triple _ _ (query _ ≫= _) _ => apply triple_query_bind; intros ?
  | |- triple _ _ (lift _ ≫= _) _ => apply triple_lift_bind; intros ? ?
  | |- triple _ _ (found_or _ _ ≫= _) _ => apply triple_found_bind; intros ? ?
  | |- triple _ _ (refuse_if _ _ ≫= _) _ => apply triple_refuse_bind; intros ?
  | |- triple _ _ (throw _) _ => apply triple_throw
  | |- triple _ (eq _) (commit _) _ => apply triple_commit_unchanged; done
  | |- triple _ (journaled _ _) (commit _) _ => apply triple_commit_applied; done
  | |- triple _ _ (rollback _) _ => apply triple_rollback_stale; done
  | |- triple _ _ (if ?b then _ else _) _ => destruct b eqn:?
  end.
Ltac tx := unfold get_state_on, get_transition_on, get_tombstone_on; repeat tx_step.
(** The next statement, by its lemma. *)
Ltac tx_with lem := eapply triple_bind; [lem|cbv beta; intros ?].

Section operations.
Context `{StoreLibraries, !SerdeFromU64, !Semver}.

Lemma transactional_lift {A B} (o : B → outcome) p (r : checked A) (f : A → store_m B) :
  (∀ a, r = Ok a → transactional o p (f a)) → transactional o p (lift r ≫= f).
Proof.
  intros Hf c Hok. rewrite post_bind, post_lift. destruct r as [a|e]; [by apply Hf|by left].
Qed.
Lemma transactional_found {A B} (o : B → outcome) p (v : option A) message (f : A → store_m B) :
  (∀ a, v = Some a → transactional o p (f a)) → transactional o p (found_or v message ≫= f).
Proof. intros Hf. apply transactional_lift. intros a ?%ok_or_Ok. auto. Qed.
Lemma transactional_refuse {B} (o : B → outcome) p (b : bool) message (f : () → store_m B) :
  transactional o p (f ()) → transactional o p (refuse_if b message ≫= f).
Proof.
  intros Hf c Hok. rewrite post_bind. unfold refuse_if. rewrite post_throw_if. destruct b; [by left|by apply Hf].
Qed.
Lemma transactional_body {A} (o : A → outcome) p (body : store_m (ending A)) :
  (∀ db, triple p (eq db) body (settled o p db)) → transactional o p (in_transaction body).
Proof.
  intros Hbody c Hok. eapply post_mono; [by apply (post_in_transaction p o)|done|]. cbn. by right.
Qed.

Lemma same_events_refl db : same_events db db.
Proof. done. Qed.
Lemma journal {A} p db event (f : string → store_m A) (P : Database → Prop) Q :
  ei_project_root event = p → (∀ db', P db' → same_events db db') →
  (∀ id, triple p (journaled p db) (f id) Q) → triple p P (insert_lifecycle_event event ≫= f) Q.
Proof.
  intros <- HP Hf. eapply triple_bind; [apply triple_insert_event|exact Hf]. intros db' ?%HP. by left.
Qed.
(** An update of a plugin's state that leaves its transition and generation alone. *)
Lemma update_plain_state {A} p plugin_id where_ set db (P : Database → Prop) (f : Z → store_m A) Q :
  (∀ s, state_key (set s) = state_key s ∧ ws_last_activation_generation (set s) = ws_last_activation_generation s
        ∧ (ws_transition_id (set s) = ws_transition_id s ∨ ws_transition_id (set s) = None)) →
  (∀ db', P db' → same_events db db') →
  (∀ n, triple p (same_events db) (f n) Q) →
  triple p P (statement (update_state p plugin_id where_ set) ≫= f) Q.
Proof.
  intros Hset HP Hf. eapply (triple_weaken _ _ (same_events db)); [|done].
  eapply triple_bind; [|exact Hf]. apply triple_update_state; [done|intros s; apply Hset|].
  intros db' s _ _. destruct (Hset s) as (_ & -> & ?). split; [lia|]. tauto.
Qed.

Lemma upsert_transactional now draft :
  transactional fst (normalize_project_root (dd_project_root draft)) (upsert_discovered_workspace_plugin now draft).
Proof.
  unfold upsert_discovered_workspace_plugin. apply transactional_lift. intros d <-%validate_discovered_Ok.
  apply transactional_body. intros db. tx.
  apply (triple_bind _ _ _ _ (λ o db', if decide (o = Applied) then same_events db db' else o = Unchanged ∧ db = db')).
  - destruct (find_state _ _ _) as [s|].
    + destruct (already_discovered d s); [by apply triple_ret; intros ? <-|].
      eapply update_plain_state; [|by intros ? <-|intros n; by apply triple_ret].
      intros s'. split_and!; [done..|by left].
    + eapply triple_bind; [by apply (triple_insert_state db (first_discovered d _))|]. intros n. by apply triple_ret.
  - intros o. destruct (decide (o = Applied)) as [->|Hne].
    + rewrite bool_decide_eq_true_2 by done. apply (triple_bind _ _ _ _ (λ _, journaled (dd_project_root d) db)).
      * apply journal with (db := db); [done|done|]. intros id. by apply triple_ret.
      * intros []. by tx.
    + rewrite bool_decide_eq_false_2 by done. apply (triple_weaken _ _ (eq db)); [|tauto].
      apply (triple_bind _ _ _ _ (λ _, eq db)); [by apply triple_ret|]. intros []. by tx.
Qed.

Lemma first_phase_ok d now : phase_ok (first_phase d now).
Proof. split; [by eexists|done]. Qed.
Lemma request_transactional now draft :
  transactional rq_outcome (normalize_project_root (td_project_root draft)) (request_workspace_plugin_transition now draft).
Proof.
  unfold request_workspace_plugin_transition. apply transactional_lift.
  intros d [<- Hreplace]%validate_transition_draft_Ok. apply transactional_body. intros db. tx.
  destruct (find_transition _ _ _) as [t|]; tx.
  eapply triple_bind; [by apply (triple_insert_transition db (first_phase d _)); [apply first_phase_ok|]|].
  cbn. intros _. eapply triple_bind; [apply triple_update_state; [|done|]|].
  - by intros db' states.
  - intros db' s [_ Hid] _. split; [done|]. right; right. cbn. by intros id [= <-].
  - intros n. cbv beta. eapply journal; [done|by intros db' [? _]|]. intros id. by tx.
Qed.

(** A transition that an operation moves is on its way. *)
Lemma not_completed_active db id t :
  db_ok db → db_transitions db !! id = Some t → wt_phase t ≠ "completed" → is_active t = true.
Proof.
  intros Hok Ht Hp. destruct (transition_rows _ Hok _ _ Ht) as (_ & Hcheck & [_ Hterm] & _).
  unfold transition_check in Hcheck. apply andb_true_iff in Hcheck as [_ Hc].
  apply orb_true_iff in Hc as [[Ha _]%andb_true_iff|[Ha _]%andb_true_iff]; [done|].
  by destruct Hp; apply Hterm.
Qed.
Lemma advance_transactional now d :
  is_Some (position (ta_next_phase d) TRANSITION_PHASES) →
  (is_terminal_transition_status (ta_status d) = true ↔ ta_next_phase d = "completed") →
  default 0 (position (ta_expected_phase d) TRANSITION_PHASES) < default 0 (position (ta_next_phase d) TRANSITION_PHASES) →
  transactional id (ta_project_root d) (advance_in_transaction now d).
Proof.
  intros Hnext Hterm Hrank. unfold advance_in_transaction. apply transactional_body. intros db.
  apply (triple_weaken _ _ (same_events db)); [|by intros ? <-].
  eapply triple_bind; [apply triple_update_transition; try done|].
  - intros db' t Hok _ Ht Hw%str_eq_true. unfold phase_of. rewrite Hw. split; [|done].
    eapply not_completed_active; [done..|]. rewrite Hw. intros Hc. rewrite Hc in Hrank.
    destruct Hnext as [n Hn]. rewrite Hn in Hrank. cbn [default] in Hrank.
    replace (position "completed" TRANSITION_PHASES) with (Some 13) in Hrank by done.
    apply position_bound in Hn. replace (vec_len TRANSITION_PHASES) with 14 in Hn by done. simpl in Hrank. lia.
  - intros n. cbv beta. tx; [by apply triple_ret|]. eapply update_plain_state; [|done|].
    + intros s. split_and!; [done..|by left].
    + intros n'. eapply journal; [done|done|]. intros id. by tx.
Qed.

(** The completions go from a phase before [completed]. *)
Lemma complete_transition {A} p id where_ now reason_code phase db (f : Z → store_m A) Q :
  (∀ t, where_ t = true → wt_phase t = phase) →
  default 0 (position phase TRANSITION_PHASES) < 13 → phase ≠ "completed" →
  (∀ n, triple p (same_events db) (f n) Q) →
  triple p (same_events db)
    (statement (update_transition p id where_ (set_phase "completed" "completed" now (Some now) reason_code)) ≫= f) Q.
Proof.
  intros Hw Hrank Hne Hf. eapply triple_bind; [apply triple_update_transition; try done|exact Hf].
  - intros db' t Hok _ Ht Hwt%Hw. unfold phase_of. rewrite Hwt. split; [|done].
    eapply not_completed_active; [done..|]. by rewrite Hwt.
Qed.
Lemma uninstall_transactional now transition_id draft :
  transactional uc_outcome (normalize_project_root (bd_project_root draft))
    (complete_workspace_plugin_uninstall now transition_id draft).
Proof.
  unfold complete_workspace_plugin_uninstall. apply transactional_lift. intros id _.
  apply transactional_lift. intros d <-%validate_tombstone_Ok. apply transactional_body. intros db. tx.
  match goal with Hm : negb (uninstall_matches _ _ _ _) = false |- _ => apply negb_false_iff in Hm as Hmatch end.
  apply andb_true_iff in Hmatch as [_ [Hclass%str_eq_true _]%andb_true_iff].
  apply (triple_bind _ _ _ _ (λ _, same_events db)).
  - unfold own_tombstone. destruct (find_tombstone _ _ _); [tx; by apply triple_ret; intros ? <-|].
    eapply triple_bind; [apply (triple_insert_tombstone db (new_tombstone d _))|].
    + unfold stage_of. cbn. rewrite Hclass. by eexists.
    + intros n. tx. by apply triple_lift.
  - intros tombstone. apply complete_transition with (phase := "package_moved"); [|done..|].
    + by intros t [?%str_eq_true _]%andb_true_iff.
    + intros n. tx. eapply update_plain_state; [|done|].
      * intros s. split_and!; [done..|by left].
      * intros n'. tx. eapply journal; [done|done|]. intros ?. by tx.
Qed.
(** The stages of an open tombstone and of what becomes of it. *)
Lemma open_stage class b stage : open_tombstone class b = true → stage_of b = Some stage →
  wb_retention_class b = class ∧ wb_deleted_at b = None ∧ wb_restored_at b = None.
Proof.
  unfold open_tombstone. intros [[?%str_eq_true ?%negb_true_iff%is_some_false]%andb_true_iff ?%negb_true_iff%is_some_false]%andb_true_iff _.
  done.
Qed.
Lemma move_stage {A} p id class set (from to : trash_stage) db (P : Database → Prop) (f : Z → store_m A) Q :
  (∀ db', P db' → same_events db db' ∨ journaled p db db') →
  (∀ b, evidence_of (set b) = evidence_of b) →
  (∀ b, wb_retention_class b = class → wb_deleted_at b = None → wb_restored_at b = None →
     stage_of b = Some from ∧ stage_of (set b) = Some to) →
  stage_step from to →
  (∀ n, triple p (λ db', same_events db db' ∨ journaled p db db') (f n) Q) →
  triple p P (statement (update_tombstone p id (open_tombstone class) set) ≫= f) Q.
Proof.
  intros HP Hev Hset Hstep Hf. apply (triple_weaken _ _ (λ db', same_events db db' ∨ journaled p db db')); [|done].
  apply (triple_bind _ _ _ _ (λ _ db', same_events db db' ∨ journaled p db db')); [|exact Hf].
  apply triple_update_tombstone; [done..|].
  intros db' b _ _ Hw stage Hs. destruct (open_stage _ _ _ Hw Hs) as (Hc & Hd & Hr).
  destruct (Hset b Hc Hd Hr) as [Hfrom Hto]. exists to. split; [done|]. rewrite Hs in Hfrom. injection Hfrom as ->.
  by apply rtc_once.
Qed.
Lemma journal_more {A} p db event (f : string → store_m A) Q :
  ei_project_root event = p → (∀ id, triple p (journaled p db) (f id) Q) →
  triple p (λ db', same_events db db' ∨ journaled p db db') (insert_lifecycle_event event ≫= f) Q.
Proof. intros <- Hf. eapply triple_bind; [by apply triple_insert_event|exact Hf]. Qed.

Lemma restore_transactional now project_root tombstone_id :
  transactional rc_outcome (normalize_project_root project_root)
    (complete_workspace_plugin_restore now project_root tombstone_id).
Proof.
  unfold complete_workspace_plugin_restore. apply transactional_lift. intros p <-%project_root_of_Ok.
  apply transactional_lift. intros id _. apply transactional_body. intros db. tx.
  apply (triple_bind _ _ _ _ (λ _, same_events db)).
  - apply triple_update_tombstone; [by intros ? tombstones <-|done|].
    intros ? b <- Hb Hw. simplify_eq. intros stage Hstage. unfold stage_of in *. cbn.
    apply negb_true_iff, is_some_false in Hw. rewrite Hw in Hstage.
    repeat match goal with
    | Hd : is_some (wb_deleted_at _) = false |- _ => apply is_some_false in Hd; rewrite Hd in *
    | Hc : negb (str_eq _ "recoverable") = false |- _ => apply negb_false_iff in Hc; rewrite Hc in *
    end.
    injection Hstage as <-. exists Restored. split; [done|]. apply rtc_once, step_restore.
  - intros n. eapply update_plain_state; [|done|].
    + intros s. split_and!; [done..|by right].
    + intros n'. tx. eapply journal; [done|done|]. intros ?. by tx.
Qed.

Lemma expire_candidates_triple p now db candidates (P : Database → Prop) :
  (∀ db', P db' → same_events db db' ∨ journaled p db db') →
  triple p P (expire_candidates p now candidates)
    (λ expired db', if vec_is_empty expired then P db' else journaled p db db').
Proof.
  revert P. induction candidates as [|b candidates IH]; intros P HP; [by apply triple_ret|]. cbn [expire_candidates].
  apply (move_stage p (wb_tombstone_id b) "recoverable" _ Recoverable Expired db); [done|done| |apply step_expire|].
  - intros c Hc Hd Hr. unfold stage_of. cbn. by rewrite Hc, Hd, Hr.
  - intros n. tx. apply journal_more; [done|]. intros id. tx.
    eapply triple_bind; [apply IH; by right|]. intros expired. apply triple_ret. cbn. by destruct (vec_is_empty expired).
Qed.
Lemma expire_transactional now project_root cutoff limit :
  transactional rs_outcome (normalize_project_root project_root)
    (expire_workspace_plugin_tombstones now project_root cutoff limit).
Proof.
  unfold expire_workspace_plugin_tombstones. apply transactional_lift. intros p <-%project_root_of_Ok.
  apply transactional_found. intros time _. apply transactional_refuse, transactional_body. intros db. tx.
  eapply triple_bind; [apply (expire_candidates_triple p _ db); by intros ? <-; left|]. intros expired. cbn.
  destruct (vec_is_empty expired).
  - apply (triple_weaken _ _ (eq db)); [by tx|done].
  - apply (triple_weaken _ _ (journaled p db)); [by tx|done].
Qed.

Lemma request_purge_transactional now draft :
  transactional pu_outcome (normalize_project_root (pd_project_root draft)) (request_workspace_plugin_purge now draft).
Proof.
  unfold request_workspace_plugin_purge. apply transactional_lift. intros d <-%validate_purge_draft_Ok.
  apply transactional_body. intros db. tx.
  apply (move_stage _ _ "expired" _ Expired PurgePending db); [by intros ? <-; left|done| |apply step_purge|].
  - intros c Hc Hd Hr. unfold stage_of. cbn. by rewrite Hc, Hd, Hr.
  - intros n. tx. apply journal_more; [done|]. intros id. by tx.
Qed.
Lemma complete_purge_transactional now draft :
  transactional pu_outcome (normalize_project_root (pd_project_root draft)) (complete_workspace_plugin_purge now draft).
Proof.
  unfold complete_workspace_plugin_purge. apply transactional_lift. intros d <-%validate_purge_draft_Ok.
  apply transactional_body. intros db. tx.
  apply (move_stage _ _ "purge_pending" _ PurgePending Deleted db); [by intros ? <-; left|done| |apply step_delete|].
  - intros c Hc Hd Hr. unfold stage_of. cbn. by rewrite Hc, Hd, Hr.
  - intros n. tx. apply journal_more; [done|]. intros id. by tx.
Qed.

Lemma replacement_transactional now project_root transition_id host_session_id :
  transactional pc_outcome (normalize_project_root project_root)
    (complete_workspace_plugin_replacement now project_root transition_id host_session_id).
Proof.
  unfold complete_workspace_plugin_replacement. apply transactional_lift. intros p <-%project_root_of_Ok.
  apply transactional_lift. intros id _. apply transactional_lift. intros session _. apply transactional_body.
  intros db. tx. apply (triple_weaken _ _ (same_events db)); [|by intros ? <-].
  apply complete_transition with (phase := "pointer_swapped"); [|done..|].
  - by intros t [?%str_eq_true _]%andb_true_iff.
  - intros n. eapply update_plain_state; [|done|].
    + intros s. split_and!; [done..|by left].
    + intros n'. tx. eapply journal; [done|done|]. intros ?. by tx.
Qed.
Lemma recovery_transactional now project_root plugin_id transition_id reason_code :
  transactional id (normalize_project_root project_root)
    (record_workspace_plugin_recovery_required now project_root plugin_id transition_id reason_code).
Proof.
  unfold record_workspace_plugin_recovery_required. apply transactional_lift. intros p <-%project_root_of_Ok.
  do 3 (apply transactional_lift; intros ? _). apply transactional_body. intros db. tx.
  apply (triple_bind _ _ _ _ (λ _, eq db)).
  - unfold recovery_phase. case_match; [tx; by apply triple_lift|by apply triple_ret].
  - intros phase. eapply update_plain_state; [|by intros ? <-|].
    + intros s. split_and!; [done..|by left].
    + intros n'. tx. eapply journal; [done|done|]. intros ?. by tx.
Qed.
Lemma crash_transactional now project_root plugin_id package_digest host_session_id reason_code :
  transactional co_outcome (normalize_project_root project_root)
    (record_workspace_plugin_crash now project_root plugin_id package_digest host_session_id reason_code).
Proof.
  unfold record_workspace_plugin_crash. apply transactional_lift. intros p <-%project_root_of_Ok.
  do 4 (apply transactional_lift; intros ? _). apply transactional_body. intros db. tx.
  eapply update_plain_state; [|by intros ? <-|].
  - intros s. split_and!; [done..|by left].
  - intros n'. tx. eapply journal; [done|done|]. intros ?. by tx.
Qed.
End operations.
