(* ===== verification/StoreProps.v ===== *)
(** * What the store of plugin lifecycles guarantees

    Theorems about [StoreLifecycle] and [StoreService]: the tables keep their invariant
    and only move forward, whatever connections do to them in whatever interleaving and
    whichever statements fail; a call is atomic and in the journal; a replacement swaps
    the accepted package by compare-and-swap; files of the trash are purged only with a
    durable request. *)
From S2P Require Import Prelude Text External Stateful ProjectRoot LifecycleRecords LifecycleDatabase StoreLifecycle.
From S2P Require Import StoreInvariant StoreTriples StoreOperations StoreService.
#[local] Open Scope Z_scope.
Import PluginLifecycleMutationOutcome.

(** ** Calls *)

Inductive StoreCall :=
| CallUpsert (draft : WorkspacePluginDiscoveredDraft)
| CallRequest (draft : WorkspacePluginTransitionDraft)
| CallAdvance (draft : WorkspacePluginTransitionAdvance)
| CallAllocate (project_root plugin_id transition_id : string) (expected_last_generation : Z)
| CallUninstall (transition_id : string) (draft : WorkspacePluginTombstoneDraft)
| CallRestore (project_root tombstone_id : string)
| CallExpire (project_root cutoff : string) (limit : Z)
| CallRequestPurge (draft : WorkspacePluginPurgeDraft)
| CallCompletePurge (draft : WorkspacePluginPurgeDraft)
| CallReplacement (project_root transition_id host_session_id : string)
| CallRecovery (project_root plugin_id : string) (transition_id : option string) (reason_code : string)
| CallCrash (project_root plugin_id package_digest host_session_id reason_code : string).
Definition project_of (call : StoreCall) : string :=
  normalize_project_root
    match call with
    | CallUpsert draft => dd_project_root draft
    | CallRequest draft => td_project_root draft
    | CallAdvance draft => ta_project_root draft
    | CallUninstall _ draft => bd_project_root draft
    | CallRequestPurge draft | CallCompletePurge draft => pd_project_root draft
    | CallAllocate project_root _ _ _ | CallRestore project_root _ | CallExpire project_root _ _
    | CallReplacement project_root _ _ | CallRecovery project_root _ _ _ | CallCrash project_root _ _ _ _ => project_root
    end.

Section calls.
Context `{StoreLibraries, !SerdeFromU64, !Semver}.

Definition answer {A} (outcome_of : A → outcome) (m : store_m A) : store_m outcome := a ← m; mret (outcome_of a).
Definition run_call (now : Z) (call : StoreCall) : store_m outcome :=
  match call with
  | CallUpsert draft => answer fst (upsert_discovered_workspace_plugin now draft)
  | CallRequest draft => answer rq_outcome (request_workspace_plugin_transition now draft)
  | CallAdvance draft => advance_workspace_plugin_transition now draft
  | CallAllocate project_root plugin_id transition_id expected =>
      answer ga_outcome (allocate_workspace_plugin_generation now project_root plugin_id transition_id expected)
  | CallUninstall transition_id draft => answer uc_outcome (complete_workspace_plugin_uninstall now transition_id draft)
  | CallRestore project_root tombstone_id => answer rc_outcome (complete_workspace_plugin_restore now project_root tombstone_id)
  | CallExpire project_root cutoff limit =>
      answer rs_outcome (expire_workspace_plugin_tombstones now project_root cutoff limit)
  | CallRequestPurge draft => answer pu_outcome (request_workspace_plugin_purge now draft)
  | CallCompletePurge draft => answer pu_outcome (complete_workspace_plugin_purge now draft)
  | CallReplacement project_root transition_id host_session_id =>
      answer pc_outcome (complete_workspace_plugin_replacement now project_root transition_id host_session_id)
  | CallRecovery project_root plugin_id transition_id reason_code =>
      record_workspace_plugin_recovery_required now project_root plugin_id transition_id reason_code
  | CallCrash project_root plugin_id package_digest host_session_id reason_code =>
      answer co_outcome (record_workspace_plugin_crash now project_root plugin_id package_digest host_session_id reason_code)
  end.

(** A call on one connection: the time, the ids of its events, the statements that
    fail, and the calls other connections make before each of its transactions and
    statements outside one, which are interrupted by yet other connections. *)
Inductive Run := MkRun (now : Z) (call : StoreCall) (event_ids : list string) (faults : list bool) (others : list (list Run)).
Fixpoint run (r : Run) (db : Database) : Database :=
  match r with
  | MkRun now call event_ids faults others =>
      let acts := (fix acts (others : list (list Run)) : list (Database → Database) :=
        match others with
        | [] => []
        | runs :: others =>
            (λ db, (fix go (runs : list Run) (db : Database) : Database :=
                      match runs with [] => db | r :: runs => go runs (run r db) end) runs db) :: acts others
        end) others in
      cn_database (run_call now call (MkConnection db event_ids faults acts)).1
  end.
Fixpoint run_all (runs : list Run) (db : Database) : Database :=
  match runs with [] => db | r :: runs => run_all runs (run r db) end.
(** The tables after a history of runs. *)
Definition store_after (runs : list Run) : Database := run_all runs Database_new.

(** ** Calls among other connections *)

(** What other connections may do. *)
Definition fair (f : Database → Database) : Prop := ∀ db, db_ok db → db_ok (f db) ∧ evolves db (f db).
Definition forward {A} (m : store_m A) : Prop := ∀ c, db_ok (cn_database c) → Forall fair (cn_others c) →
  db_ok (cn_database (m c).1) ∧ evolves (cn_database c) (cn_database (m c).1).
(** The same for a call after which the connection is used further. *)
Definition passes {A} (m : store_m A) : Prop := ∀ c, db_ok (cn_database c) → Forall fair (cn_others c) →
  Forall fair (cn_others (m c).1) ∧ db_ok (cn_database (m c).1) ∧ evolves (cn_database c) (cn_database (m c).1).

Lemma found_fair c : db_ok (cn_database c) → Forall fair (cn_others c) →
  db_ok (found_database c) ∧ evolves (cn_database c) (found_database c).
Proof.
  intros Hok Hf. unfold found_database. destruct (cn_others c) as [|f l]; [by split|]. cbn.
  apply Forall_cons in Hf as [Hf _]. by apply Hf.
Qed.
Lemma forward_transactional {A} (o : A → outcome) p (m : store_m A) : transactional o p m → forward m.
Proof.
  intros Hm c Hok Hf. destruct (found_fair c Hok Hf) as [Hok' He]. specialize (Hm c Hok').
  unfold post in Hm. destruct (m c) as [c' [a|e]]; cbn.
  - destruct Hm as [Hstep _]. split; [apply Hstep|]. etransitivity; [exact He|apply Hstep].
  - by destruct Hm as [-> | ->].
Qed.
Lemma forward_then {A B} (m : store_m A) (f : A → store_m B) : passes m → (∀ a, forward (f a)) → forward (m ≫= f).
Proof.
  intros Hm Hk c Hok Hf. destruct (Hm c Hok Hf) as (Hf' & Hok' & He). unfold mbind, stateful_bind.
  destruct (m c) as [c' [a|e]]; cbn in *; [|done]. destruct (Hk a c' Hok' Hf') as [? He'].
  split; [done|]. by etransitivity.
Qed.
Lemma passes_bind {A B} (m : store_m A) (f : A → store_m B) : passes m → (∀ a, passes (f a)) → passes (m ≫= f).
Proof.
  intros Hm Hk c Hok Hf. destruct (Hm c Hok Hf) as (Hf' & Hok' & He). unfold mbind, stateful_bind.
  destruct (m c) as [c' [a|e]]; cbn in *; [|done]. destruct (Hk a c' Hok' Hf') as (? & ? & He').
  split_and!; [done..|]. by etransitivity.
Qed.
Lemma passes_forward {A} (m : store_m A) : passes m → forward m.
Proof. intros Hm c Hok Hf. apply (Hm c Hok Hf). Qed.
Lemma passes_lift {A} (r : checked A) : passes (lift r).
Proof. intros c Hok Hf. by split_and!. Qed.
Lemma passes_ret {A} (a : A) : passes (mret a : store_m A).
Proof. intros c Hok Hf. by split_and!. Qed.
Lemma passes_refuse (b : bool) message : passes (refuse_if b message).
Proof. destruct b; intros c Hok Hf; by split_and!. Qed.
Lemma passes_autocommit {A} p (run : Database → changed A) :
  (∀ db db' a, db_ok db → run db = Ok (db', a) → db_step p db db') → passes (autocommit (statement run)).
Proof.
  intros Hrun c Hok Hf. destruct (found_fair c Hok Hf) as [Hok' He]. unfold autocommit, mbind, stateful_bind. cbn.
  assert (Hf' : Forall fair (tail (cn_others c))) by (by destruct Hf; cbn).
  unfold statement. cbn. destruct (default false (head (cn_faults c))); [done|].
  fold (found_database c). destruct (run (found_database c)) as [[db' a]|f] eqn:Hr; cbn; [|done].
  destruct (Hrun _ _ _ Hok' Hr). split_and!; [done..|]. by etransitivity.
Qed.
Lemma passes_query {A} (f : Database → A) : passes (autocommit (query f)).
Proof. apply (passes_autocommit ""). intros db db' a Hok [= <- <-]. by apply db_step_refl. Qed.
Lemma passes_get_state p id : passes (get_workspace_plugin_state p id).
Proof. do 2 (apply passes_bind; [apply passes_lift|intros ?]). apply passes_query. Qed.
Lemma passes_get_transition p id : passes (get_workspace_plugin_transition p id).
Proof. do 2 (apply passes_bind; [apply passes_lift|intros ?]). apply passes_query. Qed.

Lemma forward_answer {A} (o : A → outcome) (m : store_m A) : forward m → forward (answer o m).
Proof.
  intros Hm c Hok Hf. specialize (Hm c Hok Hf). unfold answer, mbind, stateful_bind. by destruct (m c) as [c' [a|e]].
Qed.

(** The update of an allocation. *)
Lemma allocation_step p plugin_id transition_id expected now db db' n :
  db_ok db → 0 <= expected →
  update_state p plugin_id (may_allocate p plugin_id transition_id expected db) (set_generation (expected + 1) now) db
    = Ok (db', n) →
  db_step p db db' ∧
  ((n = 0 ∧ db' = db)
   ∨ n = 1 ∧ ∃ s, find_state p plugin_id db = Some s ∧ may_allocate p plugin_id transition_id expected db s = true
       ∧ db' = put_state (set_generation (expected + 1) now s) db).
Proof.
  intros Hok Hexp Hu. apply update_row_Ok in Hu as [[-> ->]|(s & Hs & Hw & Hc & -> & ->)].
  - split; [by apply db_step_refl|]. by left.
  - split; [|right; split; [done|]; by exists s]. destruct (state_rows _ Hok _ _ Hs) as [Hk _]. injection Hk as Hp Hid.
    pose proof Hw as [[_ Hg%Z.eqb_eq]%andb_true_iff _]%andb_true_iff. rewrite <-Hp at 1.
    apply (put_state_step db (set_generation _ _ s)); [done..| |]; unfold state_key; cbn; rewrite Hp, Hid.
    + intros s0 Hs0. unfold find_state in Hs. simplify_eq. lia.
    + intros tid. apply (transition_of_state _ Hok _ _ _ Hs).
Qed.
Lemma allocate_forward now p plugin_id transition_id expected :
  forward (allocate_workspace_plugin_generation now p plugin_id transition_id expected).
Proof.
  unfold allocate_workspace_plugin_generation. do 3 (apply forward_then; [apply passes_lift|intros ?]).
  intros c Hok Hf. destruct (_ || _) eqn:Hb; [done|]. revert c Hok Hf. apply orb_false_iff in Hb as [Hb%Z.ltb_ge _].
  change (forward (autocommit (statement (λ db, update_state a a0 (may_allocate a a0 a1 expected db)
            (set_generation (expected + 1) (to_rfc3339 now)) db)) ≫= λ changed,
          state ← get_workspace_plugin_state a a0;
          let generation := from_option ws_last_activation_generation expected state in
          if changed =? 1 then mret (MkAllocation Applied generation) else
          state ← get_workspace_plugin_state a a0;
          mret (MkAllocation (if is_some state then Stale else NotFound) generation))).
  apply forward_then.
  - apply (passes_autocommit a). intros db db' n Hok Hu. by eapply allocation_step.
  - intros n. apply forward_then; [apply passes_get_state|]. intros s. cbv zeta. apply passes_forward.
    destruct (n =? 1); [apply passes_ret|]. apply passes_bind; [apply passes_get_state|]. intros ?. apply passes_ret.
Qed.
(** The cases of an advance, once its transition is read. *)
Definition advance_from (now : Z) (draft : WorkspacePluginTransitionAdvance) (current : option WorkspacePluginTransition)
    : store_m outcome :=
  match current with
  | None => mret NotFound
  | Some current =>
      if str_eq (wt_phase current) (ta_next_phase draft) && str_eq (wt_status current) (ta_status draft)
      then mret Unchanged else
      if negb (str_eq (wt_phase current) (ta_expected_phase draft)) then mret Stale else
      next_rank ← lift (phase_rank (ta_next_phase draft));
      current_rank ← lift (phase_rank (wt_phase current));
      if (next_rank <=? current_rank) || is_terminal_transition_status (wt_status current) then mret Stale
      else advance_in_transaction now draft
  end.
Lemma advance_elim (Φ : store_m outcome → Prop) now draft d current :
  validate_transition_advance draft = Ok d →
  (∀ o, o ≠ Applied → Φ (mret o)) →
  (∀ A (r : checked A) f, (∀ a, r = Ok a → Φ (f a)) → Φ (lift r ≫= f)) →
  (transactional id (normalize_project_root (ta_project_root draft)) (advance_in_transaction now d) →
   Φ (advance_in_transaction now d)) →
  Φ (advance_from now d current).
Proof.
  intros (<- & Hnext & Hterm)%validate_transition_advance_Ok Hret Hlift Htx. unfold advance_from.
  destruct current as [t|]; [|by apply Hret]. destruct (_ && _); [by apply Hret|].
  destruct (str_eq (wt_phase t) _) eqn:Hp; [|by apply Hret]. apply str_eq_true in Hp. cbn [negb].
  apply Hlift. intros next Hn%phase_rank_Ok. apply Hlift. intros rank Hr%phase_rank_Ok.
  destruct (next <=? rank) eqn:Hle; [by apply Hret|]. apply Z.leb_gt in Hle. cbn [orb].
  destruct (is_terminal_transition_status (wt_status t)); [by apply Hret|]. apply Htx.
  apply advance_transactional; [done..|]. by rewrite <-Hp, Hr, Hn.
Qed.
Lemma advance_forward now draft : forward (advance_workspace_plugin_transition now draft).
Proof.
  intros c Hok Hf. unfold advance_workspace_plugin_transition. unfold mbind at 1, stateful_bind at 1.
  unfold lift at 1. destruct (validate_transition_advance draft) as [d|e] eqn:Hd; [|done]. revert c Hok Hf.
  apply (forward_then _ (advance_from now d)); [apply passes_get_transition|]. intros current.
  apply (advance_elim forward now draft); [done|intros o _; apply passes_forward, passes_ret| |].
  - intros A r f Hk. destruct r as [a|e]; [by apply Hk|intros c Hok Hf; by split].
  - apply forward_transactional.
Qed.

Lemma run_call_forward now call : forward (run_call now call).
Proof.
  destruct call; cbn [run_call]; first [apply advance_forward|apply forward_answer, allocate_forward|
    apply forward_answer; eapply forward_transactional|eapply forward_transactional].
  all: [> apply upsert_transactional | apply request_transactional | apply uninstall_transactional
        | apply restore_transactional | apply expire_transactional | apply request_purge_transactional
        | apply complete_purge_transactional | apply replacement_transactional | apply recovery_transactional
        | apply crash_transactional ].
Qed.

(** ** Histories *)

Fixpoint run_induction (P : Run → Prop)
    (Hrun : ∀ now call event_ids faults others, Forall (Forall P) others → P (MkRun now call event_ids faults others))
    (r : Run) : P r :=
  match r with
  | MkRun now call event_ids faults others =>
      Hrun now call event_ids faults others
        ((fix acts (others : list (list Run)) : Forall (Forall P) others :=
            match others with
            | [] => Forall_nil_2 _
            | runs :: others =>
                Forall_cons_2 _ _ _
                  ((fix go (runs : list Run) : Forall P runs :=
                      match runs with
                      | [] => Forall_nil_2 _
                      | r :: runs => Forall_cons_2 _ _ _ (run_induction P Hrun r) (go runs)
                      end) runs)
                  (acts others)
            end) others)
  end.
Lemma fair_compose (f g : Database → Database) : fair f → fair g → fair (λ db, g (f db)).
Proof. intros Hf Hg db Hok. destruct (Hf db Hok) as [Hok' ?]. destruct (Hg _ Hok') as [??]. split; [done|]. by etransitivity. Qed.
Lemma run_fair r : fair (run r).
Proof.
  induction r as [now call event_ids faults others IH] using run_induction. intros db Hok. cbn [run].
  apply (run_call_forward now call (MkConnection db event_ids faults _)); [done|]. cbn [cn_others].
  induction IH as [|runs others Hruns _ IH]; constructor; [|done].
  clear IH. induction Hruns as [|r runs Hr _ IH]; [by split|]. by apply (fair_compose (run r)).
Qed.
Lemma run_all_fair runs : fair (run_all runs).
Proof. induction runs as [|r runs IH]; [by split|]. apply (fair_compose (run r)); [apply run_fair|done]. Qed.
Lemma run_all_app runs more db : run_all (runs ++ more) db = run_all more (run_all runs db).
Proof. revert db. induction runs as [|r runs IH]; intros db; [done|]. apply IH. Qed.
Lemma new_tables_ok : db_ok Database_new.
Proof. split; unfold Database_new; cbn; intros *; rewrite ?lookup_empty; try done. Qed.
Lemma store_after_ok runs : db_ok (store_after runs).
Proof. apply run_all_fair, new_tables_ok. Qed.

(** C37: after every history of calls, of any number of connections in any interleaving,
    with any statements failing, the tables are well formed: rows are checked and refer
    to rows that exist, a plugin has one transition at most on its way, a transition has
    ended exactly in the last phase, a package in the trash is at one stage.  And
    whatever happens next, no row goes: generations do not fall, a transition goes on
    to later phases until it ends and keeps what was asked, a tombstone goes along
    recoverable, restored or expired, purge pending, deleted and keeps its evidence,
    and the journal only grows. *)
Theorem store_history (runs more : list Run) :
  db_ok (store_after runs) ∧ evolves (store_after runs) (store_after (runs ++ more)).
Proof.
  split; [apply store_after_ok|]. unfold store_after. rewrite run_all_app. apply run_all_fair, store_after_ok.
Qed.

(** ** A call alone *)

Definition alone {A} (outcome_of : A → outcome) (p : string) (m : store_m A) : Prop :=
  ∀ c, db_ok (cn_database c) → cn_others c = [] →
    post m c
      (λ a c', db_step p (cn_database c) (cn_database c')
               ∧ if decide (outcome_of a = Applied) then journaled p (cn_database c) (cn_database c')
                 else cn_database c' = cn_database c)
      (λ _ c', cn_database c' = cn_database c).
(** A call that only reads. *)
Definition quiet {A} (m : store_m A) : Prop := ∀ c, cn_others c = [] →
  cn_database (m c).1 = cn_database c ∧ cn_others (m c).1 = [].

Lemma alone_transactional {A} (o : A → outcome) p (m : store_m A) : transactional o p m → alone o p m.
Proof.
  intros Hm c Hok Hc. assert (Hfound : found_database c = cn_database c) by (unfold found_database; by rewrite Hc).
  rewrite <-Hfound in Hok. eapply post_mono; [by apply Hm|..]; cbn; rewrite Hfound; [done|naive_solver].
Qed.
Lemma alone_answer {A} (o : A → outcome) p (m : store_m A) : alone o p m → alone id p (answer o m).
Proof.
  intros Hm c Hok Hc. unfold answer. rewrite post_bind. eapply post_mono; [by apply Hm|done|done].
Qed.
Lemma alone_bind {A} p (m : store_m A) (f : A → store_m outcome) : quiet m → (∀ a, alone id p (f a)) → alone id p (m ≫= f).
Proof.
  intros Hm Hf c Hok Hc. destruct (Hm c Hc) as [Hdb Hothers]. rewrite post_bind. unfold post at 1.
  destruct (m c) as [c' [a|e]]; cbn in *; [|done]. rewrite <-Hdb in Hok |- *. by apply Hf.
Qed.
Lemma alone_ret p o : o ≠ Applied → alone id p (mret o).
Proof. intros Ho c Hok Hc. rewrite post_ret. split; [by apply db_step_refl|]. by rewrite decide_False. Qed.
Lemma quiet_then {A B} (m : store_m A) (f : A → store_m B) : quiet m → (∀ a, quiet (f a)) → quiet (m ≫= f).
Proof.
  intros Hm Hf c Hc. destruct (Hm c Hc) as [Hdb Hothers]. unfold mbind, stateful_bind.
  destruct (m c) as [c' [a|e]]; cbn in *; [|done]. destruct (Hf a c' Hothers) as [Hdb' ?]. by rewrite Hdb', Hdb.
Qed.
Lemma quiet_lift {A} (r : checked A) : quiet (lift r).
Proof. by intros c Hc. Qed.
Lemma quiet_query {A} (f : Database → A) : quiet (autocommit (query f)).
Proof.
  intros c Hc. unfold autocommit, mbind, stateful_bind. cbn. unfold query, statement. cbn. rewrite Hc.
  by destruct (default false (head (cn_faults c))).
Qed.
Lemma quiet_get_state p id : quiet (get_workspace_plugin_state p id).
Proof. do 2 (apply quiet_then; [apply quiet_lift|intros ?]). apply quiet_query. Qed.
Lemma quiet_get_transition p id : quiet (get_workspace_plugin_transition p id).
Proof. do 2 (apply quiet_then; [apply quiet_lift|intros ?]). apply quiet_query. Qed.

Lemma advance_alone now draft :
  alone id (normalize_project_root (ta_project_root draft)) (advance_workspace_plugin_transition now draft).
Proof.
  intros c Hok Hc. unfold advance_workspace_plugin_transition. rewrite post_bind, post_lift.
  destruct (validate_transition_advance draft) as [d|e] eqn:Hd; [|done]. revert c Hok Hc.
  apply (alone_bind _ _ (advance_from now d)); [apply quiet_get_transition|]. intros current.
  eapply (advance_elim (alone id _) now draft); [done|apply alone_ret| |].
  - intros A r f Hk c Hok Hc. rewrite post_bind, post_lift. destruct r as [a|e]; [by apply Hk|done].
  - apply alone_transactional.
Qed.

(** An allocation counts the generation of a plugin up, for the transition on its way
    that the plugin is in, if the generation is the expected one.  It is one statement,
    and the answer is read after it. *)
Definition allocated (p plugin_id transition_id : string) (expected : Z) (db db' : Database) : Prop :=
  ∃ s t now, find_state p plugin_id db = Some s ∧ ws_transition_id s = Some transition_id
    ∧ ws_last_activation_generation s = expected ∧ find_transition p transition_id db = Some t
    ∧ wt_plugin_id t = plugin_id ∧ is_active t = true
    ∧ db' = put_state (set_generation (expected + 1) now s) db.
Definition allocation_effect (p plugin_id transition_id : string) (expected : Z) (db : Database)
    (r : result StoreError outcome) (db' : Database) : Prop :=
  let plugin_id := str_trim plugin_id in let transition_id := str_trim transition_id in
  db_step p db db' ∧
  match r with
  | Ok o => if decide (o = Applied) then allocated p plugin_id transition_id expected db db' else db' = db
  | Err _ => db' = db ∨ allocated p plugin_id transition_id expected db db'
  end.
Lemma validated_identifier value label v : validate_identifier value label = Ok v → v = str_trim value.
Proof. unfold validate_identifier. by destruct (_ || _); [|intros [= <-]]. Qed.
Lemma may_allocate_true p plugin_id transition_id expected db s now :
  find_state p plugin_id db = Some s → may_allocate p plugin_id transition_id expected db s = true →
  allocated p plugin_id transition_id expected db (put_state (set_generation (expected + 1) now s) db).
Proof.
  intros Hs [[Hid%bool_decide_eq_true Hg%Z.eqb_eq]%andb_true_iff Ht]%andb_true_iff.
  destruct (db_transitions db !! transition_id) as [t|] eqn:Ht'; [|done]. cbn in Ht.
  apply andb_true_iff in Ht as [Hp%bool_decide_eq_true Ha]. injection Hp as Hp Hpl.
  exists s, t, now. split_and!; try done. by apply find_transition_Some.
Qed.
(** What an allocation does after its update. *)
Definition allocation_answer (p plugin_id : string) (expected changed : Z) : store_m WorkspacePluginGenerationAllocation :=
  state ← get_workspace_plugin_state p plugin_id;
  let generation := from_option ws_last_activation_generation expected state in
  if changed =? 1 then mret (MkAllocation Applied generation) else
  state ← get_workspace_plugin_state p plugin_id;
  mret (MkAllocation (if is_some state then Stale else NotFound) generation).
Lemma allocation_answered p plugin_id expected changed c : cn_others c = [] →
  post (allocation_answer p plugin_id expected changed) c
    (λ a c', cn_database c' = cn_database c ∧ (ga_outcome a = Applied ↔ changed = 1))
    (λ _ c', cn_database c' = cn_database c).
Proof.
  intros Hc. unfold allocation_answer. rewrite post_bind.
  destruct (quiet_get_state p plugin_id c Hc) as [Hdb Hc']. unfold post at 1.
  destruct (get_workspace_plugin_state p plugin_id c) as [c1 [s|e]]; cbn in *; [|done].
  destruct (changed =? 1) eqn:Hn; [apply Z.eqb_eq in Hn; by rewrite post_ret|]. apply Z.eqb_neq in Hn.
  rewrite post_bind. destruct (quiet_get_state p plugin_id c1 Hc') as [Hdb1 _]. unfold post at 1.
  destruct (get_workspace_plugin_state p plugin_id c1) as [c2 [s'|e]]; cbn in Hdb1; [|congruence].
  rewrite post_ret. split; [congruence|]. by destruct s'.
Qed.
Lemma allocate_alone now root plugin_id transition_id expected c :
  db_ok (cn_database c) → cn_others c = [] →
  let '(c', r) := answer ga_outcome (allocate_workspace_plugin_generation now root plugin_id transition_id expected) c in
  allocation_effect (normalize_project_root root) plugin_id transition_id expected (cn_database c) r (cn_database c').
Proof.
  intros Hok Hc. set (effect := allocation_effect _ _ _ _ (cn_database c)).
  assert (Hrefl : ∀ e, effect (Err e) (cn_database c)) by (split; [by apply db_step_refl|by left]).
  cut (post (answer ga_outcome (allocate_workspace_plugin_generation now root plugin_id transition_id expected)) c
         (λ o c', effect (Ok o) (cn_database c')) (λ e c', effect (Err e) (cn_database c'))).
  { unfold post. by destruct (answer _ _ c) as [c' [o|e]]. }
  unfold answer, allocate_workspace_plugin_generation. rewrite !post_bind, post_lift.
  destruct (project_root_of root) as [p|e] eqn:Hp; [|apply Hrefl]. apply project_root_of_Ok in Hp as ->.
  rewrite post_bind, post_lift. destruct (validate_identifier plugin_id _) as [i|e] eqn:Hi; [|apply Hrefl].
  rewrite post_bind, post_lift. destruct (validate_identifier transition_id _) as [j|e] eqn:Hj; [|apply Hrefl].
  apply validated_identifier in Hi as ->, Hj as ->. unfold refuse_if. rewrite post_bind, post_throw_if.
  destruct (_ || _) eqn:Hb; [apply Hrefl|]. apply orb_false_iff in Hb as [Hb%Z.ltb_ge _].
  rewrite post_bind. unfold autocommit. rewrite post_bind. unfold meanwhile. rewrite post_modify, Hc. cbn [head default tail].
  unfold post at 1, statement. cbn. destruct (default false (head (cn_faults c))); [apply Hrefl|].
  destruct (update_state _ _ _ _ _) as [[db' n]|f] eqn:Hu; [|apply Hrefl]. cbn.
  destruct (allocation_step _ _ _ _ _ _ _ _ Hok Hb Hu) as [Hstep Heffect].
  eapply post_mono; [by apply (allocation_answered _ _ expected n)|..]; cbn.
  - intros a c' [-> Ha]. split; [done|]. destruct Heffect as [[-> ->]|[-> (s & Hs & Hm & ->)]].
    + rewrite decide_False by (rewrite Ha; lia). done.
    + rewrite decide_True by (by apply Ha). by apply may_allocate_true.
  - intros e c' ->. split; [done|]. destruct Heffect as [[-> ->]|[-> (s & Hs & Hm & ->)]]; [by left|right].
    by apply may_allocate_true.
Qed.

Definition call_effect (call : StoreCall) (db : Database) (r : result StoreError outcome) (db' : Database) : Prop :=
  match call with
  | CallAllocate root plugin_id transition_id expected =>
      allocation_effect (project_of call) plugin_id transition_id expected db r db'
  | _ =>
      match r with
      | Ok Applied => db_step (project_of call) db db' ∧ journaled (project_of call) db db'
      | _ => db' = db
      end
  end.
Lemma alone_effect p now call c : alone id p (run_call now call) → db_ok (cn_database c) → cn_others c = [] →
  match (run_call now call c).2 with
  | Ok Applied => db_step p (cn_database c) (cn_database (run_call now call c).1)
                  ∧ journaled p (cn_database c) (cn_database (run_call now call c).1)
  | _ => cn_database (run_call now call c).1 = cn_database c
  end.
Proof.
  intros Ha Hok Hc. specialize (Ha c Hok Hc). unfold post in Ha.
  destruct (run_call now call c) as [c' [[]|e]]; cbn in *; try done; tauto.
Qed.

Definition allocates (call : StoreCall) : bool := match call with CallAllocate _ _ _ _ => true | _ => false end.
Lemma run_call_alone now call : allocates call = false → alone id (project_of call) (run_call now call).
Proof.
  destruct call; intros Hcall; cbn [run_call]; try discriminate Hcall;
    first [apply advance_alone|apply alone_answer, alone_transactional|apply alone_transactional].
  all: [> apply upsert_transactional | apply request_transactional | apply uninstall_transactional
        | apply restore_transactional | apply expire_transactional | apply request_purge_transactional
        | apply complete_purge_transactional | apply replacement_transactional | apply recovery_transactional
        | apply crash_transactional ].
Qed.

End calls.
