(* ===== verification/StoreServiceProps.v ===== *)
(** * Purges of the trash and replacements

    Theorems about [StoreService] and the replacement of [StoreLifecycle]: what the
    purge of a package's files rests on, and what a replacement answers, exactly. *)
From S2P Require Import Prelude Text External Stateful ProjectRoot LifecycleRecords LifecycleDatabase StoreLifecycle.
From S2P Require Import StoreInvariant StoreTriples StoreOperations StoreService StoreProps.
#[local] Open Scope Z_scope.
Import PluginLifecycleMutationOutcome.

(** ** Purges *)

(** The tables hold the tombstone of a purge, at one of the stages. *)
Definition tombstone_at (stages : list trash_stage) (d : WorkspacePluginPurgeDraft) (db : Database) : Prop :=
  ∃ b stage, find_tombstone (pd_project_root d) (pd_tombstone_id d) db = Some b ∧ draft_of_tombstone b = d
    ∧ stage_of b = Some stage ∧ stage ∈ stages.

Section purges.
Context `{StoreLibraries, !SerdeFromU64, !Semver}.

(** A committed answer that the purge goes on with. *)
Definition purge_ending (stages : list trash_stage) (d : WorkspacePluginPurgeDraft) (e : ending WorkspacePluginPurgeResult)
    (db : Database) : Prop :=
  match e with
  | Committed a => applied_or_unchanged (pu_outcome a) = true → tombstone_at stages d db
  | _ => False
  end.

Lemma triple_ok {A} p db (m : store_m A) Q : (db_ok db → triple p (eq db) m Q) → triple p (eq db) m Q.
Proof. intros Hm c Hok Hc. rewrite <-Hc in Hok. by apply Hm; subst. Qed.
Lemma identified db p id b d :
  db_ok db → find_tombstone p id db = Some b → pd_project_root d = p → pd_tombstone_id d = id →
  ensure_purge_identity b d = Ok () → draft_of_tombstone b = d ∧ is_Some (stage_of b).
Proof.
  intros Hok [Hb Hp]%find_tombstone_Some Hdp Hdi Hi. destruct (tombstone_rows _ Hok _ _ Hb) as (Hid & _ & Hstage & _).
  split; [|done]. unfold ensure_purge_identity, require in Hi. apply fail_if_Ok, negb_false_iff in Hi.
  apply andb_true_iff in Hi as [[[?%str_eq_true ?%str_eq_true]%andb_true_iff ?%str_eq_true]%andb_true_iff ?%str_eq_true].
  destruct d, b; unfold draft_of_tombstone; cbn in *. congruence.
Qed.
Lemma deleted_stage b : is_Some (stage_of b) → is_some (wb_deleted_at b) = true → str_eq (wb_retention_class b) "expired" = true →
  stage_of b = Some Deleted.
Proof. unfold stage_of. intros [stage Hs] Hd ->. by destruct (wb_deleted_at b), (wb_restored_at b). Qed.

Lemma tombstone_at_mono stages stages' d db : tombstone_at stages d db → stages ⊆ stages' → tombstone_at stages' d db.
Proof. intros (b & stage & ? & ? & ? & ?) Hs. exists b, stage. split_and!; try done. by apply Hs. Qed.

(** The move of a tombstone that the purge is about, and the journal entry after it. *)
Lemma purge_move db d b class set from to (event : LifecycleEventInsert) message k Q :
  db_ok db → find_tombstone (pd_project_root d) (pd_tombstone_id d) db = Some b → draft_of_tombstone b = d →
  (∀ b, evidence_of (set b) = evidence_of b) → ei_project_root event = pd_project_root d →
  (∀ b, wb_retention_class b = class → wb_deleted_at b = None → wb_restored_at b = None →
     stage_of b = Some from ∧ stage_of (set b) = Some to) →
  stage_step from to →
  (∀ id, triple (pd_project_root d) (tombstone_at [to] d) (k id) Q) →
  triple (pd_project_root d) (eq db)
    (changed ← statement (update_tombstone (pd_project_root d) (pd_tombstone_id d) (open_tombstone class) set);
     _ ← refuse_if (negb (changed =? 1)) message;
     id ← insert_lifecycle_event event; (k id : store_m (ending WorkspacePluginPurgeResult))) Q.
Proof.
  intros Hok Hb Hd Hev He Hset Hstep Hk.
  apply (triple_bind _ _ _ _ (λ n db', n = 1 → tombstone_at [to] d db')).
  - apply triple_update_tombstone_row; [done| |done|].
    + intros ? b' <- Hb' Hw _. simplify_eq. pose proof Hb as [Hin Hp]%find_tombstone_Some.
      destruct (tombstone_rows _ Hok _ _ Hin) as (Hid & _ & [stage Hstage] & _).
      destruct (open_stage _ _ _ Hw Hstage) as (Hc & Hdel & Hr). pose proof (Hev b) as Hevb. injection Hevb as Hi' Hpr ??????.
      exists (set b), to. destruct (Hset b Hc Hdel Hr) as [_ Hto]. split_and!; [| |done|by left].
      * apply find_tombstone_Some. cbn. rewrite Hi', Hid, lookup_insert_eq. split; [done|]. congruence.
      * unfold draft_of_tombstone. congruence.
    + intros ? b' <- Hb' Hw stage Hs. destruct (open_stage _ _ _ Hw Hs) as (Hc & Hdel & Hr).
      destruct (Hset b' Hc Hdel Hr) as [Hfrom Hto]. rewrite Hs in Hfrom. injection Hfrom as ->. exists to.
      split; [done|]. by apply rtc_once.
  - intros n. tx. match goal with Hn : negb (n =? 1) = false |- _ => apply negb_false_iff, Z.eqb_eq in Hn as -> end.
    apply (triple_weaken _ _ (tombstone_at [to] d)); [|auto].
    apply (triple_bind _ _ _ _ (λ _, tombstone_at [to] d)); [|exact Hk]. rewrite <-He.
    apply triple_insert_event_row. by intros db' e Hat _ _.
Qed.

Lemma post_committed {A} p (body : store_m (ending A)) (Q : ending A → Database → Prop) c :
  (∀ db, triple p (eq db) body Q) → (∀ a db, ¬ Q (RolledBack a) db ∧ ¬ Q (Dropped a) db) → db_ok (found_database c) →
  post (in_transaction body) c (λ a c', Q (Committed a) (cn_database c')) (λ _ _, True).
Proof.
  intros Hbody Hno Hok. unfold in_transaction. rewrite !post_bind. unfold meanwhile. rewrite post_modify.
  fold (found_database c). rewrite post_bind. unfold post at 1, statement. cbn.
  destruct (default false (head (cn_faults c))); [done|]. cbn. unfold post, run_body. cbn.
  set (c1 := set_database _ _). pose proof (Hbody (found_database c) c1 Hok eq_refl) as Hb. unfold post in Hb.
  destruct (body c1) as [c2 [[a|a|a]|e]]; cbn in *; naive_solver.
Qed.
Lemma commit_at p stages d b db o :
  find_tombstone (pd_project_root d) (pd_tombstone_id d) db = Some b → draft_of_tombstone b = d →
  (applied_or_unchanged o = true → ∃ stage, stage_of b = Some stage ∧ stage ∈ stages) →
  triple p (eq db) (commit (MkPurgeResult o b)) (purge_ending stages d).
Proof.
  intros Hb Hd Ho. apply triple_commit. intros ? <- Ha. destruct (Ho Ha) as (stage & ? & ?). by exists b, stage.
Qed.
Lemma commit_moved p stages to d b :
  to ∈ stages → triple p (tombstone_at [to] d) (commit (MkPurgeResult Applied b)) (purge_ending stages d).
Proof.
  intros Hto. apply triple_commit. intros db Hat _. eapply tombstone_at_mono; [done|].
  by intros stage ->%list_elem_of_singleton.
Qed.
Lemma purge_pending_stage b : is_some (wb_deleted_at b) || is_some (wb_restored_at b) = false →
  str_eq (wb_retention_class b) "purge_pending" = true → stage_of b = Some PurgePending.
Proof.
  intros [Hd%is_some_false Hr%is_some_false]%orb_false_iff Hc%str_eq_true. unfold stage_of. by rewrite Hd, Hr, Hc.
Qed.
Lemma request_purge_ending now draft d c :
  validate_purge_draft draft = Ok d → db_ok (found_database c) →
  post (request_workspace_plugin_purge now draft) c
    (λ a c', applied_or_unchanged (pu_outcome a) = true → tombstone_at [PurgePending; Deleted] d (cn_database c'))
    (λ _ _, True).
Proof.
  intros Hd Hok. unfold request_workspace_plugin_purge. rewrite post_bind, post_lift, Hd.
  apply (post_committed (pd_project_root d) _ (purge_ending [PurgePending; Deleted] d)); [|by split; intros []|done].
  clear Hok. intros db. apply triple_ok. intros Hok. unfold get_tombstone_on. do 3 tx_step.
  destruct a0. edestruct identified as [Hdraft Hstage]; [done..|]. tx.
  - apply commit_at; [done..|]. intros _. exists Deleted. split; [|by right; left].
    apply andb_true_iff in Heqb as [??]. by apply deleted_stage.
  - by apply commit_at.
  - apply commit_at; [done..|]. intros _. exists PurgePending. split; [|by left]. by apply purge_pending_stage.
  - by apply commit_at.
  - eapply purge_move; [done..| |apply step_purge|].
    + intros c' Hc Hdel Hr. unfold stage_of. cbn. by rewrite Hc, Hdel, Hr.
    + intros id. tx. apply commit_moved. by left.
Qed.
Lemma complete_purge_ending now draft d c :
  validate_purge_draft draft = Ok d → db_ok (found_database c) →
  post (complete_workspace_plugin_purge now draft) c
    (λ a c', applied_or_unchanged (pu_outcome a) = true → tombstone_at [Deleted] d (cn_database c'))
    (λ _ _, True).
Proof.
  intros Hd Hok. unfold complete_workspace_plugin_purge. rewrite post_bind, post_lift, Hd.
  apply (post_committed (pd_project_root d) _ (purge_ending [Deleted] d)); [|by split; intros []|done].
  clear Hok. intros db. apply triple_ok. intros Hok. unfold get_tombstone_on. do 3 tx_step.
  destruct a0. edestruct identified as [Hdraft Hstage]; [done..|]. tx.
  - apply commit_at; [done..|]. intros _. exists Deleted. split; [|by left].
    apply andb_true_iff in Heqb as [??]. by apply deleted_stage.
  - by apply commit_at.
  - eapply purge_move; [done..| |apply step_delete|].
    + intros c' Hc Hdel Hr. unfold stage_of. cbn. by rewrite Hc, Hdel, Hr.
    + intros id. tx. apply commit_moved. by left.
Qed.

(** ** The connection after a transaction *)

Definition keeps_others {A} (m : store_m A) : Prop := ∀ c, cn_others (m c).1 = cn_others c.
Lemma keeps_bind {A B} (m : store_m A) (f : A → store_m B) :
  keeps_others m → (∀ a, keeps_others (f a)) → keeps_others (m ≫= f).
Proof.
  intros Hm Hf c. unfold mbind, stateful_bind. rewrite <-(Hm c). destruct (m c) as [c' [a|e]]; [apply Hf|done].
Qed.
Lemma keeps_statement {A} (run : Database → changed A) : keeps_others (statement run).
Proof. intros c. unfold statement. destruct (default _ _); [done|]. by destruct (run _) as [[??]|]. Qed.
Lemma keeps_lift {A} (r : checked A) : keeps_others (lift r).
Proof. done. Qed.
Lemma keeps_refuse (b : bool) message : keeps_others (refuse_if b message).
Proof. by destruct b. Qed.
Lemma keeps_commit {A} (a : A) : keeps_others (commit a).
Proof. apply keeps_bind; [apply keeps_statement|done]. Qed.
Lemma keeps_event event : keeps_others (insert_lifecycle_event event).
Proof.
  unfold insert_lifecycle_event. do 4 (apply keeps_bind; [apply keeps_lift|intros ?]).
  apply keeps_bind; [done|intros ?]. apply keeps_bind; [apply keeps_statement|done].
Qed.
Lemma others_in_transaction {A} (body : store_m (ending A)) c :
  keeps_others body → cn_others (in_transaction body c).1 = tail (cn_others c).
Proof.
  intros Hbody. unfold in_transaction, mbind, stateful_bind, meanwhile, modify. cbn. unfold statement. cbn.
  destruct (default false (head (cn_faults c))); [done|]. cbn. unfold run_body.
  match goal with |- context [body ?c1] => pose proof (Hbody c1) as Hb; destruct (body c1) as [c2 [[a|a|a]|e]] end; done.
Qed.
Lemma request_purge_passes now draft : passes (request_workspace_plugin_purge now draft).
Proof.
  intros c Hok Hf. split; [|eapply forward_transactional; [apply request_purge_transactional|done..]].
  unfold request_workspace_plugin_purge, mbind at 1, stateful_bind at 1, lift at 1.
  destruct (validate_purge_draft draft) as [d|e]; [|done]. rewrite others_in_transaction; [by destruct Hf; cbn|].
  repeat (apply keeps_bind; [first [apply keeps_statement|apply keeps_lift]|intros ?]).
  repeat match goal with |- keeps_others (if ?b then _ else _) => destruct b; [apply keeps_commit|] end.
  repeat (apply keeps_bind; [first [apply keeps_statement|apply keeps_lift|apply keeps_refuse|apply keeps_event]|intros ?]).
  done.
Qed.

(** ** The retention service *)

Lemma tombstone_at_evolves d db db' :
  db_ok db' → evolves db db' → tombstone_at [PurgePending; Deleted] d db → tombstone_at [PurgePending; Deleted] d db'.
Proof.
  intros Hok He (b & stage & [Hb Hp]%find_tombstone_Some & Hd & Hs & Hin).
  destruct (tombstones_proceed _ _ He _ _ Hb) as (b' & Hb' & Hev & Hstage). destruct (Hstage _ Hs) as (stage' & Hs' & Hrtc).
  unfold evidence_of in Hev. exists b', stage'. split_and!; [|by unfold draft_of_tombstone in *; congruence|done|].
  - apply find_tombstone_Some. split; [done|]. congruence.
  - clear -Hrtc Hin. induction Hrtc as [|s s1 s2 Hstep _ IH]; [done|]. apply IH.
    inversion Hstep; set_solver.
Qed.

Lemma post_on_store {A} (m : store_m A) r Q R :
  post (on_store m) r Q R ↔
  post m (rt_connection r) (λ a c, Q a (MkRetention c (rt_purged r))) (λ e c, R (Store e) (MkRetention c (rt_purged r))).
Proof. unfold post, on_store. by destruct (m (rt_connection r)) as [c [a|e]]. Qed.

(** A connection in use among others. *)
Definition good (c : Connection) : Prop := db_ok (cn_database c) ∧ Forall fair (cn_others c).
Lemma post_passes {A} (m : store_m A) c : passes m → good c → post m c (λ _ c', good c') (λ _ c', good c').
Proof. intros Hm [Hok Hf]. destruct (Hm c Hok Hf) as (? & ? & _). unfold post, good. by destruct (m c) as [c' [a|e]]. Qed.
Lemma post_forward {A} (m : store_m A) c : forward m → good c →
  post m c (λ _ c', db_ok (cn_database c') ∧ evolves (cn_database c) (cn_database c'))
    (λ _ c', db_ok (cn_database c') ∧ evolves (cn_database c) (cn_database c')).
Proof. intros Hm [Hok Hf]. destruct (Hm c Hok Hf). unfold post. by destruct (m c) as [c' [a|e]]. Qed.
Lemma passes_same_project root draft_root message : passes (same_project root draft_root message).
Proof.
  do 2 (apply passes_bind; [apply passes_lift|intros ?]). apply passes_bind; [apply passes_refuse|intros ?]. apply passes_ret.
Qed.
Lemma passes_get_tombstone root id : passes (get_tombstone root id).
Proof. do 3 (apply passes_bind; [apply passes_lift|intros ?]). apply passes_query. Qed.
(** What the service passes on is of its project. *)
Lemma same_project_post {A} root draft_root message (f : string → store_m A) c Q R :
  post (f (normalize_project_root root)) c Q R → (∀ e, R e c) →
  post (same_project root draft_root message ≫= f) c Q R.
Proof.
  intros Hf HR. rewrite post_bind. unfold same_project. rewrite post_bind, post_lift.
  destruct (project_root_of root) as [p|e] eqn:Hp; [|apply HR]. apply project_root_of_Ok in Hp as ->.
  rewrite post_bind, post_lift. destruct (project_root_of draft_root); [|apply HR].
  rewrite post_bind. unfold refuse_if. rewrite post_throw_if. destruct (negb _); [apply HR|]. by rewrite post_ret.
Qed.
(** The tombstone a purge of a draft is about, at one of the stages. *)
Definition purge_at (stages : list trash_stage) (root : string) (draft : WorkspacePluginPurgeDraft) (db : Database) : Prop :=
  ∃ d, validate_purge_draft (purge_draft_of (normalize_project_root root) draft) = Ok d ∧ tombstone_at stages d db.
Lemma request_purge_post now root draft c : good c →
  post (request_purge now root draft) c
    (λ a c', good c' ∧ (applied_or_unchanged (pu_outcome a) = true → purge_at [PurgePending; Deleted] root draft (cn_database c')))
    (λ _ c', good c').
Proof.
  intros Hgood. apply same_project_post; [|done]. set (sent := purge_draft_of _ draft).
  destruct (validate_purge_draft sent) as [d|e] eqn:Hd.
  - destruct Hgood as [Hok Hf]. eapply post_mono;
      [eapply post_and; [apply (post_passes _ c (request_purge_passes now sent)); by split|
                         by apply (request_purge_ending now sent d c Hd), found_fair]|..]; cbn.
    + intros a c' [Hg Ha]. split; [done|]. intros Happ. exists d. auto.
    + tauto.
  - unfold request_workspace_plugin_purge. by rewrite post_bind, post_lift, Hd.
Qed.
Lemma complete_purge_post now root draft c : good c →
  post (complete_purge now root draft) c
    (λ a c', (db_ok (cn_database c') ∧ evolves (cn_database c) (cn_database c'))
             ∧ (applied_or_unchanged (pu_outcome a) = true → purge_at [Deleted] root draft (cn_database c')))
    (λ _ c', db_ok (cn_database c') ∧ evolves (cn_database c) (cn_database c')).
Proof.
  intros Hgood. pose proof Hgood as [Hok Hf]. apply same_project_post; [|done]. set (sent := purge_draft_of _ draft).
  destruct (validate_purge_draft sent) as [d|e] eqn:Hd.
  - eapply post_mono;
      [eapply post_and; [apply (post_forward (complete_workspace_plugin_purge now sent) c); [|done]|
                         by apply (complete_purge_ending now sent d c Hd), found_fair]|..]; cbn.
    + eapply forward_transactional, complete_purge_transactional.
    + intros a c' [Hg Ha]. split; [done|]. intros Happ. exists d. auto.
    + tauto.
  - unfold complete_workspace_plugin_purge. by rewrite post_bind, post_lift, Hd.
Qed.
Lemma purge_at_evolves root draft db db' :
  db_ok db' → evolves db db' → purge_at [PurgePending; Deleted] root draft db → purge_at [PurgePending; Deleted] root draft db'.
Proof. intros Hok He (d & ? & ?). exists d. split; [done|]. by eapply tombstone_at_evolves. Qed.

(** What a purge leaves: no files purged and no report, or the files of one draft. *)
Definition purge_outcome (root : string) (trash : result string PluginPackageOwnershipOutcome.t) (r : Retention)
    (report : result PluginRetentionError PluginRetentionPurgeReport) : Prop :=
  let tables := cn_database (rt_connection r) in
  match rt_purged r with
  | [] => is_ok report = false
  | [(db, draft)] =>
      purge_at [PurgePending; Deleted] root draft db ∧ purge_at [PurgePending; Deleted] root draft tables
      ∧ ∀ p, report = Ok p → trash = Ok (pr_file_outcome p) ∧ files_gone (pr_file_outcome p) = true
          ∧ purge_at [Deleted] root draft tables
  | _ => False
  end.

(** C40: the files of a package are purged only when the tables hold its tombstone,
    awaiting the purge or purged, as they stand at that moment; and it stays so,
    whatever other connections do meanwhile and whatever fails afterwards, so that a
    purge that was cut short can be taken up.  A report means that the files are gone
    and the tombstone is deleted. *)
Theorem purge_durable (runs : list Run) (others : list (list Run)) requested_at completed_at trash root tombstone_id ids faults :
  let c := MkConnection (store_after runs) ids faults (run_all <$> others) in
  let '(r, report) := purge_exact_tombstone requested_at completed_at trash root tombstone_id (MkRetention c []) in
  purge_outcome root trash r report.
Proof.
  intros c. assert (Hgood : good c).
  { split; [apply store_after_ok|]. unfold c. cbn. apply Forall_fmap, Forall_true. intros l. apply run_all_fair. }
  cut (post (purge_exact_tombstone requested_at completed_at trash root tombstone_id) (MkRetention c [])
         (λ a r, purge_outcome root trash r (Ok a)) (λ e r, purge_outcome root trash r (Err e))).
  { unfold post. by destruct (purge_exact_tombstone _ _ _ _ _ _) as [r [a|e]]. }
  clearbody c. unfold purge_exact_tombstone. rewrite post_bind, post_on_store.
  eapply post_mono; [by apply (post_passes _ _ (passes_get_tombstone root tombstone_id))|..]; cbn [rt_connection rt_purged]; [|done].
  clear c Hgood. intros o c Hgood. rewrite post_bind, post_lift. destruct o as [b|]; [|done]. cbn [ok_or].
  set (draft := draft_of_tombstone b). rewrite post_bind, post_on_store.
  eapply post_mono; [by apply (request_purge_post requested_at root draft)|..]; cbn [rt_connection rt_purged]; [|done].
  clear c Hgood. intros a c [Hgood Hat]. rewrite post_bind, post_throw_if.
  destruct (applied_or_unchanged (pu_outcome a)); [|done]. cbn [negb]. specialize (Hat eq_refl).
  rewrite post_bind. unfold purge_files. rewrite post_bind, post_modify, post_lift. cbn [rt_connection rt_purged].
  destruct trash as [file|message]; cbn [map_err]; [|by split_and!]. rewrite post_bind, post_throw_if.
  destruct (files_gone file) eqn:Hgone; cbn [negb]; [|by split_and!]. rewrite post_bind, post_on_store.
  eapply post_mono; [by apply (complete_purge_post completed_at root draft)|..]; cbn [rt_connection rt_purged].
  - intros a' c' [[Hok He] Hat']. rewrite post_bind, post_throw_if.
    pose proof (purge_at_evolves root draft _ _ Hok He Hat) as Hlater.
    destruct (applied_or_unchanged (pu_outcome a')); cbn [negb]; [|by split_and!]. rewrite post_ret.
    split_and!; [done..|]. intros p [= <-]. auto.
  - intros e c' [Hok He]. split_and!; [done| |done]. by apply (purge_at_evolves root draft (cn_database c)).
Qed.
End purges.
