(* ===== verification/StoreReplacement.v ===== *)
(** * The replacement of a package, exactly

    What [complete_workspace_plugin_replacement] answers and does when no statement
    fails: a compare-and-swap of the accepted package. *)
From S2P Require Import Prelude Text External Stateful ProjectRoot LifecycleRecords LifecycleDatabase StoreLifecycle.
From S2P Require Import StoreInvariant StoreTriples StoreOperations StoreProps.
#[local] Open Scope Z_scope.
Import PluginLifecycleMutationOutcome.

(** ** Texts that pass a check pass the columns' *)

Lemma ascii_chars l : Forall (λ c, code c < 128) l → utf8_decode l = code <$> l.
Proof.
  induction 1 as [|c l Hc _ IH]; [done|]. cbn [utf8_decode]. rewrite (proj2 (Z.ltb_lt _ _) Hc), IH. done.
Qed.
Lemma until_nul_id cs : Forall (λ c, c ≠ 0) cs → until_nul cs = cs.
Proof. induction 1 as [|c cs Hc _ IH]; [done|]. cbn [until_nul]. by rewrite (proj2 (Z.eqb_neq _ _) Hc), IH. Qed.
Lemma identifier_byte_code c : identifier_byte c = true → 0 < code c < 128.
Proof.
  unfold identifier_byte, is_ascii_lowercase, is_ascii_uppercase, is_ascii_digit, in_range. intros Hc.
  repeat (apply orb_true_iff in Hc as [Hc|Hc]); try (apply andb_true_iff in Hc as [?%Z.leb_le ?%Z.leb_le]; lia).
  apply one_of_true in Hc. repeat (apply elem_of_cons in Hc as [->|Hc]; [by vm_compute|]). by apply elem_of_nil in Hc.
Qed.
Lemma identifier_length s : forallb identifier_byte (str_bytes s) = true → sql_length s = str_len s.
Proof.
  intros Hs. assert (Hb : Forall (λ c, 0 < code c < 128) (str_bytes s)).
  { apply Forall_forall. intros c Hc. apply identifier_byte_code. by apply (forallb_True identifier_byte (str_bytes s)). }
  unfold sql_length, chars, str_len, vec_len. rewrite ascii_chars by (eapply Forall_impl; [exact Hb|]; cbn; lia).
  rewrite until_nul_id, length_fmap; [done|]. apply Forall_fmap. eapply Forall_impl; [exact Hb|]. cbn. lia.
Qed.
Lemma identifier_short value label v : validate_identifier value label = Ok v → short_text v = true.
Proof.
  unfold validate_identifier. destruct (_ || _) eqn:Hc; [done|]. intros [= <-].
  apply orb_false_iff in Hc as [[He Hlen%Z.ltb_ge]%orb_false_iff Hb%negb_false_iff].
  unfold short_text, length_between. rewrite identifier_length by done. unfold MAX_IDENTIFIER_BYTES in Hlen.
  apply andb_true_iff. split; apply Z.leb_le; [|lia].
  pose proof (str_len_nonneg (str_trim value)). assert (str_len (str_trim value) ≠ 0); [|lia].
  intros H0%str_is_empty_len. congruence.
Qed.

(** ** Runs in which no statement fails *)

Definition calm (db : Database) (ids : list string) : Connection := MkConnection db ids [] [].
Section calm.
Context `{StoreLibraries}.
Lemma calm_statement {A B} (run : Database → changed A) (k : A → store_m B) db db' a ids Q R :
  run db = Ok (db', a) → post (k a) (calm db' ids) Q R → post (statement run ≫= k) (calm db ids) Q R.
Proof. intros Hrun Hk. rewrite post_bind. unfold post at 1, statement. cbn. by rewrite Hrun. Qed.
Lemma calm_query {A B} (f : Database → A) (k : A → store_m B) db ids Q R :
  post (k (f db)) (calm db ids) Q R → post (query f ≫= k) (calm db ids) Q R.
Proof. by apply calm_statement. Qed.
Lemma calm_lift {A B} (r : checked A) (k : A → store_m B) a c Q R :
  r = Ok a → post (k a) c Q R → post (lift r ≫= k) c Q R.
Proof. intros -> Hk. by rewrite post_bind, post_lift. Qed.
Lemma calm_found {A B} (o : option A) message (k : A → store_m B) a c Q R :
  o = Some a → post (k a) c Q R → post (found_or o message ≫= k) c Q R.
Proof. intros -> Hk. by rewrite post_bind. Qed.
Lemma calm_refuse {B} (b : bool) message (k : () → store_m B) c Q R :
  b = false → post (k ()) c Q R → post (refuse_if b message ≫= k) c Q R.
Proof. intros -> Hk. by rewrite post_bind. Qed.
Lemma calm_transaction {A} (body : store_m (ending A)) db ids Q R :
  post body (calm db ids) (λ e c, match e with Committed a => Q a c | RolledBack a | Dropped a => Q a (set_database db c) end)
    (λ e c, R e (set_database db c)) →
  post (in_transaction body) (calm db ids) Q R.
Proof.
  intros Hb. change (post (run_body body) (calm db ids) Q R). unfold run_body, post in *.
  by destruct (body (calm db ids)) as [c [[a|a|a]|e]].
Qed.
Lemma calm_event_id {B} (k : string → store_m B) db id ids Q R :
  post (k id) (calm db ids) Q R → post (fresh_event_id ≫= k) (calm db (id :: ids)) Q R.
Proof. by rewrite post_bind. Qed.
Lemma calm_commit {A} (a : A) db ids Q R : Q (Committed a) (calm db ids) → post (commit a) (calm db ids) Q R.
Proof. done. Qed.
End calm.

(** ** The rows of a replacement *)

Section replacement.
Context `{StoreLibraries, !SerdeFromU64, !Semver}.

Definition replacement_details (t : WorkspacePluginTransition) : string :=
  json_text (VObject [("candidate_digest", VString (default "" (wt_candidate_digest t)));
                      ("expected_old_digest", VString (default "" (wt_expected_old_digest t)));
                      ("replacement_kind", VString (wt_kind t))]).
(** The journal takes an event with these details under this id. *)
Definition journal_accepts (db : Database) (id details : string) : Prop :=
  db_events db !! ("event." +:+ id) = None ∧ short_text ("event." +:+ id) = true
  ∧ ∃ text, validate_details_json details = Ok text ∧ sqlite_json_valid text = true ∧ str_len text <= 8192.
Definition completed (now : string) : WorkspacePluginTransition → WorkspacePluginTransition :=
  set_phase "completed" "completed" now (Some now) None.

Lemma completed_check now t : transition_check t = true → transition_check (completed now t) = true.
Proof. unfold transition_check. cbn. rewrite !andb_true_iff. intros Hc. destruct_and! Hc. by split_and!. Qed.
Lemma replaced_check new old session now s :
  state_check s = true → digest_check new = true → digest_check old = true → short_text session = true →
  state_check (replaced new old session now s) = true.
Proof. unfold state_check. cbn. rewrite !andb_true_iff. intros Hc ???. destruct_and! Hc. by split_and!. Qed.
Lemma transition_digests db id t :
  db_ok db → db_transitions db !! id = Some t → ∀ digest,
  wt_expected_old_digest t = Some digest ∨ wt_candidate_digest t = Some digest → digest_check digest = true.
Proof.
  intros Hok Ht digest Hd. destruct (transition_rows _ Hok _ _ Ht) as (_ & Hc & _). unfold transition_check in Hc.
  rewrite !andb_true_iff in Hc. destruct_and! Hc. destruct Hd as [Hd|Hd]; by rewrite Hd in *.
Qed.

(** The journal entry of a replacement. *)
Definition replacement_event (p id now text : string) (t : WorkspacePluginTransition) (new : string) : WorkspacePluginLifecycleEvent :=
  MkLifecycleEvent ("event." +:+ id) p (wt_plugin_id t) (Some (wt_transition_id t)) (Some new) "transition_completed"
    "completed" "completed" None text now.
(** The tables after the swap. *)
Definition swapped (p id now text new old session : string) (t : WorkspacePluginTransition) (s : WorkspacePluginState)
    (db : Database) : Database :=
  put_event (replacement_event p id now text t new)
    (put_state (replaced new old session now s) (put_transition (completed now t) db)).
Lemma replacement_inserted db p id now text t new old session s :
  db_ok db → find_transition p (wt_transition_id t) db = Some t → find_state p (wt_plugin_id t) db = Some s →
  wt_candidate_digest t = Some new → db_events db !! ("event." +:+ id) = None → short_text ("event." +:+ id) = true →
  sqlite_json_valid text = true → str_len text <= 8192 →
  insert_event (replacement_event p id now text t new)
    (put_state (replaced new old session now s) (put_transition (completed now t) db))
  = Ok (swapped p id now text new old session t s db, 1).
Proof.
  intros Hok [Ht Hp]%find_transition_Some Hs Hnew Hfresh Hid Hjson Hlen. unfold insert_event, refused_unless.
  destruct (transition_rows _ Hok _ _ Ht) as (_ & Hcheck & _). pose proof (transition_digests _ _ _ Hok Ht new (or_intror Hnew)) as Hd.
  unfold transition_check in Hcheck. rewrite !andb_true_iff in Hcheck. destruct_and! Hcheck.
  destruct (state_rows _ Hok _ _ Hs) as [Hk _]. injection Hk as Hk1 Hk2.
  assert (Hevent : event_check (replacement_event p id now text t new) = true).
  { unfold event_check. cbn. rewrite !andb_true_iff. rewrite <-Hp. split_and!; try done. by apply Z.leb_le. }
  rewrite Hevent. cbn. rewrite Hfresh. unfold state_exists, event_transition_exists. cbn.
  unfold state_key. cbn. rewrite Hk1, Hk2, !lookup_insert_eq. cbn. unfold plugin_of. cbn. by rewrite Hp, bool_decide_eq_true_2.
Qed.

(** How a replacement is answered, by the two rows alone: done before, to do, or stale. *)
Definition replacement_outcome (new old session transition_id : string) (t : WorkspacePluginTransition)
    (s : WorkspacePluginState) : outcome :=
  if replacement_done new old session t s then Unchanged
  else if replacement_exact new old transition_id t s then Applied else Stale.
(** The answer and the tables that a replacement leaves. *)
Definition replacement_effect (p id now new old session transition_id : string) (t : WorkspacePluginTransition)
    (s : WorkspacePluginState) (db : Database) (answer : WorkspacePluginReplacementCompletion) (db' : Database) : Prop :=
  pc_outcome answer = replacement_outcome new old session transition_id t s ∧
  if decide (pc_outcome answer = Applied)
  then pc_state answer = replaced new old session now s ∧ pc_transition answer = completed now t
       ∧ ∃ text, db' = swapped p id now text new old session t s db
  else pc_state answer = s ∧ pc_transition answer = t ∧ db' = db.

Lemma update_found {R} (row : R) where_ set allowed put db :
  where_ row = true → allowed (set row) = true →
  update_row (Some row) where_ set allowed put db = Ok (put (set row) db, 1).
Proof. intros Hw Ha. unfold update_row, refused_unless. by rewrite Hw, Ha. Qed.
Lemma completed_allowed db now t : transition_check t = true →
  transition_check (completed now t) && negb (second_active (completed now t) db) = true.
Proof. intros Hc. by rewrite completed_check. Qed.

End replacement.
