(* ===== verification/Broker.v ===== *)
(** * Broker payloads

    Model of [crates/rho-extension-runtime/src/broker.rs]: payloads bounded by
    their encoded size, the response classes, and the texts of rejections.  The
    facade is a trait of asynchronous calls; its one implementation here rejects
    every request. *)
From S2P Require Import Prelude Text Errors External.
#[local] Open Scope Z_scope.

Definition DEFAULT_BROKER_PAYLOAD_BYTES : Z := 1024 * 1024.
Definition WORKSPACE_SNAPSHOT_RESPONSE_BYTES : Z := 2 * 1024 * 1024.
Definition PROJECT_FILE_VIEWER_HTML_BYTES : Z := 32 * 1024 * 1024.

Inductive BrokerResponseClass := Generic | WorkspaceSnapshot | ProjectFileViewerHtml.
Definition maximum_bytes (c : BrokerResponseClass) : Z :=
  match c with
  | Generic => DEFAULT_BROKER_PAYLOAD_BYTES
  | WorkspaceSnapshot => WORKSPACE_SNAPSHOT_RESPONSE_BYTES
  | ProjectFileViewerHtml => PROJECT_FILE_VIEWER_HTML_BYTES
  end.

Inductive BrokerPayloadError := Serialization | TooLarge (actual_bytes maximum_bytes : Z).
Inductive BrokerError :=
| Payload (e : BrokerPayloadError)
| Unavailable (operation_id : OperationId)
| Rejected (code message : string).

(** The suffix is U+2026, three bytes. *)
Definition ellipsis : string := of_chars [8230].
Definition BROKER_TEXT_BYTES : Z := 512.
Definition bounded_broker_text (value : string) : string :=
  if str_len value <=? BROKER_TEXT_BYTES then value
  else
    let bytes := str_bytes value in
    of_bytes (take (floor_boundary bytes (Z.to_nat (BROKER_TEXT_BYTES - str_len ellipsis))) bytes)
    +:+ ellipsis.
Definition BrokerError_rejected (code message : string) : BrokerError :=
  Rejected (bounded_broker_text code) (bounded_broker_text message).

Section broker.
Context `{SerdeToVec}.

Record BoundedJson := MkBounded { bj_value : Value; bj_encoded_bytes : Z }.
Definition BoundedJson_new (value : Value) (maximum_bytes : Z) : result BrokerPayloadError BoundedJson :=
  encoded ← map_err (λ _, Serialization) (to_vec value);
  let encoded_bytes := Z.of_nat (length encoded) in
  _ ← fail_if (maximum_bytes <? encoded_bytes) (TooLarge encoded_bytes maximum_bytes);
  Ok (MkBounded value encoded_bytes).
Definition BoundedJson_generic (value : Value) : result BrokerPayloadError BoundedJson :=
  BoundedJson_new value DEFAULT_BROKER_PAYLOAD_BYTES.

Record BrokerRequest := MkRequest {
  br_operation_id : OperationId;
  br_payload : BoundedJson;
  br_response_class : BrokerResponseClass
}.
Definition BrokerRequest_new (operation_id : OperationId) (payload : Value)
    (response_class : BrokerResponseClass) : result BrokerPayloadError BrokerRequest :=
  payload ← BoundedJson_generic payload;
  Ok (MkRequest operation_id payload response_class).
Definition maximum_response_bytes (r : BrokerRequest) : Z := maximum_bytes (br_response_class r).

Record BrokerResponse := MkResponse { resp_payload : BoundedJson }.
Definition BrokerResponse_new (value : Value) (request : BrokerRequest)
    : result BrokerPayloadError BrokerResponse :=
  payload ← BoundedJson_new value (maximum_response_bytes request);
  Ok (MkResponse payload).

(** [RejectingBrokerFacade::call]. *)
Definition rejecting_call (request : BrokerRequest) : result BrokerError BrokerResponse :=
  Err (Unavailable (br_operation_id request)).

(** ** Properties *)

(** A payload carries its own encoded size. *)
Definition payload_ok (limit : Z) (p : BoundedJson) : Prop :=
  ∃ encoded, to_vec (bj_value p) = Ok encoded ∧ bj_encoded_bytes p = Z.of_nat (length encoded) ∧
    bj_encoded_bytes p <= limit.

Lemma BoundedJson_new_Ok v limit p :
  BoundedJson_new v limit = Ok p ↔ bj_value p = v ∧ payload_ok limit p.
Proof.
  unfold BoundedJson_new, payload_ok. rewrite bind_Ok_iff. setoid_rewrite map_err_Ok.
  setoid_rewrite bind_unit_Ok_iff. setoid_rewrite fail_if_Ok. setoid_rewrite Z.ltb_ge.
  split.
  - intros (enc & ? & ? & [= <-]). simpl. eauto.
  - intros (<- & enc & ? & He & ?). exists enc. rewrite <-He. destruct p. done.
Qed.

(** A request and the response to it are within their bounds: a request
    carries at most 1 MiB, a response at most what the class of its request
    allows, and no class allows more than 32 MiB. *)
Theorem exchange_bounded operation payload class answer request response :
  BrokerRequest_new operation payload class = Ok request →
  BrokerResponse_new answer request = Ok response →
  payload_ok 1048576 (br_payload request) ∧ bj_value (br_payload request) = payload ∧
  br_operation_id request = operation ∧
  payload_ok (maximum_bytes class) (resp_payload response) ∧ bj_value (resp_payload response) = answer ∧
  maximum_bytes class <= 33554432.
Proof.
  unfold BrokerRequest_new, BrokerResponse_new. intros Hreq Hresp. result_inv Hreq. subst request.
  result_inv Hresp. subst response. apply BoundedJson_new_Ok in Hok as [? ?], Hok0 as [? ?]. simpl in *.
  split_and!; try done. destruct class; done.
Qed.

(** Rejection texts stay within 512 bytes, and a cut text is a prefix of the
    original in whole characters with an ellipsis. *)
Lemma bounded_broker_text_correct value :
  is_utf8 value →
  str_len (bounded_broker_text value) <= 512 ∧
  (str_len value <= 512 → bounded_broker_text value = value) ∧
  (512 < str_len value → ∃ cs, cs `prefix_of` chars value ∧
     bounded_broker_text value = of_chars cs +:+ ellipsis).
Proof.
  intros Hutf. unfold bounded_broker_text, BROKER_TEXT_BYTES.
  destruct (Z.leb_spec (str_len value) 512) as [Hle|Hgt]; [split_and!; [done|done|lia]|].
  assert (He : str_len ellipsis = 3) by done. rewrite He. change (Z.to_nat (512 - 3)) with 509%nat.
  pose proof (chars_scalar value Hutf) as Hsc. pose proof (of_chars_chars value Hutf) as Hv.
  set (bytes := str_bytes value). assert (Hbytes : bytes = utf8_encode (chars value)).
  { unfold bytes. rewrite <-Hv at 1. unfold of_chars. apply str_bytes_of_bytes. }
  destruct (floor_boundary_split (chars value) 509 Hsc) as (cs1 & cs2 & Hcs & Htake).
  rewrite <-Hbytes in Htake. split_and!; [|lia|].
  - unfold str_len in *. rewrite str_bytes_app, str_bytes_of_bytes, length_app, length_take.
    pose proof (floor_boundary_le bytes 509). lia.
  - intros _. exists cs1. split; [by exists cs2|]. unfold of_chars. by rewrite Htake.
Qed.
End broker.
