(* ===== verification/Async.v ===== *)
(** * Asynchronous computations

    How the development runs [async] code.  A computation runs against a world
    that carries a clock, until the time at which its owner drops it: the end of
    an enclosing timeout, or the moment a caller stops polling.  It returns a
    value, or is dropped where it was waiting, with the effects it had up to
    there; a computation that waits for ever returns nothing either.

    Between two waits a computation is not interrupted, and only waits take
    time.  [wp] is the weakest precondition that drives the proofs: one
    postcondition for the value, one for the world of a dropped computation. *)
From S2P Require Import Prelude.
#[local] Open Scope Z_scope.

Class Clock (W : Type) := {
  now : W → Z;
  set_now : Z → W → W
}.

(** The argument of type [option Z] is the time of the drop. *)
Definition async (W A : Type) : Type := option Z → W → option A * W.
#[global] Instance async_ret {W} : MRet (async W) := λ A a _ w, (Some a, w).
#[global] Instance async_bind {W} : MBind (async W) := λ A B f m D w,
  match m D w with
  | (Some a, w) => f a D w
  | (None, w) => (None, w)
  end.

Section async.
Context {W : Type} `{!Clock W}.
Implicit Types (D : option Z) (w : W).

Definition gets {A} (f : W → A) : async W A := λ _ w, (Some (f w), w).
Definition modify (f : W → W) : async W () := λ _ w, (Some (), f w).
(** A synchronous call that reads and changes the world. *)
Definition call {A} (f : W → W * A) : async W A := λ _ w, (Some (f w).2, (f w).1).
Definition unless_dropped (D : option Z) (t : Z) : bool :=
  match D with Some d => t <=? d | None => true end.
(** Wait for a point in time; [None] never comes. *)
Definition await_until (t : option Z) : async W () := λ D w,
  match t with
  | Some t =>
      let t := Z.max (now w) t in
      if unless_dropped D t then (Some (), set_now t w)
      else (None, set_now (Z.max (now w) (default (now w) D)) w)
  | None => (None, set_now (Z.max (now w) (default (now w) D)) w)
  end.
Definition await (delay : option Z) : async W () := λ D w,
  await_until ((λ d, now w + d) <$> delay) D w.
Definition never {A} : async W A := λ D w,
  match await_until None D w with (_, w) => (None, w) end.

(** Hold a resource while a computation runs; a guard releases it also when the
    computation is dropped. *)
Definition bracket {A} (acquire release : W → W) (m : async W A) : async W A := λ D w,
  match m D (acquire w) with (r, w) => (r, release w) end.

Fixpoint async_for {A} (body : A → async W ()) (l : list A) : async W () :=
  match l with
  | [] => mret ()
  | x :: l => _ ← body x; async_for body l
  end.
Fixpoint async_fold {A S} (body : S → A → async W S) (s : S) (l : list A) : async W S :=
  match l with
  | [] => mret s
  | x :: l => s ← body s x; async_fold body s l
  end.

(** ** Weakest preconditions *)

Definition wp {A} (m : async W A) D w (Q : A → W → Prop) (R : W → Prop) : Prop :=
  match m D w with
  | (Some a, w) => Q a w
  | (None, w) => R w
  end.

Lemma wp_ret {A} (a : A) D w Q R : wp (mret a) D w Q R ↔ Q a w.
Proof. done. Qed.
Lemma wp_bind {A B} (m : async W A) (f : A → async W B) D w Q R :
  wp (m ≫= f) D w Q R ↔ wp m D w (λ a w, wp (f a) D w Q R) R.
Proof. unfold wp, mbind, async_bind. by destruct (m D w) as [[a|] w']. Qed.
Lemma wp_gets {A} (f : W → A) D w Q R : wp (gets f) D w Q R ↔ Q (f w) w.
Proof. done. Qed.
Lemma wp_modify f D w Q R : wp (modify f) D w Q R ↔ Q () (f w).
Proof. done. Qed.
Lemma wp_call {A} (f : W → W * A) D w Q R : wp (call f) D w Q R ↔ Q (f w).2 (f w).1.
Proof. done. Qed.
Lemma wp_bracket {A} acquire release (m : async W A) D w Q R :
  wp (bracket acquire release m) D w Q R ↔
  wp m D (acquire w) (λ a w, Q a (release w)) (λ w, R (release w)).
Proof. unfold wp, bracket. by destruct (m D (acquire w)) as [[a|] w']. Qed.
Lemma wp_mono {A} (m : async W A) D w (Q Q' : A → W → Prop) (R R' : W → Prop) :
  wp m D w Q R → (∀ a w, Q a w → Q' a w) → (∀ w, R w → R' w) → wp m D w Q' R'.
Proof. unfold wp. destruct (m D w) as [[a|] w']; auto. Qed.
Lemma wp_and {A} (m : async W A) D w (Q Q' : A → W → Prop) (R R' : W → Prop) :
  wp m D w Q R → wp m D w Q' R' → wp m D w (λ a w, Q a w ∧ Q' a w) (λ w, R w ∧ R' w).
Proof. unfold wp. destruct (m D w) as [[a|] w']; auto. Qed.
Lemma wp_if {A} (b : bool) (m n : async W A) D w Q R :
  wp (if b then m else n) D w Q R ↔ if b then wp m D w Q R else wp n D w Q R.
Proof. by destruct b. Qed.
Lemma wp_total {A} (m : async W A) D w Q :
  wp m D w Q (λ _, False) ↔ ∃ a w', m D w = (Some a, w') ∧ Q a w'.
Proof. unfold wp. destruct (m D w) as [[a|] w']; naive_solver. Qed.

(** A loop keeps an invariant that each of its iterations keeps. *)
Lemma wp_fold {A S} (body : S → A → async W S) l s D w (I : list A → S → W → Prop) (R : W → Prop) :
  I [] s w →
  (∀ k x s w, k ++ [x] `prefix_of` l → I k s w → wp (body s x) D w (λ s w, I (k ++ [x]) s w) R) →
  wp (async_fold body s l) D w (λ s w, I l s w) R.
Proof.
  intros HI Hbody.
  assert (Hgen : ∀ k l', l = k ++ l' → ∀ s w, I k s w → wp (async_fold body s l') D w (λ s w, I l s w) R).
  { intros k l'. revert k. induction l' as [|x l' IH]; intros k -> s' w' Hk.
    - by rewrite app_nil_r in *.
    - simpl. apply wp_bind. eapply wp_mono; [apply Hbody; [|done]| |auto].
      + exists l'. by rewrite <-app_assoc.
      + intros s'' w'' H''. eapply (IH (k ++ [x])); [by rewrite <-app_assoc|done]. }
  by apply (Hgen []).
Qed.
Lemma wp_for {A} (body : A → async W ()) l D w (I : list A → W → Prop) (R : W → Prop) :
  I [] w →
  (∀ k x w, k ++ [x] `prefix_of` l → I k w → wp (body x) D w (λ _ w, I (k ++ [x]) w) R) →
  wp (async_for body l) D w (λ _ w, I l w) R.
Proof.
  intros HI Hbody.
  assert (Heq : ∀ l D w, async_for body l D w = async_fold (λ _, body) () l D w).
  { clear. induction l as [|x l IH]; intros D w; [done|].
    simpl. unfold mbind, async_bind. destruct (body x D w) as [[[]|] w']; [apply IH|done]. }
  unfold wp. rewrite Heq. apply (wp_fold (λ _, body) l () D w (λ k _ w, I k w)); [done|].
  intros k x [] w'. apply Hbody.
Qed.
End async.

(** ** tokio

    [tokio::time::timeout]: the inner computation is dropped when its time is
    up; it is polled before the timer, so that a value that is ready at the end
    of the time is still returned. *)
Class Tokio (W : Type) `{!Clock W} := {
  timeout {A} : Z → async W A → async W (option A);
  timeout_law {A} d (m : async W A) D w :
    timeout d m D w =
    let time_up := now w + d in
    match m (Some (match D with Some t => Z.min t time_up | None => time_up end)) w with
    | (Some a, w) => (Some (Some a), w)
    | (None, w) => if unless_dropped D time_up then (Some None, w) else (None, w)
    end
}.

Lemma wp_timeout `{Tokio W} {A} d (m : async W A) D w Q R :
  wp (timeout d m) D w Q R ↔
  wp m (Some (match D with Some t => Z.min t (now w + d) | None => now w + d end)) w
    (λ a w, Q (Some a) w) (λ w', if unless_dropped D (now w + d) then Q None w' else R w').
Proof.
  unfold wp. rewrite timeout_law. cbv zeta.
  destruct (m _ w) as [[a|] w']; [done|]. by destruct (unless_dropped D (now w + d)).
Qed.

Create Rewrite HintDb wp.
#[export] Hint Rewrite @wp_ret @wp_bind @wp_gets @wp_modify @wp_call : wp.
(** Run the synchronous part of a computation. *)
Ltac wp_run := autorewrite with wp; cbn beta.
