(* ===== verification/Lifecycle.v ===== *)
(** * Scope lifecycle

    Model of the lower half of [crates/rho-extension-runtime/src/lifecycle.rs]:
    registries with their leases and calls, effects and their disposal, scoped
    tasks, scope snapshots with quiescence and disposal.

    Scopes, and the registry, task tracker and cancellation token made with each,
    are shared by [Arc]; here they lie in heaps of the world, and a shared pointer
    is a key.  Plugins are code outside the program: a custom disposer, a task, a
    lease holder or a handler is known by when it ends and what it answers.  The
    lock of an effect stack is only taken under its scope's disposal gate, and is
    left out. *)
From S2P Require Import Prelude Text Errors External Ids Model Broker Async.
#[local] Open Scope Z_scope.

(** ** Messages and diagnostics *)

Definition MAX_RUNTIME_MESSAGE_BYTES : Z := 512.
Definition bounded_message (value : string) : string :=
  if str_len value <=? MAX_RUNTIME_MESSAGE_BYTES then value
  else
    let bytes := str_bytes value in
    of_bytes (take (floor_boundary bytes (Z.to_nat (MAX_RUNTIME_MESSAGE_BYTES - str_len ellipsis))) bytes)
    +:+ ellipsis.

Inductive InternalExtensionRuntimeMode := Legacy | Candidate.
(** The mode, and the diagnostics emitted. *)
Definition RuntimeMode_parse (value : option string)
    : InternalExtensionRuntimeMode * list ExtensionDiagnostic :=
  match value with
  | None => (Candidate, [])
  | Some value =>
      if str_eq value "candidate" then (Candidate, [])
      else if str_eq value "legacy" then (Legacy, [])
      else (Legacy,
        [MkDiagnostic DiagnosticCode.InvalidRuntimeMode Warning None None None None None None [] []
           (bounded_message ("invalid RHO_INTERNAL_EXTENSION_RUNTIME value; using legacy ("
                             +:+ display (str_len value) +:+ " bytes)"))])
  end.

Definition lifecycle_diagnostic (code : DiagnosticCode.t) (severity : DiagnosticSeverity)
    (scope : option ScopeIdentity) (plugin_id : option PluginId) (effect_order : option Z)
    (message : string) : ExtensionDiagnostic :=
  MkDiagnostic code severity plugin_id None (scope_kind <$> scope) (Errors.scope_id <$> scope)
    (scope_generation <$> scope) effect_order [] [] (bounded_message message).

Record PluginInstanceIdentity := MkInstanceId { pi_plugin_id : PluginId; pi_scope : ScopeIdentity }.
#[global] Instance PluginInstanceIdentity_eq_dec : EqDecision PluginInstanceIdentity.
Proof. solve_decision. Defined.

(** [ScopedDiagnosticSink::emit]: what reaches the inner sink. *)
Definition scoped_diagnostic (instance : PluginInstanceIdentity) (d : ExtensionDiagnostic)
    : ExtensionDiagnostic :=
  MkDiagnostic (diag_code d) (diag_severity d) (Some (pi_plugin_id instance)) (diag_capability_id d)
    (Some (scope_kind (pi_scope instance))) (Some (Errors.scope_id (pi_scope instance)))
    (Some (scope_generation (pi_scope instance))) (diag_effect_order d)
    (take 256 (diag_related_plugins d)) (take 257 (diag_cycle_path d))
    (bounded_message (diag_message d)).

Record ActivationError := MkActivationError { ae_code : string; ae_message : string }.
Definition ActivationError_new (code message : string) : ActivationError :=
  MkActivationError (bounded_message code) (bounded_message message).
Record DisposeError := MkDisposeError { de_code : string; de_message : string }.
Definition DisposeError_new (code message : string) : DisposeError :=
  MkDisposeError (bounded_message code) (bounded_message message).

Record ProjectFileViewerContribution := MkViewer {
  supported_media_types : list string;
  general_maximum_bytes : Z;
  html_maximum_bytes : Z
}.
Definition ProjectFileViewerContribution_new (supported_media_types : list string)
    (general_maximum_bytes html_maximum_bytes : Z) : ProjectFileViewerContribution :=
  MkViewer (sort_dedup supported_media_types) general_maximum_bytes html_maximum_bytes.

(** Durations and points in time are in nanoseconds. *)
Definition from_secs (n : Z) : Z := n * 1000000000.
Record LifecycleDeadlines := MkDeadlines { dl_quiesce : Z; dl_effect : Z; dl_scope : Z }.
Definition LifecycleDeadlines_default : LifecycleDeadlines :=
  MkDeadlines (from_secs 5) (from_secs 2) (from_secs 10).
Definition checked_sub (a b : Z) : option Z := if b <=? a then Some (a - b) else None.

(** ** Effects *)

Module EffectStatus.
Inductive t := Registered | Disposing | Disposed | Failed.
#[global] Instance t_eq_dec : EqDecision t.
Proof. solve_decision. Defined.
End EffectStatus.
Module DisposeOutcome.
Inductive t := Disposed | Failed.
#[global] Instance t_eq_dec : EqDecision t.
Proof. solve_decision. Defined.
End DisposeOutcome.

Record EffectRecord := MkEffectRecord {
  er_instance : PluginInstanceIdentity;
  er_creation_order : Z;
  er_status : EffectStatus.t;
  er_cleanup_error : option DisposeError
}.

(** The scope whose registry, tasks and token are meant; shared pointers. *)
Definition Ref : Type := nat.

Inductive Table := Markers | Sources | WorkspaceTools | ProjectFileViewers.
#[global] Instance Table_eq_dec : EqDecision Table.
Proof. solve_decision. Defined.
(** The four kinds of registration differ only in the table they name. *)
Record RegistryRegistration := MkRegistration {
  rr_table : Table;
  rr_registry : Ref;
  rr_capability_id : CapabilityId;
  rr_instance : PluginInstanceIdentity;
  rr_disposed : bool
}.
(** What the future of a disposer comes to. *)
Inductive Verdict := Returned (r : result DisposeError ()) | Panicked.
(** A custom disposer is known by its number of calls so far and, for each call,
    the time it takes and its outcome. *)
Inductive Disposer :=
| Registration (registration : RegistryRegistration)
| Custom (calls : nat) (behaviour : nat → option Z * Verdict).
Record PendingEffect := MkPending { pe_record : EffectRecord; pe_disposer : Disposer }.
Record EffectDisposeReport := MkEffectReport {
  edr_outcome : DisposeOutcome.t;
  edr_records : list EffectRecord
}.

(** [EffectSink::push]. *)
Definition push_effect (instance : PluginInstanceIdentity) (effects : list PendingEffect)
    (disposer : Disposer) : list PendingEffect * Z :=
  let creation_order := Z.of_nat (length effects) in
  (effects ++ [MkPending (MkEffectRecord instance creation_order EffectStatus.Registered None) disposer],
   creation_order).

(** ** Registries *)

Inductive RegistryError :=
| DuplicateMarker (capability_id : CapabilityId)
| DuplicateSource (capability_id : CapabilityId)
| DuplicateWorkspaceTool (capability_id : CapabilityId)
| DuplicateProjectFileViewer (capability_id : CapabilityId).
Inductive RoutingError := RoutingClosed.
Inductive TaskAdmissionError := AdmissionClosed.

Module ScopeLifecycleState.
Inductive t := Ready | Active | Quiescing | Disposing | Disposed | Failed.
#[global] Instance t_eq_dec : EqDecision t.
Proof. solve_decision. Defined.
Definition as_u8 (s : t) : Z :=
  match s with
  | Ready => 0 | Active => 1 | Quiescing => 2 | Disposing => 3 | Disposed => 4 | Failed => 5
  end.
Definition from_u8 (value : Z) : t :=
  match value with 0 => Ready | 1 => Active | 2 => Quiescing | 3 => Disposing | 4 => Disposed | _ => Failed end.
Definition debug (s : t) : string :=
  match s with
  | Ready => "Ready" | Active => "Active" | Quiescing => "Quiescing" | Disposing => "Disposing"
  | Disposed => "Disposed" | Failed => "Failed"
  end.
End ScopeLifecycleState.
Abbreviation state := ScopeLifecycleState.t (only parsing).

Inductive ScopeStateError :=
| InvalidTransition (expected actual : state)
| InvalidChildParent.
Definition ScopeStateError_display (e : ScopeStateError) : string :=
  match e with
  | InvalidTransition expected actual =>
      "invalid scope lifecycle transition: expected " +:+ ScopeLifecycleState.debug expected
      +:+ ", actual " +:+ ScopeLifecycleState.debug actual
  | InvalidChildParent => "child scope parent does not match"
  end.

Inductive ScopeDisposeReport := MkScopeReport {
  sdr_scope : ScopeIdentity;
  sdr_outcome : DisposeOutcome.t;
  sdr_quiesce_timed_out : bool;
  sdr_remaining_tasks : Z;
  sdr_remaining_leases : Z;
  sdr_child_reports : list ScopeDisposeReport;
  sdr_plugin_reports : list (PluginInstanceIdentity * EffectDisposeReport)
}.

Section lifecycle.
Context `{SerdeToVec}.

(** A handler is known by the time a call takes and its answer. *)
Definition Handler : Type := BoundedJson → option Z * result BrokerError BoundedJson.
Record SourceEntry := MkSource { se_owner : PluginInstanceIdentity; se_handler : Handler }.
Record ProjectFileViewerEntry := MkViewerEntry {
  ve_owner : PluginInstanceIdentity;
  ve_contribution : ProjectFileViewerContribution
}.

(** [RegistryInner], the task tracker and the cancellation token of a scope.  A
    lease or a task is known by the time at which its holder lets it go. *)
Record ScopeRuntime := MkRuntimeOf {
  rt_scope : ScopeIdentity;
  rt_routing : bool;
  rt_leases : list (option Z);
  rt_markers : gmap CapabilityId PluginInstanceIdentity;
  rt_sources : gmap CapabilityId SourceEntry;
  rt_workspace_tools : gmap CapabilityId SourceEntry;
  rt_project_file_viewers : gmap CapabilityId ProjectFileViewerEntry;
  rt_accepting : bool;
  rt_tasks : list (option Z);
  rt_cancelled : bool
}.
(** [RegistryHub::candidate], [ScopedTaskTracker::new], [CancellationToken::new]. *)
Definition ScopeRuntime_new (scope : ScopeIdentity) : ScopeRuntime :=
  MkRuntimeOf scope false [] ∅ ∅ ∅ ∅ true [] false.

Record ActivatedPlugin := MkActivated {
  ap_instance : PluginInstanceIdentity;
  ap_effects : list PendingEffect;
  ap_report : option EffectDisposeReport
}.
Record ScopeSnapshot := MkSnapshot {
  sn_identity : ScopeIdentity;
  sn_plan : ActivationPlan;
  sn_plugins : list ActivatedPlugin;
  sn_children : list Ref;
  sn_state : state;
  sn_dispose_gate : bool;
  sn_dispose_report : option ScopeDisposeReport
}.
Definition ScopeSnapshot_new_ready (identity : ScopeIdentity) (plan : ActivationPlan)
    (plugins : list ActivatedPlugin) : ScopeSnapshot :=
  MkSnapshot identity plan plugins [] ScopeLifecycleState.Ready false None.

(** The slots and the generation counter are those of the one [ScopeManager]. *)
Record World := MkWorld {
  w_now : Z;
  w_runtimes : gmap Ref ScopeRuntime;
  w_scopes : gmap Ref ScopeSnapshot;
  w_application : option Ref;
  w_project : option Ref;
  w_workspace : option Ref;
  w_next_generation : Z;
  w_log : list ExtensionDiagnostic
}.
#[global] Instance World_clock : Clock World := {|
  now := w_now;
  set_now t w := MkWorld t (w_runtimes w) (w_scopes w) (w_application w) (w_project w) (w_workspace w)
                   (w_next_generation w) (w_log w)
|}.
Definition set_runtimes (f : gmap Ref ScopeRuntime → gmap Ref ScopeRuntime) (w : World) : World :=
  MkWorld (w_now w) (f (w_runtimes w)) (w_scopes w) (w_application w) (w_project w) (w_workspace w)
    (w_next_generation w) (w_log w).
Definition set_scopes (f : gmap Ref ScopeSnapshot → gmap Ref ScopeSnapshot) (w : World) : World :=
  MkWorld (w_now w) (w_runtimes w) (f (w_scopes w)) (w_application w) (w_project w) (w_workspace w)
    (w_next_generation w) (w_log w).
Definition log (d : ExtensionDiagnostic) (w : World) : World :=
  MkWorld (w_now w) (w_runtimes w) (w_scopes w) (w_application w) (w_project w) (w_workspace w)
    (w_next_generation w) (w_log w ++ [d]).
Definition emit (d : ExtensionDiagnostic) : async World () := modify (log d).

Definition with_routing (b : bool) (t : ScopeRuntime) : ScopeRuntime :=
  MkRuntimeOf (rt_scope t) b (rt_leases t) (rt_markers t) (rt_sources t) (rt_workspace_tools t)
    (rt_project_file_viewers t) (rt_accepting t) (rt_tasks t) (rt_cancelled t).
Definition with_leases (f : list (option Z) → list (option Z)) (t : ScopeRuntime) : ScopeRuntime :=
  MkRuntimeOf (rt_scope t) (rt_routing t) (f (rt_leases t)) (rt_markers t) (rt_sources t)
    (rt_workspace_tools t) (rt_project_file_viewers t) (rt_accepting t) (rt_tasks t) (rt_cancelled t).
Definition with_tasks (accepting : bool) (tasks : list (option Z)) (t : ScopeRuntime) : ScopeRuntime :=
  MkRuntimeOf (rt_scope t) (rt_routing t) (rt_leases t) (rt_markers t) (rt_sources t)
    (rt_workspace_tools t) (rt_project_file_viewers t) accepting tasks (rt_cancelled t).
Definition with_cancelled (t : ScopeRuntime) : ScopeRuntime :=
  MkRuntimeOf (rt_scope t) (rt_routing t) (rt_leases t) (rt_markers t) (rt_sources t)
    (rt_workspace_tools t) (rt_project_file_viewers t) (rt_accepting t) (rt_tasks t) true.
Definition with_tables (markers : gmap CapabilityId PluginInstanceIdentity)
    (sources tools : gmap CapabilityId SourceEntry)
    (viewers : gmap CapabilityId ProjectFileViewerEntry) (t : ScopeRuntime) : ScopeRuntime :=
  MkRuntimeOf (rt_scope t) (rt_routing t) (rt_leases t) markers sources tools viewers
    (rt_accepting t) (rt_tasks t) (rt_cancelled t).
(** ** Registry operations *)

Definition update_runtime (r : Ref) (f : ScopeRuntime → ScopeRuntime) : World → World :=
  set_runtimes (alter f r).
Definition is_routable (w : World) (r : Ref) : bool := is_some_and rt_routing (w_runtimes w !! r).
Definition open_routing (r : Ref) : World → World := update_runtime r (with_routing true).
Definition close_routing (r : Ref) : World → World := update_runtime r (with_routing false).

(** Let go at or before the present. *)
Definition ended (t : Z) (until : option Z) : bool :=
  match until with Some e => e <=? t | None => false end.
Definition outstanding (t : Z) (l : list (option Z)) : Z :=
  vec_len (List.filter (λ e, negb (ended t e)) l).
Definition active_leases (w : World) (r : Ref) : Z :=
  outstanding (w_now w) (default [] (rt_leases <$> w_runtimes w !! r)).
Definition tasks_len (w : World) (r : Ref) : Z :=
  outstanding (w_now w) (default [] (rt_tasks <$> w_runtimes w !! r)).

(** [RegistryHub::lease] as one step; the second look at [routing] only matters to
    a lease taken while another thread closes it. *)
Definition lease (r : Ref) (until : option Z) (w : World) : World * result RoutingError () :=
  if negb (is_routable w r) then (w, Err RoutingClosed)
  else (update_runtime r (with_leases (cons until)) w, Ok ()).

(** [SourceCallError], and with the same cases [WorkspaceToolCallError] and, less
    the last two, [ProjectFileViewerResolveError]. *)
Inductive SourceCallError :=
| CallRouting (e : RoutingError)
| MissingContribution (capability_id : CapabilityId)
| CallPayload (e : BrokerPayloadError)
| CallHandler (e : BrokerError).
Record SourceCallResult := MkCallResult { scr_scope : ScopeIdentity; scr_payload : BoundedJson }.

(** The common body of [call_source] and [call_workspace_tool]. *)
Definition call_handler (r : Ref) (table : ScopeRuntime → gmap CapabilityId SourceEntry)
    (capability_id : CapabilityId) (request : BoundedJson) (response_bytes : Z)
    : async World (result SourceCallError SourceCallResult) :=
  routable ← gets (λ w, is_routable w r);
  if negb routable then mret (Err (CallRouting RoutingClosed))
  else bracket (update_runtime r (with_leases (cons None)))
    (update_runtime r (with_leases (λ l, match list_find (eq None) l with
                                         | Some (i, _) => delete i l | None => l end)))
    (match BoundedJson_generic (bj_value request) with
     | Err e => mret (Err (CallPayload e))
     | Ok request =>
         runtime ← gets (λ w, w_runtimes w !! r);
         match runtime ≫= λ t, entry ← table t !! capability_id; Some (rt_scope t, entry) with
         | None => mret (Err (MissingContribution capability_id))
         | Some (scope, entry) =>
             let '(delay, answer) := se_handler entry request in
             _ ← await delay;
             mret match answer with
                  | Err e => Err (CallHandler e)
                  | Ok payload =>
                      match BoundedJson_new (bj_value payload) response_bytes with
                      | Err e => Err (CallPayload e)
                      | Ok payload => Ok (MkCallResult scope payload)
                      end
                  end
         end
     end).
Definition call_source (r : Ref) (capability_id : CapabilityId) (request : BoundedJson) :=
  call_handler r rt_sources capability_id request DEFAULT_BROKER_PAYLOAD_BYTES.
Definition call_workspace_tool (r : Ref) (capability_id : CapabilityId) (request : BoundedJson) :=
  call_handler r rt_workspace_tools capability_id request WORKSPACE_SNAPSHOT_RESPONSE_BYTES.

Record ProjectFileViewerResolution := MkResolution {
  pvr_scope : ScopeIdentity;
  pvr_contribution : ProjectFileViewerContribution
}.
(** The resolution holds its lease until it is dropped. *)
Definition resolve_project_file_viewer (r : Ref) (capability_id : CapabilityId) (until : option Z)
    (w : World) : World * result SourceCallError ProjectFileViewerResolution :=
  match lease r until w with
  | (w, Err e) => (w, Err (CallRouting e))
  | (leased, Ok _) =>
      match w_runtimes w !! r ≫= λ t,
              entry ← rt_project_file_viewers t !! capability_id; Some (rt_scope t, entry) with
      | None => (w, Err (MissingContribution capability_id))
      | Some (scope, entry) => (leased, Ok (MkResolution scope (ve_contribution entry)))
      end
  end.

Definition marker_owner (w : World) (r : Ref) (c : CapabilityId) : option PluginInstanceIdentity :=
  t ← w_runtimes w !! r; rt_markers t !! c.
Definition source_owner (w : World) (r : Ref) (c : CapabilityId) : option PluginInstanceIdentity :=
  t ← w_runtimes w !! r; se_owner <$> rt_sources t !! c.
Definition workspace_tool_owner (w : World) (r : Ref) (c : CapabilityId) : option PluginInstanceIdentity :=
  t ← w_runtimes w !! r; se_owner <$> rt_workspace_tools t !! c.

(** What is registered: an entry of one of the four tables. *)
Inductive Entry :=
| MarkerEntry
| SourceHandlerEntry (handler : Handler)
| WorkspaceToolEntry (handler : Handler)
| ViewerContributionEntry (contribution : ProjectFileViewerContribution).
Definition entry_table (e : Entry) : Table :=
  match e with
  | MarkerEntry => Markers | SourceHandlerEntry _ => Sources | WorkspaceToolEntry _ => WorkspaceTools
  | ViewerContributionEntry _ => ProjectFileViewers
  end.
Definition duplicate (table : Table) (c : CapabilityId) : RegistryError :=
  match table with
  | Markers => DuplicateMarker c | Sources => DuplicateSource c
  | WorkspaceTools => DuplicateWorkspaceTool c | ProjectFileViewers => DuplicateProjectFileViewer c
  end.
(** Who owns the entry of a table. *)
Definition table_owner (t : ScopeRuntime) (table : Table) (c : CapabilityId)
    : option PluginInstanceIdentity :=
  match table with
  | Markers => rt_markers t !! c
  | Sources => se_owner <$> rt_sources t !! c
  | WorkspaceTools => se_owner <$> rt_workspace_tools t !! c
  | ProjectFileViewers => ve_owner <$> rt_project_file_viewers t !! c
  end.
Definition table_insert (instance : PluginInstanceIdentity) (c : CapabilityId) (e : Entry)
    (t : ScopeRuntime) : ScopeRuntime :=
  let '(m, s, o, v) := (rt_markers t, rt_sources t, rt_workspace_tools t, rt_project_file_viewers t) in
  match e with
  | MarkerEntry => with_tables (<[c := instance]> m) s o v t
  | SourceHandlerEntry h => with_tables m (<[c := MkSource instance h]> s) o v t
  | WorkspaceToolEntry h => with_tables m s (<[c := MkSource instance h]> o) v t
  | ViewerContributionEntry k => with_tables m s o (<[c := MkViewerEntry instance k]> v) t
  end.
Definition table_delete (table : Table) (c : CapabilityId) (t : ScopeRuntime) : ScopeRuntime :=
  let '(m, s, o, v) := (rt_markers t, rt_sources t, rt_workspace_tools t, rt_project_file_viewers t) in
  match table with
  | Markers => with_tables (delete c m) s o v t
  | Sources => with_tables m (delete c s) o v t
  | WorkspaceTools => with_tables m s (delete c o) v t
  | ProjectFileViewers => with_tables m s o (delete c v) t
  end.

(** [register_marker], [register_source], [register_workspace_tool] and
    [register_project_file_viewer]. *)
Definition register (r : Ref) (instance : PluginInstanceIdentity) (c : CapabilityId) (e : Entry)
    (w : World) : World * result RegistryError RegistryRegistration :=
  match w_runtimes w !! r ≫= λ t, table_owner t (entry_table e) c with
  | Some _ => (w, Err (duplicate (entry_table e) c))
  | None => (update_runtime r (table_insert instance c e) w,
             Ok (MkRegistration (entry_table e) r c instance false))
  end.

(** [Disposable::dispose] of a registration. *)
Definition dispose_registration (g : RegistryRegistration) (w : World) : World * RegistryRegistration :=
  if rr_disposed g then (w, g)
  else
    (update_runtime (rr_registry g) (λ t,
       if bool_decide (table_owner t (rr_table g) (rr_capability_id g) = Some (rr_instance g))
       then table_delete (rr_table g) (rr_capability_id g) t else t) w,
     MkRegistration (rr_table g) (rr_registry g) (rr_capability_id g) (rr_instance g) true).

(** [ScopedTaskTracker::spawn] of a task that ends at a given time, and [close]. *)
Definition spawn (r : Ref) (ends : option Z) (w : World) : World * result TaskAdmissionError () :=
  if is_some_and rt_accepting (w_runtimes w !! r)
  then (update_runtime r (λ t, with_tasks true (ends :: rt_tasks t) t) w, Ok ())
  else (w, Err AdmissionClosed).
Definition close_tasks (r : Ref) : World → World :=
  update_runtime r (λ t, with_tasks false (rt_tasks t) t).
Definition cancel (r : Ref) : World → World := update_runtime r with_cancelled.

(** All have let go; [None] when one never does. *)
Definition all_ended (l : list (option Z)) : option Z :=
  foldr (λ e acc, a ← acc; t ← e; Some (Z.max t a)) (Some 0) l.
(** [RegistryHub::wait_for_idle] and [ScopedTaskTracker::wait], joined. *)
Definition wait_for_quiet (r : Ref) : async World () :=
  runtime ← gets (λ w, w_runtimes w !! r);
  match runtime with
  | Some t => await_until (all_ended (rt_leases t ++ rt_tasks t))
  | None => never
  end.

(** ** Disposing of effects *)

Definition update_scope (r : Ref) (f : ScopeSnapshot → ScopeSnapshot) : World → World :=
  set_scopes (alter f r).
Definition with_state (st : state) (s : ScopeSnapshot) : ScopeSnapshot :=
  MkSnapshot (sn_identity s) (sn_plan s) (sn_plugins s) (sn_children s) st (sn_dispose_gate s)
    (sn_dispose_report s).
Definition with_gate (held : bool) (s : ScopeSnapshot) : ScopeSnapshot :=
  MkSnapshot (sn_identity s) (sn_plan s) (sn_plugins s) (sn_children s) (sn_state s) held
    (sn_dispose_report s).
Definition with_children (f : list Ref → list Ref) (s : ScopeSnapshot) : ScopeSnapshot :=
  MkSnapshot (sn_identity s) (sn_plan s) (sn_plugins s) (f (sn_children s)) (sn_state s)
    (sn_dispose_gate s) (sn_dispose_report s).
Definition with_plugins (f : list ActivatedPlugin → list ActivatedPlugin) (s : ScopeSnapshot)
    : ScopeSnapshot :=
  MkSnapshot (sn_identity s) (sn_plan s) (f (sn_plugins s)) (sn_children s) (sn_state s)
    (sn_dispose_gate s) (sn_dispose_report s).
Definition with_report (report : ScopeDisposeReport) (s : ScopeSnapshot) : ScopeSnapshot :=
  MkSnapshot (sn_identity s) (sn_plan s) (sn_plugins s) (sn_children s) (sn_state s)
    (sn_dispose_gate s) (Some report).

(** The [i]th plugin's effects and report; its [j]th effect. *)
Definition set_effects (f : list PendingEffect → list PendingEffect) (p : ActivatedPlugin) :=
  MkActivated (ap_instance p) (f (ap_effects p)) (ap_report p).
Definition set_effect_report (report : EffectDisposeReport) (p : ActivatedPlugin) :=
  MkActivated (ap_instance p) (ap_effects p) (Some report).
Definition update_plugin (r : Ref) (i : nat) (f : ActivatedPlugin → ActivatedPlugin) : World → World :=
  update_scope r (with_plugins (alter f i)).
Definition update_effect (r : Ref) (i j : nat) (f : PendingEffect → PendingEffect) : World → World :=
  update_plugin r i (set_effects (alter f j)).
Definition the_plugin (w : World) (r : Ref) (i : nat) : option ActivatedPlugin :=
  s ← w_scopes w !! r; sn_plugins s !! i.
Definition the_effect (w : World) (r : Ref) (i j : nat) : option PendingEffect :=
  p ← the_plugin w r i; ap_effects p !! j.
Definition set_status (status : EffectStatus.t) (e : PendingEffect) : PendingEffect :=
  let d := pe_record e in
  MkPending (MkEffectRecord (er_instance d) (er_creation_order d) status (er_cleanup_error d))
    (pe_disposer e).
Definition set_failed (error : DisposeError) (e : PendingEffect) : PendingEffect :=
  let d := pe_record e in
  MkPending (MkEffectRecord (er_instance d) (er_creation_order d) EffectStatus.Failed (Some error))
    (pe_disposer e).
Definition set_disposer (disposer : Disposer) (e : PendingEffect) : PendingEffect :=
  MkPending (pe_record e) disposer.

(** [effect.disposer.dispose()], panics caught. *)
Definition run_disposer (r : Ref) (i j : nat) (disposer : Disposer) : async World Verdict :=
  match disposer with
  | Registration g =>
      g ← call (dispose_registration g);
      _ ← modify (update_effect r i j (set_disposer (Registration g)));
      mret (Returned (Ok ()))
  | Custom calls behaviour =>
      _ ← modify (update_effect r i j (set_disposer (Custom (S calls) behaviour)));
      _ ← await (behaviour calls).1;
      mret (behaviour calls).2
  end.

Definition effect_diagnostic (e : PendingEffect) (message : string) : ExtensionDiagnostic :=
  let d := pe_record e in
  lifecycle_diagnostic DiagnosticCode.EffectDisposeFailed Error (Some (pi_scope (er_instance d)))
    (Some (pi_plugin_id (er_instance d))) (Some (er_creation_order d)) message.
Definition scope_dispose_timeout : DisposeError :=
  DisposeError_new "scope_dispose_timeout"
    "scope disposal deadline expired before this effect could run".
Definition effect_dispose_panicked : DisposeError :=
  DisposeError_new "effect_dispose_panicked" "effect cleanup panicked at the host boundary".
Definition effect_dispose_timeout : DisposeError :=
  DisposeError_new "effect_dispose_timeout" "effect cleanup exceeded its deadline".

Context `{!Tokio World}.

(** The body of the loop of [EffectStack::dispose]. *)
Definition dispose_effect (r : Ref) (i : nat) (started per_effect_deadline total_deadline : Z) (j : nat)
    : async World () :=
  effect ← gets (λ w, the_effect w r i j);
  match effect with
  | None => mret ()
  | Some effect =>
      _ ← modify (update_effect r i j (set_status EffectStatus.Disposing));
      time ← gets w_now;
      match checked_sub total_deadline (time - started) with
      | None => modify (update_effect r i j (set_failed scope_dispose_timeout))
      | Some remaining =>
          outcome ← timeout (Z.min per_effect_deadline remaining)
                      (run_disposer r i j (pe_disposer effect));
          match outcome with
          | Some (Returned (Ok _)) => modify (update_effect r i j (set_status EffectStatus.Disposed))
          | Some (Returned (Err error)) =>
              _ ← modify (update_effect r i j (set_failed error));
              emit (effect_diagnostic effect ("effect cleanup failed: " +:+ de_code error))
          | Some Panicked =>
              _ ← modify (update_effect r i j (set_failed effect_dispose_panicked));
              emit (effect_diagnostic effect (de_message effect_dispose_panicked))
          | None =>
              _ ← modify (update_effect r i j (set_failed effect_dispose_timeout));
              emit (effect_diagnostic effect (de_message effect_dispose_timeout))
          end
      end
  end.

Definition all_disposed (records : list EffectRecord) : bool :=
  forallb (λ d, bool_decide (er_status d = EffectStatus.Disposed)) records.
Definition effect_outcome (records : list EffectRecord) : DisposeOutcome.t :=
  if all_disposed records then DisposeOutcome.Disposed else DisposeOutcome.Failed.

(** [EffectStack::dispose] of the [i]th plugin of a scope. *)
Definition dispose_effects (r : Ref) (i : nat) (per_effect_deadline total_deadline : Z)
    : async World EffectDisposeReport :=
  plugin ← gets (λ w, the_plugin w r i);
  match plugin with
  | None => never
  | Some plugin =>
      match ap_report plugin with
      | Some report => mret report
      | None =>
          started ← gets w_now;
          _ ← async_for (dispose_effect r i started per_effect_deadline total_deadline)
                (reverse (seq 0 (length (ap_effects plugin))));
          records ← gets (λ w, default [] ((λ p, pe_record <$> ap_effects p) <$> the_plugin w r i));
          let report := MkEffectReport (effect_outcome records) records in
          _ ← modify (update_plugin r i (set_effect_report report));
          mret report
      end
  end.

(** ** Scopes *)

Definition scope_state (w : World) (r : Ref) : option state := sn_state <$> w_scopes w !! r.
Definition open_state (st : state) : bool :=
  match st with ScopeLifecycleState.Ready | ScopeLifecycleState.Active => true | _ => false end.

Definition mark_active (r : Ref) (w : World) : World * result ScopeStateError () :=
  match scope_state w r with
  | Some ScopeLifecycleState.Ready =>
      (open_routing r (update_scope r (with_state ScopeLifecycleState.Active) w), Ok ())
  | actual => (w, Err (InvalidTransition ScopeLifecycleState.Ready
                         (default ScopeLifecycleState.Failed actual)))
  end.

Definition attach_child (r child : Ref) (w : World) : World * result ScopeStateError () :=
  match w_scopes w !! r, w_scopes w !! child with
  | Some s, Some c =>
      if negb (open_state (sn_state s)) then
        (w, Err (InvalidTransition ScopeLifecycleState.Active (sn_state s)))
      else if negb (bool_decide (scope_parent_id (sn_identity c) = Some (Errors.scope_id (sn_identity s))))
      then (w, Err InvalidChildParent)
      else (update_scope r (with_children (λ l, l ++ [child])) w, Ok ())
  | _, _ => (w, Err InvalidChildParent)
  end.
(** [position] and [remove]. *)
Definition remove_first (x : Ref) (l : list Ref) : list Ref :=
  match list_find (eq x) l with Some (i, _) => delete i l | None => l end.
Definition replace_child (r : Ref) (expected : option Ref) (candidate : Ref) : World → World :=
  update_scope r (with_children (λ l,
    match expected with Some x => remove_first x l | None => l end ++ [candidate])).
Definition remove_child (r expected : Ref) : World → World :=
  update_scope r (with_children (List.filter (λ x, negb (bool_decide (x = expected))))).

Definition scope_diagnostic (code : DiagnosticCode.t) (severity : DiagnosticSeverity) (r : Ref)
    (message : string) (w : World) : World :=
  log (lifecycle_diagnostic code severity (sn_identity <$> w_scopes w !! r) None None message) w.

(** The compare-and-exchange loop ends in its first round when nothing else
    changes the state. *)
Definition begin_quiesce (r : Ref) (w : World) : World :=
  let w := if is_some_and open_state (scope_state w r) then
             scope_diagnostic DiagnosticCode.QuiesceStarted Info r "scope quiesce started"
               (update_scope r (with_state ScopeLifecycleState.Quiescing) w)
           else w in
  cancel r (close_tasks r (close_routing r w)).

(** [self.dispose_gate.lock().await], held for a computation: a gate that is held
    is held by an enclosing disposal, and never opens for the inner one. *)
Definition lock_gate {A} (r : Ref) (m : async World A) : async World A :=
  held ← gets (λ w, sn_dispose_gate <$> w_scopes w !! r);
  match held with
  | Some false => bracket (update_scope r (with_gate true)) (update_scope r (with_gate false)) m
  | _ => never
  end.

Definition timed_out_scope_report (w : World) (identity : ScopeIdentity) (r : Ref) : ScopeDisposeReport :=
  MkScopeReport identity DisposeOutcome.Failed true (tasks_len w r) (active_leases w r) [] [].

(** The reports of the children, and whether one of them ran out of time. *)
Definition dispose_child
    (quiesce_and_dispose : Ref → LifecycleDeadlines → async World ScopeDisposeReport)
    (deadlines : LifecycleDeadlines) (started : Z) (acc : list ScopeDisposeReport * bool) (child : Ref)
    : async World (list ScopeDisposeReport * bool) :=
  identity ← gets (λ w, sn_identity <$> w_scopes w !! child);
  match identity with
  | None => never
  | Some identity =>
      time ← gets w_now;
      match checked_sub (dl_scope deadlines) (time - started) with
      | None =>
          report ← gets (λ w, timed_out_scope_report w identity child);
          mret (acc.1 ++ [report], true)
      | Some remaining =>
          result ← timeout remaining (quiesce_and_dispose child
                     (MkDeadlines (dl_quiesce deadlines) (dl_effect deadlines) remaining));
          match result with
          | Some report => mret (acc.1 ++ [report], acc.2)
          | None =>
              report ← gets (λ w, timed_out_scope_report w identity child);
              mret (acc.1 ++ [report], true)
          end
      end
  end.

Definition dispose_plugin (r : Ref) (deadlines : LifecycleDeadlines) (started : Z)
    (acc : list (PluginInstanceIdentity * EffectDisposeReport)) (i : nat)
    : async World (list (PluginInstanceIdentity * EffectDisposeReport)) :=
  time ← gets w_now;
  let remaining := default 0 (checked_sub (dl_scope deadlines) (time - started)) in
  report ← dispose_effects r i (dl_effect deadlines) remaining;
  instance ← gets (λ w, ap_instance <$> the_plugin w r i);
  match instance with
  | Some instance => mret (acc ++ [(instance, report)])
  | None => never
  end.

Definition scope_failed (quiesce_timed_out child_timeout : bool) (child_reports : list ScopeDisposeReport)
    (plugin_reports : list (PluginInstanceIdentity * EffectDisposeReport)) : bool :=
  quiesce_timed_out || child_timeout
  || existsb (λ p, bool_decide (sdr_outcome p = DisposeOutcome.Failed)) child_reports
  || existsb (λ p, bool_decide (edr_outcome p.2 = DisposeOutcome.Failed)) plugin_reports.

(** The part after the disposal of what the scope owns. *)
Definition finish_disposal (r : Ref) (quiesce_timed_out child_timeout : bool)
    (child_reports : list ScopeDisposeReport)
    (plugin_reports : list (PluginInstanceIdentity * EffectDisposeReport))
    (identity : ScopeIdentity) : async World ScopeDisposeReport :=
  let failed := scope_failed quiesce_timed_out child_timeout child_reports plugin_reports in
  _ ← modify (update_scope r (with_state (if failed then ScopeLifecycleState.Failed
                                          else ScopeLifecycleState.Disposed)));
  _ ← modify (scope_diagnostic
        (if failed then DiagnosticCode.ScopeDisposeFailed else DiagnosticCode.ScopeDisposed)
        (if failed then Error else Info) r
        (if failed then "scope disposal completed with leaked resources" else "scope disposed"));
  report ← gets (λ w,
    MkScopeReport identity (if failed then DisposeOutcome.Failed else DisposeOutcome.Disposed)
      (quiesce_timed_out || child_timeout) (tasks_len w r) (active_leases w r)
      child_reports plugin_reports);
  _ ← modify (update_scope r (with_report report));
  mret report.

(** What runs under the gate when there is no report yet. *)
Definition dispose_scope
    (quiesce_and_dispose : Ref → LifecycleDeadlines → async World ScopeDisposeReport)
    (r : Ref) (deadlines : LifecycleDeadlines) : async World ScopeDisposeReport :=
  _ ← modify (begin_quiesce r);
  started ← gets w_now;
  quiet ← timeout (Z.min (dl_quiesce deadlines) (dl_scope deadlines)) (wait_for_quiet r);
  let quiesce_timed_out := negb (is_some quiet) in
  _ ← modify (if quiesce_timed_out
              then scope_diagnostic DiagnosticCode.QuiesceTimeout Error r
                     "scope tasks or leases did not drain before the quiesce deadline"
              else id);
  _ ← modify (update_scope r (with_state ScopeLifecycleState.Disposing));
  scope ← gets (λ w, w_scopes w !! r);
  match scope with
  | None => never
  | Some s =>
      children ← async_fold (dispose_child quiesce_and_dispose deadlines started) ([], false)
                   (reverse (sn_children s));
      plugin_reports ← async_fold (dispose_plugin r deadlines started) []
                         (reverse (seq 0 (length (sn_plugins s))));
      finish_disposal r quiesce_timed_out children.2 children.1 plugin_reports (sn_identity s)
  end.

(** The recursion goes down the tree of scopes.  Each level holds another gate, so
    one more than the number of scopes is fuel enough. *)
Fixpoint quiesce_and_dispose_fuel (fuel : nat) (r : Ref) (deadlines : LifecycleDeadlines)
    : async World ScopeDisposeReport :=
  match fuel with
  | O => never
  | S fuel =>
      lock_gate r
        (report ← gets (λ w, s ← w_scopes w !! r; sn_dispose_report s);
         match report with
         | Some report => mret report
         | None => dispose_scope (quiesce_and_dispose_fuel fuel) r deadlines
         end)
  end.
Definition quiesce_and_dispose (r : Ref) (deadlines : LifecycleDeadlines)
    : async World ScopeDisposeReport := λ D w,
  quiesce_and_dispose_fuel (S (size (w_scopes w))) r deadlines D w.
End lifecycle.
