(* ===== verification/LifecycleProps.v ===== *)
(** * Properties of scope disposal

    A disposal, dropped or not, moves the world forward ([evolves]); one that is
    not dropped returns a report within the scope deadline, closes the whole tree
    below the scope, and treats the effects as a timeline says. *)
From S2P Require Import Prelude Text Errors External Ids Model Broker Async Lifecycle.
#[local] Open Scope Z_scope.

(** ** What a disposal may change *)

Definition state_rank (st : state) : Z :=
  match st with
  | ScopeLifecycleState.Ready => 0 | ScopeLifecycleState.Active => 1
  | ScopeLifecycleState.Quiescing => 2 | ScopeLifecycleState.Disposing => 3
  | ScopeLifecycleState.Disposed | ScopeLifecycleState.Failed => 4
  end.
(** A disposal opens nothing: a state it reaches is not an open one. *)
Definition advances (st st' : state) : Prop :=
  st = st' ∨ (state_rank st < state_rank st' ∧ open_state st' = false).
Definition terminal (st : state) : bool :=
  match st with ScopeLifecycleState.Disposed | ScopeLifecycleState.Failed => true | _ => false end.

#[global] Instance advances_preorder : PreOrder advances.
Proof.
  split; [by left|]. intros st1 st2 st3 [->|H1] [->|H2];
    [by left|by right|by right|right; split; [lia|tauto]].
Qed.
Lemma advances_closed st st' : advances st st' → open_state st = false → open_state st' = false.
Proof. by intros [->|[_ ?]]. Qed.
Lemma advances_open st st' : advances st st' → open_state st' = true → st' = st.
Proof. intros [->|[_ ->]]; done. Qed.

Lemma option_Forall2_Some {A B} (R : A → B → Prop) x o :
  option_Forall2 R (Some x) o → ∃ y, o = Some y ∧ R x y.
Proof. intros Ho. inv Ho. eauto. Qed.

Lemma alter_alter `{Countable K} {A} (f g : A → A) k (m : gmap K A) :
  alter f k (alter g k m) = alter (f ∘ g) k m.
Proof.
  apply map_eq. intros i. rewrite !lookup_alter. case_decide; [subst i|done].
  rewrite decide_True by done. by destruct (m !! k).
Qed.

Section props.
Context `{SerdeToVec}.
Implicit Types (w : World) (r : Ref) (D : option Z) (s : ScopeSnapshot) (t : ScopeRuntime).

Record scope_evolves s s' : Prop := {
  se_identity : sn_identity s' = sn_identity s;
  se_plan : sn_plan s' = sn_plan s;
  se_children : sn_children s' = sn_children s;
  se_gate : sn_dispose_gate s' = sn_dispose_gate s;
  se_instances : ap_instance <$> sn_plugins s' = ap_instance <$> sn_plugins s;
  se_state : advances (sn_state s) (sn_state s');
  se_report rep : sn_dispose_report s = Some rep → sn_dispose_report s' = Some rep
}.
(** Registrations are only withdrawn. *)
Record runtime_evolves t t' : Prop := {
  re_scope : rt_scope t' = rt_scope t;
  re_leases : rt_leases t' = rt_leases t;
  re_tasks : rt_tasks t' = rt_tasks t;
  re_routing : rt_routing t' = true → rt_routing t = true;
  re_owner table c i : table_owner t' table c = Some i → table_owner t table c = Some i
}.

Definition terminal_state (o : DisposeOutcome.t) : state :=
  match o with
  | DisposeOutcome.Disposed => ScopeLifecycleState.Disposed
  | DisposeOutcome.Failed => ScopeLifecycleState.Failed
  end.
(** Nothing is left over in the scope, nor below it. *)
Fixpoint clean (report : ScopeDisposeReport) : Prop :=
  sdr_quiesce_timed_out report = false ∧ sdr_remaining_tasks report = 0 ∧
  sdr_remaining_leases report = 0 ∧
  (∀ p, p ∈ sdr_plugin_reports report → all_disposed (edr_records p.2) = true) ∧
  (fix children (l : list ScopeDisposeReport) : Prop :=
     match l with [] => True | c :: l => clean c ∧ children l end) (sdr_child_reports report).
Definition report_sound (report : ScopeDisposeReport) : Prop :=
  sdr_outcome report = DisposeOutcome.Disposed → clean report.
(** Whether a scope routes calls and admits tasks, and whether its token is
    cancelled. *)
Definition switches t : bool * bool * bool := (rt_routing t, rt_accepting t, rt_cancelled t).
Definition state_switches (st : state) : bool * bool * bool :=
  match st with
  | ScopeLifecycleState.Ready => (false, true, false)
  | ScopeLifecycleState.Active => (true, true, false)
  | _ => (false, false, true)
  end.
(** A scope's state decides what it admits, and it is at its end exactly when it
    has a report. *)
Record scope_ok s t : Prop := {
  so_scope : rt_scope t = sn_identity s;
  so_switches : switches t = state_switches (sn_state s);
  so_report rep : sn_dispose_report s = Some rep →
    sdr_scope rep = sn_identity s ∧ sn_state s = terminal_state (sdr_outcome rep) ∧ report_sound rep;
  so_terminal : terminal (sn_state s) = true → is_Some (sn_dispose_report s);
  so_plugins p rep : p ∈ sn_plugins s → ap_report p = Some rep →
    edr_outcome rep = effect_outcome (edr_records rep)
}.
(** The children of a scope that has been disposed of have been, too. *)
Record scopes_ok w : Prop := {
  ok_scope r s : w_scopes w !! r = Some s → ∃ t, w_runtimes w !! r = Some t ∧ scope_ok s t;
  ok_children r s c : w_scopes w !! r = Some s → is_Some (sn_dispose_report s) → c ∈ sn_children s →
    ∃ s', w_scopes w !! c = Some s' ∧ is_Some (sn_dispose_report s')
}.

(** The relation between the worlds before and after; the scopes of [F], the
    frame, stay as they are. *)
Record evolves_within (F : Ref → Prop) w w' : Prop := {
  ev_now : w_now w ≤ w_now w';
  ev_application : w_application w' = w_application w;
  ev_project : w_project w' = w_project w;
  ev_workspace : w_workspace w' = w_workspace w;
  ev_generation : w_next_generation w' = w_next_generation w;
  ev_scopes r : option_Forall2 scope_evolves (w_scopes w !! r) (w_scopes w' !! r);
  ev_runtimes r : option_Forall2 runtime_evolves (w_runtimes w !! r) (w_runtimes w' !! r);
  ev_frame r : F r → w_scopes w' !! r = w_scopes w !! r;
  ev_ok : scopes_ok w → scopes_ok w'
}.

#[global] Instance scope_evolves_preorder : PreOrder scope_evolves.
Proof.
  split; [done|]. intros s1 s2 s3 [] []. split; try congruence; [by etrans|auto].
Qed.
#[global] Instance runtime_evolves_preorder : PreOrder runtime_evolves.
Proof. split; [done|]. intros t1 t2 t3 [] []. split; try congruence; auto. Qed.
#[global] Instance evolves_preorder F : PreOrder (evolves_within F).
Proof.
  split.
  - intros w. split; try done; intros r; reflexivity.
  - intros w1 w2 w3 [] []. split; try congruence; [lia| | | |auto]; intros r.
    + etrans; [match goal with H : ∀ _, option_Forall2 _ (_ w1 !! _) _ |- _ => apply H end|done].
    + etrans; [match goal with H : ∀ _, option_Forall2 _ (_ w1 !! _) _ |- _ => apply H end|done].
    + intros Hr. transitivity (w_scopes w2 !! r); auto.
Qed.

Section frame.
Context (F : Ref → Prop).
#[local] Notation evolves := (evolves_within F).

Lemma evolves_scope w w' r s :
  evolves w w' → w_scopes w !! r = Some s → ∃ s', w_scopes w' !! r = Some s' ∧ scope_evolves s s'.
Proof. intros He Hs. pose proof (ev_scopes _ _ _ He r) as Hr. rewrite Hs in Hr. inv Hr. eauto. Qed.
Lemma evolves_scope_inv w w' r s' :
  evolves w w' → w_scopes w' !! r = Some s' → ∃ s, w_scopes w !! r = Some s ∧ scope_evolves s s'.
Proof. intros He Hs. pose proof (ev_scopes _ _ _ He r) as Hr. rewrite Hs in Hr. inv Hr. eauto. Qed.
Lemma evolves_runtime w w' r t :
  evolves w w' → w_runtimes w !! r = Some t →
  ∃ t', w_runtimes w' !! r = Some t' ∧ runtime_evolves t t'.
Proof. intros He Hs. pose proof (ev_runtimes _ _ _ He r) as Hr. rewrite Hs in Hr. inv Hr. eauto. Qed.

(** ** The updates *)

Lemma lookup_update_scope r r' f w :
  w_scopes (update_scope r f w) !! r' = (if decide (r = r') then f <$> w_scopes w !! r' else w_scopes w !! r').
Proof. simpl. rewrite lookup_alter. by case_decide; subst. Qed.
Lemma lookup_update_runtime r r' f w :
  w_runtimes (update_runtime r f w) !! r'
  = (if decide (r = r') then f <$> w_runtimes w !! r' else w_runtimes w !! r').
Proof. simpl. rewrite lookup_alter. by case_decide; subst. Qed.

Lemma scopes_ok_ext w w' :
  w_scopes w' = w_scopes w → w_runtimes w' = w_runtimes w → scopes_ok w → scopes_ok w'.
Proof. intros Hs Hr [Hok Hch]. split; rewrite ?Hs, ?Hr; done. Qed.
Lemma evolves_set_now w (time : Z) : w_now w ≤ time → evolves w (set_now time w).
Proof. intros Ht. split; try done; try (intros r; reflexivity). by apply scopes_ok_ext. Qed.
Lemma evolves_log w d : evolves w (log d w).
Proof. split; try done; try (intros r; reflexivity). by apply scopes_ok_ext. Qed.
Lemma evolves_update_scope_with w r f :
  ¬ F r →
  (∀ s, w_scopes w !! r = Some s → scope_evolves s (f s) ∧ (∀ t, scope_ok s t → scope_ok (f s) t) ∧
    (scopes_ok w → is_Some (sn_dispose_report (f s)) → ∀ c, c ∈ sn_children s →
       ∃ s', w_scopes w !! c = Some s' ∧ is_Some (sn_dispose_report s'))) →
  evolves w (update_scope r f w).
Proof.
  intros HF Hf. assert (Hev : ∀ r', option_Forall2 scope_evolves (w_scopes w !! r')
                                   (w_scopes (update_scope r f w) !! r')).
  { intros r'. rewrite lookup_update_scope. case_decide as E; [subst r'|reflexivity].
    destruct (w_scopes w !! r) eqn:Hs; simpl; constructor. by apply Hf. }
  split; try done; try (intros r'; reflexivity).
  { intros r' Hr'. rewrite lookup_update_scope, decide_False; [done|by intros ->]. }
  intros Hok. split.
  - intros r' s'. rewrite lookup_update_scope. case_decide as E; [subst r'|by apply Hok].
    intros (s & Hs & ->)%fmap_Some. destruct (ok_scope _ Hok r s Hs) as (t & Ht & Hst).
    exists t. split; [done|]. by apply Hf.
  - intros r' s' c Hs' Hrep Hc.
    assert (Hc' : ∃ s'', w_scopes w !! c = Some s'' ∧ is_Some (sn_dispose_report s'')).
    { revert Hs' Hrep Hc. rewrite lookup_update_scope. case_decide as E; [subst r'|by apply Hok].
      intros (s & Hs & ->)%fmap_Some Hrep. destruct (Hf s Hs) as ([] & _ & Hcs).
      intros Hc. apply (Hcs Hok Hrep). congruence. }
    destruct Hc' as (s'' & Hs'' & [rep Hrep'']). pose proof (Hev c) as Hevc. rewrite Hs'' in Hevc.
    apply option_Forall2_Some in Hevc as (s3 & Hs3 & []). exists s3. split; [done|]. eauto.
Qed.
Lemma evolves_update_scope w r f :
  ¬ F r →
  (∀ s, w_scopes w !! r = Some s → scope_evolves s (f s) ∧ (∀ t, scope_ok s t → scope_ok (f s) t) ∧
    sn_dispose_report (f s) = sn_dispose_report s) →
  evolves w (update_scope r f w).
Proof.
  intros HF Hf. apply evolves_update_scope_with; [done|]. intros s Hs. destruct (Hf s Hs) as (? & ? & Hrep).
  split_and!; [done..|]. intros Hok. rewrite Hrep. intros Hsome c Hc. by apply (ok_children _ Hok r s c).
Qed.
Lemma evolves_update_runtime w r f :
  (∀ t, w_runtimes w !! r = Some t → runtime_evolves t (f t) ∧ switches (f t) = switches t) →
  evolves w (update_runtime r f w).
Proof.
  intros Hf. assert (Hev : ∀ r', option_Forall2 runtime_evolves (w_runtimes w !! r')
                                   (w_runtimes (update_runtime r f w) !! r')).
  { intros r'. rewrite lookup_update_runtime. case_decide as E; [subst r'|reflexivity].
    destruct (w_runtimes w !! r) eqn:Ht; simpl; constructor. by apply Hf. }
  split; try done; try (intros r'; reflexivity). intros [Hok Hch]. split; [|done].
  intros r' s' Hs'. simpl in Hs'. rewrite lookup_update_runtime.
  destruct (Hok r' s' Hs') as (t & Ht & [Ho1 Ho2 Ho3 Ho4 Ho5]). rewrite Ht.
  case_decide; [subst r'|by exists t]. exists (f t). split; [done|].
  destruct (Hf t Ht) as [[Hre1 ? ? ? ?] Hsw]. split; try done; congruence.
Qed.

Lemma table_owner_insert i c e t table c' :
  table_owner (table_insert i c e t) table c'
  = if decide (table = entry_table e ∧ c = c') then Some i else table_owner t table c'.
Proof.
  destruct e, table; simpl; rewrite ?lookup_insert; repeat case_decide; naive_solver.
Qed.
Lemma table_owner_delete table c t table' c' :
  table_owner (table_delete table c t) table' c'
  = if decide (table = table' ∧ c = c') then None else table_owner t table' c'.
Proof.
  destruct table, table'; simpl; rewrite ?lookup_delete; repeat case_decide; naive_solver.
Qed.
Lemma evolves_dispose_registration w g : evolves w (dispose_registration g w).1.
Proof.
  unfold dispose_registration. destruct (rr_disposed g); [done|]. simpl.
  apply evolves_update_runtime. intros t _. case_bool_decide; [|done].
  split; [|by destruct (rr_table g)]. split; try (destruct (rr_table g); done). intros table c i. rewrite table_owner_delete.
  by case_decide.
Qed.
Lemma evolves_update_plugin w r i f :
  ¬ F r →
  (∀ p, ap_instance (f p) = ap_instance p ∧
    ∀ rep, ap_report (f p) = Some rep → ap_report p = Some rep ∨
      edr_outcome rep = effect_outcome (edr_records rep)) →
  evolves w (update_plugin r i f w).
Proof.
  intros HF Hf. apply evolves_update_scope; [done|]. intros s _. split_and!; [|intros t []; split; try done|done].
  - split; try done. simpl. apply list_eq. intros k. rewrite !list_lookup_fmap, list_lookup_alter.
    case_decide; [subst k|done]. destruct (sn_plugins s !! i) as [p|]; simpl; [|done].
    by rewrite (proj1 (Hf p)).
  - intros p rep [k Hk]%list_elem_of_lookup. simpl in Hk. rewrite list_lookup_alter in Hk.
    case_decide; [subst k|by apply so_plugins0, list_elem_of_lookup; eauto].
    apply fmap_Some in Hk as (q & Hq & ->). intros [Hrep|?]%Hf; [|done].
    apply (so_plugins0 q); [|done]. apply list_elem_of_lookup. eauto.
Qed.
Lemma evolves_update_effect w r i j f : ¬ F r → evolves w (update_effect r i j f w).
Proof. intros HF. apply evolves_update_plugin; auto. Qed.

(** ** Time

    [finished]: returned by a time.  [in_progress]: dropped, and that before the
    time by which the computation would have returned.  No computation runs past
    the time of its drop. *)
Definition capped D w w' : Prop := ∀ d, D = Some d → w_now w' ≤ Z.max (w_now w) d.
Definition finished D w (b : Z) w' : Prop :=
  evolves w w' ∧ w_now w' ≤ Z.max (w_now w) b ∧ capped D w w'.
Definition in_progress D w (b : Z) w' : Prop :=
  evolves w w' ∧ unless_dropped D b = false ∧ capped D w w'.

Lemma unless_dropped_false D b : unless_dropped D b = false ↔ ∃ d, D = Some d ∧ d < b.
Proof. destruct D as [d|]; simpl; [rewrite Z.leb_gt|]; naive_solver. Qed.
Lemma capped_trans D w1 w2 w3 : capped D w1 w2 → capped D w2 w3 → capped D w1 w3.
Proof. intros H1 H2 d ->. specialize (H1 d eq_refl). specialize (H2 d eq_refl). lia. Qed.
Lemma capped_sync D w w' : w_now w' = w_now w → capped D w w'.
Proof. intros Hn d _. lia. Qed.
Lemma finished_sync D w b w' : evolves w w' → w_now w' = w_now w → finished D w b w'.
Proof. intros ? ?. split_and!; [done|lia|by apply capped_sync]. Qed.
Lemma finished_refl D w b : finished D w b w.
Proof. by apply finished_sync. Qed.
Lemma finished_trans D w1 w2 w3 b : finished D w1 b w2 → finished D w2 b w3 → finished D w1 b w3.
Proof. intros (?&?&?) (?&?&?). split_and!; [by etrans|lia|by eapply capped_trans]. Qed.
Lemma finished_mono D w b b' w' : b ≤ b' → finished D w b w' → finished D w b' w'.
Proof. intros ? (?&?&?). split_and!; [done|lia|done]. Qed.
Lemma in_progress_trans D w1 w2 w3 b : finished D w1 b w2 → in_progress D w2 b w3 → in_progress D w1 b w3.
Proof. intros (?&?&?) (?&?&?). split_and!; [by etrans|done|by eapply capped_trans]. Qed.
Lemma in_progress_mono D w b b' w' : b ≤ b' → in_progress D w b w' → in_progress D w b' w'.
Proof.
  intros ? (?&(d&->&?)%unless_dropped_false&?).
  split_and!; [done|apply unless_dropped_false; exists d; split; [done|lia]|done].
Qed.

(** Of all scopes only [r] is touched, and of it only the plugins. *)
Definition plugins_only r w w' : Prop :=
  ∃ f, w_scopes w' = alter (with_plugins f) r (w_scopes w).
#[global] Instance plugins_only_preorder r : PreOrder (plugins_only r).
Proof.
  split.
  - intros w. exists id. symmetry. apply alter_id. by intros [].
  - intros w1 w2 w3 [f Hf] [g Hg]. exists (g ∘ f). rewrite Hg, Hf, alter_alter. by apply alter_ext.
Qed.
Lemma plugins_only_same r w w' : w_scopes w' = w_scopes w → plugins_only r w w'.
Proof. intros Heq. exists id. rewrite Heq. symmetry. apply alter_id. by intros []. Qed.
Lemma plugins_only_update r i f w : plugins_only r w (update_plugin r i f w).
Proof. by eexists. Qed.
Lemma plugins_only_lookup r w w' s :
  plugins_only r w w' → w_scopes w !! r = Some s →
  ∃ ps, w_scopes w' !! r = Some (with_plugins (λ _, ps) s) ∧
        ∀ x, x ≠ r → w_scopes w' !! x = w_scopes w !! x.
Proof.
  intros [f Hf] Hs. exists (f (sn_plugins s)). rewrite Hf. split; [by rewrite lookup_alter_eq, Hs|].
  intros x Hx. by rewrite lookup_alter_ne.
Qed.

(** A computation whose only effects beside waiting are forward moves, on the
    plugins of [r]. *)
Definition moves D r w w' : Prop := evolves w w' ∧ capped D w w' ∧ plugins_only r w w'.
Definition forward r {A} (m : async World A) : Prop :=
  ∀ D w, wp m D w (λ _ w', moves D r w w') (λ w', moves D r w w').

Lemma moves_trans D r w1 w2 w3 : moves D r w1 w2 → moves D r w2 w3 → moves D r w1 w3.
Proof. intros (?&?&?) (?&?&?). split_and!; [by etrans|by eapply capped_trans|by etrans]. Qed.
Lemma moves_sync D r w w' : evolves w w' → w_now w' = w_now w → plugins_only r w w' → moves D r w w'.
Proof. intros. split_and!; [done|by apply capped_sync|done]. Qed.
Lemma moves_refl D r w : moves D r w w.
Proof. by apply moves_sync. Qed.
Lemma forward_await_until r (time : option Z) : forward r (await_until time).
Proof.
  intros D w. unfold wp, await_until.
  destruct time as [time|]; [destruct (unless_dropped D _) eqn:Hu|];
    (split_and!; [apply evolves_set_now; simpl; lia
                 |intros d ->; simpl in *; try apply Z.leb_le in Hu; lia|by apply plugins_only_same]).
Qed.
Lemma forward_await r (delay : option Z) : forward r (await delay).
Proof. intros D w. apply (forward_await_until r _ D w). Qed.
Lemma forward_never r {A} : forward r (@never World _ A).
Proof.
  intros D w. unfold wp, never, await_until.
  split_and!; [apply evolves_set_now; simpl; lia|intros d ->; simpl; lia|by apply plugins_only_same].
Qed.
Lemma forward_ret r {A} (a : A) : forward r (mret a).
Proof. intros D w. apply wp_ret, moves_refl. Qed.
Lemma forward_bind r {A B} (m : async World A) (f : A → async World B) :
  forward r m → (∀ a, forward r (f a)) → forward r (m ≫= f).
Proof.
  intros Hm Hf D w. apply wp_bind. eapply wp_mono; [apply Hm| |done].
  intros a w1 Hw. eapply wp_mono; [apply Hf|..]; simpl.
  - intros c w2 H2. exact (moves_trans _ _ _ _ _ Hw H2).
  - intros w2 H2. exact (moves_trans _ _ _ _ _ Hw H2).
Qed.
Lemma forward_gets r {A} (f : World → A) : forward r (gets f).
Proof. intros D w. apply wp_gets, moves_refl. Qed.
Lemma forward_update_effect r i j f : ¬ F r → forward r (modify (update_effect r i j f)).
Proof.
  intros HF D w. apply wp_modify, moves_sync; [by apply evolves_update_effect|done|apply plugins_only_update].
Qed.
Lemma forward_wait_for_quiet r : forward r (wait_for_quiet r).
Proof.
  apply forward_bind; [apply forward_gets|]. intros [t|]; [apply forward_await_until|apply forward_never].
Qed.
Lemma forward_dispose_registration r g : forward r (call (dispose_registration g)).
Proof.
  intros D w. apply wp_call, moves_sync; [apply evolves_dispose_registration|..];
    unfold dispose_registration; destruct (rr_disposed g); try done. by apply plugins_only_same.
Qed.
Lemma forward_run_disposer r i j d : ¬ F r → forward r (run_disposer r i j d).
Proof.
  intros HF. destruct d as [g|calls behaviour]; simpl.
  - apply forward_bind; [apply forward_dispose_registration|intros g'].
    apply forward_bind; [by apply forward_update_effect|intros []; apply forward_ret].
  - apply forward_bind; [by apply forward_update_effect|intros []].
    apply forward_bind; [apply forward_await|intros []; apply forward_ret].
Qed.

(** [m] returns by the time [b], with [P], unless it is dropped before. *)
Definition runs {A} D w (b : Z) (m : async World A) (P : A → World → Prop) : Prop :=
  wp m D w (λ a w', finished D w b w' ∧ P a w') (in_progress D w b).

Lemma runs_ret {A} D w b (a : A) (P : A → World → Prop) : P a w → runs D w b (mret a) P.
Proof. intros HP. apply wp_ret. split; [apply finished_refl|done]. Qed.
Lemma runs_gets {A} D w b (f : World → A) (P : A → World → Prop) : P (f w) w → runs D w b (gets f) P.
Proof. intros HP. apply wp_gets. split; [apply finished_refl|done]. Qed.
Lemma runs_modify D w b f (P : () → World → Prop) :
  evolves w (f w) → w_now (f w) = w_now w → P () (f w) → runs D w b (modify f) P.
Proof. intros ? ? HP. apply wp_modify. split; [by apply finished_sync|done]. Qed.
Lemma runs_mono {A} D w b b' (m : async World A) (P Q : A → World → Prop) :
  runs D w b m P → b ≤ b' → (∀ a w', finished D w b w' → P a w' → Q a w') → runs D w b' m Q.
Proof.
  intros Hm Hb HPQ. eapply wp_mono; [apply Hm|..]; simpl.
  - intros a w' [Hf HP]. split; [by eapply finished_mono|by apply HPQ].
  - intros w'. by apply in_progress_mono.
Qed.
Lemma runs_bind {A B} D w b (m : async World A) (f : A → async World B)
    (P : A → World → Prop) (Q : B → World → Prop) :
  runs D w b m P →
  (∀ a w', finished D w b w' → P a w' → runs D w' b (f a) Q) →
  runs D w b (m ≫= f) Q.
Proof.
  intros Hm Hf. apply wp_bind. eapply wp_mono; [apply Hm| |done]. simpl.
  intros a w' [Hfin HP]. eapply wp_mono; [by apply (Hf a w')|..]; simpl.
  - intros c w'' [? ?]. split; [by eapply finished_trans|done].
  - intros w''. by apply in_progress_trans.
Qed.
Lemma runs_fold {A S} (body : S → A → async World S) (l : list A) (s0 : S) D w b (I : list A → S → World → Prop) :
  I [] s0 w →
  (∀ k x st w, k ++ [x] `prefix_of` l → I k st w → runs D w b (body st x) (I (k ++ [x]))) →
  runs D w b (async_fold body s0 l) (I l).
Proof.
  intros HI Hbody. apply (wp_fold body l s0 D w (λ k st w', finished D w b w' ∧ I k st w')).
  - split; [apply finished_refl|done].
  - intros k x s' w' Hk [Hf HI']. eapply wp_mono; [by apply Hbody|..]; simpl.
    + intros s'' w'' [? ?]. split; [by eapply finished_trans|done].
    + intros w''. by apply in_progress_trans.
Qed.
Lemma runs_for {A} (body : A → async World ()) (l : list A) D w b (I : list A → World → Prop) :
  I [] w →
  (∀ k x w, k ++ [x] `prefix_of` l → I k w → runs D w b (body x) (λ _, I (k ++ [x]))) →
  runs D w b (async_for body l) (λ _, I l).
Proof.
  intros HI Hbody. apply (wp_for body l D w (λ k w', finished D w b w' ∧ I k w')).
  - split; [apply finished_refl|done].
  - intros k x w' Hk [Hf HI']. eapply wp_mono; [by apply Hbody|..]; simpl.
    + intros [] w'' [? ?]. split; [by eapply finished_trans|done].
    + intros w''. by apply in_progress_trans.
Qed.

Context `{!Tokio World}.

(** A timeout brings a computation to its end in time... *)
Lemma runs_timeout_forward {A} (d b : Z) (m : async World A) D w r (Q : A → World → Prop) :
  (∀ D, wp m D w (λ a w', moves D r w w' ∧ Q a w') (λ w', moves D r w w')) →
  w_now w + d ≤ b →
  runs D w b (timeout d m) (λ o w', plugins_only r w w' ∧ ∀ a, o = Some a → Q a w').
Proof.
  intros Hm Hb.
  apply (runs_mono D w (w_now w + d) b _ (λ o w', plugins_only r w w' ∧ ∀ a, o = Some a → Q a w'));
    [|exact Hb|done]. apply wp_timeout. simpl. eapply wp_mono; [apply Hm|..]; simpl.
  - intros a w' [(He & Hc & Hp) HQ]. split; [|by split; [|intros ? [= <-]]].
    destruct D as [t|]; specialize (Hc _ eq_refl);
      (split_and!; [done|lia|intros ? [= <-]; lia]) || (split_and!; [done|lia|done]).
  - intros w' (He & Hc & Hp). destruct (unless_dropped D (w_now w + d)) eqn:Hu.
    + split; [|done]. destruct D as [t|]; specialize (Hc _ eq_refl);
        (split_and!; [done|lia|intros ? [= <-]; lia]) || (split_and!; [done|lia|done]).
    + split_and!; [done|done|]. destruct D as [t|]; [|done]. specialize (Hc _ eq_refl).
      intros ? [= <-]. lia.
Qed.
(** ... and does not cut one that ends within the time. *)
Lemma runs_timeout_bounded {A} (d : Z) (m : async World A) D w (P : A → World → Prop) :
  (∀ D, runs D w (w_now w + d) m P) →
  runs D w (w_now w + d) (timeout d m) (λ o w', ∃ a, o = Some a ∧ P a w').
Proof.
  intros Hm. apply wp_timeout. simpl. eapply wp_mono; [apply Hm|..]; simpl.
  - intros a w' [(He & Hn & Hc) HP]. split; [|eauto]. split_and!; [done|done|].
    destruct D as [t|]; [|done]. specialize (Hc _ eq_refl). intros ? [= <-]. lia.
  - intros w' (He & (t' & Ht' & Hlt)%unless_dropped_false & Hc). injection Ht' as Ht'.
    assert (Hu : unless_dropped D (w_now w + d) = false).
    { apply unless_dropped_false. destruct D as [t|]; [exists t; split; [done|lia]|lia]. }
    rewrite Hu. split_and!; [done|done|]. destruct D as [t|]; [|done]. specialize (Hc _ eq_refl).
    intros ? [= <-]. lia.
Qed.

(** ** The disposal of effects *)

Lemma runs_update_effect r i j f D w b : ¬ F r → runs D w b (modify (update_effect r i j f)) (λ _, plugins_only r w).
Proof. intros HF. apply runs_modify; [by apply evolves_update_effect|done|apply plugins_only_update]. Qed.
Lemma runs_emit r d D w b : runs D w b (emit d) (λ _, plugins_only r w).
Proof. apply runs_modify; [apply evolves_log|done|by apply plugins_only_same]. Qed.
Lemma runs_only {A} r D w0 w b (m : async World A) :
  runs D w b m (λ _, plugins_only r w) → plugins_only r w0 w → runs D w b m (λ _, plugins_only r w0).
Proof. intros Hm Hw. eapply runs_mono; [apply Hm|done|]. intros a w' _ Hp. by etrans. Qed.
Lemma runs_fail_effect r i j f d D w0 w b :
  ¬ F r → plugins_only r w0 w →
  runs D w b (modify (update_effect r i j f) ≫= λ _, emit d) (λ _, plugins_only r w0).
Proof.
  intros HF Hp. eapply runs_bind; [by apply runs_update_effect|]. intros [] w' _ Hp'.
  eapply runs_only; [apply runs_emit|by etrans].
Qed.
Lemma runs_dispose_effect r i j (started per total : Z) D w b :
  ¬ F r → started + total ≤ b →
  runs D w b (dispose_effect r i started per total j) (λ _, plugins_only r w).
Proof.
  intros HF Hb. unfold dispose_effect. eapply runs_bind; [by apply (runs_gets _ _ _ _ (λ _ w', w' = w))|].
  intros [e|] _ _ ->; [|by apply runs_ret].
  eapply runs_bind; [by apply runs_update_effect|]. intros [] w2 _ Hp2.
  eapply runs_bind; [by apply (runs_gets _ _ _ _ (λ a w', a = w_now w' ∧ w' = w2))|].
  intros time w3 _ [-> ->]. unfold checked_sub. destruct (Z.leb_spec (w_now w2 - started) total).
  - eapply runs_bind.
    { apply (runs_timeout_forward _ _ _ _ _ r (λ _ _, True)); [|lia]. intros D'.
      eapply wp_mono; [by apply forward_run_disposer|by split|done]. }
    intros [[[u|error]|]|] w4 _ [Hp4 _]; assert (plugins_only r w w4) by (by etrans);
      try by apply runs_fail_effect.
    eapply runs_only; [by apply runs_update_effect|done].
  - eapply runs_only; [by apply runs_update_effect|done].
Qed.

Lemma evolves_plugin w w' r i p :
  evolves w w' → the_plugin w r i = Some p →
  ∃ p', the_plugin w' r i = Some p' ∧ ap_instance p' = ap_instance p.
Proof.
  unfold the_plugin. intros He (s & Hs & Hp)%bind_Some.
  destruct (evolves_scope _ _ _ _ He Hs) as (s' & Hs' & [_ _ _ _ Hi _ _]). rewrite Hs'. simpl.
  assert (Hl : (ap_instance <$> sn_plugins s') !! i = Some (ap_instance p))
    by (rewrite Hi, list_lookup_fmap, Hp; done).
  rewrite list_lookup_fmap in Hl. apply fmap_Some in Hl as (p' & Hp' & ?). eauto.
Qed.
Lemma plugin_report_ok w r i p rep :
  scopes_ok w → the_plugin w r i = Some p → ap_report p = Some rep →
  edr_outcome rep = effect_outcome (edr_records rep).
Proof.
  unfold the_plugin. intros Hok (s & Hs & Hp)%bind_Some.
  destruct (ok_scope _ Hok r s Hs) as (t & _ & Hst). apply (so_plugins _ _ Hst).
  apply list_elem_of_lookup. eauto.
Qed.

(** What a disposal of effects reports. *)
Definition effect_report_ok (rep : EffectDisposeReport) : Prop :=
  edr_outcome rep = effect_outcome (edr_records rep).
Lemma runs_dispose_effects r i (per total : Z) D w b p :
  ¬ F r → scopes_ok w → the_plugin w r i = Some p → w_now w + total ≤ b →
  runs D w b (dispose_effects r i per total) (λ rep w', effect_report_ok rep ∧ plugins_only r w w').
Proof.
  intros HF Hok Hp Hb. unfold dispose_effects.
  eapply runs_bind; [by apply (runs_gets _ _ _ _ (λ a w', a = Some p ∧ w' = w))|].
  intros _ w1 _ [-> ->]. destruct (ap_report p) as [rep|] eqn:Hrep.
  { apply runs_ret. split; [by eapply plugin_report_ok|done]. }
  eapply runs_bind; [by apply (runs_gets _ _ _ _ (λ a w', a = w_now w ∧ w' = w))|].
  intros _ w1 _ [-> ->].
  eapply runs_bind.
  { apply (runs_for _ _ _ _ _ (λ _ w', plugins_only r w w')); [done|].
    intros k j w1 _ Hp1. eapply runs_only; [|done]. by apply runs_dispose_effect. }
  intros [] w1 _ Hp1.
  eapply runs_bind; [by apply (runs_gets _ _ _ _ (λ _ w', w' = w1))|].
  intros records _ _ ->.
  apply (runs_bind _ _ _ _ _ (λ _ w', plugins_only r w w'));
    [|intros [] w3 _ Hp3; apply runs_ret; split; [done|exact Hp3]].
  apply (runs_modify _ _ _ _ (λ _ w', plugins_only r w w')); [|done|].
  - apply evolves_update_plugin; [done|]. intros q. split; [done|]. intros rep [= <-]. by right.
  - etrans; [done|apply plugins_only_update].
Qed.

(** ** Quiescing *)

Definition closed_runtime t : Prop :=
  rt_routing t = false ∧ rt_accepting t = false ∧ rt_cancelled t = true.
Lemma closed_switches s t : scope_ok s t → open_state (sn_state s) = false → closed_runtime t.
Proof.
  intros Hst Hopen. pose proof (so_switches _ _ Hst) as Hsw. unfold switches in Hsw.
  by destruct (sn_state s); simplify_eq/=.
Qed.
Lemma update_runtime_ext w r f g :
  (∀ t, w_runtimes w !! r = Some t → f t = g t) → update_runtime r f w = update_runtime r g w.
Proof. intros Hfg. unfold update_runtime, set_runtimes. f_equal. by apply alter_ext. Qed.
Definition close_runtime t : ScopeRuntime := with_cancelled (with_tasks false (rt_tasks t) (with_routing false t)).
Lemma close_runtime_eq w r :
  cancel r (close_tasks r (close_routing r w)) = update_runtime r close_runtime w.
Proof.
  unfold cancel, close_tasks, close_routing, update_runtime, set_runtimes. simpl.
  f_equal. rewrite !alter_alter. by apply alter_ext.
Qed.
Definition quiesce_scope s : ScopeSnapshot :=
  if open_state (sn_state s) then with_state ScopeLifecycleState.Quiescing s else s.

Lemma begin_quiesce_lookup w r r' :
  w_scopes (begin_quiesce r w) !! r'
  = if decide (r = r') then quiesce_scope <$> w_scopes w !! r' else w_scopes w !! r'.
Proof.
  unfold begin_quiesce. rewrite close_runtime_eq. unfold scope_state, quiesce_scope.
  destruct (w_scopes w !! r) as [s|] eqn:Hs; simpl.
  - destruct (open_state (sn_state s)) eqn:Ho; simpl.
    + rewrite lookup_alter. case_decide; subst; [|done]. rewrite Hs. simpl. by rewrite Ho.
    + case_decide; subst; [|done]. rewrite Hs. simpl. by rewrite Ho.
  - case_decide; subst; [|done]. by rewrite Hs.
Qed.
Lemma begin_quiesce_runtime w r r' :
  w_runtimes (begin_quiesce r w) !! r'
  = if decide (r = r') then close_runtime <$> w_runtimes w !! r' else w_runtimes w !! r'.
Proof.
  unfold begin_quiesce. rewrite close_runtime_eq, lookup_update_runtime. by destruct (is_some_and _ _).
Qed.
Lemma evolves_begin_quiesce w r : ¬ F r → evolves w (begin_quiesce r w).
Proof.
  intros HF. split; try (by unfold begin_quiesce; rewrite close_runtime_eq; simpl; destruct (is_some_and _ _)).
  - intros r'. rewrite begin_quiesce_lookup. case_decide; [subst r'|reflexivity].
    destruct (w_scopes w !! r) as [s|]; simpl; constructor. unfold quiesce_scope.
    destruct (open_state (sn_state s)) eqn:Ho; [|done]. split; try done. right. split; [|done].
    by destruct (sn_state s).
  - intros r'. rewrite begin_quiesce_runtime. case_decide; [subst r'|reflexivity].
    destruct (w_runtimes w !! r) as [t|]; simpl; constructor. by split.
  - intros r' Hr'. rewrite begin_quiesce_lookup, decide_False; [done|by intros ->].
  - intros [Hok Hch]. split.
    + intros r' s'. rewrite begin_quiesce_lookup, begin_quiesce_runtime.
      case_decide; [subst r'|by apply Hok]. intros (s & Hs & ->)%fmap_Some.
      destruct (Hok r s Hs) as (t & -> & [? Hsw Hrep Hterm ?]). exists (close_runtime t).
      split; [done|]. unfold quiesce_scope. destruct (open_state (sn_state s)) eqn:Ho; split; simpl; try done.
      * intros rep Hr. destruct (Hrep rep Hr) as (_ & Hst & _). rewrite Hst in Ho.
        by destruct (sdr_outcome rep).
      * by destruct (sn_state s).
    + intros r' s' c. rewrite !begin_quiesce_lookup. intros Hs' Hr Hc.
      assert (Hold : ∃ s, w_scopes w !! r' = Some s ∧ is_Some (sn_dispose_report s) ∧ c ∈ sn_children s).
      { case_decide; [subst r'|by eauto]. apply fmap_Some in Hs' as (s & Hs & ->). exists s.
        unfold quiesce_scope in *. by destruct (open_state (sn_state s)). }
      destruct Hold as (s & Hs & Hr' & Hc').
      destruct (Hch r' s c Hs Hr' Hc') as (sc & Hsc & Hrc). rewrite Hsc.
      destruct (decide (r = c)); simpl; [exists (quiesce_scope sc)|by exists sc]. split; [done|].
      unfold quiesce_scope. by destruct (open_state (sn_state sc)).
Qed.
Lemma begin_quiesce_now w r : w_now (begin_quiesce r w) = w_now w.
Proof. unfold begin_quiesce. rewrite close_runtime_eq. simpl. by destruct (is_some_and _ _). Qed.

(** ** Waiting for leases and tasks *)

Lemma all_ended_Some l e : all_ended l = Some e → ∀ x, x ∈ l → ∃ u, x = Some u ∧ u ≤ e.
Proof.
  revert e. induction l as [|y l IH]; simpl; intros e; [intros _ x Hx; by apply elem_of_nil in Hx|].
  intros (a & Ha & (u & -> & [= <-])%bind_Some)%bind_Some x [->|Hx]%elem_of_cons.
  - exists u. split; [done|lia].
  - destruct (IH a Ha x Hx) as (v & -> & ?). exists v. split; [done|lia].
Qed.
Lemma outstanding_0 (time : Z) l : (∀ x, x ∈ l → ∃ u, x = Some u ∧ u ≤ time) → outstanding time l = 0.
Proof.
  unfold outstanding, vec_len. induction l as [|y l IH]; intros Hl; [done|]. simpl.
  destruct (Hl y) as (u & -> & Hu); [by left|]. simpl. apply Z.leb_le in Hu. rewrite Hu. simpl.
  apply IH. intros x Hx. apply Hl. by right.
Qed.
(** All leases and tasks of a scope have ended. *)
Definition drained w r : Prop :=
  ∃ t, w_runtimes w !! r = Some t ∧ ∀ x, x ∈ rt_leases t ++ rt_tasks t → ∃ u, x = Some u ∧ u ≤ w_now w.
Lemma drained_evolves w w' r : evolves w w' → drained w r → drained w' r.
Proof.
  intros He (t & Ht & Hl). destruct (evolves_runtime _ _ _ _ He Ht) as (t' & Ht' & [_ Hle Hta _ _]).
  exists t'. split; [done|]. rewrite Hle, Hta. intros x Hx. destruct (Hl x Hx) as (u & -> & ?).
  pose proof (ev_now _ _ _ He). exists u. split; [done|lia].
Qed.
Lemma drained_0 w r : drained w r → tasks_len w r = 0 ∧ active_leases w r = 0.
Proof.
  intros (t & Ht & Hl). unfold tasks_len, active_leases. rewrite Ht. simpl.
  split; apply outstanding_0; intros x Hx; apply Hl, elem_of_app; auto.
Qed.
Lemma wp_wait_for_quiet r D w :
  wp (wait_for_quiet r) D w (λ _ w', moves D r w w' ∧ drained w' r) (λ w', moves D r w w').
Proof.
  pose proof (forward_wait_for_quiet r D w) as Hf. revert Hf. unfold wait_for_quiet.
  rewrite !wp_bind, !wp_gets. destruct (w_runtimes w !! r) as [t|] eqn:Ht; [|unfold wp, never; by destruct (await_until _ _ _)].
  unfold wp. destruct (await_until _ D w) as [[[]|] w'] eqn:Hw; [|done]. intros Hm.
  split; [done|]. revert Hw. unfold await_until.
  destruct (all_ended _) as [e|] eqn:Hall; [|done]. case_match; [|done]. intros [= <-].
  exists t. split; [done|]. intros x Hx. destruct (all_ended_Some _ _ Hall x Hx) as (u & -> & Hu).
  exists u. split; [done|]. simpl. lia.
Qed.

(** ** Shutting *)

(** The scope is past its open time. *)
Definition shut w r : Prop := is_some_and open_state (scope_state w r) = false.
Lemma shut_evolves w w' r : evolves w w' → shut w r → shut w' r.
Proof.
  intros He. unfold shut, scope_state. pose proof (ev_scopes _ _ _ He r) as Hr.
  inv Hr as [s s' Hse|]; [|done]. simpl. apply advances_closed. apply (se_state _ _ Hse).
Qed.
Lemma shut_begin_quiesce w r : shut (begin_quiesce r w) r.
Proof.
  unfold shut, scope_state. rewrite begin_quiesce_lookup, decide_True by done.
  destruct (w_scopes w !! r) as [s|]; [|done]. simpl. unfold quiesce_scope.
  by destruct (open_state (sn_state s)) eqn:Ho.
Qed.
Lemma shut_gate w r x held : shut w r → shut (update_scope x (with_gate held) w) r.
Proof.
  unfold shut, scope_state. rewrite lookup_update_scope. case_decide; [|done].
  by destruct (w_scopes w !! r).
Qed.
(** A disposal that is dropped has shut its scope. *)
Definition disposes {A} D w (b : Z) r (m : async World A) (P : A → World → Prop) : Prop :=
  wp m D w (λ a w', finished D w b w' ∧ P a w') (λ w', in_progress D w b w' ∧ shut w' r).
Lemma disposes_runs {A} D w b r (m : async World A) P : disposes D w b r m P → runs D w b m P.
Proof. intros Hm. eapply wp_mono; [exact Hm|done|]. by intros w' [? _]. Qed.
Lemma runs_disposes {A} D w b r (m : async World A) P : shut w r → runs D w b m P → disposes D w b r m P.
Proof.
  intros Hs Hm. eapply wp_mono; [exact Hm|done|]. intros w' Hp. split; [done|].
  eapply shut_evolves; [apply Hp|done].
Qed.

(** ** The gate *)

Lemma scopes_ok_update w r f :
  (∀ s, sn_children (f s) = sn_children s ∧ sn_dispose_report (f s) = sn_dispose_report s ∧
        ∀ t, scope_ok s t → scope_ok (f s) t) →
  scopes_ok w → scopes_ok (update_scope r f w).
Proof.
  intros Hf [Hok Hch]. split.
  - intros r' s'. rewrite lookup_update_scope. case_decide; [subst r'|by apply Hok].
    intros (s & Hs & ->)%fmap_Some. destruct (Hok r s Hs) as (t & Ht & Hst). exists t.
    split; [done|]. by apply Hf.
  - assert (Hrep : ∀ c, (∃ s', w_scopes w !! c = Some s' ∧ is_Some (sn_dispose_report s')) →
      ∃ s', w_scopes (update_scope r f w) !! c = Some s' ∧ is_Some (sn_dispose_report s')).
    { intros c (sc & Hsc & Hr). rewrite lookup_update_scope, Hsc.
      case_decide; simpl; [|by eauto]. exists (f sc). by rewrite (proj1 (proj2 (Hf sc))). }
    intros r' s' c. rewrite lookup_update_scope. intros Hs' Hr Hc. apply Hrep. case_decide; [subst r'|by eauto].
    apply fmap_Some in Hs' as (s & Hs & ->). destruct (Hf s) as (Hfc & Hfr & _).
    rewrite Hfc in Hc. rewrite Hfr in Hr. by eauto.
Qed.
Lemma scopes_ok_gate w r held : scopes_ok w → scopes_ok (update_scope r (with_gate held) w).
Proof. apply scopes_ok_update. intros s. split_and!; [done..|]. by intros t []. Qed.
Definition gate_of w r : option bool := sn_dispose_gate <$> w_scopes w !! r.
Lemma evolves_gate w r w2 :
  ¬ F r → gate_of w r = Some false →
  evolves (update_scope r (with_gate true) w) w2 → evolves w (update_scope r (with_gate false) w2).
Proof.
  unfold gate_of. intros HF (s & Hs & Hg)%fmap_Some [He1 He2 He3 He4 He5 He6 He7 Hef He8]. split; try done.
  - intros r'. specialize (He6 r'). rewrite lookup_update_scope in *. case_decide; [subst r'|done].
    rewrite Hs in *. simpl in *. apply option_Forall2_Some in He6 as (s2 & -> & []).
    simpl. constructor. by split.
  - intros r' Hr'. specialize (Hef r' Hr'). rewrite lookup_update_scope in *.
    by rewrite decide_False in * by (by intros ->).
  - intros Hok. apply scopes_ok_gate, He8, scopes_ok_gate, Hok.
Qed.
Lemma disposes_lock_gate {A} r (m : async World A) D w b (P Q : A → World → Prop) :
  ¬ F r → gate_of w r = Some false →
  disposes D (update_scope r (with_gate true) w) b r m P →
  (∀ a w2, P a w2 → Q a (update_scope r (with_gate false) w2)) →
  disposes D w b r (lock_gate r m) Q.
Proof.
  intros HF Hg Hm HPQ. unfold lock_gate. unfold disposes. rewrite wp_bind, wp_gets.
  change (sn_dispose_gate <$> w_scopes w !! r) with (gate_of w r). rewrite Hg.
  apply wp_bracket. eapply wp_mono; [apply Hm|..]; simpl.
  - intros a w2 [(He & Hn & Hc) HP]. split; [|by apply HPQ].
    split_and!; [by apply evolves_gate|done|done].
  - intros w2 [(He & Hu & Hc) Hs]. split; [|by apply shut_gate].
    split_and!; [by apply evolves_gate|done|done].
Qed.

(** ** The end of a disposal *)

Definition reported w r (rep : ScopeDisposeReport) : Prop :=
  ∃ s, w_scopes w !! r = Some s ∧ sn_dispose_report s = Some rep.
Lemma reported_evolves w w' r rep : evolves w w' → reported w r rep → reported w' r rep.
Proof.
  intros He (s & Hs & Hr). destruct (evolves_scope _ _ _ _ He Hs) as (s' & ? & []). exists s'. auto.
Qed.
Lemma reported_sound w r rep : scopes_ok w → reported w r rep → report_sound rep.
Proof.
  intros Hok (s & Hs & Hr). destruct (ok_scope _ Hok r s Hs) as (t & _ & Hst).
  by apply (so_report _ _ Hst rep).
Qed.

Lemma clean_unfold rep :
  clean rep ↔ sdr_quiesce_timed_out rep = false ∧ sdr_remaining_tasks rep = 0 ∧
    sdr_remaining_leases rep = 0 ∧
    (∀ p, p ∈ sdr_plugin_reports rep → all_disposed (edr_records p.2) = true) ∧
    (∀ c, c ∈ sdr_child_reports rep → clean c).
Proof.
  destruct rep as [? ? ? ? ? children ?]. simpl.
  assert (Hc : (fix children (l : list ScopeDisposeReport) : Prop :=
     match l with [] => True | c :: l => clean c ∧ children l end) children ↔ ∀ c, c ∈ children → clean c).
  { induction children as [|c l IH]; [split; [intros _ c Hc; by apply elem_of_nil in Hc|done]|].
    rewrite IH. setoid_rewrite elem_of_cons. naive_solver. }
  by rewrite Hc.
Qed.

Definition children_reported w s : Prop :=
  ∀ c, c ∈ sn_children s → ∃ rep, reported w c rep.
Lemma effect_outcome_disposed l : effect_outcome l = DisposeOutcome.Disposed → all_disposed l = true.
Proof. unfold effect_outcome. by destruct (all_disposed l). Qed.
Lemma existsb_false_iff {A} (f : A → bool) l : existsb f l = false ↔ ∀ x, x ∈ l → f x = false.
Proof.
  induction l as [|y l IH]; simpl; [split; [intros _ x Hx; by apply elem_of_nil in Hx|done]|].
  rewrite orb_false_iff, IH. setoid_rewrite elem_of_cons. naive_solver.
Qed.
Lemma not_failed (o : DisposeOutcome.t) :
  bool_decide (o = DisposeOutcome.Failed) = false → o = DisposeOutcome.Disposed.
Proof. intros Ho%bool_decide_eq_false. by destruct o. Qed.

Lemma runs_finish_disposal r timed_out crs prs identity D w b s :
  ¬ F r → w_scopes w !! r = Some s → sn_state s = ScopeLifecycleState.Disposing → identity = sn_identity s →
  sn_dispose_report s = None → scopes_ok w → children_reported w s →
  (timed_out = false → drained w r) →
  (∀ rep, rep ∈ crs → report_sound rep) → (∀ p, p ∈ prs → effect_report_ok p.2) →
  runs D w b (finish_disposal r timed_out false crs prs identity) 
    (λ rep w', reported w' r rep ∧ ∀ x, x ≠ r → w_scopes w' !! x = w_scopes w !! x).
Proof.
  intros HF Hs Hst -> Hnone Hok Hch Hdr Hcrs Hprs. unfold finish_disposal.
  set (failed := scope_failed timed_out false crs prs). unfold runs. wp_run.
  set (st := if failed then ScopeLifecycleState.Failed else ScopeLifecycleState.Disposed).
  set (rep := MkScopeReport _ _ _ _ _ _ _).
  match goal with |- finished D w b ?w' ∧ _ =>
    assert (Hw : ∃ d, w' = log d (update_scope r (with_report rep ∘ with_state st) w)) end.
  { unfold scope_diagnostic. eexists. unfold update_scope, set_scopes, log. simpl. f_equal.
    apply alter_alter. }
  destruct Hw as [d Hw]. rewrite Hw.
  split; [|split; [exists (with_report rep (with_state st s)); simpl; by rewrite lookup_alter_eq, Hs
                  |intros x Hx; simpl; by rewrite lookup_alter_ne]].
  apply finished_sync; [|done]. etrans; [|apply evolves_log]. apply evolves_update_scope_with; [done|].
  intros s'. rewrite Hs. intros [= <-]. split_and!.
  - split; try done; simpl; [|by rewrite Hnone]. right. rewrite Hst. by destruct failed.
  - intros t [Ho1 Ho2 Ho4 Ho5 Ho6]. split; simpl; try done.
    + rewrite Ho2, Hst. by destruct failed.
    + intros ? [= <-]. split_and!; [done|by destruct failed|]. intros Hd. apply clean_unfold.
      unfold rep in Hd |- *. simpl in *. destruct failed eqn:Hf; [done|]. unfold failed, scope_failed in Hf.
      rewrite !orb_false_iff, !existsb_false_iff in Hf. destruct Hf as (((-> & _) & Hc) & Hp).
      assert (Hd0 : drained (scope_diagnostic DiagnosticCode.ScopeDisposed Info r "scope disposed"
                (update_scope r (with_state st) w)) r) by (by destruct (Hdr eq_refl) as (t' & ? & ?); exists t').
      destruct (drained_0 _ _ Hd0) as [-> ->]. split_and!; try done.
      * intros p Hp'. apply effect_outcome_disposed. rewrite <-(Hprs p Hp'). by apply not_failed, Hp.
      * intros c Hc'. apply (Hcrs c Hc'). by apply not_failed, Hc.
  - intros _ _ c Hc. destruct (Hch c Hc) as (rep' & sc & Hsc & Hrep'). exists sc. by rewrite Hrep'.
Qed.

(** ** The recursion *)

(** The scopes form a forest. *)
Definition ranked (rank : Ref → nat) w : Prop :=
  ∀ r s c, w_scopes w !! r = Some s → c ∈ sn_children s → is_Some (w_scopes w !! c) ∧ (rank c < rank r)%nat.
(** Only gates of scopes above are held. *)
Definition gates_above (rank : Ref → nat) r w : Prop :=
  ∀ x, gate_of w x = Some true → (rank r < rank x)%nat.

Lemma ranked_evolves rank w w' : evolves w w' → ranked rank w → ranked rank w'.
Proof.
  intros He Hr r s' c Hs' Hc. destruct (evolves_scope_inv _ _ _ _ He Hs') as (s & Hs & [_ _ Hch _ _ _ _]).
  rewrite Hch in Hc. destruct (Hr r s c Hs Hc) as [[sc Hsc] ?]. split; [|done].
  destruct (evolves_scope _ _ _ _ He Hsc) as (? & -> & _). done.
Qed.
Lemma gate_of_evolves w w' r : evolves w w' → gate_of w' r = gate_of w r.
Proof.
  intros He. unfold gate_of. pose proof (ev_scopes _ _ _ He r) as Hr. inv Hr as [s s' Hse|]; [|done].
  simpl. by rewrite (se_gate _ _ Hse).
Qed.
Lemma gates_above_evolves rank r w w' : evolves w w' → gates_above rank r w → gates_above rank r w'.
Proof. intros He Hg x. rewrite (gate_of_evolves _ _ _ He). apply Hg. Qed.
Lemma gate_of_update w r x held :
  gate_of (update_scope r (with_gate held) w) x
  = if decide (r = x) then (λ _, held) <$> gate_of w x else gate_of w x.
Proof.
  unfold gate_of. rewrite lookup_update_scope. case_decide; [|done].
  by destruct (w_scopes w !! x).
Qed.

(** Scopes of some rank or above keep their state. *)
Definition above (rank : Ref → nat) (n : nat) w w' : Prop :=
  ∀ x, (n ≤ rank x)%nat → w_scopes w' !! x = w_scopes w !! x.
Lemma above_trans rank n w1 w2 w3 : above rank n w1 w2 → above rank n w2 w3 → above rank n w1 w3.
Proof. intros H1 H2 x Hx. by rewrite H2, H1. Qed.
Lemma above_mono rank n n' w w' : (n ≤ n')%nat → above rank n w w' → above rank n' w w'.
Proof. intros Hn Ha x Hx. apply Ha. lia. Qed.
Lemma above_plugins_only rank r w w' : plugins_only r w w' → above rank (S (rank r)) w w'.
Proof.
  intros [f Hf] x Hx. rewrite Hf. apply lookup_alter_ne. intros ->. lia.
Qed.

(** The frame holds the parents of its scopes. *)
Definition frame_closed w : Prop :=
  ∀ r s c, w_scopes w !! r = Some s → c ∈ sn_children s → F c → F r.
Lemma frame_closed_evolves w w' : evolves w w' → frame_closed w → frame_closed w'.
Proof.
  intros He Hc r s' c Hs'. destruct (evolves_scope_inv _ _ _ _ He Hs') as (s & Hs & [_ _ Hch _ _ _ _]).
  rewrite Hch. by apply Hc.
Qed.

Section recursion.
Context (rank : Ref → nat) (quiesce : Ref → LifecycleDeadlines → async World ScopeDisposeReport)
  (r : Ref).
Hypothesis (HF : ¬ F r).
(** What the recursive calls do. *)
Hypothesis Hquiesce : ∀ c d D w,
  (rank c < rank r)%nat → ¬ F c → frame_closed w → scopes_ok w → ranked rank w → gates_above rank c w →
  is_Some (w_scopes w !! c) → 0 ≤ dl_scope d →
  runs D w (w_now w + dl_scope d) (quiesce c d)
    (λ rep w', reported w' c rep ∧ above rank (S (rank c)) w w').

Lemma runs_dispose_child d (started : Z) acc c D w :
  (rank c < rank r)%nat → ¬ F c → frame_closed w → scopes_ok w → ranked rank w → gates_above rank c w →
  is_Some (w_scopes w !! c) → started ≤ w_now w ≤ started + dl_scope d →
  runs D w (started + dl_scope d) (dispose_child quiesce d started acc c)
    (λ acc' w', ∃ rep, acc' = (acc.1 ++ [rep], acc.2) ∧ reported w' c rep ∧ above rank (rank r) w w').
Proof.
  intros Hrank HFc Hcl Hok Hrk Hg [s Hs] Hn. unfold dispose_child.
  eapply runs_bind; [by apply (runs_gets _ _ _ _ (λ a w', a = Some (sn_identity s) ∧ w' = w)); rewrite Hs|].
  intros _ w1 _ [-> ->].
  eapply runs_bind; [by apply (runs_gets _ _ _ _ (λ a w', a = w_now w ∧ w' = w))|].
  intros _ w1 _ [-> ->]. unfold checked_sub. destruct (Z.leb_spec (w_now w - started) (dl_scope d)); [|lia].
  eapply runs_bind.
  { eapply runs_mono; [apply (runs_timeout_bounded _ _ _ _
      (λ rep w', reported w' c rep ∧ above rank (S (rank c)) w w'))| |done].
    - intros D'. apply (Hquiesce c (MkDeadlines (dl_quiesce d) (dl_effect d) (dl_scope d - (w_now w - started))));
        try done; cbn [dl_scope]; lia.
    - lia. }
  intros _ w1 _ (rep & -> & Hrep & Ha). apply runs_ret. exists rep. split_and!; [done..|].
  by eapply above_mono.
Qed.

Lemma runs_dispose_children d (started : Z) l D w :
  (∀ c, c ∈ l → (rank c < rank r)%nat ∧ is_Some (w_scopes w !! c) ∧ ¬ F c) →
  frame_closed w → scopes_ok w → ranked rank w → (∀ c, c ∈ l → gates_above rank c w) →
  started ≤ w_now w ≤ started + dl_scope d →
  runs D w (started + dl_scope d) (async_fold (dispose_child quiesce d started) ([], false) l)
    (λ acc w', acc.2 = false ∧ (∀ rep, rep ∈ acc.1 → report_sound rep) ∧
               (∀ c, c ∈ l → ∃ rep, reported w' c rep) ∧ above rank (rank r) w w').
Proof.
  intros Hl Hcl Hok Hrk Hg Hn. eapply runs_mono; [apply (runs_fold _ _ _ _ _ _ (λ k acc w',
    evolves w w' ∧ w_now w' ≤ started + dl_scope d ∧ acc.2 = false ∧
    (∀ rep, rep ∈ acc.1 → report_sound rep) ∧ (∀ c, c ∈ k → ∃ rep, reported w' c rep) ∧
    above rank (rank r) w w'))| |].
  - split_and!; [done|lia|done|intros ? []%elem_of_nil|intros ? []%elem_of_nil|done].
  - intros k c acc w1 [l' Hpre] (He & Hn1 & Hacc & Hsound & Hdone & Ha).
    assert (Hc : c ∈ l) by (rewrite Hpre, !elem_of_app, list_elem_of_singleton; auto).
    destruct (Hl c Hc) as (? & [s Hs] & ?). destruct (evolves_scope _ _ _ _ He Hs) as (s1 & Hs1 & _).
    pose proof (ev_now _ _ _ He). pose proof (ev_ok _ _ _ He Hok) as Hok1.
    eapply runs_mono; [apply runs_dispose_child; try done|done|].
    + by eapply frame_closed_evolves.
    + by eapply ranked_evolves.
    + eapply gates_above_evolves; [done|by apply Hg].
    + lia.
    + intros _ w2 (He2 & Hn2 & _) (rep & -> & Hrep & Ha2). simpl.
      split_and!; [by etrans|lia|done|..|by eapply above_trans].
      * intros rep' [?| ->%list_elem_of_singleton]%elem_of_app; [by apply Hsound|].
        eapply reported_sound; [by apply (ev_ok _ _ _ He2)|done].
      * intros c' [Hc'| ->%list_elem_of_singleton]%elem_of_app; [|by eauto].
        destruct (Hdone c' Hc') as [rep' ?]. exists rep'. by eapply reported_evolves.
  - done.
  - naive_solver.
Qed.

Lemma runs_dispose_plugins d (started : Z) l D w s :
  w_scopes w !! r = Some s → (∀ i, i ∈ l → (i < length (sn_plugins s))%nat) →
  scopes_ok w → started ≤ w_now w ≤ started + dl_scope d →
  runs D w (started + dl_scope d) (async_fold (dispose_plugin r d started) [] l)
    (λ acc w', (∀ p, p ∈ acc → effect_report_ok p.2) ∧ plugins_only r w w').
Proof.
  intros Hs Hl Hok Hn. eapply runs_mono; [apply (runs_fold _ _ _ _ _ _ (λ _ acc w',
    evolves w w' ∧ w_now w' ≤ started + dl_scope d ∧ (∀ p, p ∈ acc → effect_report_ok p.2) ∧
    plugins_only r w w'))|done|].
  - split_and!; [done|lia|intros ? []%elem_of_nil|done].
  - intros k i acc w1 [l' Hpre] (He & Hn1 & Hacc & Hpo). pose proof (ev_now _ _ _ He).
    assert (Hi : (i < length (sn_plugins s))%nat)
      by (apply Hl; rewrite Hpre, !elem_of_app, list_elem_of_singleton; auto).
    apply lookup_lt_is_Some in Hi as [p Hp].
    destruct (evolves_plugin w w1 r i p He) as (p1 & Hp1 & _); [unfold the_plugin; by rewrite Hs|].
    unfold dispose_plugin.
    eapply runs_bind; [by apply (runs_gets _ _ _ _ (λ a w', a = w_now w1 ∧ w' = w1))|].
    intros _ w2 _ [-> ->].
    assert (Hrem : default 0 (checked_sub (dl_scope d) (w_now w1 - started)) = dl_scope d - (w_now w1 - started)).
    { unfold checked_sub. destruct (Z.leb_spec (w_now w1 - started) (dl_scope d)); [done|lia]. }
    rewrite Hrem.
    eapply runs_bind; [eapply (runs_dispose_effects _ _ _ _ _ _ _ p1); [done|by apply (ev_ok _ _ _ He)|done|lia]|].
    intros rep w2 (He2 & Hn2 & Hc2) [Hrep Hpo2].
    destruct (evolves_plugin w1 w2 r i p1 He2 Hp1) as (p2 & Hp2 & _).
    eapply runs_bind; [apply (runs_gets _ _ _ _ (λ a w', a = Some (ap_instance p2) ∧ w' = w2)); by rewrite Hp2|].
    intros _ w3 _ [-> ->]. apply runs_ret. split_and!; [by etrans|lia| |by etrans].
    intros q [?| ->%list_elem_of_singleton]%elem_of_app; [by apply Hacc|done].
  - naive_solver.
Qed.

Lemma evolves_disposing w s :
  w_scopes w !! r = Some s → sn_state s = ScopeLifecycleState.Quiescing ∨ sn_state s = ScopeLifecycleState.Disposing →
  sn_dispose_report s = None → evolves w (update_scope r (with_state ScopeLifecycleState.Disposing) w).
Proof.
  intros Hs Hst Hnone. apply evolves_update_scope; [done|]. intros s'. rewrite Hs. intros [= <-].
  split_and!; [|intros t [Ho1 Ho2 Ho4 Ho5 Ho6]; split; try done|done].
  - split; try done. simpl. destruct Hst as [-> | ->]; [by right|by left].
  - rewrite Ho2. by destruct Hst as [-> | ->].
  - simpl. by rewrite Hnone.
Qed.

Lemma disposes_dispose_scope d D w s :
  w_scopes w !! r = Some s → sn_dispose_report s = None → frame_closed w → scopes_ok w → ranked rank w →
  (∀ x, gate_of w x = Some true → (rank r ≤ rank x)%nat) → 0 ≤ dl_scope d →
  disposes D w (w_now w + dl_scope d) r (dispose_scope quiesce r d)
    (λ rep w', reported w' r rep ∧ above rank (S (rank r)) w w').
Proof.
  intros Hs Hnone Hcl Hok Hrk Hg Hd. unfold dispose_scope.
  assert (He1 : evolves w (begin_quiesce r w)) by by apply evolves_begin_quiesce.
  assert (Hfin1 : finished D w (w_now w + dl_scope d) (begin_quiesce r w))
    by (apply finished_sync; [done|apply begin_quiesce_now]).
  unfold disposes. rewrite wp_bind, wp_modify. set (w1 := begin_quiesce r w) in *.
  eapply wp_mono; [apply (runs_disposes D w1 (w_now w + dl_scope d) r _
    (λ rep w', reported w' r rep ∧ above rank (S (rank r)) w w')); [apply shut_begin_quiesce|]| |].
  2: { intros rep w' [? ?]. split; [by eapply finished_trans|done]. }
  2: { intros w' [? ?]. split; [by eapply in_progress_trans|done]. }
  assert (Hs1 : w_scopes w1 !! r = Some (quiesce_scope s))
    by (unfold w1; rewrite begin_quiesce_lookup, decide_True, Hs; done).
  assert (Ha1 : above rank (S (rank r)) w w1).
  { intros x Hx. unfold w1. rewrite begin_quiesce_lookup, decide_False; [done|]. intros ->. lia. }
  eapply runs_bind; [by apply (runs_gets _ _ _ _ (λ a w', a = w_now w1 ∧ w' = w1))|].
  intros _ _ _ [-> ->]. assert (Hn1 : w_now w1 = w_now w) by apply begin_quiesce_now.
  eapply runs_bind.
  { apply (runs_timeout_forward _ _ _ _ _ r (λ _ w', drained w' r)); [|lia].
    intros D'. apply wp_wait_for_quiet. }
  intros quiet w2 (He2 & Hn2 & _) [Hp2 Hquiet].
  destruct (plugins_only_lookup _ _ _ _ Hp2 Hs1) as (ps & Hs2 & _).
  eapply runs_bind.
  { apply (runs_modify _ _ _ _ (λ _ w', evolves w2 w' ∧ w_now w' = w_now w2 ∧ w_scopes w' = w_scopes w2));
      destruct quiet; simpl; try done; [apply evolves_log|split_and!; [apply evolves_log|done..]]. }
  intros [] w3 _ (He3 & Hn3 & Hsc3).
  set (w4 := update_scope r (with_state ScopeLifecycleState.Disposing) w3).
  assert (Hs3 : w_scopes w3 !! r = Some (with_plugins (λ _, ps) (quiesce_scope s))) by congruence.
  assert (He4 : evolves w3 w4).
  { eapply evolves_disposing; [exact Hs3|..].
    - simpl. unfold quiesce_scope. destruct (open_state (sn_state s)) eqn:Ho; [by left|].
      destruct (ok_scope _ Hok r s Hs) as (t & _ & Hst). pose proof (so_terminal _ _ Hst) as Hterm.
      rewrite Hnone in Hterm. destruct (sn_state s) eqn:E; simpl in *; try done; [by left|by right|..];
        by destruct Hterm.
    - simpl. unfold quiesce_scope. by case_match. }
  eapply runs_bind; [by apply (runs_modify _ _ _ _ (λ _ w', w' = w4))|].
  intros [] _ _ ->.
  set (s4 := with_state ScopeLifecycleState.Disposing (with_plugins (λ _, ps) (quiesce_scope s))).
  assert (Hs4 : w_scopes w4 !! r = Some s4) by (unfold w4; rewrite lookup_update_scope, decide_True, Hs3; done).
  eapply runs_bind; [by apply (runs_gets _ _ _ _ (λ a w', a = Some s4 ∧ w' = w4)); rewrite Hs4|].
  intros _ _ _ [-> ->].
  assert (He : evolves w w4) by (etrans; [exact He1|etrans; [exact He2|etrans; [exact He3|exact He4]]]).
  assert (Hnow4 : w_now w ≤ w_now w4 ≤ w_now w + dl_scope d).
  { pose proof (ev_now _ _ _ He). split; [done|]. change (w_now w4) with (w_now w3). lia. }
  assert (Hcl4 := frame_closed_evolves _ _ He Hcl). assert (Hok4 := ev_ok _ _ _ He Hok). assert (Hrk4 := ranked_evolves _ _ _ He Hrk).
  assert (Ha4 : above rank (S (rank r)) w w4).
  { eapply above_trans; [exact Ha1|]. eapply above_trans; [by apply above_plugins_only|].
    intros x Hx. unfold w4. rewrite lookup_update_scope, decide_False by (intros ->; lia). by rewrite Hsc3. }
  rewrite Hn1.
  eapply runs_bind.
  { apply runs_dispose_children; [| done | done | done | | lia].
    - intros c. rewrite elem_of_reverse. intros Hc. destruct (Hrk4 r s4 c Hs4 Hc). split_and!; [done..|].
      intros HFc. apply HF. by apply (Hcl4 r s4 c).
    - intros c. rewrite elem_of_reverse. intros Hc x. rewrite (gate_of_evolves _ _ _ He). intros Hx%Hg.
      destruct (Hrk4 r s4 c Hs4 Hc). lia. }
  intros children w5 (He5 & Hn5 & _) (Hc2 & Hsound & Hdone & Ha5). pose proof (ev_now _ _ _ He5).
  assert (Hs5 : w_scopes w5 !! r = Some s4) by (rewrite Ha5; [done|lia]).
  assert (Hok5 := ev_ok _ _ _ He5 Hok4).
  eapply runs_bind.
  { eapply runs_dispose_plugins; [exact Hs5| |done|lia].
    intros i. rewrite elem_of_reverse, elem_of_seq. lia. }
  intros prs w6 (He6 & Hn6 & _) [Hprs Hp6].
  destruct (plugins_only_lookup _ _ _ _ Hp6 Hs5) as (ps' & Hs6 & _). rewrite Hc2.
  eapply runs_mono;
    [eapply (runs_finish_disposal _ _ _ _ _ _ _ (w_now w + dl_scope d)); [exact HF|exact Hs6|..]|done|].
  - done.
  - done.
  - simpl. unfold quiesce_scope. by case_match.
  - by apply (ev_ok _ _ _ He6).
  - intros c Hc. destruct (Hdone c) as [rep ?]; [by apply elem_of_reverse|]. exists rep.
    by eapply reported_evolves.
  - intros Hq. destruct quiet as [[]|]; [|done]. specialize (Hquiet () eq_refl).
    eapply drained_evolves; [|exact Hquiet]. etrans; [exact He3|]. etrans; [exact He4|]. by etrans.
  - done.
  - done.
  - intros rep w8 _ [Hrep Hsame]. split; [done|]. eapply above_trans; [exact Ha4|].
    eapply above_trans; [eapply above_mono; [|exact Ha5]; lia|].
    eapply above_trans; [by apply above_plugins_only|]. intros x Hx. apply Hsame. intros ->. lia.
Qed.
End recursion.

Lemma above_gate rank r held w : above rank (S (rank r)) w (update_scope r (with_gate held) w).
Proof. intros x Hx. rewrite lookup_update_scope, decide_False; [done|]. intros ->. lia. Qed.
Lemma ranked_gate rank r held w : ranked rank w → ranked rank (update_scope r (with_gate held) w).
Proof.
  intros Hr x s c. rewrite !lookup_update_scope. intros Hx Hc.
  assert (Hx' : ∃ s', w_scopes w !! x = Some s' ∧ c ∈ sn_children s').
  { case_decide; [|by eauto]. apply fmap_Some in Hx as (s' & ? & ->). eauto. }
  destruct Hx' as (s' & Hx' & Hc'). destruct (Hr x s' c Hx' Hc') as [[sc Hsc] ?]. split; [|done].
  rewrite Hsc. destruct (decide (r = c)); by eexists.
Qed.

Lemma frame_closed_gate r held w : frame_closed w → frame_closed (update_scope r (with_gate held) w).
Proof.
  intros Hcl x s c. rewrite lookup_update_scope. case_decide; [subst x|by apply Hcl].
  intros (s' & Hs & ->)%fmap_Some. exact (Hcl r s' c Hs).
Qed.

Lemma disposes_quiesce_fuel rank fuel : ∀ r d D w,
  (rank r < fuel)%nat → ¬ F r → frame_closed w → scopes_ok w → ranked rank w → gates_above rank r w →
  is_Some (w_scopes w !! r) → 0 ≤ dl_scope d →
  disposes D w (w_now w + dl_scope d) r (quiesce_and_dispose_fuel fuel r d)
    (λ rep w', reported w' r rep ∧ above rank (S (rank r)) w w').
Proof.
  induction fuel as [|fuel IH]; intros r d D w Hfuel HF Hcl Hok Hrk Hg [s Hs] Hd; [lia|].
  cbn [quiesce_and_dispose_fuel].
  assert (Hgate : gate_of w r = Some false).
  { pose proof (Hg r) as Hgr. unfold gate_of in *. rewrite Hs in *. simpl in *.
    destruct (sn_dispose_gate s); [|done]. specialize (Hgr eq_refl). lia. }
  set (w1 := update_scope r (with_gate true) w).
  assert (Hs1 : w_scopes w1 !! r = Some (with_gate true s))
    by (unfold w1; rewrite lookup_update_scope, decide_True, Hs; done).
  apply (disposes_lock_gate _ _ _ _ _ (λ rep w', reported w' r rep ∧ above rank (S (rank r)) w1 w')); [done|done|..].
  - fold w1. unfold disposes. rewrite wp_bind, wp_gets, Hs1. simpl.
    destruct (sn_dispose_report s) as [rep|] eqn:Hrep.
    { apply wp_ret. split; [apply finished_refl|]. split; [by exists (with_gate true s)|done]. }
    change (w_now w) with (w_now w1). eapply disposes_dispose_scope; try done.
    + intros c d' D' w' Hc ???????. apply (disposes_runs _ _ _ c), IH; [lia|done..].
    + by apply frame_closed_gate.
    + by apply scopes_ok_gate.
    + by apply ranked_gate.
    + intros x. unfold w1. rewrite gate_of_update. case_decide; [by subst|]. intros Hx%Hg. lia.
  - intros rep w2 [(s2 & Hs2 & Hrep) Ha]. split.
    + exists (with_gate false s2). rewrite lookup_update_scope, decide_True, Hs2; done.
    + eapply above_trans; [apply above_gate|]. eapply above_trans; [exact Ha|]. apply above_gate.
Qed.

(** Any forest has ranks below its number of scopes. *)
Definition forest w : Prop := ∃ rank, ranked rank w.
Lemma forest_bounded w :
  forest w → ∃ rank, ranked rank w ∧ ∀ r, is_Some (w_scopes w !! r) → (rank r < size (w_scopes w))%nat.
Proof.
  intros [rank Hr]. set (lower r := filter (λ x, (rank x < rank r)%nat) (dom (w_scopes w))).
  exists (λ r, size (lower r)).
  assert (Hin : ∀ r x, x ∈ lower r ↔ is_Some (w_scopes w !! x) ∧ (rank x < rank r)%nat).
  { intros r x. unfold lower. rewrite elem_of_filter, elem_of_dom. tauto. }
  split.
  - intros r s c Hs Hc. destruct (Hr r s c Hs Hc) as [Hsc Hlt]. split; [done|].
    apply subset_size. split.
    + intros x. rewrite !Hin. intros [? ?]. split; [done|lia].
    + intros Hsub. assert (Hc' : c ∈ lower c) by (apply Hsub, Hin; done). apply Hin in Hc'. lia.
  - intros r Hsr. rewrite <-size_dom. apply subset_size. split.
    + intros x [? _]%Hin. by apply elem_of_dom.
    + intros Hsub. assert (Hr' : r ∈ lower r) by (apply Hsub, elem_of_dom; done). apply Hin in Hr'. lia.
Qed.

(** ** Disposal *)

(** [x] is [r] or below it. *)
Definition below w : Ref → Ref → Prop :=
  rtc (λ a b, ∃ s, w_scopes w !! a = Some s ∧ b ∈ sn_children s).
(** The scope is at its end and admits neither calls nor tasks. *)
Definition stopped w x : Prop :=
  ∃ s t, w_scopes w !! x = Some s ∧ w_runtimes w !! x = Some t ∧
    terminal (sn_state s) = true ∧ is_Some (sn_dispose_report s) ∧ closed_runtime t.
Definition idle_gates w : Prop := ∀ x, gate_of w x ≠ Some true.

Lemma reported_stopped w r rep : scopes_ok w → reported w r rep → stopped w r.
Proof.
  intros Hok (s & Hs & Hr). destruct (ok_scope _ Hok r s Hs) as (t & Ht & Hst).
  destruct (so_report _ _ Hst rep Hr) as (_ & Hstate & _). exists s, t. split_and!; try done.
  - rewrite Hstate. by destruct (sdr_outcome rep).
  - apply (closed_switches _ _ Hst). rewrite Hstate. by destruct (sdr_outcome rep).
Qed.
Lemma reported_below w r rep x : scopes_ok w → reported w r rep → below w r x → stopped w x.
Proof.
  intros Hok Hrep Hx. revert rep Hrep. induction Hx as [x|r c x (s & Hs & Hc) _ IH]; intros rep Hrep.
  - by eapply reported_stopped.
  - destruct Hrep as (s' & Hs' & Hr'). rewrite Hs in Hs'. injection Hs' as <-.
    destruct (ok_children _ Hok r s c Hs) as (sc & Hsc & [rep' Hrep']); [by eexists|done|].
    apply (IH rep'). by exists sc.
Qed.
Lemma below_evolves w w' r x : evolves w w' → below w r x → below w' r x.
Proof.
  intros He. apply rtc_subrel. intros a b (s & Hs & Hb).
  destruct (evolves_scope _ _ _ _ He Hs) as (s' & Hs' & [_ _ Hch _ _ _ _]). exists s'. by rewrite Hch.
Qed.
Lemma gate_toggle w r s :
  w_scopes w !! r = Some s → sn_dispose_gate s = false →
  update_scope r (with_gate false) (update_scope r (with_gate true) w) = w.
Proof.
  intros Hs Hg. destruct w as [n rts scs a p ws g l]. unfold update_scope, set_scopes. simpl in *. f_equal.
  rewrite alter_alter. apply alter_id. intros s'. rewrite Hs. intros [= <-]. destruct s. simpl in *. by subst.
Qed.
Lemma quiesce_reported r d D w rep :
  reported w r rep → idle_gates w → quiesce_and_dispose r d D w = (Some rep, w).
Proof.
  intros (s & Hs & Hrep) Hg.
  assert (Hgate : sn_dispose_gate s = false).
  { pose proof (Hg r) as Hgr. unfold gate_of in Hgr. rewrite Hs in Hgr. simpl in Hgr.
    by destruct (sn_dispose_gate s). }
  unfold quiesce_and_dispose. cbn [quiesce_and_dispose_fuel]. unfold lock_gate, gets, mbind, async_bind.
  rewrite Hs. simpl. rewrite Hgate. unfold bracket.
  rewrite lookup_update_scope, decide_True, Hs by done. simpl. rewrite Hrep. unfold mret, async_ret.
  by rewrite (gate_toggle w r s).
Qed.

Lemma disposes_quiesce r d D w :
  ¬ F r → frame_closed w → scopes_ok w → forest w → idle_gates w → is_Some (w_scopes w !! r) → 0 ≤ dl_scope d →
  disposes D w (w_now w + dl_scope d) r (quiesce_and_dispose r d) (λ rep w', reported w' r rep).
Proof.
  intros HF Hcl Hok (rank & Hrk & Hsize)%forest_bounded Hg Hr Hd.
  assert (Hwp : disposes D w (w_now w + dl_scope d) r (quiesce_and_dispose_fuel (S (size (w_scopes w))) r d)
                  (λ rep w', reported w' r rep ∧ above rank (S (rank r)) w w')).
  { apply disposes_quiesce_fuel; try done; [specialize (Hsize r Hr); lia|]. intros x Hx. by destruct (Hg x). }
  eapply wp_mono; [exact Hwp| |done]. by intros rep w' (? & ? & _).
Qed.
End frame.

Context `{!Tokio World}.

(** What is not below a scope is a frame for its disposal. *)
Definition outside w r : Ref → Prop := λ x, ¬ below w r x.
Lemma outside_closed w r : frame_closed (outside w r) w.
Proof. intros q s c Hs Hc Hout Hq. apply Hout. eapply rtc_r; [exact Hq|]. by exists s. Qed.

End props.
