(* ===== verification/EffectTimeline.v ===== *)
(** * The timeline of a disposal of effects

    A reference definition of what [EffectStack::dispose] comes to: the effects
    settle one after another from the newest to the oldest, each within the effect
    deadline and what the total leaves; the disposal follows it exactly. *)
From S2P Require Import Prelude Text Errors External Ids Model Broker Async Lifecycle LifecycleProps.
#[local] Open Scope Z_scope.

Section timeline.
Context `{SerdeToVec, !Tokio World}.

(** The time a disposer takes of its limit, and what it answers by then. *)
Definition fate (limit : Z) (d : Disposer) : Z * option Verdict :=
  match d with
  | Registration _ => (0, Some (Returned (Ok ())))
  | Custom calls behaviour =>
      match (behaviour calls).1 with
      | Some delay => if Z.max 0 delay <=? limit then (Z.max 0 delay, Some (behaviour calls).2)
                      else (limit, None)
      | None => (limit, None)
      end
  end.
Definition settle (d : EffectRecord) (answer : option Verdict) : EffectRecord :=
  let failed error := MkEffectRecord (er_instance d) (er_creation_order d) EffectStatus.Failed (Some error) in
  match answer with
  | Some (Returned (Ok _)) =>
      MkEffectRecord (er_instance d) (er_creation_order d) EffectStatus.Disposed (er_cleanup_error d)
  | Some (Returned (Err error)) => failed error
  | Some Panicked => failed effect_dispose_panicked
  | None => failed effect_dispose_timeout
  end.
(** The effects in the order of their disposal, from a time since the start: the
    records in that order, and the time at the end. *)
Fixpoint timeline (per_effect total elapsed : Z) (effects : list PendingEffect) : list EffectRecord * Z :=
  match effects with
  | [] => ([], elapsed)
  | e :: effects =>
      let '(time, answer) := fate (Z.min per_effect (total - elapsed)) (pe_disposer e) in
      let '(records, finish) := timeline per_effect total (elapsed + time) effects in
      (settle (pe_record e) answer :: records, finish)
  end.

Lemma fate_bounds limit d : 0 ≤ limit → 0 ≤ (fate limit d).1 ≤ limit.
Proof.
  intros Hl. destruct d as [g|calls behaviour]; simpl; [lia|].
  destruct (behaviour calls).1 as [delay|]; simpl; [|lia].
  destruct (Z.leb_spec (Z.max 0 delay) limit); simpl; lia.
Qed.
Lemma timeline_cons per total elapsed e l :
  timeline per total elapsed (e :: l)
  = let f := fate (Z.min per (total - elapsed)) (pe_disposer e) in
    let rest := timeline per total (elapsed + f.1) l in
    (settle (pe_record e) f.2 :: rest.1, rest.2).
Proof. simpl. destruct (fate _ _) as [time answer]. simpl. by destruct (timeline _ _ _ _). Qed.
Lemma timeline_bounds per total elapsed l :
  0 ≤ per → elapsed ≤ total → elapsed ≤ (timeline per total elapsed l).2 ≤ total.
Proof.
  intros Hper. revert elapsed. induction l as [|e l IH]; intros elapsed Hle; [simpl; lia|].
  rewrite timeline_cons. cbn zeta. cbn [snd].
  assert (Hf : 0 ≤ (fate (Z.min per (total - elapsed)) (pe_disposer e)).1 ≤ Z.min per (total - elapsed))
    by (apply fate_bounds; lia).
  specialize (IH (elapsed + (fate (Z.min per (total - elapsed)) (pe_disposer e)).1)). lia.
Qed.

(** ** One effect *)

Lemma the_plugin_update r i f w : the_plugin (update_plugin r i f w) r i = f <$> the_plugin w r i.
Proof.
  unfold the_plugin, update_plugin. rewrite lookup_update_scope, decide_True by done.
  destruct (w_scopes w !! r) as [s|]; simpl; [|done]. by rewrite list_lookup_alter, decide_True.
Qed.
Definition put_effect (j : nat) (e : PendingEffect) : ActivatedPlugin → ActivatedPlugin :=
  set_effects (<[j := e]>).
Lemma put_put j e e' p : put_effect j e' (put_effect j e p) = put_effect j e' p.
Proof. unfold put_effect, set_effects. simpl. by rewrite list_insert_insert_eq. Qed.
Lemma update_effect_put r i j f w p e :
  the_plugin w r i = Some p → ap_effects p !! j = Some e →
  the_plugin (update_effect r i j f w) r i = Some (put_effect j (f e) p).
Proof.
  intros Hp He. unfold update_effect. rewrite the_plugin_update, Hp. simpl. f_equal.
  unfold put_effect, set_effects. f_equal.
  apply list_eq. intros k. rewrite list_lookup_alter, list_lookup_insert.
  pose proof (lookup_lt_Some _ _ _ He). destruct (decide (j = k)) as [<-|].
  - by rewrite decide_True, He.
  - rewrite decide_False; [done|]. by intros [].
Qed.
Lemma put_effect_lookup j e p : (j < length (ap_effects p))%nat → ap_effects (put_effect j e p) !! j = Some e.
Proof. intros Hj. by apply list_lookup_insert_eq. Qed.
Lemma the_plugin_same w w' r i : w_scopes w' = w_scopes w → the_plugin w' r i = the_plugin w r i.
Proof. unfold the_plugin. by intros ->. Qed.
Lemma dispose_registration_scopes g w : w_scopes (dispose_registration g w).1 = w_scopes w.
Proof. unfold dispose_registration. by destruct (rr_disposed g). Qed.
Lemma dispose_registration_now g w : w_now (dispose_registration g w).1 = w_now w.
Proof. unfold dispose_registration. by destruct (rr_disposed g). Qed.

(** The disposer under its timeout. *)
Lemma wp_disposer r i j D w p e limit :
  the_plugin w r i = Some p → ap_effects p !! j = Some e → 0 ≤ limit →
  unless_dropped D (w_now w + limit) = true →
  wp (timeout limit (run_disposer r i j (pe_disposer e))) D w
    (λ answer w', answer = (fate limit (pe_disposer e)).2 ∧
       w_now w' = w_now w + (fate limit (pe_disposer e)).1 ∧
       ∃ d, the_plugin w' r i = Some (put_effect j (MkPending (pe_record e) d) p)) (λ _, False).
Proof.
  intros Hp He Hl HD. apply wp_timeout. cbn [now World_clock].
  assert (HD' : match D with Some t => Z.min t (w_now w + limit) | None => w_now w + limit end = w_now w + limit).
  { destruct D as [t|]; [|done]. simpl in HD. apply Z.leb_le in HD. lia. }
  rewrite HD', HD. destruct (pe_disposer e) as [g|calls behaviour]; cbn [run_disposer fate].
  - unfold wp, call, modify, mbind, async_bind, mret, async_ret. split; [done|].
    split; [simpl; rewrite dispose_registration_now; lia|]. exists (Registration (dispose_registration g w).2).
    rewrite (update_effect_put r i j _ _ p e); [done| |done].
    by rewrite (the_plugin_same w) by apply dispose_registration_scopes.
  - unfold wp, modify, mbind, async_bind, mret, async_ret, await, await_until.
    set (w1 := update_effect r i j _ w).
    assert (Hw1 : the_plugin w1 r i = Some (put_effect j (MkPending (pe_record e) (Custom (S calls) behaviour)) p))
      by exact (update_effect_put r i j _ w p e Hp He).
    cbn [now World_clock]. change (w_now w1) with (w_now w).
    destruct (behaviour calls).1 as [delay|]; simpl.
    + replace (w_now w `max` (w_now w + delay)) with (w_now w + Z.max 0 delay) by lia.
      destruct (Z.leb_spec (Z.max 0 delay) limit) as [Hle|Hgt].
      * assert (Hle' : (w_now w + Z.max 0 delay <=? w_now w + limit) = true) by (apply Z.leb_le; lia).
        rewrite Hle'. split_and!; [done|done|]. eexists. exact Hw1.
      * assert (Hgt' : (w_now w + Z.max 0 delay <=? w_now w + limit) = false) by (apply Z.leb_gt; lia).
        rewrite Hgt'. split_and!; [done|simpl; lia|]. eexists. exact Hw1.
    + split_and!; [done|lia|]. eexists. exact Hw1.
Qed.

Lemma wp_settle r i j d error w p e :
  the_plugin w r i = Some p → ap_effects p !! j = Some e →
  the_plugin (log d (update_effect r i j (set_failed error) w)) r i = Some (put_effect j (set_failed error e) p).
Proof. intros Hp He. by apply (update_effect_put r i j (set_failed error) w p e). Qed.

Lemma wp_dispose_effect r i (started per total : Z) j D w p e :
  the_plugin w r i = Some p → ap_effects p !! j = Some e → 0 ≤ per → w_now w - started ≤ total →
  unless_dropped D (started + total) = true →
  wp (dispose_effect r i started per total j) D w
    (λ _ w', ∃ d,
       w_now w' = w_now w + (fate (Z.min per (total - (w_now w - started))) (pe_disposer e)).1 ∧
       the_plugin w' r i = Some (put_effect j (MkPending (settle (pe_record e)
         (fate (Z.min per (total - (w_now w - started))) (pe_disposer e)).2) d) p)) (λ _, False).
Proof.
  intros Hp He Hper Hle HD. unfold dispose_effect. rewrite wp_bind, wp_gets.
  assert (Heff : the_effect w r i j = Some e) by (unfold the_effect; by rewrite Hp). rewrite Heff.
  rewrite wp_bind, wp_modify, wp_bind, wp_gets. set (w1 := update_effect r i j _ w).
  change (w_now w1) with (w_now w). unfold checked_sub.
  destruct (Z.leb_spec (w_now w - started) total) as [_|]; [|lia].
  set (limit := Z.min per (total - (w_now w - started))). set (e1 := set_status EffectStatus.Disposing e).
  assert (Hj := lookup_lt_Some _ _ _ He).
  assert (Hp1 : the_plugin w1 r i = Some (put_effect j e1 p)) by exact (update_effect_put r i j _ w p e Hp He).
  rewrite wp_bind. eapply wp_mono; [apply (wp_disposer r i j D w1 (put_effect j e1 p) e1 limit)| |done].
  - done.
  - by apply put_effect_lookup.
  - lia.
  - change (w_now w1) with (w_now w). destruct D as [t|]; [|done]. simpl in *. apply Z.leb_le.
    apply Z.leb_le in HD. lia.
  - intros answer w2 (-> & Hn2 & d & Hp2). rewrite put_put in Hp2.
    change (pe_disposer e1) with (pe_disposer e) in *. change (w_now w1) with (w_now w) in Hn2.
    set (e2 := MkPending (pe_record e1) d) in *.
    assert (He2 : ap_effects (put_effect j e2 p) !! j = Some e2) by by apply put_effect_lookup.
    assert (Hput : ∀ f, the_plugin (update_effect r i j f w2) r i = Some (put_effect j (f e2) p)).
    { intros f. by rewrite (update_effect_put r i j f w2 (put_effect j e2 p) e2 Hp2 He2), put_put. }
    destruct (fate limit (pe_disposer e)).2 as [[[u|error]|]|]; exists d; (split; [done|]);
      [apply (Hput (set_status EffectStatus.Disposed))|apply (Hput (set_failed _))..].
Qed.

(** ** The whole stack *)

Lemma async_for_reverse_seq {A} (body : nat → async A ()) n D w :
  async_for body (reverse (seq 0 (S n))) D w = (body n ≫= λ _, async_for body (reverse (seq 0 n))) D w.
Proof. by rewrite seq_S, reverse_app. Qed.

Lemma wp_dispose_stack r i (started per total : Z) D es : ∀ w p finished_effects,
  the_plugin w r i = Some p → ap_effects p = es ++ finished_effects →
  0 ≤ per → started ≤ w_now w ≤ started + total → unless_dropped D (started + total) = true →
  wp (async_for (dispose_effect r i started per total) (reverse (seq 0 (length es)))) D w
    (λ _ w', let plan := timeline per total (w_now w - started) (reverse es) in
       w_now w' = started + plan.2 ∧
       ∃ p', the_plugin w' r i = Some p' ∧ ap_instance p' = ap_instance p ∧
         pe_record <$> ap_effects p' = reverse plan.1 ++ (pe_record <$> finished_effects)) (λ _, False).
Proof.
  induction es as [|e es IH] using rev_ind; intros w p fin Hp Hes Hper Hn HD.
  { simpl. split; [lia|]. exists p. split_and!; [done|done|by rewrite Hes]. }
  rewrite length_app. simpl. rewrite Nat.add_1_r. unfold wp. rewrite async_for_reverse_seq. apply wp_bind.
  assert (He : ap_effects p !! length es = Some e).
  { rewrite Hes, <-app_assoc. simpl. by apply list_lookup_middle. }
  eapply wp_mono; [by apply (wp_dispose_effect r i started per total (length es) D w p e); try lia| |done].
  intros [] w1 (d & Hn1 & Hp1). rewrite reverse_snoc, timeline_cons. cbn zeta.
  set (f := fate _ _) in *.
  assert (Hf : 0 ≤ f.1 ≤ Z.min per (total - (w_now w - started))) by (apply fate_bounds; lia).
  eapply wp_mono; [apply (IH w1 _ (MkPending (settle (pe_record e) f.2) d :: fin) Hp1); try done; try lia| |done].
  - unfold put_effect, set_effects. simpl. rewrite Hes, <-app_assoc. simpl.
    by rewrite insert_app_r_alt, Nat.sub_diag by done.
  - intros [] w2 [Hn2 (p2 & Hp2 & Hi2 & Hr2)]. simpl in *.
    replace (w_now w1 - started) with (w_now w - started + f.1) in * by lia. split; [done|].
    exists p2. split_and!; [done|by rewrite Hi2|]. rewrite Hr2, reverse_cons, <-app_assoc. done.
Qed.

End timeline.
