(* ===== verification/Graph.v ===== *)
(** * The dependency graph

    Model of the graph part of [crates/rho-extension-runtime/src/resolver.rs]:
    the ordered adjacency, Kahn's algorithm with a smallest-first ready set, and
    the search for a canonical cycle.  The graph type and [kosaraju_scc] are the
    [petgraph] crate's; the graph is the list of its node weights and of its
    edges, nodes being identified with their plugin ids, which the resolver has
    checked to be distinct. *)
From stdpp Require Import relations.
From S2P Require Import Prelude Text Errors.
#[local] Open Scope Z_scope.

Record Graph := MkGraph {
  node_weights : list PluginId;
  edge_references : list (PluginId * PluginId * CapabilityId)
}.

Definition edge (g : Graph) (a b : PluginId) : Prop := ∃ c, (a, b, c) ∈ edge_references g.
Definition graph_wf (g : Graph) : Prop :=
  NoDup (node_weights g) ∧
  ∀ a b c, (a, b, c) ∈ edge_references g → a ∈ node_weights g ∧ b ∈ node_weights g.

Lemma edge_nodes g a b : graph_wf g → edge g a b → a ∈ node_weights g ∧ b ∈ node_weights g.
Proof. intros [_ Hwf] [c Hc]. by eapply Hwf. Qed.

(** [graph.find_edge(a, b).is_some()]. *)
Definition find_edge (g : Graph) (a b : PluginId) : bool :=
  existsb (λ e, bool_decide (e.1 = (a, b))) (edge_references g).

(** The [petgraph] function the resolver calls: strongly connected components,
    each node in exactly one of them. *)
Class Petgraph := {
  kosaraju_scc : Graph → list (list PluginId);
  scc_partition g : graph_wf g → concat (kosaraju_scc g) ≡ₚ node_weights g;
  scc_connected g c a b :
    graph_wf g → c ∈ kosaraju_scc g → a ∈ c → b ∈ c → rtc (edge g) a b;
  scc_maximal g a b :
    graph_wf g → a ∈ node_weights g → rtc (edge g) a b → rtc (edge g) b a →
    ∃ c, c ∈ kosaraju_scc g ∧ a ∈ c ∧ b ∈ c
}.

Definition Adjacency : Type := gmap PluginId (gset PluginId).
(** [adjacency[p]]. *)
Definition targets (adjacency : gmap PluginId (gset PluginId)) (p : PluginId) : gset PluginId :=
  default ∅ (adjacency !! p).

Definition stable_adjacency (g : Graph) : gmap PluginId (gset PluginId) :=
  foldl (λ adjacency e, <[e.1.1 := {[e.1.2]} ∪ targets adjacency e.1.1]> adjacency)
    (list_to_map ((λ p, (p, ∅)) <$> node_weights g)) (edge_references g).

(** [BTreeSet::pop_first]. *)
Definition pop_first (ready : gset PluginId) : option (PluginId * gset PluginId) :=
  match sorted_elements ready with
  | [] => None
  | p :: _ => Some (p, ready ∖ {[p]})
  end.

(** [for target in targets { *in_degree.get_mut(target) += 1; }] for one source. *)
Definition count_targets (adjacency : gmap PluginId (gset PluginId))
    (in_degree : gmap PluginId Z) (p : PluginId) : gmap PluginId Z :=
  foldl (λ deg t, alter (λ d, d + 1) t deg) in_degree (sorted_elements (targets adjacency p)).

Definition initial_in_degree (adjacency : gmap PluginId (gset PluginId)) : gmap PluginId Z :=
  foldl (count_targets adjacency) ((λ _, 0) <$> adjacency) (sorted_keys adjacency).

(** One dependent: its degree drops by one, and it becomes ready at zero. *)
Definition release (st : gset PluginId * gmap PluginId Z) (dependent : PluginId)
    : gset PluginId * gmap PluginId Z :=
  let in_degree := alter (λ d, d - 1) dependent st.2 in
  (if decide (in_degree !! dependent = Some 0) then {[dependent]} ∪ st.1 else st.1, in_degree).

(** [while let Some(plugin_id) = ready.pop_first()]; [None] when the fuel runs
    out, which [stable_kahn_order_total] excludes. *)
Fixpoint kahn_loop (adjacency : gmap PluginId (gset PluginId)) (fuel : nat)
    (ready : gset PluginId) (in_degree : gmap PluginId Z) (order : list PluginId)
    : option (list PluginId) :=
  match pop_first ready with
  | None => Some order
  | Some (p, ready) =>
      match fuel with
      | O => None
      | S fuel =>
          let st := foldl release (ready, in_degree) (sorted_elements (targets adjacency p)) in
          kahn_loop adjacency fuel st.1 st.2 (order ++ [p])
      end
  end.

Definition stable_kahn_order (g : Graph) : option (list PluginId) :=
  let adjacency := stable_adjacency g in
  let in_degree := initial_in_degree adjacency in
  let ready := filter (λ p, in_degree !! p = Some 0) (dom in_degree) in
  kahn_loop adjacency (size adjacency) ready in_degree [].

Fixpoint first_some {A B} (f : A → option B) (l : list A) : option B :=
  match l with
  | [] => None
  | x :: l => match f x with Some y => Some y | None => first_some f l end
  end.

(** The recursion deepens only by adding a node of [allowed] to [on_path], so
    that [size allowed + 1] levels are enough. *)
Fixpoint find_closed_path (fuel : nat) (start current : PluginId) (allowed : gset PluginId)
    (adjacency : gmap PluginId (gset PluginId)) (path : list PluginId) (on_path : gset PluginId)
    : option (list PluginId) :=
  match fuel with
  | O => None
  | S fuel =>
      first_some (λ next,
        if decide (next ∉ allowed) then None
        else if decide (next = start) then Some (path ++ [start])
        else if decide (next ∈ on_path) then None
        else find_closed_path fuel start next allowed adjacency
               (path ++ [next]) ({[next]} ∪ on_path))
        (sorted_elements (targets adjacency current))
  end.

Section cycle.
Context `{Petgraph}.

Definition is_cyclic (g : Graph) (component : list PluginId) : bool :=
  (1 <? Z.of_nat (length component))
  || match component with n :: _ => find_edge g n n | [] => false end.

Definition cyclic_components (g : Graph) : list (list PluginId) :=
  rsort (omap (λ c, if is_cyclic g c then Some (rsort c) else None) (kosaraju_scc g)).

Definition canonical_cycle (g : Graph) : option (list PluginId) :=
  component ← head (cyclic_components g);
  start ← head component;
  let allowed : gset PluginId := list_to_set component in
  find_closed_path (S (size allowed)) start start allowed (stable_adjacency g) [start] {[start]}.
End cycle.

(** ** Adjacency *)

Lemma targets_insert adj p X q :
  targets (<[p := X]> adj) q = if decide (p = q) then X else targets adj q.
Proof. unfold targets. rewrite lookup_insert. by case_decide. Qed.

Lemma targets_dom adj p q : q ∈ targets adj p → p ∈ dom adj.
Proof.
  unfold targets. rewrite elem_of_dom. destruct (adj !! p) eqn:E; [by eexists|]. set_solver.
Qed.

Section adjacency.
Context (g : Graph).

Lemma fold_edges_targets es adj a b :
  b ∈ targets (foldl (λ adj e, <[e.1.1 := {[e.1.2]} ∪ targets adj e.1.1]> adj) adj es) a ↔
  b ∈ targets adj a ∨ ∃ c : CapabilityId, (a, b, c) ∈ es.
Proof.
  revert adj. induction es as [|[[x y] c] es IH]; intros adj; simpl.
  - split; [by left|]. by intros [|(c & ?%not_elem_of_nil)].
  - rewrite IH, targets_insert. setoid_rewrite elem_of_cons.
    case_decide; subst; [rewrite elem_of_union, elem_of_singleton|]; naive_solver.
Qed.
Lemma fold_edges_dom es adj :
  (∀ a b (c : CapabilityId), (a, b, c) ∈ es → a ∈ dom adj) →
  dom (foldl (λ adj e, <[e.1.1 := {[e.1.2]} ∪ targets adj e.1.1]> adj) adj es) = dom adj.
Proof.
  revert adj. induction es as [|[[x y] c] es IH]; intros adj Hes; [done|]. simpl.
  assert (x ∈ dom adj) by (eapply Hes; by left).
  rewrite IH; rewrite dom_insert_L; [set_solver|].
  intros a b c' ?. rewrite elem_of_union. right. eapply Hes. by right.
Qed.
Lemma initial_adjacency_lookup p q (ns : list PluginId) :
  q ∉ targets (list_to_map ((λ p, (p, ∅)) <$> ns)) p.
Proof.
  unfold targets. induction ns as [|n ns IH]; simpl; [rewrite lookup_empty; set_solver|].
  rewrite lookup_insert. case_decide; [set_solver|done].
Qed.
Lemma initial_adjacency_dom (ns : list PluginId) :
  dom (list_to_map ((λ p, (p, ∅)) <$> ns) : gmap PluginId (gset PluginId)) = list_to_set ns.
Proof.
  induction ns as [|n ns IH]; [apply dom_empty_L|].
  by rewrite fmap_cons, list_to_map_cons, dom_insert_L, IH.
Qed.

Lemma stable_adjacency_edge a b : b ∈ targets (stable_adjacency g) a ↔ edge g a b.
Proof.
  unfold stable_adjacency. rewrite fold_edges_targets. unfold edge. split; [|by right].
  intros [H|H]; [by apply initial_adjacency_lookup in H|done].
Qed.
Lemma stable_adjacency_dom :
  graph_wf g → dom (stable_adjacency g) = list_to_set (node_weights g).
Proof.
  intros Hwf. unfold stable_adjacency. rewrite fold_edges_dom; [apply initial_adjacency_dom|].
  intros a b c Hin. rewrite initial_adjacency_dom, elem_of_list_to_set.
  by apply (proj2 Hwf) in Hin as [? ?].
Qed.
End adjacency.

(** ** Kahn's algorithm *)

Section kahn.
Context (adj : gmap PluginId (gset PluginId)).
Hypothesis adj_closed : ∀ a b, b ∈ targets adj a → b ∈ dom adj.

Definition preds (X : gset PluginId) (n : PluginId) : gset PluginId :=
  filter (λ m, n ∈ targets adj m) X.
Definition degree (X : gset PluginId) (n : PluginId) : Z := Z.of_nat (size (preds X n)).

Lemma elem_of_preds X n m : m ∈ preds X n ↔ n ∈ targets adj m ∧ m ∈ X.
Proof. unfold preds. by rewrite elem_of_filter. Qed.
Lemma degree_zero X n : degree X n = 0 ↔ ∀ m, m ∈ X → n ∉ targets adj m.
Proof.
  unfold degree. assert (size (preds X n) = 0%nat ↔ preds X n ≡ ∅) as Hs by apply size_empty_iff.
  split.
  - intros H m Hm Hn. assert (preds X n ≡ ∅) as He by (apply Hs; lia).
    assert (m ∈ preds X n) by by apply elem_of_preds. set_solver.
  - intros H. assert (size (preds X n) = 0%nat); [|lia]. apply Hs. intros m.
    rewrite elem_of_preds. set_solver.
Qed.
Lemma degree_nonzero X n : degree X n ≠ 0 → ∃ m, m ∈ X ∧ n ∈ targets adj m.
Proof.
  unfold degree. intros Hz. destruct (size_pos_elem_of (preds X n)) as [m Hm]; [lia|].
  apply elem_of_preds in Hm as [??]. eauto.
Qed.
Lemma degree_insert X n k :
  k ∉ X → degree ({[k]} ∪ X) n = (if decide (n ∈ targets adj k) then 1 else 0) + degree X n.
Proof.
  intros Hk. unfold degree.
  assert (preds ({[k]} ∪ X) n = (if decide (n ∈ targets adj k) then {[k]} else ∅) ∪ preds X n) as ->.
  { apply set_eq. intros m. rewrite elem_of_union, !elem_of_preds.
    case_decide; set_solver. }
  rewrite size_union by (intros m; case_decide; rewrite elem_of_preds; set_solver).
  case_decide; rewrite ?size_singleton, ?size_empty; lia.
Qed.
Lemma degree_delete X n k :
  k ∈ X → degree X n = (if decide (n ∈ targets adj k) then 1 else 0) + degree (X ∖ {[k]}) n.
Proof.
  intros Hk. rewrite <-degree_insert by set_solver. f_equal. by apply union_difference_singleton_L.
Qed.

Lemma fold_count ts deg n :
  NoDup ts →
  foldl (λ deg t, alter (λ d, d + 1) t deg) deg ts !! n =
  (λ d, if decide (n ∈ ts) then d + 1 else d) <$> (deg : gmap PluginId Z) !! n.
Proof.
  revert deg. induction ts as [|t ts IH]; intros deg Hnd; simpl.
  - by destruct (deg !! n).
  - apply NoDup_cons in Hnd as [Hni Hnd]. rewrite IH, lookup_alter by done.
    destruct (decide (t = n)) as [<-|Hne], (deg !! _); simpl; try done; f_equal;
      repeat case_decide; try lia; set_solver.
Qed.

Lemma initial_in_degree_lookup n :
  initial_in_degree adj !! n = if decide (n ∈ dom adj) then Some (degree (dom adj) n) else None.
Proof.
  unfold initial_in_degree.
  assert (Hgen : ∀ ks deg, NoDup ks →
    foldl (count_targets adj) deg ks !! n = (λ d, d + degree (list_to_set ks) n) <$> deg !! n).
  { induction ks as [|k ks IH]; intros deg Hnd; simpl.
    - assert (degree ∅ n = 0) as -> by (apply degree_zero; set_solver).
      destruct (deg !! n); simpl; [f_equal; lia|done].
    - apply NoDup_cons in Hnd as [Hni Hnd].
      rewrite IH by done. unfold count_targets. rewrite fold_count by apply sorted_elements_NoDup.
      rewrite degree_insert by by rewrite elem_of_list_to_set.
      destruct (deg !! n); simpl; [|done]. f_equal.
      rewrite (decide_ext (n ∈ sorted_elements _) (n ∈ targets adj k))
        by apply elem_of_sorted_elements.
      case_decide; lia. }
  rewrite Hgen by apply sorted_keys_NoDup.
  assert (list_to_set (sorted_keys adj) = dom adj) as ->.
  { apply set_eq. intros k. by rewrite elem_of_list_to_set, elem_of_sorted_keys, elem_of_dom. }
  rewrite lookup_fmap. case_decide as Hd.
  - apply elem_of_dom in Hd as [X ->]. done.
  - apply not_elem_of_dom in Hd. by rewrite Hd.
Qed.

Lemma fold_release ts st n :
  NoDup ts →
  (foldl release st ts).2 !! n = (λ d, if decide (n ∈ ts) then d - 1 else d) <$> st.2 !! n ∧
  (n ∈ (foldl release st ts).1 ↔ n ∈ st.1 ∨ (n ∈ ts ∧ st.2 !! n = Some 1)).
Proof.
  revert st. induction ts as [|t ts IH]; intros st Hnd; simpl.
  - split.
    + by destruct (st.2 !! n).
    + split; [by left|]. intros [|[?%not_elem_of_nil _]]; done.
  - apply NoDup_cons in Hnd as [Hni Hnd]. destruct (IH (release st t) Hnd) as [IH1 IH2].
    rewrite IH1, IH2. unfold release. simpl. rewrite !lookup_alter. split.
    + destruct (decide (t = n)) as [<-|Hne], (st.2 !! _); simpl; try done; f_equal;
        repeat case_decide; try lia; set_solver.
    + rewrite elem_of_cons, (decide_True (P := t = t)) by done.
      destruct (decide (t = n)) as [->|Hne].
      * destruct (st.2 !! n) as [d|] eqn:Hd; simpl.
        -- clear IH IH1 IH2. case_decide as Hz; rewrite ?elem_of_union, ?elem_of_singleton;
             [injection Hz as Hz; assert (d = 1) as -> by lia|
              assert (d ≠ 1) by (intros ->; by apply Hz)]; naive_solver.
        -- naive_solver.
      * clear IH IH1 IH2. case_decide; rewrite ?elem_of_union, ?elem_of_singleton; naive_solver.
Qed.

(** The loop invariant: what is left is [dom adj] minus the order so far, the
    degrees count the unprocessed predecessors, the ready set holds exactly the
    remaining nodes without any, and every processed node comes after all its
    predecessors. *)
Record kahn_inv (ready : gset PluginId) (deg : gmap PluginId Z) (order : list PluginId) : Prop := {
  ki_nodup : NoDup order;
  ki_dom : ∀ n, n ∈ order → n ∈ dom adj;
  ki_deg : ∀ n, n ∈ dom adj → deg !! n = Some (degree (dom adj ∖ list_to_set order) n);
  ki_ready : ∀ n, n ∈ ready ↔
    n ∈ dom adj ∖ list_to_set order ∧ degree (dom adj ∖ list_to_set order) n = 0;
  ki_topo : ∀ l1 b l2 a, order = l1 ++ b :: l2 → b ∈ targets adj a → a ∈ l1
}.

Lemma kahn_inv_step ready deg order p :
  kahn_inv ready deg order → p ∈ ready →
  let st := foldl release (ready ∖ {[p]}, deg) (sorted_elements (targets adj p)) in
  kahn_inv st.1 st.2 (order ++ [p]).
Proof using All.
  intros [Hnd Hdom Hdeg Hready Htopo] Hp st.
  set (R := dom adj ∖ list_to_set order) in *.
  destruct (proj1 (Hready p) Hp) as [HpR Hp0].
  assert (HR' : dom adj ∖ list_to_set (order ++ [p]) = R ∖ {[p]})
    by (rewrite list_to_set_app_L; set_solver).
  pose proof (λ n, fold_release (sorted_elements (targets adj p)) (ready ∖ {[p]}, deg) n
    (sorted_elements_NoDup _)) as Hst. fold st in Hst. simpl in Hst.
  assert (HpO : p ∉ order) by set_solver.
  split.
  - apply NoDup_app. split_and!; [done| |apply NoDup_singleton].
    intros x Hx ->%list_elem_of_singleton. done.
  - intros n [?| ->%list_elem_of_singleton]%elem_of_app; [auto|set_solver].
  - intros n Hn. destruct (Hst n) as [-> _]. rewrite HR', (Hdeg n Hn). simpl. f_equal.
    rewrite (degree_delete R n p HpR).
    rewrite (decide_ext (n ∈ sorted_elements _) (n ∈ targets adj p)) by apply elem_of_sorted_elements.
    case_decide; lia.
  - intros n. destruct (Hst n) as [_ ->]. rewrite HR', elem_of_sorted_elements.
    pose proof (degree_delete R n p HpR) as Hdel. split.
    + intros [[Hn Hne]%elem_of_difference|[Hn Hd]].
      * apply Hready in Hn as [HnR Hn0]. rewrite Hn0 in Hdel.
        split; [set_solver|]. unfold degree in *. case_decide; lia.
      * rewrite (Hdeg n (adj_closed _ _ Hn)) in Hd. injection Hd as Hd.
        rewrite decide_True in Hdel by done. split; [|lia].
        apply elem_of_difference. split; [|intros ->%elem_of_singleton; lia].
        apply elem_of_difference. split; [by eapply adj_closed|].
        rewrite elem_of_list_to_set. intros (l1 & l2 & ->)%list_elem_of_split.
        apply HpO. apply elem_of_app. left. by eapply Htopo.
    + intros [[HnR Hnp]%elem_of_difference Hd].
      destruct (decide (n ∈ targets adj p)).
      * right. split; [done|]. rewrite (Hdeg n) by set_solver. f_equal. lia.
      * left. apply elem_of_difference. split; [|done]. apply Hready. split; [done|lia].
  - intros l1 b l2 a Heq Hb. destruct l2 as [|x l2] using rev_ind.
    + apply app_inj_tail in Heq as [-> ->].
      destruct (decide (a ∈ l1)) as [|Ha]; [done|]. exfalso.
      apply (proj1 (degree_zero R b) Hp0 a); [|done].
      apply elem_of_difference. split; [by eapply targets_dom|]. by rewrite elem_of_list_to_set.
    + clear IHl2. rewrite app_comm_cons, app_assoc in Heq. apply app_inj_tail in Heq as [Heq _].
      by eapply Htopo.
Qed.

Lemma pop_first_Some ready p ready' :
  pop_first ready = Some (p, ready') → p ∈ ready ∧ ready' = ready ∖ {[p]}.
Proof.
  unfold pop_first. destruct (sorted_elements ready) as [|q l] eqn:E; [done|].
  intros [= -> <-]. split; [|done]. apply elem_of_sorted_elements. rewrite E. by left.
Qed.
Lemma pop_first_None ready : pop_first ready = None → ready = ∅.
Proof.
  unfold pop_first. destruct (sorted_elements ready) as [|q l] eqn:E; [|done].
  intros _. apply set_eq. intros x. rewrite <-elem_of_sorted_elements, E. set_solver.
Qed.

Lemma kahn_loop_total fuel ready deg order :
  kahn_inv ready deg order →
  (size (dom adj ∖ list_to_set order) ≤ fuel)%nat →
  ∃ deg' order', kahn_loop adj fuel ready deg order = Some order' ∧ kahn_inv ∅ deg' order'.
Proof using All.
  revert ready deg order. induction fuel as [|fuel IH]; intros ready deg order Hinv Hf; cbn [kahn_loop];
    destruct (pop_first ready) as [[p ready']|] eqn:Hpop.
  2,4: apply pop_first_None in Hpop as ->; by exists deg, order.
  - apply pop_first_Some in Hpop as [Hp _]. exfalso.
    apply (ki_ready _ _ _ Hinv) in Hp as [Hp _].
    assert (size (dom adj ∖ list_to_set order) = 0)%nat as Hz by lia.
    apply size_empty_inv in Hz. set_solver.
  - apply pop_first_Some in Hpop as [Hp ->].
    apply IH; [by apply kahn_inv_step|].
    apply (ki_ready _ _ _ Hinv) in Hp as [Hp _].
    assert (size (dom adj ∖ list_to_set (order ++ [p])) < size (dom adj ∖ list_to_set order))%nat; [|lia].
    apply subset_size. rewrite list_to_set_app_L. set_solver.
Qed.

Lemma kahn_inv_initial :
  kahn_inv (filter (λ p, initial_in_degree adj !! p = Some 0) (dom (initial_in_degree adj)))
    (initial_in_degree adj) [].
Proof.
  split; simpl.
  - constructor.
  - intros n ?%not_elem_of_nil. done.
  - intros n Hn. rewrite initial_in_degree_lookup, decide_True by done.
    by rewrite difference_empty_L.
  - intros n. rewrite elem_of_filter, elem_of_dom, initial_in_degree_lookup, difference_empty_L.
    case_decide as Hd.
    + split; [by intros [[= ?] _]|]. intros [_ ->]. by split; [|eexists].
    + split; [by intros [? _]|]. by intros [? _].
  - intros l1 b l2 a Heq. by destruct l1.
Qed.
End kahn.

(** A finite set in which every node has a predecessor in the set contains a
    cycle. *)
Lemma finite_pred_cycle (X : gset PluginId) (E : PluginId → PluginId → Prop) n :
  n ∈ X → (∀ n, n ∈ X → ∃ m, m ∈ X ∧ E m n) → ¬ ∀ a, ¬ tc E a a.
Proof.
  intros Hn Hpred Hacyc.
  set (Q := λ a b, a ∈ X ∧ b ∈ X ∧ E b a).
  assert (HQ : ∀ a b, tc Q a b → b ∈ X ∧ tc E b a).
  { intros a b H. induction H as [a b (? & ? & ?)|a c b (? & ? & ?) _ [? ?]].
    - split; [done|]. by apply tc_once.
    - split; [done|]. by eapply tc_r. }
  assert (sn Q n) as Hsn.
  { apply tc_finite_sn.
    - intros a Ha. apply HQ in Ha as [_ Ha]. by apply (Hacyc a).
    - exists (elements X). intros b Hb%HQ. apply elem_of_elements, Hb. }
  revert Hn. induction Hsn as [n _ IH]. intros Hn.
  destruct (Hpred n Hn) as (m & Hm & HE). by apply (IH m); [split_and!|].
Qed.

Section order.
Context (g : Graph) (Hwf : graph_wf g).

Lemma adjacency_closed a b :
  b ∈ targets (stable_adjacency g) a → b ∈ dom (stable_adjacency g).
Proof using Hwf.
  intros Hab%stable_adjacency_edge. rewrite stable_adjacency_dom by done.
  apply elem_of_list_to_set. by apply (edge_nodes g a b).
Qed.

(** [stable_kahn_order] terminates within its fuel. *)
Lemma stable_kahn_order_inv :
  ∃ deg order, stable_kahn_order g = Some order ∧ kahn_inv (stable_adjacency g) ∅ deg order.
Proof using Hwf.
  apply kahn_loop_total; [apply adjacency_closed|apply kahn_inv_initial, adjacency_closed|].
  rewrite <-size_dom. apply subseteq_size. set_solver.
Qed.
Lemma stable_kahn_order_total : ∃ order, stable_kahn_order g = Some order.
Proof using Hwf. destruct stable_kahn_order_inv as (? & order & ? & _). by exists order. Qed.

(** On an acyclic graph it lists every node once, after all its predecessors. *)
Lemma stable_kahn_order_acyclic order :
  (∀ a, ¬ tc (edge g) a a) → stable_kahn_order g = Some order →
  order ≡ₚ node_weights g ∧ ∀ l1 b l2 a, order = l1 ++ b :: l2 → edge g a b → a ∈ l1.
Proof using Hwf.
  intros Hacyc Hk.
  destruct stable_kahn_order_inv as (deg' & order' & Hk' & [Hnd Hdom Hdeg Hready Htopo]).
  rewrite Hk in Hk'. injection Hk' as <-.
  split; [|intros l1 b l2 a ? ?; eapply Htopo; [done|by apply stable_adjacency_edge]].
  rewrite stable_adjacency_dom in Hdom, Hready by done.
  setoid_rewrite elem_of_list_to_set in Hdom.
  apply NoDup_Permutation; [done|apply Hwf|]. intros n. split; [apply Hdom|]. intros Hn.
  destruct (decide (n ∈ order)) as [|Hno]; [done|]. exfalso.
  set (R := list_to_set (node_weights g) ∖ list_to_set order : gset PluginId) in *.
  apply (finite_pred_cycle R (edge g) n); [unfold R; set_solver| |done].
  intros m Hm. destruct (decide (degree (stable_adjacency g) R m = 0)) as [Hz|Hz].
  { exfalso. apply (not_elem_of_empty (C:=gset PluginId) m). apply Hready. done. }
  apply degree_nonzero in Hz as (x & Hx & Hmx). exists x. split; [done|].
  by apply stable_adjacency_edge.
Qed.
End order.

(** ** Cycles *)

(** A walk from [x] to [y] through the nodes [l]. *)
Fixpoint chain (E : PluginId → PluginId → Prop) (x : PluginId) (l : list PluginId) (y : PluginId)
    : Prop :=
  match l with
  | [] => E x y
  | z :: l => E x z ∧ chain E z l y
  end.

Section chains.
Context (E : PluginId → PluginId → Prop).

Lemma chain_app x l1 z l2 y : chain E x (l1 ++ z :: l2) y ↔ chain E x l1 z ∧ chain E z l2 y.
Proof. revert x. induction l1 as [|a l1 IH]; intros x; simpl; [done|]. rewrite IH. naive_solver. Qed.

Lemma chain_rtc x l y z : chain E x l y → z ∈ l → rtc E x z ∧ rtc E z y.
Proof.
  revert x. induction l as [|a l IH]; intros x; simpl.
  - by intros _ ?%not_elem_of_nil.
  - intros [Hxa Hl] [->|Hz]%elem_of_cons.
    + split; [by apply rtc_once|]. clear IH Hxa. revert a Hl.
      induction l as [|b l IH]; intros a; simpl; [apply rtc_once|].
      intros [? ?]. eapply rtc_l; eauto.
    + destruct (IH a Hl Hz). split; [|done]. by eapply rtc_l.
Qed.
Lemma chain_tc x l y : chain E x l y → tc E x y.
Proof.
  revert x. induction l as [|a l IH]; intros x; simpl; [apply tc_once|].
  intros [? ?]. eapply tc_l; eauto.
Qed.
Lemma tc_chain x y : tc E x y → ∃ l, chain E x l y.
Proof. induction 1 as [x y|x z y ? ? [l ?]]; [by exists []|by exists (z :: l)]. Qed.

(** A walk that revisits its start can be shortened to one that does not. *)
Lemma chain_avoid x l y : chain E x l y → ∃ l', chain E x l' y ∧ x ∉ l' ∧ ∀ z, z ∈ l' → z ∈ l.
Proof.
  remember (length l) as n eqn:Hn. revert l Hn.
  induction (lt_wf n) as [n _ IH]. intros l -> Hl.
  destruct (decide (x ∈ l)) as [Hx|Hx]; [|by exists l].
  apply list_elem_of_split in Hx as (l1 & l2 & ->). apply chain_app in Hl as [_ Hl].
  destruct (IH (length l2)) with (l := l2) as (l' & ? & ? & Hsub); [|done|done|].
  - rewrite length_app. simpl. lia.
  - exists l'. split_and!; [done..|]. intros z Hz. apply elem_of_app. right. right. auto.
Qed.
End chains.

Lemma chain_mono (E E' : PluginId → PluginId → Prop) x l y :
  (∀ a b, E a b → E' a b) → chain E x l y → chain E' x l y.
Proof. intros Hsub. revert x. induction l as [|z l IH]; intros x; simpl; naive_solver. Qed.

Section closed_path.
Context (start : PluginId) (allowed : gset PluginId) (adj : gmap PluginId (gset PluginId)).
Notation E := (λ a b, b ∈ targets adj a).

Lemma first_some_Some {A B} (f : A → option B) l y :
  first_some f l = Some y → ∃ x, x ∈ l ∧ f x = Some y.
Proof.
  induction l as [|x l IH]; simpl; [done|]. destruct (f x) eqn:Hf.
  - intros [= ->]. exists x. split; [by left|done].
  - intros (z & ? & ?)%IH. exists z. split; [by right|done].
Qed.
Lemma first_some_is_Some {A B} (f : A → option B) l x :
  x ∈ l → is_Some (f x) → is_Some (first_some f l).
Proof.
  induction l as [|y l IH]; simpl; [by intros ?%not_elem_of_nil|].
  intros [->|Hx]%elem_of_cons Hf.
  - destruct Hf as [? ->]. by eexists.
  - destruct (f y); [by eexists|auto].
Qed.

Lemma find_closed_path_sound fuel current path on_path r :
  start ∈ on_path →
  find_closed_path fuel start current allowed adj path on_path = Some r →
  ∃ l, r = path ++ l ++ [start] ∧ chain E current l start ∧ NoDup l ∧
       ∀ x, x ∈ l → x ∈ allowed ∧ x ∉ on_path.
Proof.
  revert current path on_path. induction fuel as [|fuel IH]; intros current path on_path Hs;
    cbn [find_closed_path]; [done|].
  intros (next & Hnext%elem_of_sorted_elements & Hr)%first_some_Some.
  case_decide as Ha; [done|]. case_decide as Hst.
  { injection Hr as <-. subst next. exists []. split_and!; [done|done|constructor|].
    by intros x ?%not_elem_of_nil. }
  case_decide as Hp; [done|].
  apply IH in Hr as (l & -> & Hl & Hnd & Hall); [|set_solver].
  exists (next :: l). split_and!.
  - by rewrite <-app_assoc.
  - done.
  - apply NoDup_cons. split; [|done]. intros [_ Hn]%Hall. set_solver.
  - intros x [->|[? ?]%Hall]%elem_of_cons; [done|]. set_solver.
Qed.

Lemma find_closed_path_complete fuel current path on_path l :
  start ∈ allowed →
  (size (allowed ∖ on_path) < fuel)%nat →
  chain E current l start → (∀ x, x ∈ l → x ∈ allowed ∧ x ∉ on_path) →
  is_Some (find_closed_path fuel start current allowed adj path on_path).
Proof.
  intros Hstart. revert current path on_path l.
  induction fuel as [|fuel IH]; intros current path on_path l Hf Hl Hall; [lia|].
  cbn [find_closed_path]. destruct l as [|next l]; simpl in Hl.
  - eapply first_some_is_Some; [by apply elem_of_sorted_elements|].
    rewrite decide_False by (intros ?; done). rewrite decide_True by done. by eexists.
  - destruct Hl as [Hnext Hl]. destruct (Hall next) as [Ha Hp]; [by left|].
    eapply first_some_is_Some; [by apply elem_of_sorted_elements|].
    rewrite decide_False by (intros ?; done). case_decide as Hst; [by eexists|].
    rewrite decide_False by done.
    apply chain_avoid in Hl as (l' & Hl' & Hni & Hsub).
    apply (IH next _ _ l'); [|done|].
    + assert (size (allowed ∖ ({[next]} ∪ on_path)) < size (allowed ∖ on_path))%nat; [|lia].
      apply subset_size. set_solver.
    + intros x Hx. destruct (Hall x) as [? ?]; [right; auto|]. split; [done|].
      assert (x ≠ next) by (intros ->; done). set_solver.
Qed.
End closed_path.

Section cycle_facts.
Context `{Petgraph} (g : Graph) (Hwf : graph_wf g).

Lemma scc_nodes c n : c ∈ kosaraju_scc g → n ∈ c → n ∈ node_weights g.
Proof using Hwf.
  intros Hc Hn. rewrite <-(scc_partition g Hwf). apply list_elem_of_In, in_concat.
  exists c. by rewrite <-!list_elem_of_In.
Qed.
Lemma scc_unique c d n : c ∈ kosaraju_scc g → d ∈ kosaraju_scc g → n ∈ c → n ∈ d → c = d.
Proof using Hwf.
  assert (NoDup (concat (kosaraju_scc g))) as Hnd by (rewrite scc_partition; [apply Hwf|done]).
  revert Hnd. induction (kosaraju_scc g) as [|e l IH]; simpl; [by intros _ ?%not_elem_of_nil|].
  intros (He & Hdisj & Hl)%NoDup_app Hc Hd Hnc Hnd.
  assert (Hin : ∀ k, k ∈ l → n ∈ k → n ∈ concat l).
  { intros k ? ?. apply list_elem_of_In, in_concat. exists k. by rewrite <-!list_elem_of_In. }
  apply elem_of_cons in Hc as [->|Hc]; apply elem_of_cons in Hd as [->|Hd]; [done| | |by apply IH].
  - destruct (Hdisj n); eauto.
  - destruct (Hdisj n); eauto.
Qed.

Lemma find_edge_true a b : find_edge g a b = true ↔ edge g a b.
Proof.
  unfold find_edge, edge. rewrite existsb_True. split.
  - intros ([p c] & Hin & He). apply bool_decide_eq_true in He. simpl in He. subst. by exists c.
  - intros [c Hc]. exists (a, b, c). split; [done|]. by apply bool_decide_eq_true.
Qed.

(** Every node of a cyclic component lies on a closed walk inside it. *)
Lemma cyclic_component_chain c n :
  c ∈ kosaraju_scc g → is_cyclic g c = true → n ∈ c →
  ∃ l, chain (edge g) n l n ∧ ∀ x, x ∈ l → x ∈ c.
Proof using Hwf.
  intros Hc Hcyc Hn.
  assert (∃ l, chain (edge g) n l n) as [l Hl].
  { unfold is_cyclic in Hcyc. apply orb_true_iff in Hcyc as [Hlen|Hself].
    - assert (∃ m, m ∈ c ∧ m ≠ n) as (m & Hm & Hne).
      { apply Z.ltb_lt in Hlen. destruct c as [|a [|b c]]; simpl in Hlen; [lia|lia|].
        assert (NoDup (a :: b :: c)) as Hnd.
        { assert (NoDup (concat (kosaraju_scc g))) as Hnd by (rewrite scc_partition; [apply Hwf|done]).
          apply list_elem_of_split in Hc as (l1 & l2 & Heq). rewrite Heq, concat_app in Hnd.
          apply NoDup_app in Hnd as (_ & _ & Hnd). simpl in Hnd.
          rewrite app_comm_cons, app_comm_cons in Hnd. by apply NoDup_app in Hnd as (? & _). }
        apply NoDup_cons in Hnd as [Hab _]. destruct (decide (a = n)) as [->|].
        - exists b. split; [right; by left|]. intros ->. apply Hab. by left.
        - exists a. split; [by left|done]. }
      apply tc_chain. pose proof (scc_connected g c n m Hwf Hc Hn Hm) as H1.
      pose proof (scc_connected g c m n Hwf Hc Hm Hn) as H2.
      apply rtc_tc in H1 as [->|H1]; [done|]. by eapply tc_rtc_r.
    - destruct c as [|a c]; [done|]. apply find_edge_true in Hself.
      destruct (decide (n = a)) as [->|Hne]; [by exists []|].
      apply tc_chain. pose proof (scc_connected g _ n a Hwf Hc Hn ltac:(by left)) as H1.
      pose proof (scc_connected g _ a n Hwf Hc ltac:(by left) Hn) as H2.
      apply rtc_tc in H1 as [->|H1]; [done|]. by eapply tc_rtc_r. }
  exists l. split; [done|]. intros x Hx.
  destruct (chain_rtc _ _ _ _ _ Hl Hx) as [H1 H2].
  destruct (scc_maximal g n x Hwf (scc_nodes c n Hc Hn) H1 H2) as (d & Hd & Hnd & Hxd).
  by rewrite (scc_unique c d n).
Qed.

Lemma elem_of_cyclic_components c :
  c ∈ cyclic_components g ↔ ∃ d, d ∈ kosaraju_scc g ∧ is_cyclic g d = true ∧ c = rsort d.
Proof.
  unfold cyclic_components. rewrite elem_of_rsort, list_elem_of_omap. split.
  - intros (d & Hd & Hc). exists d. destruct (is_cyclic g d); naive_solver.
  - intros (d & Hd & Hcyc & ->). exists d. by rewrite Hcyc.
Qed.

(** A reported cycle is a closed walk of the graph through distinct nodes, which
    starts at the smallest of them. *)
Lemma canonical_cycle_Some path :
  canonical_cycle g = Some path →
  ∃ s l, path = s :: l ++ [s] ∧ chain (edge g) s l s ∧ NoDup (s :: l) ∧ ∀ x, x ∈ l → rle s x.
Proof using Hwf.
  unfold canonical_cycle. intros (c & Hc & Hp)%bind_Some. apply bind_Some in Hp as (s & Hs & Hp).
  apply head_Some_elem_of in Hc. apply elem_of_cyclic_components in Hc as (d & _ & _ & ->).
  apply find_closed_path_sound in Hp as (l & -> & Hl & Hnd & Hall); [|set_solver].
  exists s, l. split_and!; [done| | |].
  - eapply chain_mono; [|exact Hl]. intros a b. apply stable_adjacency_edge.
  - apply NoDup_cons. split; [|done]. intros [_ Hn]%Hall. set_solver.
  - intros x [Hx _]%Hall. apply elem_of_list_to_set in Hx.
    pose proof (rsort_sorted d) as Hsort. destruct (rsort d) as [|y k]; [done|].
    injection Hs as ->. apply StronglySorted_cons in Hsort as [Hall' _].
    apply elem_of_cons in Hx as [->|Hx]; [reflexivity|]. rewrite Forall_forall in Hall'. auto.
Qed.

(** No reported cycle means no cycle: the search cannot miss one. *)
Lemma canonical_cycle_None a : canonical_cycle g = None → ¬ tc (edge g) a a.
Proof using Hwf.
  intros Hnone Ha.
  assert (∃ c, c ∈ kosaraju_scc g ∧ is_cyclic g c = true) as (c & Hc & Hcyc).
  { assert (a ∈ node_weights g).
    { inversion Ha as [? ? He|? b ? He _]; subst; by apply edge_nodes in He as [? _]. }
    destruct (scc_maximal g a a) as (c & Hc & Hac & _); [done..|].
    exists c. split; [done|]. unfold is_cyclic. apply orb_true_iff.
    destruct c as [|x [|y c]]; [by apply not_elem_of_nil in Hac| |left; apply Z.ltb_lt; simpl; lia].
    right. apply list_elem_of_singleton in Hac as <-. apply find_edge_true.
    inversion Ha as [|? b ? Hab Hba]; subst; [done|].
    destruct (scc_maximal g a b) as (d & Hd & Had & Hbd); [done|done|by apply rtc_once|by apply tc_rtc|].
    rewrite <-(scc_unique [a] d a) in Hbd by (done || by left).
    by apply list_elem_of_singleton in Hbd as ->. }
  unfold canonical_cycle in Hnone.
  destruct (head (cyclic_components g)) as [c'|] eqn:Hhead.
  2:{ apply head_None in Hhead. assert (rsort c ∈ cyclic_components g) as Hin
        by (apply elem_of_cyclic_components; eauto). rewrite Hhead in Hin.
      by apply not_elem_of_nil in Hin. }
  apply head_Some_elem_of in Hhead. apply elem_of_cyclic_components in Hhead as (d & Hd & Hdc & ->).
  cbn [mbind option_bind] in Hnone. destruct (head (rsort d)) as [s|] eqn:Hs.
  2:{ apply head_None in Hs. assert (length (rsort d) = 0%nat) as Hlen by by rewrite Hs.
      rewrite rsort_length in Hlen. destruct d; [|done]. done. }
  apply head_Some_elem_of in Hs. rewrite elem_of_rsort in Hs.
  destruct (cyclic_component_chain d s Hd Hdc Hs) as (l & Hl & Hld).
  apply chain_avoid in Hl as (l' & Hl' & Hni & Hsub).
  cbn [mbind option_bind] in Hnone. apply eq_None_not_Some in Hnone. apply Hnone.
  apply (find_closed_path_complete _ _ _ _ _ _ _ l').
  - by rewrite elem_of_list_to_set, elem_of_rsort.
  - apply Nat.lt_succ_r, subseteq_size. set_solver.
  - eapply chain_mono; [|exact Hl']. intros x y. apply stable_adjacency_edge.
  - intros x Hx. rewrite elem_of_list_to_set, elem_of_rsort.
    split; [auto|]. intros ->%elem_of_singleton. done.
Qed.
End cycle_facts.
