(* ===== verification/Resolver.v ===== *)
(** * The activation resolver

    Model of [crates/rho-extension-runtime/src/resolver.rs],
    [resolve_activation_plan]: one scope's descriptors are checked, their
    providers joined with the parent scope's, every requirement bound to its
    provider, and the plugins put in an order in which every in-scope provider
    comes before its consumers.

    The indexing [node_by_plugin[..]] can panic; [Panic] records it, and
    [resolve_errors_justified] shows it unreachable. *)
From stdpp Require Import relations.
From S2P Require Import Prelude Text Errors Ids External Model Graph.
#[local] Open Scope Z_scope.

Notation outcome := (result (fault ExtensionError)).

Section resolver.
Context `{Semver, Petgraph}.

(** The pairs of the nested loop over [descriptors] and [descriptor.provides]. *)
Definition declarations (scope : ScopeIdentity) (descriptors : list PluginDescriptor)
    : list (CapabilityId * ProviderIdentity) :=
  descriptors ≫= λ d,
    (λ decl, (decl_capability decl, MkProvider (desc_id d) scope (decl_major decl)))
      <$> desc_provides d.

(** [current_providers.entry(capability).or_default().push(provider)]. *)
Definition add_provider (m : gmap CapabilityId (list ProviderIdentity))
    (cp : CapabilityId * ProviderIdentity) : gmap CapabilityId (list ProviderIdentity) :=
  <[cp.1 := default [] (m !! cp.1) ++ [cp.2]]> m.

Definition current_providers (scope : ScopeIdentity) (descriptors : list PluginDescriptor)
    : gmap CapabilityId (list ProviderIdentity) :=
  foldl add_provider ∅ (declarations scope descriptors).

Definition check_provider (effective : gmap CapabilityId ProviderIdentity)
    (current : gmap CapabilityId (list ProviderIdentity)) (capability_id : CapabilityId)
    : result ExtensionError () :=
  let providers := rsort (default [] (current !! capability_id)) in
  _ ← fail_if (1 <? vec_len providers) (DuplicateProvider capability_id providers);
  match effective !! capability_id, providers with
  | Some parent_provider, p :: _ =>
      Err (DuplicateProvider capability_id (rsort [parent_provider; p]))
  | _, _ => Ok ()
  end.

(** The checks and the final insertion: no capability has two providers, in
    this scope or across it and its parent. *)
Definition join_providers (effective : gmap CapabilityId ProviderIdentity)
    (current : gmap CapabilityId (list ProviderIdentity))
    : result ExtensionError (gmap CapabilityId ProviderIdentity) :=
  _ ← for_each (check_provider effective current) (sorted_keys current);
  Ok (foldl (λ m c, match rsort (default [] (current !! c)) with
                    | p :: _ => <[c := p]> m
                    | [] => m
                    end) effective (sorted_keys current)).

(** [requirements.sort_by(..)] compares the capability, then the kind. *)
Definition requirement_key (rk : CapabilityRequirement * RequirementKind) :=
  (req_capability rk.1, rk.2).
Definition sorted_requirements (d : PluginDescriptor)
    : list (CapabilityRequirement * RequirementKind) :=
  sort_by_key requirement_key
    (((λ r, (r, Required)) <$> desc_requires d) ++ ((λ r, (r, Optional)) <$> desc_optional d)).

(** What the binding loop accumulates. *)
Record ResolveState := MkState {
  rs_edge_count : Z;
  rs_edges : list (PluginId * PluginId * CapabilityId);
  rs_bindings : gmap PluginId (list RequirementBinding);
  rs_diagnostics : list ExtensionDiagnostic
}.

Definition bind_requirement (scope : ScopeIdentity)
    (effective : gmap CapabilityId ProviderIdentity) (node_by_plugin : gset PluginId)
    (descriptor : PluginDescriptor) (st : ResolveState * list RequirementBinding)
    (rk : CapabilityRequirement * RequirementKind)
    : outcome (ResolveState * list RequirementBinding) :=
  let requirement := rk.1 in
  let kind := rk.2 in
  let '(MkState edge_count edges bindings diagnostics) := st.1 in
  match effective !! req_capability requirement with
  | None =>
      match kind with
      | Required =>
          Err (Failed (MissingRequiredCapability (desc_id descriptor)
                         (req_capability requirement) (major_get (req_major requirement))))
      | Optional =>
          Ok (MkState edge_count edges bindings
                (diagnostics ++ [optional_absent (desc_id descriptor)
                                   (req_capability requirement) (scope_id scope)]),
              st.2 ++ [MkBinding requirement kind AbsentOptional])
      end
  | Some provider =>
      _ ← returns (fail_if (negb (bool_decide (provider_major provider = req_major requirement)))
            (IncompatibleCapabilityMajor (desc_id descriptor) (req_capability requirement)
               (major_get (req_major requirement)) (major_get (provider_major provider))
               (provider_plugin provider)));
      let edge_count := edge_count + 1 in
      _ ← returns (fail_if (MAX_RESOLVED_EDGES <? edge_count)
            (LimitExceeded ResolvedEdges (Some (desc_id descriptor)) edge_count MAX_RESOLVED_EDGES));
      edges ← (if bool_decide (provider_scope provider = scope) then
                 if bool_decide (provider_plugin provider ∈ node_by_plugin)
                    && bool_decide (desc_id descriptor ∈ node_by_plugin)
                 then Ok (edges ++ [(provider_plugin provider, desc_id descriptor,
                                     req_capability requirement)])
                 else Err Panic
               else Ok edges);
      Ok (MkState edge_count edges bindings diagnostics,
          st.2 ++ [MkBinding requirement kind (Provider provider)])
  end.

Definition bind_plugin (scope : ScopeIdentity)
    (effective : gmap CapabilityId ProviderIdentity) (node_by_plugin : gset PluginId)
    (st : ResolveState) (descriptor : PluginDescriptor) : outcome ResolveState :=
  sb ← try_fold (bind_requirement scope effective node_by_plugin descriptor) (st, [])
         (sorted_requirements descriptor);
  let '(MkState edge_count edges bindings diagnostics) := sb.1 in
  Ok (MkState edge_count edges (<[desc_id descriptor := sb.2]> bindings) diagnostics).

(** The part of the function after the descriptors have been normalized and
    sorted. *)
Definition resolve_sorted (scope : ScopeIdentity) (parent_plan : option ActivationPlan)
    (descriptors : list PluginDescriptor) : outcome ActivationPlan :=
  _ ← returns (fail_with (find_adjacent desc_id descriptors) (λ w, DuplicatePlugin (desc_id w.1)));
  _ ← returns (for_each (λ d, validate_for_scope d (scope_kind scope)) descriptors);
  let parent_providers := default ∅ (plan_effective_providers <$> parent_plan) in
  effective ← returns (join_providers parent_providers (current_providers scope descriptors));
  let node_by_plugin : gset PluginId := list_to_set (desc_id <$> descriptors) in
  st ← try_fold (bind_plugin scope effective node_by_plugin) (MkState 0 [] ∅ []) descriptors;
  let graph := MkGraph (desc_id <$> descriptors) (rs_edges st) in
  _ ← returns (fail_with (canonical_cycle graph) DependencyCycle);
  (* the fuel of [stable_kahn_order] never runs out: [stable_kahn_order_total] *)
  activation_order ← ok_or (stable_kahn_order graph) Panic;
  Ok (MkPlan scope activation_order (rs_bindings st) effective (rs_diagnostics st)).

Definition resolve_activation_plan (policy : ScopePolicy) (scope : ScopeIdentity)
    (parent_plan : option ActivationPlan) (descriptors : list PluginDescriptor)
    : outcome ActivationPlan :=
  _ ← returns (validate_identity policy scope (plan_scope <$> parent_plan));
  _ ← returns (fail_if (MAX_PLUGINS_PER_SCOPE <? vec_len descriptors)
        (LimitExceeded PluginsPerScope None (vec_len descriptors) MAX_PLUGINS_PER_SCOPE));
  resolve_sorted scope parent_plan (rsort (normalize <$> descriptors)).

End resolver.

(** ** Providers *)

Section providers.
Context `{Semver}.
Implicit Types (eff : gmap CapabilityId ProviderIdentity) (ds : list PluginDescriptor).

Lemma elem_of_declarations scope ds c p :
  (c, p) ∈ declarations scope ds ↔
  ∃ d decl, d ∈ ds ∧ decl ∈ desc_provides d ∧ c = decl_capability decl ∧
    p = MkProvider (desc_id d) scope (decl_major decl).
Proof.
  unfold declarations. rewrite list_elem_of_bind. split.
  - intros (d & (decl & [= -> ->] & ?)%list_elem_of_fmap & ?). by exists d, decl.
  - intros (d & decl & ? & ? & -> & ->). exists d. split; [|done].
    apply list_elem_of_fmap. by exists decl.
Qed.

Lemma fold_providers_lookup (l : list (CapabilityId * ProviderIdentity)) m c :
  default [] (foldl add_provider m l !! c) =
  default [] (m !! c) ++ (filter (λ cp, cp.1 = c) l).*2.
Proof.
  revert m. induction l as [|[c' p] l IH]; intros m; simpl; [by rewrite app_nil_r|].
  unfold add_provider at 2. rewrite IH, lookup_insert, filter_cons. simpl. case_decide; subst.
  - simpl. by rewrite <-app_assoc.
  - done.
Qed.
Lemma fold_providers_is_Some (l : list (CapabilityId * ProviderIdentity)) m c :
  is_Some (foldl add_provider m l !! c) ↔
  is_Some (m !! c) ∨ ∃ p, (c, p) ∈ l.
Proof.
  revert m. induction l as [|[c' p] l IH]; intros m; simpl.
  - split; [by left|]. by intros [|(p & ?%not_elem_of_nil)].
  - unfold add_provider at 2. rewrite IH, lookup_insert_is_Some. setoid_rewrite elem_of_cons.
    destruct (decide (c' = c)) as [->|]; naive_solver.
Qed.

Lemma current_providers_lookup scope ds c :
  default [] (current_providers scope ds !! c) =
  (filter (λ cp, cp.1 = c) (declarations scope ds)).*2.
Proof. unfold current_providers. by rewrite fold_providers_lookup, lookup_empty. Qed.
Lemma current_providers_is_Some scope ds c :
  is_Some (current_providers scope ds !! c) ↔ ∃ p, (c, p) ∈ declarations scope ds.
Proof.
  unfold current_providers. rewrite fold_providers_is_Some, lookup_empty.
  split; [|by right]. by intros [[? ?]|].
Qed.

(** What the provider checks establish: every capability is declared once in
    the scope and not by the parent. *)
Definition providers_distinct eff scope ds : Prop :=
  NoDup (declarations scope ds).*1 ∧
  ∀ c p, (c, p) ∈ declarations scope ds → eff !! c = None.

Lemma filter_key_singleton (l : list (CapabilityId * ProviderIdentity)) c p :
  NoDup l.*1 → (c, p) ∈ l → (filter (λ cp, cp.1 = c) l).*2 = [p].
Proof.
  induction l as [|[c' p'] l IH]; [by intros _ ?%not_elem_of_nil|].
  rewrite fmap_cons, NoDup_cons. simpl. intros [Hni Hnd] [[= -> ->]|Hin]%elem_of_cons.
  - rewrite filter_cons_True by done. simpl. f_equal.
    destruct (filter _ l) as [|[c p] k] eqn:E; [done|].
    assert ((c, p) ∈ filter (λ cp, cp.1 = c') l) as [Hc Hin]%list_elem_of_filter
      by (rewrite E; by left).
    simpl in Hc. subst c. destruct Hni. apply list_elem_of_fmap. by exists (c', p).
  - rewrite filter_cons_False; [by apply IH|]. simpl. intros ->. apply Hni.
    apply list_elem_of_fmap. by exists (c, p).
Qed.
Lemma filter_key_short (l : list (CapabilityId * ProviderIdentity)) :
  (∀ c, length (filter (λ cp, cp.1 = c) l) ≤ 1)%nat → NoDup l.*1.
Proof.
  induction l as [|[c p] l IH]; simpl; [constructor|]. intros Hlen. apply NoDup_cons. split.
  - intros ([c' q] & -> & Hin)%list_elem_of_fmap. specialize (Hlen c').
    rewrite filter_cons_True in Hlen by done. simpl in Hlen.
    assert ((c', q) ∈ filter (λ cp, cp.1 = c') l) as Hq by by apply list_elem_of_filter.
    destruct (filter _ l); [by apply not_elem_of_nil in Hq|simpl in Hlen; lia].
  - apply IH. intros c'. specialize (Hlen c'). rewrite filter_cons in Hlen.
    case_decide; simpl in *; lia.
Qed.

Lemma rsort_singleton `{RustOrdLaws A} (x : A) : rsort [x] = [x].
Proof. apply rsort_id. repeat constructor. Qed.

Lemma check_providers_Ok eff scope ds :
  for_each (check_provider eff (current_providers scope ds))
    (sorted_keys (current_providers scope ds)) = Ok () ↔ providers_distinct eff scope ds.
Proof.
  rewrite for_each_Ok, Forall_forall. setoid_rewrite elem_of_sorted_keys.
  setoid_rewrite current_providers_is_Some. unfold check_provider.
  setoid_rewrite bind_unit_Ok_iff. setoid_rewrite fail_if_Ok.
  setoid_rewrite vec_len_rsort. setoid_rewrite current_providers_lookup.
  setoid_rewrite Z.ltb_ge. unfold vec_len. split.
  - intros Hchk. assert (Hnd : NoDup (declarations scope ds).*1).
    { apply filter_key_short. intros c.
      destruct (filter (λ cp, cp.1 = c) (declarations scope ds)) as [|[c' p] l] eqn:E; [simpl; lia|].
      assert ((c', p) ∈ filter (λ cp, cp.1 = c) (declarations scope ds)) as Hin
        by (rewrite E; by left).
      apply list_elem_of_filter in Hin as [Heq Hin]. simpl in Heq. subst c'.
      destruct (Hchk c) as [Hlen _]; [by exists p|]. rewrite E, length_fmap in Hlen. lia. }
    split; [done|]. intros c p Hin. destruct (Hchk c) as [_ Hc]; [by exists p|].
    rewrite current_providers_lookup, (filter_key_singleton _ _ p), rsort_singleton in Hc by done. by destruct (eff !! c).
  - intros [Hnd Heff] c (p & Hin). rewrite ?current_providers_lookup, (filter_key_singleton _ _ p), rsort_singleton by done.
    simpl. split; [lia|]. by rewrite (Heff c p).
Qed.

Lemma fold_join_lookup eff (m : gmap CapabilityId (list ProviderIdentity)) ks c :
  NoDup ks →
  foldl (λ acc k, match rsort (default [] (m !! k)) with
                  | p :: _ => <[k := p]> acc
                  | [] => acc
                  end) eff ks !! c =
  if decide (c ∈ ks) then
    match rsort (default [] (m !! c)) with p :: _ => Some p | [] => eff !! c end
  else eff !! c.
Proof.
  revert eff. induction ks as [|k ks IH]; intros eff Hnd; [done|].
  apply NoDup_cons in Hnd as [Hni Hnd]. simpl. rewrite IH by done.
  destruct (decide (c = k)) as [->|Hne].
  - rewrite decide_False by done. rewrite decide_True by by left.
    destruct (rsort _); [done|]. by rewrite lookup_insert_eq.
  - rewrite (decide_ext (c ∈ k :: ks) (c ∈ ks)) by (rewrite elem_of_cons; naive_solver).
    destruct (rsort (default [] (m !! k))); [done|]. by rewrite lookup_insert_ne.
Qed.

Lemma join_providers_Ok eff scope ds eff' :
  join_providers eff (current_providers scope ds) = Ok eff' →
  providers_distinct eff scope ds ∧
  ∀ c p, eff' !! c = Some p ↔ eff !! c = Some p ∨ (c, p) ∈ declarations scope ds.
Proof.
  unfold join_providers. intros [Hchk%check_providers_Ok Heq]%bind_unit_Ok_iff.
  injection Heq as <-. split; [done|]. destruct Hchk as [Hnd Heff]. intros c p.
  rewrite fold_join_lookup by apply sorted_keys_NoDup.
  rewrite current_providers_lookup. case_decide as Hc.
  - apply elem_of_sorted_keys, current_providers_is_Some in Hc as (q & Hq).
    rewrite (filter_key_singleton _ _ q), rsort_singleton by done.
    rewrite (Heff c q) by done. split; [intros [= ->]; by right|].
    intros [|Hp]; [done|]. f_equal.
    pose proof (filter_key_singleton _ _ q Hnd Hq) as H1.
    pose proof (filter_key_singleton _ _ p Hnd Hp) as H2. congruence.
  - rewrite elem_of_sorted_keys, current_providers_is_Some in Hc. naive_solver.
Qed.

Lemma join_providers_total eff scope ds :
  providers_distinct eff scope ds →
  ∃ eff', join_providers eff (current_providers scope ds) = Ok eff' ∧
    ∀ c p, eff' !! c = Some p ↔ eff !! c = Some p ∨ (c, p) ∈ declarations scope ds.
Proof.
  intros Hd. destruct (join_providers eff (current_providers scope ds)) as [eff'|e] eqn:Hj.
  - exists eff'. split; [done|]. by apply join_providers_Ok in Hj as [_ ?].
  - exfalso. unfold join_providers in Hj. apply check_providers_Ok in Hd. by rewrite Hd in Hj.
Qed.
End providers.

(** ** Bindings *)

Section bindings.
Context `{Semver}.
Context (scope : ScopeIdentity) (eff : gmap CapabilityId ProviderIdentity).
Implicit Types (d : PluginDescriptor) (rk : CapabilityRequirement * RequirementKind).

(** The documented resolution of one requirement. *)
Definition binding_for rk (b : RequirementBinding) : Prop :=
  binding_requirement b = rk.1 ∧ binding_kind b = rk.2 ∧
  match binding_resolution b with
  | Provider p => eff !! req_capability rk.1 = Some p ∧ provider_major p = req_major rk.1
  | AbsentOptional => rk.2 = Optional ∧ eff !! req_capability rk.1 = None
  end.

(** An edge: consumer [b] requires [c], which [a] provides in this scope. *)
Definition edge_from d (rks : list (CapabilityRequirement * RequirementKind)) a b c : Prop :=
  b = desc_id d ∧ ∃ rk p, rk ∈ rks ∧ req_capability rk.1 = c ∧ eff !! c = Some p ∧
    provider_plugin p = a ∧ provider_scope p = scope.

Lemma edge_from_snoc d rks rk a b c :
  edge_from d (rks ++ [rk]) a b c ↔ edge_from d rks a b c ∨ edge_from d [rk] a b c.
Proof. unfold edge_from. setoid_rewrite elem_of_app. naive_solver. Qed.

(** Every provider of this scope is one of the graph's nodes. *)
Definition providers_are_nodes (nodes : gset PluginId) : Prop :=
  ∀ c p, eff !! c = Some p → provider_scope p = scope → provider_plugin p ∈ nodes.

Definition is_bound rk : bool := bool_decide (is_Some (eff !! req_capability rk.1)).
Definition bound_count (rks : list (CapabilityRequirement * RequirementKind)) : Z :=
  vec_len (List.filter is_bound rks).

Lemma bound_count_app rks rks' : bound_count (rks ++ rks') = bound_count rks + bound_count rks'.
Proof. unfold bound_count, vec_len. rewrite List.filter_app, length_app. lia. Qed.
Lemma bound_count_snoc rks rk :
  bound_count (rks ++ [rk]) = bound_count rks + (if is_bound rk then 1 else 0).
Proof.
  rewrite bound_count_app. f_equal. unfold bound_count, vec_len. simpl. by destruct (is_bound rk).
Qed.

Record bind_state (nodes : gset PluginId) d (st0 : ResolveState) (rks : list (CapabilityRequirement * RequirementKind))
    (st : ResolveState * list RequirementBinding) : Prop := {
  bs_bindings : Forall2 binding_for rks st.2;
  bs_kept : rs_bindings st.1 = rs_bindings st0;
  bs_count : rs_edge_count st.1 = rs_edge_count st0 + bound_count rks;
  bs_edges a b c : (a, b, c) ∈ rs_edges st.1 ↔ (a, b, c) ∈ rs_edges st0 ∨ edge_from d rks a b c;
  bs_nodes a b c : (a, b, c) ∈ rs_edges st.1 →
    (a, b, c) ∈ rs_edges st0 ∨ (a ∈ nodes ∧ b ∈ nodes)
}.

Lemma bind_requirement_step nodes d st0 rks st rk st' :
  bind_state nodes d st0 rks st →
  bind_requirement scope eff nodes d st rk = Ok st' → bind_state nodes d st0 (rks ++ [rk]) st'.
Proof.
  intros [Hb Hk Hc He Hn]. unfold bind_requirement. destruct st as [[n es bd dg] bs]; simpl in *.
  destruct (eff !! req_capability rk.1) as [p|] eqn:Hp; simpl.
  - intros Hr. apply bind_unit_Ok_iff in Hr as [Hmaj Hr].
    apply map_err_Ok, fail_if_Ok, negb_false_iff, bool_decide_eq_true in Hmaj.
    apply bind_unit_Ok_iff in Hr as [_ Hr]. apply bind_Ok_iff in Hr as (es' & Hes & Hr).
    injection Hr as <-. split; simpl.
    + apply Forall2_app; [done|]. constructor; [|constructor]. by repeat split.
    + done.
    + rewrite bound_count_snoc. unfold is_bound. rewrite Hp, bool_decide_true by by eexists. lia.
    + intros a b c. rewrite edge_from_snoc. unfold edge_from at 2.
      setoid_rewrite list_elem_of_singleton.
      destruct (bool_decide (provider_scope p = scope)) eqn:Hs.
      * apply bool_decide_eq_true in Hs. destruct (_ && _); [|done]. injection Hes as <-.
        rewrite elem_of_app, list_elem_of_singleton, He. split.
        -- intros [[|]| [= -> -> ->]]; [by left|right; by left|]. right; right.
           split; [done|]. by exists rk, p.
        -- intros [|[|(-> & ? & ? & -> & <- & ? & <- & ?)]]; [left; by left|left; by right|].
           right. congruence.
      * apply bool_decide_eq_false in Hs. injection Hes as <-. rewrite He. split; [naive_solver|].
        intros [|[|(-> & ? & ? & -> & <- & ? & <- & ?)]]; [by left|by right|]. congruence.
    + intros a b c. destruct (bool_decide (provider_scope p = scope)); [|injection Hes as <-; auto].
      destruct (_ && _) eqn:Hin; [|done]. injection Hes as <-. bool_prop.
      intros [?| [= -> -> ->]%list_elem_of_singleton]%elem_of_app; auto.
  - destruct rk.2 eqn:Hrk; [done|]. intros [= <-]. split; simpl.
    + apply Forall2_app; [done|]. constructor; [|constructor]. by repeat split.
    + done.
    + rewrite bound_count_snoc. unfold is_bound. rewrite Hp, bool_decide_false by by intros []. lia.
    + intros a b c. rewrite edge_from_snoc, He. unfold edge_from at 3.
      setoid_rewrite list_elem_of_singleton. split; [naive_solver|].
      intros [|[|(-> & ? & ? & -> & <- & ? & <- & ?)]]; [by left|by right|]. congruence.
    + done.
Qed.

Lemma bind_state_initial nodes d st : bind_state nodes d st [] (st, []).
Proof.
  split; simpl; [constructor|done|unfold bound_count, vec_len; simpl; lia| |by left].
  intros a b c. split; [by left|]. intros [|(_ & ? & ? & ?%not_elem_of_nil & _)]; done.
Qed.

Definition total_bound (ds : list PluginDescriptor) : Z :=
  foldr (λ d n, bound_count (sorted_requirements d) + n) 0 ds.
Lemma bound_count_nonneg rks : 0 <= bound_count rks.
Proof. unfold bound_count, vec_len. lia. Qed.
Lemma total_bound_app ds1 ds2 : total_bound (ds1 ++ ds2) = total_bound ds1 + total_bound ds2.
Proof. induction ds1 as [|d ds1 IH]; simpl; lia. Qed.
Lemma total_bound_nonneg ds : 0 <= total_bound ds.
Proof. induction ds as [|d ds IH]; simpl; [lia|]. pose proof (bound_count_nonneg (sorted_requirements d)). lia. Qed.

Record resolve_inv (nodes : gset PluginId) (ds : list PluginDescriptor) (st : ResolveState) : Prop := {
  ri_bindings d : d ∈ ds → ∃ bs, rs_bindings st !! desc_id d = Some bs ∧
    Forall2 binding_for (sorted_requirements d) bs;
  ri_dom p : is_Some (rs_bindings st !! p) → p ∈ desc_id <$> ds;
  ri_count : rs_edge_count st = total_bound ds;
  ri_edges a b c : (a, b, c) ∈ rs_edges st ↔
    ∃ d, d ∈ ds ∧ edge_from d (sorted_requirements d) a b c;
  ri_nodes a b c : (a, b, c) ∈ rs_edges st → a ∈ nodes ∧ b ∈ nodes
}.

Lemma resolve_inv_initial nodes : resolve_inv nodes [] (MkState 0 [] ∅ []).
Proof.
  split; simpl.
  - by intros d ?%not_elem_of_nil.
  - intros p. rewrite lookup_empty. by intros [].
  - done.
  - intros a b c. split; [by intros ?%not_elem_of_nil|]. by intros (d & ?%not_elem_of_nil & _).
  - by intros a b c ?%not_elem_of_nil.
Qed.

Lemma resolve_inv_snoc nodes ds st d sb :
  desc_id d ∉ desc_id <$> ds → resolve_inv nodes ds st →
  bind_state nodes d st (sorted_requirements d) sb →
  resolve_inv nodes (ds ++ [d])
    (MkState (rs_edge_count sb.1) (rs_edges sb.1)
       (<[desc_id d := sb.2]> (rs_bindings sb.1)) (rs_diagnostics sb.1)).
Proof.
  intros Hni [Hb Hd Hc He Hn] [Hb' Hk' Hc' He' Hn']. split; cbn [rs_bindings rs_edge_count rs_edges].
  - intros d' [Hin| ->%list_elem_of_singleton]%elem_of_app.
    + rewrite lookup_insert_ne, Hk'; [by apply Hb|]. intros Heq. apply Hni. rewrite Heq.
      by apply list_elem_of_fmap_2.
    + exists sb.2. by rewrite lookup_insert_eq.
  - intros p. rewrite fmap_app, elem_of_app, lookup_insert_is_Some, Hk'.
    intros [<-|[_ ?]]; [right; by left|left; auto].
  - rewrite total_bound_app, Hc', Hc. simpl. lia.
  - intros a b c. rewrite He', He. setoid_rewrite elem_of_app. setoid_rewrite list_elem_of_singleton.
    naive_solver.
  - intros a b c [Hin|?]%Hn'; [by apply (Hn a b c)|done].
Qed.

Lemma bind_plugin_state nodes st d st' :
  bind_plugin scope eff nodes st d = Ok st' →
  ∃ sb, bind_state nodes d st (sorted_requirements d) sb ∧
    st' = MkState (rs_edge_count sb.1) (rs_edges sb.1)
       (<[desc_id d := sb.2]> (rs_bindings sb.1)) (rs_diagnostics sb.1).
Proof.
  unfold bind_plugin. intros (sb & Hsb & Hr)%bind_Ok_iff. exists sb. split.
  - eapply (try_fold_inv (bind_state nodes d st)); [apply bind_state_initial| |done].
    intros. by eapply bind_requirement_step.
  - by destruct sb as [[] bs]; injection Hr as <-.
Qed.

Lemma bind_plugin_step nodes all done d rest st st' :
  NoDup (desc_id <$> all) → all = done ++ d :: rest → resolve_inv nodes done st →
  bind_plugin scope eff nodes st d = Ok st' → resolve_inv nodes (done ++ [d]) st'.
Proof.
  intros Hnd -> Hinv (sb & Hsb & ->)%bind_plugin_state. apply (resolve_inv_snoc _ _ st); try done.
  rewrite fmap_app, fmap_cons in Hnd. apply NoDup_app in Hnd as (_ & Hnd & _).
  intros Hin. apply (Hnd _ Hin). by left.
Qed.

(** When a requirement cannot be bound. *)
Lemma bind_requirement_Err nodes d st0 rks st rk e :
  bind_state nodes d st0 rks st →
  bind_requirement scope eff nodes d st rk = Err e →
  match e with
  | Failed (MissingRequiredCapability pid cid major) =>
      pid = desc_id d ∧ rk.2 = Required ∧ req_capability rk.1 = cid ∧
      major = major_get (req_major rk.1) ∧ eff !! cid = None
  | Failed (IncompatibleCapabilityMajor pid cid required provided provider) =>
      pid = desc_id d ∧ req_capability rk.1 = cid ∧ required = major_get (req_major rk.1) ∧
      ∃ p, eff !! cid = Some p ∧ provider_plugin p = provider ∧
        provided = major_get (provider_major p) ∧ required ≠ provided
  | Failed (LimitExceeded ResolvedEdges (Some pid) actual maximum) =>
      pid = desc_id d ∧ maximum = 8192 ∧ actual = rs_edge_count st0 + bound_count rks + 1 ∧
      is_bound rk = true ∧ maximum < actual
  | Panic => ∃ p, eff !! req_capability rk.1 = Some p ∧ provider_scope p = scope ∧
      (provider_plugin p ∉ nodes ∨ desc_id d ∉ nodes)
  | _ => False
  end.
Proof.
  intros Hst. pose proof (bs_count _ _ _ _ _ Hst) as Hc. clear Hst.
  unfold bind_requirement. destruct st as [[n es bd dg] bs]; simpl in *.
  destruct (eff !! req_capability rk.1) as [p|] eqn:Hp; simpl.
  2:{ destruct rk.2; [|done]. by intros [= <-]. }
  destruct (bool_decide (provider_major p = req_major rk.1)) eqn:Hm; simpl.
  2:{ intros [= <-]. apply bool_decide_eq_false in Hm. split_and!; try done. exists p. split_and!; try done.
      intros Heq. apply Hm. by apply (inj major_get). }
  destruct (Z.ltb_spec MAX_RESOLVED_EDGES (n + 1)) as [Hlt|Hge]; simpl.
  { intros [= <-]. unfold MAX_RESOLVED_EDGES in *. split_and!; try done; [lia|].
    unfold is_bound. by rewrite Hp, bool_decide_true. }
  destruct (bool_decide (provider_scope p = scope)) eqn:Hs; simpl; [|done].
  destruct (_ && _) eqn:Hin; [done|]. intros [= <-]. bool_prop. exists p.
  split_and!; [done..|]. apply andb_false_iff in Hin as [Hin|Hin];
    apply bool_decide_eq_false in Hin; auto.
Qed.
End bindings.

(** ** Resolution *)

Section resolution.
Context `{Semver, Petgraph}.
Implicit Types (ds : list PluginDescriptor) (plan : ActivationPlan).

Lemma rle_desc_id (x y : PluginDescriptor) : rle x y → rle (desc_id x) (desc_id y).
Proof. apply (rle_fst (desc_tuple x) (desc_tuple y)). Qed.
Lemma normalized_ids ds : desc_id <$> rsort (normalize <$> ds) ≡ₚ desc_id <$> ds.
Proof. rewrite rsort_perm, <-list_fmap_compose. done. Qed.
Lemma elem_of_normalized ds d' : d' ∈ rsort (normalize <$> ds) ↔ ∃ d, d' = normalize d ∧ d ∈ ds.
Proof. by rewrite elem_of_rsort, list_elem_of_fmap. Qed.
Lemma sorted_requirements_perm (d : PluginDescriptor) :
  sorted_requirements (normalize d) ≡ₚ
  ((λ r, (r, Required)) <$> desc_requires d) ++ ((λ r, (r, Optional)) <$> desc_optional d).
Proof. unfold sorted_requirements. rewrite sort_by_key_perm. simpl. by rewrite !rsort_perm. Qed.
Lemma elem_of_sorted_requirements (d : PluginDescriptor) rk :
  rk ∈ sorted_requirements (normalize d) ↔
  (rk.2 = Required ∧ rk.1 ∈ desc_requires d) ∨ (rk.2 = Optional ∧ rk.1 ∈ desc_optional d).
Proof.
  rewrite sorted_requirements_perm, elem_of_app, !list_elem_of_fmap. destruct rk as [r k]; simpl.
  split; [intros [(? & [= -> ->] & ?)|(? & [= -> ->] & ?)]; auto|].
  intros [[-> ?]|[-> ?]]; [left|right]; by exists r.
Qed.

Lemma declarations_normalized scope ds :
  declarations scope (rsort (normalize <$> ds)) ≡ₚ declarations scope ds.
Proof.
  unfold declarations. rewrite rsort_perm. induction ds as [|d ds IH]; [done|].
  rewrite fmap_cons, !bind_cons, IH. apply Permutation_app_tail. simpl. by rewrite rsort_perm.
Qed.

Lemma declarations_capabilities scope ds :
  (declarations scope ds).*1 = ds ≫= λ d, decl_capability <$> desc_provides d.
Proof.
  unfold declarations. induction ds as [|d ds IH]; [done|].
  rewrite !bind_cons, fmap_app, IH. f_equal. by rewrite <-list_fmap_compose.
Qed.

(** The providers a parent plan passes down. *)
Definition inherited (parent_plan : option ActivationPlan) : gmap CapabilityId ProviderIdentity :=
  default ∅ (plan_effective_providers <$> parent_plan).

Lemma inherited_None c : inherited None !! c = None.
Proof. apply lookup_empty. Qed.

Definition graph_of ds (st : ResolveState) : Graph := MkGraph (desc_id <$> ds) (rs_edges st).

Lemma graph_of_wf scope eff ds st :
  NoDup (desc_id <$> ds) → resolve_inv scope eff (list_to_set (desc_id <$> ds)) ds st →
  graph_wf (graph_of ds st).
Proof.
  intros Hnd Hinv. split; [done|]. intros a b c Hin%(ri_nodes _ _ _ _ _ Hinv).
  by rewrite !elem_of_list_to_set in Hin.
Qed.

(** The facts a successful run has gathered by its end. *)
Record resolved_facts scope parent_plan ds plan (st : ResolveState) : Prop := {
  rf_ids : NoDup (desc_id <$> ds);
  rf_valid : Forall (λ d, validate_for_scope d (scope_kind scope) = Ok ()) ds;
  rf_distinct : providers_distinct (inherited parent_plan) scope ds;
  rf_providers c p : plan_effective_providers plan !! c = Some p ↔
    inherited parent_plan !! c = Some p ∨ (c, p) ∈ declarations scope ds;
  rf_inv : resolve_inv scope (plan_effective_providers plan) (list_to_set (desc_id <$> ds)) ds st;
  rf_bindings : plan_bindings plan = rs_bindings st;
  rf_acyclic : canonical_cycle (graph_of ds st) = None;
  rf_order : stable_kahn_order (graph_of ds st) = Some (plan_activation_order plan);
  rf_scope : plan_scope plan = scope
}.

Lemma resolve_sorted_Ok scope parent_plan l plan :
  resolve_sorted scope parent_plan (rsort l) = Ok plan →
  ∃ st, resolved_facts scope parent_plan (rsort l) plan st.
Proof.
  unfold resolve_sorted. intros Hr.
  apply bind_unit_Ok_iff in Hr as [Hids%map_err_Ok%fail_with_Ok Hr].
  apply (find_adjacent_rsort _ rle_desc_id) in Hids.
  assert (Hnd : NoDup (desc_id <$> rsort l)) by by rewrite rsort_perm.
  apply bind_unit_Ok_iff in Hr as [Hval%map_err_Ok%for_each_Ok Hr].
  apply bind_Ok_iff in Hr as (eff & Heff%map_err_Ok%join_providers_Ok & Hr).
  destruct Heff as [Hdist Heff].
  apply bind_Ok_iff in Hr as (st & Hst & Hr).
  apply bind_unit_Ok_iff in Hr as [Hcyc%map_err_Ok%fail_with_Ok Hr].
  apply bind_Ok_iff in Hr as (order & Hord%ok_or_Ok & Hr). injection Hr as <-.
  exists st. split; try done. cbn [plan_effective_providers].
  eapply (try_fold_inv (resolve_inv scope eff (list_to_set (desc_id <$> rsort l)))); [| |exact Hst].
  - apply resolve_inv_initial.
  - intros. by eapply bind_plugin_step.
Qed.

Lemma resolve_Ok policy scope parent_plan ds plan :
  resolve_activation_plan policy scope parent_plan ds = Ok plan →
  validate_identity policy scope (plan_scope <$> parent_plan) = Ok () ∧
  vec_len ds <= 256 ∧
  ∃ st, resolved_facts scope parent_plan (rsort (normalize <$> ds)) plan st.
Proof.
  unfold resolve_activation_plan. intros [Hid%map_err_Ok Hr]%bind_unit_Ok_iff.
  apply bind_unit_Ok_iff in Hr as [Hlen%map_err_Ok%fail_if_Ok%Z.ltb_ge Hr].
  split_and!; [done|done|by apply resolve_sorted_Ok].
Qed.

(** C1: a resolved plan activates each plugin exactly once, and every plugin a
    binding points to inside the scope comes before the plugin bound to it. *)
Theorem resolve_topological policy scope parent_plan ds plan :
  resolve_activation_plan policy scope parent_plan ds = Ok plan →
  plan_activation_order plan ≡ₚ desc_id <$> ds ∧
  NoDup (plan_activation_order plan) ∧
  ∀ consumer bs b p before after,
    plan_bindings plan !! consumer = Some bs → b ∈ bs →
    binding_resolution b = Provider p → provider_scope p = scope →
    plan_activation_order plan = before ++ consumer :: after → provider_plugin p ∈ before.
Proof.
  intros (_ & _ & st & [Hids _ _ _ Hinv Hb Hcyc Hord _])%resolve_Ok.
  pose proof (graph_of_wf _ _ _ _ Hids Hinv) as Hwf.
  destruct (stable_kahn_order_acyclic _ Hwf (plan_activation_order plan)) as [Hperm Htopo];
    [intros a; by apply canonical_cycle_None|done|]. simpl in Hperm.
  split_and!.
  - by rewrite Hperm, normalized_ids.
  - by rewrite Hperm.
  - intros consumer bs b p before after Hbs Hin Hres Hscope Heq.
    apply (Htopo _ _ _ _ Heq). rewrite Hb in Hbs.
    assert (consumer ∈ desc_id <$> rsort (normalize <$> ds)) as (d & -> & Hd)%list_elem_of_fmap
      by (eapply ri_dom; [done|by eexists]).
    destruct (ri_bindings _ _ _ _ _ Hinv d Hd) as (bs' & Hbs' & Hall).
    assert (bs' = bs) as -> by congruence.
    apply list_elem_of_lookup in Hin as [i Hi].
    destruct (Forall2_lookup_r _ _ _ _ _ Hall Hi) as (rk & Hrk & (_ & _ & Hbr)).
    rewrite Hres in Hbr. destruct Hbr as [Heff _].
    exists (req_capability rk.1). apply (ri_edges _ _ _ _ _ Hinv). exists d. split; [done|].
    split; [done|]. exists rk, p. split_and!; try done. by eapply list_elem_of_lookup_2.
Qed.

(** in a resolved plan every plugin has exactly its own requirements bound:
    each to the effective provider of its capability, of the required major, or,
    for an optional requirement only, to nothing when no provider exists. *)
Theorem resolve_bindings_correct policy scope parent_plan ds plan :
  resolve_activation_plan policy scope parent_plan ds = Ok plan →
  (∀ p, is_Some (plan_bindings plan !! p) → p ∈ desc_id <$> ds) ∧
  ∀ d, d ∈ ds → ∃ bs,
    plan_bindings plan !! desc_id d = Some bs ∧
    ((λ b, (binding_requirement b, binding_kind b)) <$> bs) ≡ₚ
      ((λ r, (r, Required)) <$> desc_requires d) ++ ((λ r, (r, Optional)) <$> desc_optional d) ∧
    ∀ b, b ∈ bs →
      match binding_resolution b with
      | Provider p =>
          plan_effective_providers plan !! req_capability (binding_requirement b) = Some p ∧
          provider_major p = req_major (binding_requirement b)
      | AbsentOptional =>
          binding_kind b = Optional ∧
          plan_effective_providers plan !! req_capability (binding_requirement b) = None
      end.
Proof.
  intros (_ & _ & st & [Hids _ _ _ Hinv Hb Hcyc Hord _])%resolve_Ok. rewrite Hb. split.
  - intros p Hp%(ri_dom _ _ _ _ _ Hinv). by rewrite normalized_ids in Hp.
  - intros d Hd. destruct (ri_bindings _ _ _ _ _ Hinv (normalize d)) as (bs & Hbs & Hall).
    { apply elem_of_normalized. by exists d. }
    exists bs. split_and!; [done| |].
    + rewrite <-sorted_requirements_perm.
      clear -Hall. induction Hall as [|[r k] b rks bs (Hr & Hk & _) _ IH]; [done|].
      rewrite fmap_cons, IH. simpl in *. by rewrite Hr, Hk.
    + intros b [i Hi]%list_elem_of_lookup.
      destruct (Forall2_lookup_r _ _ _ _ _ Hall Hi) as (rk & _ & (-> & -> & Hbr)). done.
Qed.

(** in a resolved plan every capability has one provider: an inherited one,
    which no plugin of the scope redeclares, or the single declaration of it in
    the scope; nothing inherited is lost. *)
Theorem resolve_providers_unique policy scope parent_plan ds plan :
  resolve_activation_plan policy scope parent_plan ds = Ok plan →
  (∀ c p, plan_effective_providers plan !! c = Some p ↔
     inherited parent_plan !! c = Some p ∨
     ∃ d decl, d ∈ ds ∧ decl ∈ desc_provides d ∧ c = decl_capability decl ∧
       p = MkProvider (desc_id d) scope (decl_major decl)) ∧
  (∀ d decl, d ∈ ds → decl ∈ desc_provides d → inherited parent_plan !! decl_capability decl = None) ∧
  NoDup (ds ≫= λ d, decl_capability <$> desc_provides d).
Proof.
  intros (_ & _ & st & [_ _ [Hnd Hdist] Hprov _ _ _ _ _])%resolve_Ok.
  pose proof (elem_of_declarations scope ds) as Hdecl. rewrite declarations_normalized in Hnd.
  setoid_rewrite declarations_normalized in Hdist. setoid_rewrite declarations_normalized in Hprov.
  split_and!.
  - intros c p. by rewrite Hprov, Hdecl.
  - intros d decl Hd Hin. eapply Hdist. apply Hdecl. by exists d, decl.
  - by rewrite declarations_capabilities in Hnd.
Qed.

(** the plan does not depend on the order in which plugins are registered. *)
Theorem resolve_permutation policy scope parent_plan ds ds' :
  ds ≡ₚ ds' →
  resolve_activation_plan policy scope parent_plan ds =
  resolve_activation_plan policy scope parent_plan ds'.
Proof.
  intros Hp. unfold resolve_activation_plan, vec_len. rewrite (Permutation_length Hp).
  by rewrite (rsort_unique (normalize <$> ds) (normalize <$> ds')) by by rewrite Hp.
Qed.
End resolution.

(** ** Failures *)

Section failures.
Context `{Semver, Petgraph}.
Implicit Types (ds l : list PluginDescriptor) (plan : ActivationPlan).

(** Plugin [b] requires, or optionally uses, a capability that [a] provides. *)
Definition depends ds (a b : PluginId) : Prop :=
  ∃ da db decl r, da ∈ ds ∧ db ∈ ds ∧ desc_id da = a ∧ desc_id db = b ∧
    decl ∈ desc_provides da ∧ (r ∈ desc_requires db ∨ r ∈ desc_optional db) ∧
    req_capability r = decl_capability decl.

(** No inherited provider claims to live in the scope being resolved. *)
Definition foreign scope parent_plan : Prop :=
  ∀ c p, inherited parent_plan !! c = Some p → provider_scope p ≠ scope.

Definition effective_spec scope parent_plan l
    (eff : gmap CapabilityId ProviderIdentity) : Prop :=
  ∀ c p, eff !! c = Some p ↔ inherited parent_plan !! c = Some p ∨ (c, p) ∈ declarations scope l.

Lemma edge_depends scope parent_plan ds eff st a b :
  foreign scope parent_plan →
  effective_spec scope parent_plan (rsort (normalize <$> ds)) eff →
  resolve_inv scope eff (list_to_set (desc_id <$> rsort (normalize <$> ds)))
    (rsort (normalize <$> ds)) st →
  edge (graph_of (rsort (normalize <$> ds)) st) a b ↔
  depends ds a b ∧ ∃ c p, eff !! c = Some p ∧ provider_plugin p = a ∧ provider_scope p = scope ∧
    ∃ db r, db ∈ ds ∧ desc_id db = b ∧ (r ∈ desc_requires db ∨ r ∈ desc_optional db) ∧
      req_capability r = c.
Proof.
  intros Hfor Heff Hinv. unfold edge. simpl. setoid_rewrite (ri_edges _ _ _ _ _ Hinv). split.
  - intros (c & d' & (d & -> & Hd)%elem_of_normalized & -> & [r k] & p & Hrk & <- & Hp & <- & Hs).
    apply elem_of_sorted_requirements in Hrk. simpl in Hrk.
    assert (Hreq : r ∈ desc_requires d ∨ r ∈ desc_optional d) by naive_solver.
    split; [|by exists (req_capability r), p; eauto 10].
    pose proof Hp as [Hi|Hdecl]%Heff; [by destruct (Hfor _ _ Hi)|].
    rewrite declarations_normalized in Hdecl.
    apply elem_of_declarations in Hdecl as (da & decl & Hda & Hin & Hc & ->). simpl in Hc.
    by exists da, d, decl, r.
  - intros (_ & c & p & Hp & <- & Hs & d & r & Hd & <- & Hr & <-).
    exists (req_capability r), (normalize d). split; [apply elem_of_normalized; by exists d|].
    split; [done|]. destruct Hr.
    + exists (r, Required), p. split_and!; try done. apply elem_of_sorted_requirements. by left.
    + exists (r, Optional), p. split_and!; try done. apply elem_of_sorted_requirements. by right.
Qed.

Lemma validate_identity_Err policy scope parent e :
  validate_identity policy scope parent = Err e →
  match e with InvalidScope _ _ _ | InvalidParent _ _ => True | _ => False end.
Proof.
  unfold validate_identity. intros Hr. result_err Hr; [done|].
  destruct x as [k|]; [|by result_err Hr]. by result_err Hr.
Qed.
Lemma validate_for_scope_Err (d : PluginDescriptor) k e :
  validate_for_scope d k = Err e →
  match e with LimitExceeded _ (Some i) _ _ | InvalidDescriptor i _ => i = desc_id d | _ => False end.
Proof. unfold validate_for_scope. intros Hr. result_err Hr; done. Qed.
Lemma check_provider_Err eff current c e :
  check_provider eff current c = Err e → ∃ ps, e = DuplicateProvider c ps.
Proof.
  unfold check_provider. intros Hr. result_err Hr; [by eexists|].
  destruct (eff !! c); [|done]. destruct (rsort _); [done|]. injection Hr as <-. by eexists.
Qed.

(** The step at which a run on sorted descriptors fails. *)
Inductive resolve_failure scope parent_plan l : fault ExtensionError → Prop :=
| fails_duplicate w : find_adjacent desc_id l = Some w →
    resolve_failure scope parent_plan l (Failed (DuplicatePlugin (desc_id w.1)))
| fails_invalid d e : d ∈ l → validate_for_scope d (scope_kind scope) = Err e →
    resolve_failure scope parent_plan l (Failed e)
| fails_providers c ps : ¬ providers_distinct (inherited parent_plan) scope l →
    resolve_failure scope parent_plan l (Failed (DuplicateProvider c ps))
| fails_binding eff d rk st0 rks st e :
    effective_spec scope parent_plan l eff → d ∈ l → rk ∈ sorted_requirements d →
    bind_state scope eff (list_to_set (desc_id <$> l)) d st0 rks st →
    bind_requirement scope eff (list_to_set (desc_id <$> l)) d st rk = Err e →
    resolve_failure scope parent_plan l e
| fails_cycle eff st path :
    effective_spec scope parent_plan l eff → NoDup (desc_id <$> l) →
    resolve_inv scope eff (list_to_set (desc_id <$> l)) l st →
    canonical_cycle (graph_of l st) = Some path →
    resolve_failure scope parent_plan l (Failed (DependencyCycle path)).

Lemma returns_Err {A} (r : result ExtensionError A) e :
  returns r = Err e → ∃ e', e = Failed e' ∧ r = Err e'.
Proof. destruct r; simpl; [done|]. intros [= <-]. by eexists. Qed.

Lemma bind_plugins_Err scope eff l e :
  NoDup (desc_id <$> l) →
  try_fold (bind_plugin scope eff (list_to_set (desc_id <$> l))) (MkState 0 [] ∅ []) l = Err e →
  ∃ d rk st0 rks st, d ∈ l ∧ rk ∈ sorted_requirements d ∧
    bind_state scope eff (list_to_set (desc_id <$> l)) d st0 rks st ∧
    bind_requirement scope eff (list_to_set (desc_id <$> l)) d st rk = Err e.
Proof.
  intros Hnd Hr.
  eapply (try_fold_Err (resolve_inv scope eff (list_to_set (desc_id <$> l)))) in Hr
    as (done & d & rest & st0 & Hl & Hinv & Hr);
    [|apply resolve_inv_initial|intros; by eapply bind_plugin_step].
  unfold bind_plugin in Hr. apply bind_Err_iff in Hr as [Hr|([[] ?] & _ & Hr)]; [|by destruct done].
  eapply (try_fold_Err (bind_state scope eff (list_to_set (desc_id <$> l)) d st0)) in Hr
    as (rks & rk & rest' & st & Hrks & Hst & Hr);
    [|apply bind_state_initial|intros; by eapply bind_requirement_step].
  exists d, rk, st0, rks, st. split_and!; [| |done|done].
  - rewrite Hl. apply elem_of_app. right. by left.
  - rewrite Hrks. apply elem_of_app. right. by left.
Qed.

Lemma resolve_sorted_Err scope parent_plan l e :
  resolve_sorted scope parent_plan (rsort l) = Err e →
  resolve_failure scope parent_plan (rsort l) e.
Proof.
  unfold resolve_sorted. intros Hr.
  apply bind_Err_iff in Hr as [Hr|([] & Hids%map_err_Ok%fail_with_Ok & Hr)].
  { destruct (find_adjacent _ _) as [w|] eqn:Hw; [|done]. injection Hr as <-. by constructor. }
  apply (find_adjacent_rsort _ rle_desc_id) in Hids.
  assert (Hnd : NoDup (desc_id <$> rsort l)) by by rewrite rsort_perm.
  apply bind_Err_iff in Hr as [Hr|([] & _ & Hr)].
  { apply returns_Err in Hr as (e' & -> & (d & Hd & He)%for_each_Err). by eapply fails_invalid. }
  apply bind_Err_iff in Hr as [Hr|(eff & Heff%map_err_Ok%join_providers_Ok & Hr)].
  { apply returns_Err in Hr as (e' & -> & Hj). unfold join_providers in Hj.
    apply bind_Err_iff in Hj as [Hj|(? & _ & ?)]; [|done].
    pose proof Hj as (c & _ & (ps & ->)%check_provider_Err)%for_each_Err.
    apply fails_providers. intros Hok%check_providers_Ok. unfold inherited in Hok. congruence. }
  destruct Heff as [_ Heff].
  apply bind_Err_iff in Hr as [Hr|(st & Hst & Hr)].
  { apply bind_plugins_Err in Hr as (d & rk & st0 & rks & st & ? & ? & ? & ?); [|done].
    by eapply fails_binding. }
  assert (Hinv : resolve_inv scope eff (list_to_set (desc_id <$> rsort l)) (rsort l) st).
  { eapply try_fold_inv; [apply resolve_inv_initial| |exact Hst]. intros. by eapply bind_plugin_step. }
  apply bind_Err_iff in Hr as [Hr|([] & _ & Hr)].
  { destruct (canonical_cycle _) as [path|] eqn:Hc; [|done]. injection Hr as <-.
    by eapply fails_cycle. }
  destruct (stable_kahn_order_total (graph_of (rsort l) st)) as [order Ho];
    [by eapply graph_of_wf|].
  unfold graph_of in Ho. rewrite Ho in Hr. done.
Qed.
End failures.

(** ** Plans built by the resolver *)

Section built.
Context `{Semver, Petgraph}.
Implicit Types (ds : list PluginDescriptor) (plan : ActivationPlan).

(** Plans reach the resolver only from the resolver: [ActivationPlan::new] is
    private to the crate and has no other caller. *)
Inductive resolved (policy : ScopePolicy) : ActivationPlan → Prop :=
| resolved_intro scope parent_plan ds plan :
    (∀ p, parent_plan = Some p → resolved policy p) →
    resolve_activation_plan policy scope parent_plan ds = Ok plan →
    resolved policy plan.

Lemma resolved_ancestors policy plan c p :
  resolved policy plan → plan_effective_providers plan !! c = Some p →
  rtc (parent_of (policy_rules policy)) (scope_kind (plan_scope plan))
    (scope_kind (provider_scope p)).
Proof.
  induction 1 as [scope parent_plan ds plan _ IH Hr]. intros Hp.
  apply resolve_Ok in Hr as (Hid & _ & st & [_ _ _ Hprov _ _ _ _ ->]).
  apply Hprov in Hp as [Hp|Hp].
  - destruct parent_plan as [pp|]; [|by rewrite inherited_None in Hp].
    apply validate_identity_iff in Hid. unfold inherited in Hp. simpl in *.
    destruct (policy_rules policy !! scope_kind scope) as [[k|]|] eqn:Hk; [|naive_solver..].
    destruct Hid as (q & [= <-] & _ & <-). eapply rtc_l; [exact Hk|by apply (IH pp)].
  - apply elem_of_declarations in Hp as (? & ? & _ & _ & _ & ->). reflexivity.
Qed.

Lemma resolved_foreign rules policy scope parent_plan :
  from_host_rules rules = Ok policy →
  (∀ p, parent_plan = Some p → resolved policy p) →
  validate_identity policy scope (plan_scope <$> parent_plan) = Ok () →
  foreign scope parent_plan.
Proof.
  intros Hrules Hpp Hid c p Hp Hs.
  destruct parent_plan as [pp|]; [|by rewrite inherited_None in Hp].
  pose proof (from_host_rules_spec rules) as Hpol. rewrite Hrules in Hpol.
  pose proof (policy_chains_end _ _ Hpol) as Hacc.
  apply validate_identity_iff in Hid. simpl in Hid.
  destruct (policy_rules policy !! scope_kind scope) as [[k|]|] eqn:Hk; [|naive_solver..].
  destruct Hid as (q & [= <-] & _ & <-).
  pose proof (resolved_ancestors policy pp c p (Hpp pp eq_refl) Hp) as Hrtc. rewrite Hs in Hrtc.
  apply (Acc_no_cycle (policy_rules policy) _ (Hacc (scope_kind scope))).
  eapply tc_rtc_r; [by apply tc_once|done].
Qed.

Lemma normalized_pair ds w :
  find_adjacent desc_id (rsort (normalize <$> ds)) = Some w →
  ∃ d1 d2 l, ds ≡ₚ d1 :: d2 :: l ∧ desc_id d1 = desc_id w.1 ∧ desc_id d2 = desc_id w.1.
Proof.
  destruct w as [w1 w2]. intros (Hk & l1 & l2 & Hl)%find_adjacent_Some.
  assert (Hp : normalize <$> ds ≡ₚ w1 :: w2 :: l1 ++ l2)
    by (rewrite <-rsort_perm, Hl; solve_Permutation).
  symmetry in Hp. apply Permutation_map_inv in Hp as (k & Hk2 & Hp).
  destruct k as [|d1 [|d2 k]]; simplify_eq/=. by exists d1, d2, k.
Qed.


(** Every requirement is bindable within the limit: required ones have a provider,
    all present providers have the required major, and there are at most 8192
    bound requirements. *)
Record bindable (eff : gmap CapabilityId ProviderIdentity) ds : Prop := {
  bindable_required d r : d ∈ ds → r ∈ desc_requires d → is_Some (eff !! req_capability r);
  bindable_major d r p : d ∈ ds → r ∈ desc_requires d ∨ r ∈ desc_optional d →
    eff !! req_capability r = Some p → provider_major p = req_major r;
  bindable_limit : total_bound eff (rsort (normalize <$> ds)) <= 8192
}.

Lemma bind_plugins_total scope parent_plan ds eff :
  NoDup (desc_id <$> rsort (normalize <$> ds)) →
  foreign scope parent_plan →
  effective_spec scope parent_plan (rsort (normalize <$> ds)) eff →
  bindable eff ds →
  ∃ st, try_fold (bind_plugin scope eff (list_to_set (desc_id <$> rsort (normalize <$> ds))))
          (MkState 0 [] ∅ []) (rsort (normalize <$> ds)) = Ok st ∧
    resolve_inv scope eff (list_to_set (desc_id <$> rsort (normalize <$> ds)))
      (rsort (normalize <$> ds)) st.
Proof.
  intros Hnd Hfor Heff [Hreq Hmaj Hlim].
  set (l := rsort (normalize <$> ds)) in *. set (nodes := list_to_set (desc_id <$> l) : gset PluginId).
  destruct (try_fold (bind_plugin scope eff nodes) (MkState 0 [] ∅ []) l) as [st|e] eqn:Hr.
  { exists st. split; [done|]. eapply try_fold_inv; [apply resolve_inv_initial| |exact Hr].
    intros. by eapply bind_plugin_step. }
  exfalso.
  eapply (try_fold_Err (resolve_inv scope eff nodes)) in Hr as (done & d' & rest & st0 & Hl & Hinv & Hr);
    [|apply resolve_inv_initial|intros; by eapply bind_plugin_step].
  unfold bind_plugin in Hr. apply bind_Err_iff in Hr as [Hr|([[] ?] & _ & Hr)]; [|by destruct done].
  eapply (try_fold_Err (bind_state scope eff nodes d' st0)) in Hr
    as (rks & rk & rest' & st & Hrks & Hst & Hr);
    [|apply bind_state_initial|intros; by eapply bind_requirement_step].
  assert (Hd' : d' ∈ l) by (rewrite Hl; apply elem_of_app; right; by left).
  assert (Hrk : rk ∈ sorted_requirements d') by (rewrite Hrks; apply elem_of_app; right; by left).
  pose proof (bind_requirement_Err _ _ _ _ _ _ _ _ _ Hst Hr) as HE. destruct rk as [r k].
  pose proof Hd' as (d & -> & Hd)%elem_of_normalized.
  apply elem_of_sorted_requirements in Hrk. simpl in Hrk, HE.
  destruct e as [[]|]; try done.
  - destruct limit, plugin_id; try done. destruct HE as (_ & -> & -> & Hb & Hlt).
    rewrite (ri_count _ _ _ _ _ Hinv) in Hlt.
    rewrite Hl, total_bound_app in Hlim. simpl in Hlim. rewrite Hrks in Hlim.
    replace ((r, k) :: rest') with ([(r, k)] ++ rest') in Hlim by done.
    rewrite app_assoc, bound_count_app, bound_count_snoc, Hb in Hlim.
    pose proof (bound_count_nonneg eff rest'). pose proof (total_bound_nonneg eff rest). lia.
  - destruct HE as (_ & -> & <- & _ & Hnone).
    destruct (Hreq d r Hd) as [p Hp]; [naive_solver|congruence].
  - destruct HE as (_ & <- & -> & p & Hp & _ & -> & Hne). apply Hne. f_equal. symmetry.
    apply (Hmaj d); [done|naive_solver|done].
  - destruct HE as (p & Hp & Hs & Hn). apply Heff in Hp as [Hp|Hp]; [by apply (Hfor _ _ Hp)|].
    apply elem_of_declarations in Hp as (da & decl & Hda & _ & _ & ->). simpl in Hn. unfold nodes in Hn.
    rewrite !elem_of_list_to_set in Hn. destruct Hn as [Hn|Hn]; apply Hn.
    + by apply list_elem_of_fmap_2.
    + change (desc_id d) with (desc_id (normalize d)). by apply list_elem_of_fmap_2.
Qed.

(** C2: the resolver rejects nothing it should accept.  When the scope fits its
    parent, there are at most 256 plugins with distinct ids and well-formed
    descriptors, every capability has one provider, every requirement is
    bindable and no plugin depends on itself, resolution returns a plan. *)
Theorem resolve_complete rules policy scope parent_plan ds eff :
  from_host_rules rules = Ok policy →
  (∀ p, parent_plan = Some p → resolved policy p) →
  validate_identity policy scope (plan_scope <$> parent_plan) = Ok () →
  vec_len ds <= 256 →
  NoDup (desc_id <$> ds) →
  (∀ d, d ∈ ds → descriptor_wf d (scope_kind scope)) →
  providers_distinct (inherited parent_plan) scope ds →
  effective_spec scope parent_plan ds eff →
  bindable eff ds →
  (∀ a, ¬ tc (depends ds) a a) →
  ∃ plan, resolve_activation_plan policy scope parent_plan ds = Ok plan.
Proof.
  intros Hrules Hpp Hid Hlen Hnd Hwf [Hdn Hdi] Heff Hbind Hacyc.
  pose proof (resolved_foreign _ _ _ _ Hrules Hpp Hid) as Hfor.
  assert (Hnd' : NoDup (desc_id <$> rsort (normalize <$> ds))) by by rewrite normalized_ids.
  assert (Heff' : effective_spec scope parent_plan (rsort (normalize <$> ds)) eff)
    by (intros c p; by rewrite declarations_normalized).
  assert (Hdist : providers_distinct (inherited parent_plan) scope (rsort (normalize <$> ds))).
  { split; [by rewrite declarations_normalized|]. intros c p. rewrite declarations_normalized. apply Hdi. }
  destruct (bind_plugins_total _ _ _ _ Hnd' Hfor Heff' Hbind) as (st & Hst & Hinv).
  unfold resolve_activation_plan, resolve_sorted. rewrite Hid. cbn [returns map_err mbind result_bind].
  rewrite (proj2 (Z.ltb_ge _ _)) by (unfold MAX_PLUGINS_PER_SCOPE; lia).
  cbn [fail_if returns map_err mbind result_bind].
  rewrite (proj2 (find_adjacent_rsort _ rle_desc_id (normalize <$> ds)))
    by (by rewrite <-list_fmap_compose).
  rewrite (proj2 (for_each_Ok _ _)).
  2:{ apply Forall_forall. intros d' (d & -> & Hd)%elem_of_normalized.
      by apply validate_for_scope_normalized, Hwf. }
  destruct (join_providers_total _ _ _ Hdist) as (eff' & Hj & Heffj).
  assert (eff' = eff) as -> by (apply map_eq; intros c; apply option_eq; intros p;
    rewrite Heffj; symmetry; apply Heff').
  unfold inherited in Hj. cbn [fail_with returns map_err mbind result_bind].
  rewrite Hj. cbn [returns map_err mbind result_bind]. rewrite Hst. cbn [mbind result_bind].
  pose proof (graph_of_wf _ _ _ _ Hnd' Hinv) as Hgwf. fold (graph_of (rsort (normalize <$> ds)) st).
  destruct (canonical_cycle _) as [path|] eqn:Hc.
  { exfalso. apply canonical_cycle_Some in Hc as (s & l & _ & Hl & _); [|done].
    apply (Hacyc s), (chain_tc _ _ l). eapply chain_mono; [|exact Hl]. intros a b He.
    by apply (edge_depends _ _ _ _ _ _ _ Hfor Heff' Hinv) in He as [? _]. }
  destruct (stable_kahn_order_total _ Hgwf) as [order ->]. simpl. by eexists.
Qed.
End built.
