(* ===== verification/ScopeManager.v ===== *)
(** * Scope manager and host

    Model of the upper half of [crates/rho-extension-runtime/src/lifecycle.rs]:
    the building of scope candidates, the slots with their publication by
    compare-and-swap, the scope manager and the extension host.

    The operations of one manager are serialised by its publication gate; each is
    one computation here, and a caller may drop it at any wait.  What a plugin
    does while it is activated is a script of calls on its context. *)
From S2P Require Import Prelude Text Errors External Ids Model Graph Resolver Broker Async Lifecycle.
#[local] Open Scope Z_scope.

Section scope_manager.
Context `{Semver, Petgraph, SerdeToVec, !Tokio World}.

(** [ScopePolicy::phase_one()], whose rules are without defect. *)
Definition phase_one_policy : ScopePolicy :=
  match phase_one with Ok policy => policy | Err _ => MkPolicy ∅ end.

(** ** Activation *)

Inductive ActivationOutcome := ActivationReturned (r : result ActivationError ()) | ActivationPanicked.

(** An [InternalPlugin::activate]: the calls it makes on its [PluginContext], each
    going on with the answer, and how it ends. *)
Inductive Activation :=
| Finish (outcome : ActivationOutcome)
| RegisterEntry (c : CapabilityId) (e : Entry) (k : result RegistryError Z → Activation)
| PushEffect (behaviour : nat → option Z * Verdict) (k : Z → Activation)
| SpawnTask (ends : option Z) (k : result TaskAdmissionError () → Activation)
| EmitDiagnostic (d : ExtensionDiagnostic) (k : Activation)
| CallBroker (request : BrokerRequest) (k : result BrokerError BrokerResponse → Activation)
| Sleep (delay : option Z) (k : Activation).
Record InternalPlugin := MkPlugin { ip_descriptor : PluginDescriptor; ip_activate : Activation }.
(** A [BrokerFacade] is known by the time a call takes and its answer. *)
Definition BrokerFacade : Type := BrokerRequest → option Z * result BrokerError BrokerResponse.

(** The plugin runs with the sink of its effects, which [register_*] and [push]
    fill: [EffectSink::register_marker] and its siblings, and [EffectSink::push]. *)
Fixpoint activate (r : Ref) (instance : PluginInstanceIdentity) (broker : BrokerFacade)
    (script : Activation) (effects : list PendingEffect)
    : async World (ActivationOutcome * list PendingEffect) :=
  match script with
  | Finish outcome => mret (outcome, effects)
  | RegisterEntry c e k =>
      registered ← call (register r instance c e);
      match registered with
      | Ok registration =>
          let '(effects, order) := push_effect instance effects (Registration registration) in
          activate r instance broker (k (Ok order)) effects
      | Err error => activate r instance broker (k (Err error)) effects
      end
  | PushEffect behaviour k =>
      let '(effects, order) := push_effect instance effects (Custom 0 behaviour) in
      activate r instance broker (k order) effects
  | SpawnTask ends k =>
      admitted ← call (spawn r ends);
      activate r instance broker (k admitted) effects
  | EmitDiagnostic d k =>
      _ ← emit (scoped_diagnostic instance d);
      activate r instance broker k effects
  | CallBroker request k =>
      _ ← await (broker request).1;
      activate r instance broker (k (broker request).2) effects
  | Sleep delay k => _ ← await delay; activate r instance broker k effects
  end.

Inductive CandidateBuildError :=
| Resolution (e : ExtensionError)
| ActivationFailedWith (plugin_id : PluginId) (error : ActivationError) (rollback : ScopeDisposeReport).

(** A new scope: its registry, tasks and token. *)
Definition fresh_ref (w : World) : Ref := fresh (dom (w_runtimes w) ∪ dom (w_scopes w)).
Definition alloc_runtime (identity : ScopeIdentity) (w : World) : World * Ref :=
  (set_runtimes (<[fresh_ref w := ScopeRuntime_new identity]>) w, fresh_ref w).
Definition alloc_scope (r : Ref) (s : ScopeSnapshot) : World → World := set_scopes (<[r := s]>).

Definition activation_panicked : ActivationError :=
  ActivationError_new "activation_panicked" "plugin activation panicked at the host boundary".

(** One round of the activation loop: the plugins activated so far, or the error
    of the plugin that failed. *)
Definition activate_plugin (r : Ref) (identity : ScopeIdentity)
    (plugins_by_id : gmap PluginId InternalPlugin) (passive_ids : gset PluginId) (broker : BrokerFacade)
    (acc : list ActivatedPlugin * option (PluginId * ActivationError)) (plugin_id : PluginId)
    : async World (list ActivatedPlugin * option (PluginId * ActivationError)) :=
  match acc.2 with
  | Some _ => mret acc
  | None =>
      let instance := MkInstanceId plugin_id identity in
      match plugins_by_id !! plugin_id with
      | None =>
          if bool_decide (plugin_id ∈ passive_ids)
          then mret (acc.1 ++ [MkActivated instance [] None], None)
          else never
      | Some plugin =>
          _ ← emit (lifecycle_diagnostic DiagnosticCode.ActivationStarted Info (Some identity)
                (Some plugin_id) None "plugin activation started");
          ended ← activate r instance broker (ip_activate plugin) [];
          let activated := acc.1 ++ [MkActivated instance ended.2 None] in
          match match ended.1 with
                | ActivationReturned outcome => outcome
                | ActivationPanicked => Err activation_panicked
                end with
          | Ok _ =>
              _ ← emit (lifecycle_diagnostic DiagnosticCode.ActivationSucceeded Info (Some identity)
                    (Some plugin_id) None "plugin activation succeeded");
              mret (activated, None)
          | Err error =>
              _ ← emit (lifecycle_diagnostic DiagnosticCode.ActivationFailed Error (Some identity)
                    (Some plugin_id) None ("plugin activation failed: " +:+ ae_code error));
              mret (activated, Some (plugin_id, error))
          end
      end
  end.

(** [.collect()] of pairs into a [BTreeMap]: the last of equal keys stays. *)
Definition plugins_by_id (plugins : list InternalPlugin) : gmap PluginId InternalPlugin :=
  foldl (λ m p, <[desc_id (ip_descriptor p) := p]> m) ∅ plugins.

Definition build_scope_candidate_with_passive_descriptors (identity : ScopeIdentity)
    (parent_plan : option ActivationPlan) (plugins : list InternalPlugin)
    (passive_descriptors : list PluginDescriptor) (broker : BrokerFacade)
    (deadlines : LifecycleDeadlines) : async World (result CandidateBuildError Ref) :=
  match resolve_activation_plan phase_one_policy identity parent_plan
          ((ip_descriptor <$> plugins) ++ passive_descriptors) with
  | Err (Failed error) => mret (Err (Resolution error))
  | Err Panic => never
  | Ok plan =>
      r ← call (alloc_runtime identity);
      activated ← async_fold
        (activate_plugin r identity (plugins_by_id plugins)
           (list_to_set (desc_id <$> passive_descriptors)) broker)
        ([], None) (plan_activation_order plan);
      _ ← modify (alloc_scope r (ScopeSnapshot_new_ready identity plan activated.1));
      match activated.2 with
      | None => mret (Ok r)
      | Some (plugin_id, error) =>
          rollback ← quiesce_and_dispose r deadlines;
          _ ← modify (if bool_decide (sdr_outcome rollback = DisposeOutcome.Failed)
                      then log (lifecycle_diagnostic DiagnosticCode.ActivationRollbackFailed Error
                             (Some identity) (Some plugin_id) None
                             "activation rollback completed with leaked resources")
                      else id);
          mret (Err (ActivationFailedWith plugin_id error rollback))
      end
  end.
Definition build_scope_candidate (identity : ScopeIdentity) (parent_plan : option ActivationPlan)
    (plugins : list InternalPlugin) (broker : BrokerFacade) (deadlines : LifecycleDeadlines) :=
  build_scope_candidate_with_passive_descriptors identity parent_plan plugins [] broker deadlines.

(** ** Slots *)

Inductive Slot := ApplicationSlot | ProjectSlot | WorkspaceSlot.
#[global] Instance Slot_eq_dec : EqDecision Slot.
Proof. solve_decision. Defined.
(** [ScopeSlot::current]. *)
Definition slot (w : World) (k : Slot) : option Ref :=
  match k with
  | ApplicationSlot => w_application w | ProjectSlot => w_project w | WorkspaceSlot => w_workspace w
  end.
Definition set_slot (k : Slot) (v : option Ref) (w : World) : World :=
  MkWorld (w_now w) (w_runtimes w) (w_scopes w)
    (if decide (k = ApplicationSlot) then v else w_application w)
    (if decide (k = ProjectSlot) then v else w_project w)
    (if decide (k = WorkspaceSlot) then v else w_workspace w) (w_next_generation w) (w_log w).
(** [ArcSwapOption::compare_and_swap], by pointer: the previous value. *)
Definition compare_and_swap (k : Slot) (current new : option Ref) (w : World) : World * option Ref :=
  (if decide (slot w k = current) then set_slot k new w else w, slot w k).

Definition identity_of (w : World) (r : Ref) : option ScopeIdentity := sn_identity <$> w_scopes w !! r.
Definition identity_of_opt (w : World) (o : option Ref) : option ScopeIdentity := o ≫= identity_of w.

Record StaleGenerationError := MkStale {
  stale_completed : ScopeIdentity;
  stale_actual : option ScopeIdentity
}.
Definition validate_current (w : World) (k : Slot) (completed_scope : ScopeIdentity)
    : result StaleGenerationError () :=
  let actual := identity_of_opt w (slot w k) in
  if bool_decide (actual = Some completed_scope) then Ok () else Err (MkStale completed_scope actual).

Record PublishReport := MkPublishReport {
  pr_published : ScopeIdentity;
  pr_previous : option ScopeIdentity;
  pr_previous_dispose : option ScopeDisposeReport
}.
Record CandidatePublishError := MkPublishError {
  pe_expected : option ScopeIdentity;
  pe_actual : option ScopeIdentity;
  pe_rejected : ScopeIdentity;
  pe_rejected_dispose : ScopeDisposeReport;
  pe_reason : string
}.

(** The identity a live pointer leads to. *)
Definition the_identity (r : Ref) : async World ScopeIdentity :=
  identity ← gets (λ w, identity_of w r);
  match identity with Some identity => mret identity | None => never end.

(** [candidate.quiesce_and_dispose(..)] and the error that reports it; [actual] is
    read after the disposal. *)
Definition reject (expected : option Ref) (candidate : Ref) (deadlines : LifecycleDeadlines)
    (actual : World → option ScopeIdentity) (reason : string)
    : async World (result CandidatePublishError PublishReport) :=
  rejected ← the_identity candidate;
  report ← quiesce_and_dispose candidate deadlines;
  expected ← gets (λ w, identity_of_opt w expected);
  actual ← gets actual;
  mret (Err (MkPublishError expected actual rejected report reason)).

(** What the part under the candidate's gate comes to. *)
Inductive PublishStep :=
| NotReady (actual : state)
| LostRace (previous : option Ref)
| NotActivated (previous : option Ref) (error : ScopeStateError)
| Published (previous : option Ref).

Definition publish_step (k : Slot) (expected : option Ref) (candidate : Ref)
    (on_published : option Ref → Ref → World → World) (w : World) : World * PublishStep :=
  match scope_state w candidate with
  | Some ScopeLifecycleState.Ready =>
      let '(w, previous) := compare_and_swap k expected (Some candidate) w in
      if negb (bool_decide (previous = expected)) then
        (scope_diagnostic DiagnosticCode.CandidateCasRejected Warning candidate
           "candidate publication lost the expected-old CAS race" w, LostRace previous)
      else
        match mark_active candidate w with
        | (w, Err error) => ((compare_and_swap k (Some candidate) previous w).1, NotActivated previous error)
        | (w, Ok _) =>
            let w := scope_diagnostic DiagnosticCode.CandidatePublished Info candidate
                       "candidate scope published" w in
            let w := match previous with Some p => begin_quiesce p w | None => w end in
            (on_published previous candidate w, Published previous)
        end
  | actual => (w, NotReady (default ScopeLifecycleState.Failed actual))
  end.

(** [ScopeSlot::publish_with]. *)
Definition publish_with (k : Slot) (expected : option Ref) (candidate : Ref)
    (deadlines : LifecycleDeadlines) (on_published : option Ref → Ref → World → World)
    : async World (result CandidatePublishError PublishReport) :=
  step ← lock_gate candidate (call (publish_step k expected candidate on_published));
  match step with
  | NotReady actual =>
      reject expected candidate deadlines (λ w, identity_of_opt w (slot w k))
        (ScopeStateError_display (InvalidTransition ScopeLifecycleState.Ready actual))
  | LostRace previous =>
      reject expected candidate deadlines (λ w, identity_of_opt w previous) "expected_old_mismatch"
  | NotActivated previous error =>
      reject expected candidate deadlines (λ w, identity_of_opt w previous)
        (ScopeStateError_display error)
  | Published previous =>
      report ← match previous with
               | Some p => report ← quiesce_and_dispose p deadlines; mret (Some report)
               | None => mret None
               end;
      published ← the_identity candidate;
      previous ← gets (λ w, identity_of_opt w previous);
      mret (Ok (MkPublishReport published previous report))
  end.
Definition publish_slot (k : Slot) (expected : option Ref) (candidate : Ref)
    (deadlines : LifecycleDeadlines) :=
  publish_with k expected candidate deadlines (λ _ _ w, w).

(** ** The manager *)

Variable deadlines : LifecycleDeadlines.

(** [ScopeManager::application], which unwraps. *)
Definition the_application : async World Ref :=
  application ← gets w_application;
  match application with Some a => mret a | None => never end.

Definition next_identity (kind : ScopeKindId) (id : ScopeId) (parent : option Ref) (w : World)
    : World * result ExtensionError ScopeIdentity :=
  let generation := w_next_generation w in
  match checked_add_u64 generation 1 with
  | None => (w, Err ActivationGenerationExhausted)
  | Some next =>
      let w := MkWorld (w_now w) (w_runtimes w) (w_scopes w) (w_application w) (w_project w)
                 (w_workspace w) next (w_log w) in
      (w,
       generation ← ActivationGeneration_new generation;
       let parent := identity_of_opt w parent in
       let identity := ScopeIdentity_new kind id (Errors.scope_id <$> parent) generation in
       _ ← validate_identity phase_one_policy identity parent;
       Ok identity)
  end.

Definition publish_project (expected : option Ref) (candidate : Ref)
    : async World (result CandidatePublishError PublishReport) :=
  workspace ← gets w_workspace;
  if is_some workspace then
    reject expected candidate deadlines (λ w, identity_of_opt w (w_project w))
      "workspace_tree_publication_required"
  else
    application ← the_application;
    publish_with ProjectSlot expected candidate deadlines (replace_child application).

Definition publish_workspace (expected : option Ref) (candidate : Ref)
    : async World (result CandidatePublishError PublishReport) :=
  project ← gets w_project;
  match project with
  | None =>
      reject expected candidate deadlines (λ w, identity_of_opt w (w_workspace w))
        "workspace_parent_project_missing"
  | Some project =>
      identity ← the_identity candidate;
      parent ← the_identity project;
      if negb (bool_decide (scope_parent_id identity = Some (Errors.scope_id parent))) then
        reject expected candidate deadlines (λ w, identity_of_opt w (w_workspace w))
          (ScopeStateError_display InvalidChildParent)
      else publish_with WorkspaceSlot expected candidate deadlines (replace_child project)
  end.

Record ProjectTreePublishReport := MkTreeReport {
  tr_project : ScopeIdentity;
  tr_workspace : ScopeIdentity;
  tr_previous_project : option ScopeIdentity;
  tr_previous_workspace : option ScopeIdentity;
  tr_previous_dispose : option ScopeDisposeReport
}.
Record ProjectTreePublishError := MkTreeError {
  te_expected_project : option ScopeIdentity;
  te_actual_project : option ScopeIdentity;
  te_expected_workspace : option ScopeIdentity;
  te_actual_workspace : option ScopeIdentity;
  te_rejected_project : ScopeIdentity;
  te_rejected_workspace : ScopeIdentity;
  te_rejected_dispose : ScopeDisposeReport;
  te_rejected_workspace_dispose : ScopeDisposeReport;
  te_reason : string
}.

(** What the part under the two gates comes to: a refusal with what it found in
    the slots, where it did not leave them to be read later, or the previous
    scopes. *)
Inductive TreeStep :=
| TreeRejected (reason : string) (actual_project actual_workspace : option (option Ref))
| TreePublished (previous_project previous_workspace : option Ref).

Definition tree_step (application : Ref) (expected_project : option Ref) (project : Ref)
    (expected_workspace : option Ref) (workspace : Ref) (w : World) : World * TreeStep :=
  let not_ready := List.find (λ s, negb (bool_decide (s = Some ScopeLifecycleState.Ready)))
                     [scope_state w project; scope_state w workspace] in
  match not_ready with
  | Some actual =>
      (w, TreeRejected (ScopeStateError_display (InvalidTransition ScopeLifecycleState.Ready
                          (default ScopeLifecycleState.Failed actual))) None None)
  | None =>
      if negb (bool_decide ((identity_of w workspace ≫= scope_parent_id)
                            = Errors.scope_id <$> identity_of w project)) then
        (w, TreeRejected (ScopeStateError_display InvalidChildParent) None None)
      else
      match attach_child project workspace w with
      | (w, Err error) => (w, TreeRejected (ScopeStateError_display error) None None)
      | (w, Ok _) =>
          let '(w, previous_project) := compare_and_swap ProjectSlot expected_project (Some project) w in
          if negb (bool_decide (previous_project = expected_project)) then
            (w, TreeRejected "project_expected_old_mismatch" (Some previous_project) None)
          else
          let '(w, previous_workspace) :=
            compare_and_swap WorkspaceSlot expected_workspace (Some workspace) w in
          if negb (bool_decide (previous_workspace = expected_workspace)) then
            ((compare_and_swap ProjectSlot (Some project) previous_project w).1,
             TreeRejected "workspace_expected_old_mismatch" (Some previous_project)
               (Some previous_workspace))
          else
            let w := (mark_active workspace (mark_active project w).1).1 in
            let w := replace_child application previous_project project w in
            (match previous_project with Some p => begin_quiesce p w | None => w end,
             TreePublished previous_project previous_workspace)
      end
  end.

Definition publish_project_tree (expected_project : option Ref) (project : Ref)
    (expected_workspace : option Ref) (workspace : Ref)
    : async World (result ProjectTreePublishError ProjectTreePublishReport) :=
  application ← the_application;
  step ← lock_gate project (lock_gate workspace
    (call (tree_step application expected_project project expected_workspace workspace)));
  match step with
  | TreeRejected reason actual_project actual_workspace =>
      (* dispose_project_tree_candidates *)
      workspace_report ← quiesce_and_dispose workspace deadlines;
      project_report ← quiesce_and_dispose project deadlines;
      rejected_project ← the_identity project;
      rejected_workspace ← the_identity workspace;
      gets (λ w, Err (MkTreeError (identity_of_opt w expected_project)
        (identity_of_opt w (default (w_project w) actual_project))
        (identity_of_opt w expected_workspace)
        (identity_of_opt w (default (w_workspace w) actual_workspace))
        rejected_project rejected_workspace project_report workspace_report reason))
  | TreePublished previous_project previous_workspace =>
      report ← match previous_project with
               | Some p => report ← quiesce_and_dispose p deadlines; mret (Some report)
               | None => mret None
               end;
      published_project ← the_identity project;
      published_workspace ← the_identity workspace;
      gets (λ w, Ok (MkTreeReport published_project published_workspace
        (identity_of_opt w previous_project) (identity_of_opt w previous_workspace) report))
  end.

(** The common part of [clear_project] and [clear_workspace]: [None] when the slot
    held another scope. *)
Definition clear_slot (k : Slot) (expected : Ref) (detach : World → World)
    : async World (result StaleGenerationError (option ScopeDisposeReport)) :=
  previous ← call (compare_and_swap k (Some expected) None);
  if negb (bool_decide (previous = Some expected)) then
    completed ← the_identity expected;
    gets (λ w, Err (MkStale completed (identity_of_opt w previous)))
  else
    _ ← modify (begin_quiesce expected);
    _ ← modify detach;
    report ← quiesce_and_dispose expected deadlines;
    mret (Ok (Some report)).
Definition clear_project (expected : option Ref)
    : async World (result StaleGenerationError (option ScopeDisposeReport)) :=
  match expected with
  | None => mret (Ok None)
  | Some expected =>
      workspace ← gets w_workspace;
      match workspace with
      | Some workspace =>
          completed ← the_identity expected;
          gets (λ w, Err (MkStale completed (identity_of w workspace)))
      | None =>
          clear_slot ProjectSlot expected (λ w,
            match w_application w with Some a => remove_child a expected w | None => w end)
      end
  end.
Definition clear_workspace (expected : option Ref)
    : async World (result StaleGenerationError (option ScopeDisposeReport)) :=
  match expected with
  | None => mret (Ok None)
  | Some expected =>
      clear_slot WorkspaceSlot expected (λ w,
        match w_project w with Some p => remove_child p expected w | None => w end)
  end.
Definition shutdown : async World ScopeDisposeReport :=
  application ← the_application;
  quiesce_and_dispose application deadlines.

(** ** The host *)

Definition build_project_candidate (scope_id : ScopeId) (plugins : list InternalPlugin)
    (broker : BrokerFacade) : async World (result CandidateBuildError Ref) :=
  application ← the_application;
  identity ← call (next_identity project_kind scope_id (Some application));
  match identity with
  | Err error => mret (Err (Resolution error))
  | Ok identity =>
      plan ← gets (λ w, sn_plan <$> w_scopes w !! application);
      build_scope_candidate identity plan plugins broker deadlines
  end.
Definition rejecting_facade : BrokerFacade := λ request, (Some 0, rejecting_call request).
Definition build_empty_project_candidate (scope_id : ScopeId) :=
  build_project_candidate scope_id [] rejecting_facade.
Definition build_workspace_candidate (parent : Ref) (scope_id : ScopeId) (plugins : list InternalPlugin)
    (broker : BrokerFacade) : async World (result CandidateBuildError Ref) :=
  identity ← call (next_identity workspace_kind scope_id (Some parent));
  match identity with
  | Err error => mret (Err (Resolution error))
  | Ok identity =>
      plan ← gets (λ w, sn_plan <$> w_scopes w !! parent);
      build_scope_candidate identity plan plugins broker deadlines
  end.
Definition rollback_candidate (candidate : Ref) : async World ScopeDisposeReport :=
  quiesce_and_dispose candidate deadlines.

Definition host_plugin_id : PluginId := MkIdent "org.yulab.rho.host".
(** [None] for the version stands for the panic of its [expect]. *)
Definition host_capability_descriptor (host_capabilities : list CapabilityDeclaration)
    : option (list PluginDescriptor) :=
  match host_capabilities with
  | [] => Some []
  | _ =>
      version ← Version_parse "1.0.0";
      let d := PluginDescriptor_new host_plugin_id version [application_kind] in
      Some [MkDescriptor (desc_id d) (desc_version d) (desc_allowed_scopes d) host_capabilities
              (desc_requires d) (desc_optional d) (desc_activation_policy d)]
  end.

Inductive ExtensionHostError :=
| ApplicationGraph (e : ExtensionError)
| ApplicationBuild (e : CandidateBuildError)
| ApplicationState (e : ScopeStateError).
Definition application_identity : ScopeIdentity :=
  ScopeIdentity_new application_kind (MkIdent "application") None (MkGeneration 1).
(** [ScopeManager::new] with [ScopeSlot::from_active]. *)
Definition ScopeManager_new (application : Ref) (w : World) : World * result ExtensionHostError () :=
  match mark_active application w with
  | (w, Err error) => (w, Err (ApplicationState error))
  | (w, Ok _) =>
      (MkWorld (w_now w) (w_runtimes w) (w_scopes w) (Some application) None None 2 (w_log w), Ok ())
  end.
Definition new_with_application_plugins (host_capabilities : list CapabilityDeclaration)
    (plugins : list InternalPlugin) (broker : BrokerFacade)
    : async World (result ExtensionHostError ()) :=
  match host_capability_descriptor host_capabilities with
  | None => never
  | Some passive_descriptors =>
      application ← build_scope_candidate_with_passive_descriptors application_identity None plugins
                      passive_descriptors broker deadlines;
      match application with
      | Err error => mret (Err (ApplicationBuild error))
      | Ok application => call (ScopeManager_new application)
      end
  end.
Definition new_with_host_capabilities (host_capabilities : list CapabilityDeclaration)
    : async World (result ExtensionHostError ()) :=
  match host_capability_descriptor host_capabilities with
  | None => never
  | Some descriptors =>
      match resolve_activation_plan phase_one_policy application_identity None descriptors with
      | Err (Failed error) => mret (Err (ApplicationGraph error))
      | Err Panic => never
      | Ok plan =>
          r ← call (alloc_runtime application_identity);
          let plugins := if vec_is_empty (plan_activation_order plan) then []
                         else [MkActivated (MkInstanceId host_plugin_id application_identity) [] None] in
          _ ← modify (alloc_scope r (ScopeSnapshot_new_ready application_identity plan plugins));
          call (ScopeManager_new r)
      end
  end.
Definition new_empty : async World (result ExtensionHostError ()) := new_with_host_capabilities [].
End scope_manager.
