(* ===== verification/ManagerShape.v ===== *)
(** * The shape of a scope manager

    An abstract account of the scope manager: its slots, the states of the scopes
    and the edges between them, with what stays true of them and the transitions
    that publish, clear and close scopes.  [ManagerInvariant] relates the worlds of
    [ScopeManager] to it. *)
From S2P Require Import Prelude Text Errors External Ids Model Broker Async Lifecycle LifecycleProps.
From S2P Require Import Graph Resolver ScopeManager.
#[local] Open Scope Z_scope.

Section shape.
Implicit Types (r q c x y : Ref) (k : Slot).

Definition quiesced (st : state) : state := if open_state st then ScopeLifecycleState.Quiescing else st.

(** ** The shape

    The slots, the states of the scopes and the edges between them, abstractly.
    The published scopes are a chain; a scope that is ready has no parent; an
    active scope is published, or hangs below a scope that is closed; generations
    tell scopes apart. *)
Definition generation_in (ids : Ref → option ScopeIdentity) r : option Z :=
  (λ i, generation_get (scope_generation i)) <$> ids r.
Definition names_parent (ids : Ref → option ScopeIdentity) q c : Prop :=
  ids c ≫= scope_parent_id = Errors.scope_id <$> ids q.
#[global] Instance names_parent_dec ids q c : Decision (names_parent ids q c).
Proof. unfold names_parent. apply _. Defined.
Definition closed_in (st : Ref → option state) q : Prop := is_some_and open_state (st q) = false.
Record shape_ok (sl : Slot → option Ref) (st : Ref → option state) (ch : Ref → Ref → Prop)
    (ids : Ref → option ScopeIdentity) (next : Z) : Prop := {
  sh_application : ∃ a, sl ApplicationSlot = Some a ∧ st a = Some ScopeLifecycleState.Active ∧ ∀ q, ¬ ch q a;
  sh_project p : sl ProjectSlot = Some p → st p = Some ScopeLifecycleState.Active ∧
    ∃ a, sl ApplicationSlot = Some a ∧ ch a p ∧ ∀ q, ch q p → q = a;
  sh_workspace x : sl WorkspaceSlot = Some x → st x = Some ScopeLifecycleState.Active ∧
    ∃ p, sl ProjectSlot = Some p ∧ ch p x ∧ names_parent ids p x ∧ ∀ q, ch q x → q = p;
  sh_ready r q : st r = Some ScopeLifecycleState.Ready → ¬ ch q r;
  sh_active r : st r = Some ScopeLifecycleState.Active →
    (∃ k, sl k = Some r) ∨ ∃ q, ch q r ∧ closed_in st q;
  sh_generation r g : generation_in ids r = Some g → g < next;
  sh_distinct r r' g : generation_in ids r = Some g → generation_in ids r' = Some g → r = r'
}.
Lemma shape_ok_ext sl st ch ids sl' st' ch' ids' (next : Z) :
  (∀ k, sl' k = sl k) → (∀ r, st' r = st r) → (∀ q c, ch' q c ↔ ch q c) → (∀ r, ids' r = ids r) →
  shape_ok sl st ch ids next → shape_ok sl' st' ch' ids' next.
Proof.
  intros Hsl Hst Hch Hid Hok.
  assert (Hg : ∀ r, generation_in ids' r = generation_in ids r) by (intros r; unfold generation_in; by rewrite Hid).
  split.
  - destruct (sh_application _ _ _ _ _ Hok) as (a & ? & ? & Ha). exists a. rewrite Hsl, Hst.
    split_and!; [done..|]. intros q. rewrite Hch. apply Ha.
  - intros p. rewrite Hsl, Hst. intros (? & a & ? & ? & Hq)%(sh_project _ _ _ _ _ Hok). split; [done|].
    exists a. rewrite Hsl, Hch. split_and!; [done..|]. intros q. rewrite Hch. apply Hq.
  - intros x. rewrite Hsl, Hst. intros (? & p & ? & ? & ? & Hq)%(sh_workspace _ _ _ _ _ Hok). split; [done|].
    exists p. rewrite Hsl, Hch. unfold names_parent in *. rewrite !Hid. split_and!; [done..|].
    intros q. rewrite Hch. apply Hq.
  - intros r q. rewrite Hst, Hch. apply Hok.
  - intros r. rewrite Hst. intros [[k Hk]|(q & Hq & Hc)]%(sh_active _ _ _ _ _ Hok).
    + left. exists k. by rewrite Hsl.
    + right. exists q. unfold closed_in in *. by rewrite Hch, Hst.
  - intros r g. rewrite Hg. apply Hok.
  - intros r r' g. rewrite !Hg. apply Hok.
Qed.

Section transitions.
Context (sl : Slot → option Ref) (st : Ref → option state) (ch : Ref → Ref → Prop).
Context (ids : Ref → option ScopeIdentity) (next : Z).
Hypothesis Hok : shape_ok sl st ch ids next.

Lemma shape_slots_distinct k k' r : sl k = Some r → sl k' = Some r → k = k'.
Proof.
  destruct (sh_application _ _ _ _ _ Hok) as (a & Ha & _ & Hna).
  assert (Hp : ∀ p, sl ProjectSlot = Some p → p ≠ a).
  { intros p (_ & a' & Ha' & Hp & _)%(sh_project _ _ _ _ _ Hok) ->. rewrite Ha in Ha'. injection Ha' as <-.
    by destruct (Hna a). }
  assert (Hx : ∀ x, sl WorkspaceSlot = Some x → x ≠ a ∧ sl ProjectSlot ≠ Some x).
  { intros x (_ & p & Hproj & Hx & _)%(sh_workspace _ _ _ _ _ Hok). split; [intros ->; by destruct (Hna p)|].
    rewrite Hproj. intros [= ->]. destruct (sh_project _ _ _ _ _ Hok x Hproj) as (_ & a' & Ha' & _ & Huniq).
    rewrite Ha in Ha'. injection Ha' as <-. apply Huniq in Hx as ->. by destruct (Hp a). }
  destruct k, k'; try done; intros Hk Hk'; rewrite ?Ha in *; simplify_eq; exfalso; naive_solver.
Qed.
Lemma shape_slot_active k r : sl k = Some r → st r = Some ScopeLifecycleState.Active.
Proof.
  destruct k; [|by intros []%(sh_project _ _ _ _ _ Hok)|by intros []%(sh_workspace _ _ _ _ _ Hok)].
  destruct (sh_application _ _ _ _ _ Hok) as (a & -> & ? & _). by intros [= <-].
Qed.
(** What is above a published scope is published. *)
Lemma shape_above k x q : sl k = Some x → ch q x → ∃ k', sl k' = Some q.
Proof.
  destruct k; intros Hx Hq.
  - destruct (sh_application _ _ _ _ _ Hok) as (a & Ha & _ & Hna). rewrite Ha in Hx. injection Hx as <-.
    by destruct (Hna q).
  - destruct (sh_project _ _ _ _ _ Hok x Hx) as (_ & a & Ha & _ & Huniq). apply Huniq in Hq as ->. eauto.
  - destruct (sh_workspace _ _ _ _ _ Hok x Hx) as (_ & p & Hp & _ & _ & Huniq). apply Huniq in Hq as ->. eauto.
Qed.

(** Scopes that are not published are closed down. *)
Lemma shape_closing st' :
  (∀ k r, sl k = Some r → st' r = st r) → (∀ r, option_Forall2 advances (st r) (st' r)) →
  shape_ok sl st' ch ids next.
Proof.
  intros Hsame Hadv.
  assert (Hopen : ∀ r v, st' r = Some v → open_state v = true → st r = Some v).
  { intros r v Hv Ho. specialize (Hadv r). rewrite Hv in Hadv. inv Hadv as [v0 ? Ha Hv0|].
    by rewrite (advances_open _ _ Ha Ho). }
  assert (Hclosed : ∀ q, closed_in st q → closed_in st' q).
  { intros q Hq. unfold closed_in in *. destruct (st' q) as [v|] eqn:Hv; [|done]. simpl.
    apply not_true_iff_false. intros Ho. rewrite (Hopen q v Hv Ho) in Hq. simpl in Hq. congruence. }
  split.
  - destruct (sh_application _ _ _ _ _ Hok) as (a & Ha & ? & ?). exists a. by rewrite (Hsame _ a Ha).
  - intros p Hp. rewrite (Hsame _ p Hp). by apply (sh_project _ _ _ _ _ Hok).
  - intros x Hx. rewrite (Hsame _ x Hx). by apply (sh_workspace _ _ _ _ _ Hok).
  - intros r q Hr. by apply (sh_ready _ _ _ _ _ Hok), (Hopen r ScopeLifecycleState.Ready).
  - intros r Hr. destruct (sh_active _ _ _ _ _ Hok r) as [?|(q & ? & ?)]; [by apply Hopen|by left|].
    right. exists q. auto.
  - apply Hok.
  - apply Hok.
Qed.

Lemma shape_next (next' : Z) : next ≤ next' → shape_ok sl st ch ids next'.
Proof. intros Hle. destruct Hok. split; try done. intros r g Hg. specialize (sh_generation0 r g Hg). lia. Qed.
(** An edge to a scope that is closed. *)
Lemma shape_closed_edge x ch' :
  closed_in st x → (∀ y z, ch' y z → ch y z ∨ z = x) → (∀ y z, ch y z → ch' y z) →
  shape_ok sl st ch' ids next.
Proof.
  intros Hx Hch Hkeep.
  assert (Hfree : ∀ k r, sl k = Some r → r ≠ x).
  { intros k r Hk%shape_slot_active ->. unfold closed_in in Hx. by rewrite Hk in Hx. }
  assert (Hold : ∀ k r y, sl k = Some r → ch' y r → ch y r).
  { intros k r y Hk [?| ->]%Hch; [done|]. by destruct (Hfree k x). }
  split; [| | | | |apply Hok..].
  - destruct (sh_application _ _ _ _ _ Hok) as (a & Ha & ? & Hna). exists a. split_and!; [done..|].
    intros q Hq. by eapply Hna, Hold.
  - intros p Hp. destruct (sh_project _ _ _ _ _ Hok p Hp) as (? & a & ? & ? & Huniq). split; [done|].
    exists a. split_and!; [done|auto|]. intros q Hq. by eapply Huniq, Hold.
  - intros r Hr. destruct (sh_workspace _ _ _ _ _ Hok r Hr) as (? & p & ? & ? & ? & Huniq). split; [done|].
    exists p. split_and!; [done|auto|done|]. intros q Hq. by eapply Huniq, Hold.
  - intros r q Hr [Hq| ->]%Hch; [by apply (sh_ready _ _ _ _ _ Hok r q)|]. unfold closed_in in Hx. by rewrite Hr in Hx.
  - intros r [?|(q & ? & ?)]%(sh_active _ _ _ _ _ Hok); [by left|right]. exists q. auto.
Qed.

(** *** Publication

    [c] comes into the slot [k], below [q]; what was there is detached and closed. *)
Definition publishes k q c : Prop :=
  (k = ProjectSlot ∧ sl ApplicationSlot = Some q ∧ sl WorkspaceSlot = None) ∨
  (k = WorkspaceSlot ∧ sl ProjectSlot = Some q ∧ names_parent ids q c).
Lemma shape_publish k q c st' ch' :
  publishes k q c → st c = Some ScopeLifecycleState.Ready →
  (∀ r, st' r = if decide (c = r) then Some ScopeLifecycleState.Active
                else (if decide (sl k = Some r) then quiesced else id) <$> st r) →
  (∀ x y, ch' x y → ch x y ∨ (x = q ∧ y = c)) → ch' q c →
  (∀ x y, ch x y → sl k ≠ Some y → ch' x y) →
  shape_ok (λ k', if decide (k = k') then Some c else sl k') st' ch' ids next.
Proof.
  intros Hpub Hc Hst Hch Hqc Hkeep.
  assert (Hfree : ∀ k', sl k' ≠ Some c).
  { intros k' Hk'%shape_slot_active. congruence. }
  assert (Hka : k ≠ ApplicationSlot) by (by destruct Hpub as [[-> _]|[-> _]]).
  assert (Hothers : ∀ k' r, k ≠ k' → sl k' = Some r → st' r = Some ScopeLifecycleState.Active ∧ c ≠ r ∧ sl k ≠ Some r).
  { intros k' r Hne Hk'. assert (c ≠ r) by (intros ->; by destruct (Hfree k')).
    assert (sl k ≠ Some r) by (intros Hk; by eapply Hne, shape_slots_distinct).
    rewrite Hst, !decide_False by done. split_and!; [|done..]. rewrite option_fmap_id. by eapply shape_slot_active. }
  assert (Hparents : ∀ y x, c ≠ x → ch' y x → ch y x) by (intros y x Hne [?|[_ ->]]%Hch; done).
  assert (Hnoparent : ∀ y, ch' y c → y = q).
  { intros y [Hy|[? _]]%Hch; [|done]. by destruct (sh_ready _ _ _ _ _ Hok c y Hc). }
  split.
  - destruct (sh_application _ _ _ _ _ Hok) as (a & Ha & _ & Hna). exists a. rewrite decide_False by done.
    destruct (Hothers ApplicationSlot a) as (? & ? & _); [done..|]. split_and!; [done..|].
    intros y Hy%Hparents; [|done]. by destruct (Hna y).
  - intros p. case_decide as Hk.
    + intros [= <-]. rewrite decide_False by done. destruct Hpub as [(_ & Hq & _)|[-> _]]; [|done].
      split; [by rewrite Hst, decide_True|]. by exists q.
    + intros Hp. destruct (Hothers ProjectSlot p) as (? & ? & ?); [done..|]. split; [done|].
      destruct (sh_project _ _ _ _ _ Hok p Hp) as (_ & a & Ha & Hap & Huniq). exists a.
      rewrite decide_False by done. split_and!; [done|by apply Hkeep|]. intros y Hy%Hparents; [|done]. by apply Huniq.
  - intros x. case_decide as Hk.
    + intros [= <-]. destruct Hpub as [(-> & _)|(-> & Hq & Hnames)]; [done|].
      split; [by rewrite Hst, decide_True|]. exists q. by rewrite decide_False.
    + intros Hx. destruct Hpub as [(_ & _ & Hnone)|[-> _]]; [congruence|done].
  - intros r y. rewrite Hst. case_decide; [done|]. intros Hr Hy%Hparents; [|done].
    apply (sh_ready _ _ _ _ _ Hok r y); [|done]. destruct (st r) as [v|]; [|done].
    case_decide; [|done]. unfold quiesced in Hr. simpl in Hr. by destruct v.
  - intros r. rewrite Hst. case_decide as Hcr; [subst r; intros _; left; exists k; by rewrite decide_True|].
    case_decide as Hk; [destruct (st r) as [[]|]; done|]. rewrite option_fmap_id. intros Hr.
    destruct (sh_active _ _ _ _ _ Hok r Hr) as [[k' Hk']|(y & Hy & Hcl)].
    + left. exists k'. rewrite decide_False; [done|]. by intros ->.
    + right. exists y. split; [by apply Hkeep|]. unfold closed_in in *. rewrite Hst.
      case_decide; [subst y; by rewrite Hc in Hcl|]. destruct (st y) as [v|]; [|done].
      case_decide; [|done]. simpl in *. unfold quiesced. by rewrite Hcl.
  - apply Hok.
  - apply Hok.
Qed.

(** *** Publication of a project with its workspace *)
Lemma shape_publish_tree a p x st' ch' :
  sl ApplicationSlot = Some a → p ≠ x → names_parent ids p x →
  st p = Some ScopeLifecycleState.Ready → st x = Some ScopeLifecycleState.Ready →
  (∀ r, st' r = if decide (r ∈ [p; x]) then Some ScopeLifecycleState.Active
                else (if decide (sl ProjectSlot = Some r) then quiesced else id) <$> st r) →
  (∀ y z, ch' y z → ch y z ∨ (y = a ∧ z = p) ∨ (y = p ∧ z = x)) → ch' a p → ch' p x →
  (∀ y z, ch y z → sl ProjectSlot ≠ Some z → ch' y z) →
  shape_ok (λ k, match k with
                 | ApplicationSlot => sl ApplicationSlot | ProjectSlot => Some p | WorkspaceSlot => Some x
                 end) st' ch' ids next.
Proof.
  intros Ha Hne Hnames Hp Hx Hst Hch Hap Hpx Hkeep.
  assert (Hfree : ∀ k r, sl k = Some r → r ∉ [p; x]).
  { intros k r Hk%shape_slot_active [-> | ->%list_elem_of_singleton]%elem_of_cons; congruence. }
  assert (Hready : ∀ r, r ∈ [p; x] → st r = Some ScopeLifecycleState.Ready)
    by by intros r [-> | ->%list_elem_of_singleton]%elem_of_cons.
  assert (Hnew : ∀ y r, r ∈ [p; x] → ch' y r → y = if decide (r = p) then a else p).
  { intros y r Hr [Hy|[[-> ->]|[-> ->]]]%Hch.
    - by destruct (sh_ready _ _ _ _ _ Hok r y (Hready r Hr)).
    - by rewrite decide_True.
    - by rewrite decide_False. }
  assert (Hold : ∀ y r, r ∉ [p; x] → ch' y r → ch y r).
  { intros y r Hr [Hy|[[_ ->]|[_ ->]]]%Hch; [done|..]; exfalso; apply Hr; rewrite !elem_of_cons; auto. }
  assert (Hactive : ∀ r, r ∈ [p; x] → st' r = Some ScopeLifecycleState.Active) by by intros r ?; rewrite Hst, decide_True.
  destruct (sh_application _ _ _ _ _ Hok) as (a' & Ha' & Hsta & Hna). rewrite Ha in Ha'. injection Ha' as <-.
  split.
  - exists a. assert (a ∉ [p; x]) by by eapply Hfree. split_and!; [done|..].
    + rewrite Hst, decide_False, decide_False; [by rewrite option_fmap_id|intros Hpa|done].
      by assert (ProjectSlot = ApplicationSlot) by by eapply shape_slots_distinct.
    + intros y Hy%Hold; [|done]. by destruct (Hna y).
  - intros ? [= <-]. assert (p ∈ [p; x]) by by left. split; [by apply Hactive|]. exists a. split_and!; [done..|].
    intros y Hy%Hnew; [|done]. by rewrite decide_True in Hy.
  - intros ? [= <-]. assert (x ∈ [p; x]) by by right; left. split; [by apply Hactive|]. exists p. split_and!; [done..|].
    intros y Hy%Hnew; [|done]. by rewrite decide_False in Hy.
  - intros r y. rewrite Hst. case_decide as Hr; [done|]. intros Hry Hy%Hold; [|done].
    apply (sh_ready _ _ _ _ _ Hok r y); [|done]. destruct (st r) as [v|]; [|done].
    case_decide; [|done]. unfold quiesced in Hry. simpl in Hry. by destruct v.
  - intros r. rewrite Hst. case_decide as Hr.
    { intros _. left. apply elem_of_cons in Hr as [-> | ->%list_elem_of_singleton]; [by exists ProjectSlot|by exists WorkspaceSlot]. }
    case_decide as Hk; [destruct (st r) as [[]|]; done|]. rewrite option_fmap_id. intros Hsr.
    assert (Hclosed : ∀ y, closed_in st y ∨ sl ProjectSlot = Some y → closed_in st' y).
    { intros y Hy. unfold closed_in in *. rewrite Hst. case_decide as Hyp.
      - destruct Hy as [Hy|Hy]; [by rewrite (Hready y Hyp) in Hy|]. by destruct (Hfree _ _ Hy).
      - destruct Hy as [Hy|Hy].
        + destruct (st y) as [v|]; [|done]. case_decide; [|done]. simpl in *. unfold quiesced. by rewrite Hy.
        + rewrite decide_True by done. rewrite (shape_slot_active ProjectSlot y Hy). done. }
    destruct (sh_active _ _ _ _ _ Hok r Hsr) as [[k Hk']|(y & Hy & Hcl)].
    + destruct k; [left; exists ApplicationSlot; done|done|]. right.
      destruct (sh_workspace _ _ _ _ _ Hok r Hk') as (_ & pr & Hpr & Hprx & _). exists pr. auto.
    + right. exists y. auto.
  - apply Hok.
  - apply Hok.
Qed.

(** *** Clearing *)
Lemma shape_clear k r st' ch' :
  sl k = Some r → (k = ProjectSlot ∧ sl WorkspaceSlot = None) ∨ k = WorkspaceSlot →
  (∀ y, st' y = (if decide (r = y) then quiesced else id) <$> st y) →
  (∀ y z, ch' y z → ch y z) → (∀ y z, ch y z → z ≠ r → ch' y z) →
  shape_ok (λ k', if decide (k = k') then None else sl k') st' ch' ids next.
Proof.
  intros Hk Hcase Hst Hch Hkeep.
  assert (Hothers : ∀ k' y, k ≠ k' → sl k' = Some y → st' y = Some ScopeLifecycleState.Active ∧ y ≠ r).
  { intros k' y Hne Hk'. assert (r ≠ y) by (intros ->; by eapply Hne, shape_slots_distinct).
    rewrite Hst, decide_False, option_fmap_id by done. split; [by eapply shape_slot_active|done]. }
  assert (Hclosed : ∀ y, closed_in st y → closed_in st' y).
  { intros y Hy. unfold closed_in in *. rewrite Hst. destruct (st y) as [v|]; [|done]. case_decide; [|done].
    simpl in *. unfold quiesced. by rewrite Hy. }
  split.
  - destruct (sh_application _ _ _ _ _ Hok) as (a & Ha & _ & Hna). exists a.
    rewrite decide_False by (by destruct Hcase as [[-> _]| ->]).
    destruct (Hothers ApplicationSlot a) as [? _]; [by destruct Hcase as [[-> _]| ->]|done|].
    split_and!; [done..|]. intros q Hq%Hch. by destruct (Hna q).
  - intros p. case_decide as Hkp; [done|]. intros Hp.
    destruct (sh_project _ _ _ _ _ Hok p Hp) as (_ & a & Ha & Hap & Huniq).
    destruct (Hothers ProjectSlot p Hkp Hp) as [? ?]. split; [done|]. exists a.
    rewrite decide_False by (by destruct Hcase as [[-> _]| ->]). split_and!; [done|by apply Hkeep|].
    intros q Hq%Hch. by apply Huniq.
  - intros x. case_decide as Hkx; [done|]. intros Hx. destruct Hcase as [[_ Hnone]| ->]; [congruence|done].
  - intros y z. rewrite Hst. intros Hy Hz%Hch. apply (sh_ready _ _ _ _ _ Hok y z); [|done].
    destruct (st y) as [v|]; [|done]. case_decide; [|done]. unfold quiesced in Hy. simpl in Hy. by destruct v.
  - intros y. rewrite Hst. case_decide as Hry; [by destruct (st y) as [[]|]|]. rewrite option_fmap_id. intros Hy.
    destruct (sh_active _ _ _ _ _ Hok y Hy) as [[k' Hk']|(z & Hz & Hcl)].
    + left. exists k'. rewrite decide_False; [done|]. intros ->. congruence.
    + right. exists z. auto.
  - apply Hok.
  - apply Hok.
Qed.

(** *** A new scope *)
Lemma shape_new r i st' ids' :
  st r = None → (∀ q, ¬ ch q r) → (∀ q, ¬ ch r q) → 
  generation_get (scope_generation i) < next → 
  (∀ x, generation_in ids x ≠ Some (generation_get (scope_generation i))) →
  (∀ y, st' y = if decide (r = y) then Some ScopeLifecycleState.Ready else st y) →
  (∀ y, ids' y = if decide (r = y) then Some i else ids y) →
  shape_ok sl st' ch ids' next.
Proof.
  intros Hr Hpar Hchild Hlt Hfresh Hst Hids.
  assert (Hslot : ∀ k y, sl k = Some y → r ≠ y) by (intros k y Hk%shape_slot_active ->; congruence).
  assert (Hsame : ∀ k y, sl k = Some y → st' y = st y) by (intros k y Hk; rewrite Hst, decide_False; eauto).
  assert (Hg : ∀ y, generation_in ids' y = if decide (r = y) then Some (generation_get (scope_generation i))
                                           else generation_in ids y).
  { intros y. unfold generation_in. rewrite Hids. by case_decide. }
  split.
  - destruct (sh_application _ _ _ _ _ Hok) as (a & Ha & ? & ?). exists a. by rewrite (Hsame _ a Ha).
  - intros p Hp. rewrite (Hsame _ p Hp). by apply (sh_project _ _ _ _ _ Hok).
  - intros x Hx. rewrite (Hsame _ x Hx). destruct (sh_workspace _ _ _ _ _ Hok x Hx) as (? & p & Hp & ? & Hn & ?).
    split; [done|]. exists p. unfold names_parent in *. rewrite !Hids, !decide_False by eauto. done.
  - intros y q. rewrite Hst. case_decide; [subst y; auto|]. apply Hok.
  - intros y. rewrite Hst. case_decide; [done|].
    intros [?|(q & Hq & Hcl)]%(sh_active _ _ _ _ _ Hok); [by left|right]. exists q. split; [done|].
    unfold closed_in in *. rewrite Hst, decide_False; [done|]. intros ->. by destruct (Hchild y).
  - intros y g. rewrite Hg. case_decide; [by intros [= <-]|apply Hok].
  - intros y z g. rewrite !Hg. case_decide; case_decide; subst; try done; [..|apply Hok].
    + intros [= <-] Hz. by destruct (Hfresh z).
    + intros Hz [= <-]. by destruct (Hfresh y).
Qed.
End transitions.
End shape.
