(* ===== verification/ManagerInvariant.v ===== *)
(** * The invariant of the scope manager

    What stays true of the scopes of a manager through all its operations, and how
    the elementary updates of the world act on it.  Worlds are compared up to what
    the invariant does not look at: the clock, the log, the gates, and of the
    registries all but their switches ([alike]). *)
From stdpp Require Import relations.
From S2P Require Import Prelude Text Errors External Ids Model Broker Async Lifecycle LifecycleProps.
From S2P Require Import Graph Resolver ScopeManager ManagerShape.
#[local] Open Scope Z_scope.

Section invariant.
Context `{Semver, Petgraph, SerdeToVec}.
Implicit Types (w : World) (r q c x y : Ref) (D : option Z) (k : Slot).

(** ** Worlds that are alike *)

Definition runtime_view (w : World) r : option (ScopeIdentity * (bool * bool * bool)) :=
  (λ t, (rt_scope t, switches t)) <$> w_runtimes w !! r.
Definition scope_view (w : World) r : option ScopeSnapshot := with_gate false <$> w_scopes w !! r.
Record alike w w' : Prop := {
  al_slot k : slot w' k = slot w k;
  al_generation : w_next_generation w' = w_next_generation w;
  al_scopes r : scope_view w' r = scope_view w r;
  al_runtimes r : runtime_view w' r = runtime_view w r
}.
#[global] Instance alike_equivalence : Equivalence alike.
Proof.
  split; [done|..].
  - intros w w' []. by split.
  - intros w1 w2 w3 [] []. split; intros; congruence.
Qed.

Lemma alike_same w w' :
  w_runtimes w' = w_runtimes w → w_scopes w' = w_scopes w → (∀ k, slot w' k = slot w k) →
  w_next_generation w' = w_next_generation w → alike w w'.
Proof.
  intros Hr Hs Hk Hg. split; [done|done|..]; intros r; unfold scope_view, runtime_view; by rewrite ?Hs, ?Hr.
Qed.
Lemma alike_log d w : alike w (log d w).
Proof. by apply alike_same. Qed.
Lemma alike_set_now (time : Z) w : alike w (set_now time w).
Proof. by apply alike_same. Qed.
Lemma alike_gate r held w : alike w (update_scope r (with_gate held) w).
Proof.
  split; try done. intros x. unfold scope_view. rewrite lookup_update_scope.
  case_decide; [|done]. by destruct (w_scopes w !! x) as [[]|].
Qed.
Lemma alike_update_runtime r f w :
  (∀ t, w_runtimes w !! r = Some t → rt_scope (f t) = rt_scope t ∧ switches (f t) = switches t) →
  alike w (update_runtime r f w).
Proof.
  intros Hf. split; try done. intros x. unfold runtime_view. rewrite lookup_update_runtime.
  case_decide; [subst x|done]. destruct (w_runtimes w !! r) as [t|]; simpl; [|done].
  by destruct (Hf t) as [-> ->].
Qed.

(** What the invariant sees of a world. *)
Definition child w q c : Prop := ∃ s, w_scopes w !! q = Some s ∧ c ∈ sn_children s.
Definition exists_scope w r : Prop := is_Some (w_scopes w !! r).
Lemma view_Some w r s : w_scopes w !! r = Some s → scope_view w r = Some (with_gate false s).
Proof. unfold scope_view. by intros ->. Qed.
Lemma alike_scope w w' r s :
  alike w w' → w_scopes w !! r = Some s → ∃ s', w_scopes w' !! r = Some s' ∧ with_gate false s' = with_gate false s.
Proof.
  intros Ha Hs%view_Some. rewrite <-(al_scopes _ _ Ha) in Hs. unfold scope_view in Hs.
  apply fmap_Some in Hs as (s' & ? & ?). eauto.
Qed.
#[global] Instance child_proper : Proper (alike ==> eq ==> eq ==> iff) child.
Proof.
  enough (Himpl : ∀ w w' q c, alike w w' → child w q c → child w' q c).
  { intros w w' Ha q ? <- c ? <-. split; [by apply Himpl|apply Himpl; by symmetry]. }
  intros w w' q c Ha (s & Hs & Hc). destruct (alike_scope _ _ _ _ Ha Hs) as (s' & Hs' & Heq).
  exists s'. split; [done|]. destruct s, s'. by simplify_eq/=.
Qed.
#[global] Instance scope_state_proper : Proper (alike ==> eq ==> eq) scope_state.
Proof.
  intros w w' Ha r ? <-. pose proof (al_scopes _ _ Ha r) as Hs. unfold scope_view, scope_state in *.
  destruct (w_scopes w !! r) as [[]|], (w_scopes w' !! r) as [[]|]; by simplify_eq/=.
Qed.
#[global] Instance identity_of_proper : Proper (alike ==> eq ==> eq) identity_of.
Proof.
  intros w w' Ha r ? <-. pose proof (al_scopes _ _ Ha r) as Hs. unfold scope_view, identity_of in *.
  destruct (w_scopes w !! r) as [[]|], (w_scopes w' !! r) as [[]|]; by simplify_eq/=.
Qed.
#[global] Instance slot_proper : Proper (alike ==> eq ==> eq) slot.
Proof. intros w w' Ha k ? <-. symmetry. apply (al_slot _ _ Ha). Qed.
#[global] Instance exists_scope_proper : Proper (alike ==> eq ==> iff) exists_scope.
Proof.
  enough (Himpl : ∀ w w' r, alike w w' → exists_scope w r → exists_scope w' r).
  { intros w w' Ha r ? <-. split; [by apply Himpl|apply Himpl; by symmetry]. }
  intros w w' r Ha [s Hs]. destruct (alike_scope _ _ _ _ Ha Hs) as (s' & Hs' & _). by exists s'.
Qed.
#[global] Instance is_routable_proper : Proper (alike ==> eq ==> eq) is_routable.
Proof.
  intros w w' Ha r ? <-. pose proof (al_runtimes _ _ Ha r) as Hr. unfold runtime_view, is_routable in *.
  destruct (w_runtimes w !! r) as [[]|], (w_runtimes w' !! r) as [[]|]; by simplify_eq/=.
Qed.

(** ** The scopes of a world *)

Record tree_ok w : Prop := {
  to_scopes : scopes_ok w;
  to_forest : forest w;
  to_building r t : w_scopes w !! r = None → w_runtimes w !! r = Some t → rt_routing t = false
}.
Lemma scopes_ok_alike w w' : alike w w' → scopes_ok w → scopes_ok w'.
Proof.
  intros Ha [Hok Hch]. split.
  - intros r s' Hs'. assert (Ha' : alike w' w) by by symmetry.
    destruct (alike_scope _ _ _ _ Ha' Hs') as (s & Hs & Heq). destruct (Hok r s Hs) as (t & Ht & [Ho1 Ho2 Ho3 Ho4 Ho5]).
    pose proof (al_runtimes _ _ Ha r) as Hr. unfold runtime_view in Hr. rewrite Ht in Hr.
    apply fmap_Some in Hr as (t' & Ht' & Heqt). injection Heqt as Hsc Hx1 Hx2 Hx3.
    exists t'. split; [done|]. destruct s, s'. simplify_eq/=. split; simpl; try done.
    rewrite <-Ho2. unfold switches. congruence.
  - intros r s' c Hs' Hrep Hc. assert (Ha' : alike w' w) by by symmetry.
    destruct (alike_scope _ _ _ _ Ha' Hs') as (s & Hs & Heq).
    assert (Hold : ∃ sc, w_scopes w !! c = Some sc ∧ is_Some (sn_dispose_report sc)).
    { apply (Hch r s c Hs); destruct s, s'; by simplify_eq/=. }
    destruct Hold as (sc & Hsc & Hrc). destruct (alike_scope _ _ _ _ Ha Hsc) as (sc' & Hsc' & Heqc).
    exists sc'. split; [done|]. destruct sc, sc'. by simplify_eq/=.
Qed.
Lemma forest_alike w w' : alike w w' → forest w → forest w'.
Proof.
  intros Ha [rank Hr]. exists rank. intros r s' c Hs' Hc.
  assert (Hch : child w r c) by (rewrite Ha; by exists s'). destruct Hch as (s & Hs & Hc').
  destruct (Hr r s c Hs Hc') as [Hex ?]. split; [|done]. change (exists_scope w' c). by rewrite <-Ha.
Qed.
#[global] Instance tree_ok_proper : Proper (alike ==> iff) tree_ok.
Proof.
  enough (Himpl : ∀ w w', alike w w' → tree_ok w → tree_ok w').
  { intros w w' Ha. split; [by apply Himpl|apply Himpl; by symmetry]. }
  intros w w' Ha [Hs Hf Hb]. split; [by eapply scopes_ok_alike|by eapply forest_alike|].
  intros r t' Hr Ht'. pose proof (al_scopes _ _ Ha r) as Hsc. unfold scope_view in Hsc. rewrite Hr in Hsc.
  simpl in Hsc. symmetry in Hsc. apply fmap_None in Hsc.
  pose proof (al_runtimes _ _ Ha r) as Hrt. unfold runtime_view in Hrt. rewrite Ht' in Hrt. simpl in Hrt.
  symmetry in Hrt. apply fmap_Some in Hrt as (t & Ht & Heq). specialize (Hb r t Hsc Ht).
  unfold switches in Heq. injection Heq as _ Hrt1 _ _. congruence.
Qed.

Lemma tree_ok_same w w' :
  w_scopes w' = w_scopes w → w_runtimes w' = w_runtimes w → tree_ok w → tree_ok w'.
Proof.
  intros Hs Hr [Hok [rank Hrank] Hb]. split; [by eapply scopes_ok_ext| |by rewrite Hs, Hr].
  exists rank. unfold ranked. by rewrite Hs.
Qed.
Lemma tree_ok_evolves F w w' : evolves_within F w w' → tree_ok w → tree_ok w'.
Proof.
  intros He [Hok [rank Hrank] Hb]. split; [by apply (ev_ok _ _ _ He)|by exists rank; eapply ranked_evolves|].
  intros r t' Hr Ht'. pose proof (ev_scopes _ _ _ He r) as Hsc. rewrite Hr in Hsc. inv Hsc as [|Hnone].
  pose proof (ev_runtimes _ _ _ He r) as Hrt. rewrite Ht' in Hrt. inv Hrt as [t ? Hre Ht Heq|].
  apply not_true_iff_false. intros Hx%(re_routing _ _ Hre). by rewrite (Hb r t) in Hx.
Qed.

Lemma scope_state_Some w r st :
  scope_state w r = Some st ↔ ∃ s, w_scopes w !! r = Some s ∧ sn_state s = st.
Proof. unfold scope_state. rewrite fmap_Some. naive_solver. Qed.
Lemma state_exists w r st : scope_state w r = Some st → exists_scope w r.
Proof. intros (s & ? & _)%scope_state_Some. by exists s. Qed.
(** Only an active scope admits calls. *)
Lemma routable_active w r :
  tree_ok w → is_routable w r = true ↔ scope_state w r = Some ScopeLifecycleState.Active.
Proof.
  intros [Hok _ Hb]. unfold is_routable. rewrite scope_state_Some. destruct (w_scopes w !! r) as [s|] eqn:Hs.
  - destruct (ok_scope _ Hok r s Hs) as (t & Ht & Hst). rewrite Ht. simpl.
    assert (Hr : rt_routing t = (state_switches (sn_state s)).1.1) by (by rewrite <-(so_switches _ _ Hst)).
    rewrite Hr. clear. split.
    + intros Hr. exists s. by destruct (sn_state s).
    + by intros (? & [= <-] & ->).
  - destruct (w_runtimes w !! r) as [t|] eqn:Ht; simpl; [rewrite (Hb r t Hs Ht)|]; naive_solver.
Qed.
(** A child of another scope exists. *)
Lemma child_exists w q c : tree_ok w → child w q c → exists_scope w c ∧ q ≠ c.
Proof.
  intros [_ [rank Hr] _] (s & Hs & Hc). destruct (Hr q s c Hs Hc) as [? ?]. split; [done|]. intros ->. lia.
Qed.

(** ** The elementary updates

    How an update acts on what the invariant sees, besides the tree. *)
Record changes (sl : Slot → option Ref) (st : Ref → option state) (ch : Ref → Ref → Prop) w w' : Prop := {
  ch_slot k : slot w' k = sl k;
  ch_state r : scope_state w' r = st r;
  ch_child q c : child w' q c ↔ ch q c;
  ch_identity r : identity_of w' r = identity_of w r;
  ch_gate r : gate_of w' r = gate_of w r;
  ch_generation : w_next_generation w' = w_next_generation w;
  ch_now : w_now w' = w_now w
}.
Lemma changes_trans sl st ch sl' st' ch' w1 w2 w3 :
  changes sl st ch w1 w2 → changes sl' st' ch' w2 w3 → changes sl' st' ch' w1 w3.
Proof. intros [] []. split; intros; (done || congruence). Qed.
Lemma changes_ext sl st ch sl' st' ch' w w' :
  changes sl st ch w w' → (∀ k, sl k = sl' k) → (∀ r, st r = st' r) → (∀ q c, ch q c ↔ ch' q c) →
  changes sl' st' ch' w w'.
Proof. intros [] Hsl Hst Hch. split; intros; try done; rewrite <-?Hsl, <-?Hst, <-?Hch; done. Qed.
Definition put_slot k (v : option Ref) w : Slot → option Ref := λ k', if decide (k = k') then v else slot w k'.
Definition put_state r (v : state) w : Ref → option state :=
  λ r', if decide (r = r') then Some v else scope_state w r'.
Lemma changes_set_slot k v w : changes (put_slot k v w) (scope_state w) (child w) w (set_slot k v w).
Proof. split; try done. intros k'. unfold put_slot. by destruct k, k'. Qed.
Lemma changes_log d w : changes (slot w) (scope_state w) (child w) w (log d w).
Proof. by split. Qed.

Lemma tree_ok_activate w c :
  scope_state w c = Some ScopeLifecycleState.Ready → tree_ok w →
  ∃ w', mark_active c w = (w', Ok ()) ∧ tree_ok w' ∧
    changes (slot w) (put_state c ScopeLifecycleState.Active w) (child w) w w'.
Proof.
  intros Hst Hok. unfold mark_active. rewrite Hst. eexists. split; [done|].
  apply scope_state_Some in Hst as (s & Hs & Hst).
  assert (Hsc : ∀ x, w_scopes (open_routing c (update_scope c (with_state ScopeLifecycleState.Active) w)) !! x
    = if decide (c = x) then with_state ScopeLifecycleState.Active <$> w_scopes w !! x else w_scopes w !! x)
    by (intros x; apply lookup_update_scope).
  assert (Hrt : ∀ x, w_runtimes (open_routing c (update_scope c (with_state ScopeLifecycleState.Active) w)) !! x
    = if decide (c = x) then with_routing true <$> w_runtimes w !! x else w_runtimes w !! x)
    by (intros x; apply (lookup_update_runtime c x (with_routing true) w)).
  assert (Hch : ∀ q x, child (open_routing c (update_scope c (with_state ScopeLifecycleState.Active) w)) q x
    ↔ child w q x).
  { intros q x. unfold child. setoid_rewrite Hsc. case_decide; [subst q|done]. rewrite Hs. simpl. naive_solver. }
  split; [|split; try done].
  - destruct Hok as [[Hok1 Hok2] [rank Hrank] Hb]. split; [split|..].
    + intros r s'. rewrite Hsc, Hrt. case_decide; [subst r|by apply Hok1].
      rewrite Hs. intros [= <-]. destruct (Hok1 c s Hs) as (t & Ht & [Ho1 Ho2 Ho3 Ho4 Ho5]). rewrite Ht.
      eexists. split; [done|]. split; simpl; try done.
      * unfold switches in *. rewrite Hst in Ho2. simpl in Ho2. simpl. congruence.
      * intros rep Hrep. destruct (Ho3 rep Hrep) as (_ & Hterm & _). rewrite Hst in Hterm.
        by destruct (sdr_outcome rep).
    + intros r s' x Hs' Hrep Hx. rewrite Hsc in Hs'.
      assert (Hold : ∃ s, w_scopes w !! r = Some s ∧ is_Some (sn_dispose_report s) ∧ x ∈ sn_children s).
      { case_decide; [subst r|by eauto]. rewrite Hs in Hs'. injection Hs' as <-. by exists s. }
      destruct Hold as (s0 & Hs0 & Hrep0 & Hx0). destruct (Hok2 r s0 x Hs0 Hrep0 Hx0) as (sx & Hsx & ?).
      rewrite Hsc, Hsx. by destruct (decide (c = x)); [exists (with_state ScopeLifecycleState.Active sx)|exists sx].
    + exists rank. intros r s' x Hs' Hx. assert (Hcx : child w r x) by (apply Hch; by exists s').
      destruct Hcx as (s0 & Hs0 & Hx0). destruct (Hrank r s0 x Hs0 Hx0) as [Hex ?]. split; [|done].
      rewrite Hsc. case_decide; [by rewrite fmap_is_Some|done].
    + intros r t. rewrite Hsc, Hrt. case_decide; [subst r; by rewrite Hs|by apply Hb].
  - intros r. unfold scope_state, put_state. rewrite Hsc. case_decide; [subst r; by rewrite Hs|done].
  - intros r. unfold identity_of. rewrite Hsc. case_decide; [subst r; by rewrite Hs|done].
  - intros r. unfold gate_of. rewrite Hsc. case_decide; [subst r; by rewrite Hs|done].
Qed.

Lemma tree_ok_begin_quiesce w r :
  tree_ok w →
  tree_ok (begin_quiesce r w) ∧
  changes (slot w) (λ x, (if decide (r = x) then quiesced else id) <$> scope_state w x) (child w) w
    (begin_quiesce r w).
Proof.
  intros Hok. pose proof (evolves_begin_quiesce (λ _, False) w r (λ H, H)) as He.
  split; [by eapply tree_ok_evolves|]. split.
  - intros []; apply He.
  - intros x. unfold scope_state. rewrite begin_quiesce_lookup.
    case_decide; destruct (w_scopes w !! x) as [s|]; try done. simpl. unfold quiesce_scope, quiesced.
    by destruct (open_state (sn_state s)).
  - intros q x. unfold child. rewrite begin_quiesce_lookup. case_decide; [subst q|done].
    destruct (w_scopes w !! r) as [s|]; simpl; [|naive_solver]. unfold quiesce_scope.
    destruct (open_state (sn_state s)); naive_solver.
  - intros x. unfold identity_of. rewrite begin_quiesce_lookup. case_decide; [|done].
    destruct (w_scopes w !! x) as [s|]; [|done]. simpl. unfold quiesce_scope.
    by destruct (open_state (sn_state s)).
  - intros x. apply (gate_of_evolves _ _ _ _ He).
  - apply He.
  - apply begin_quiesce_now.
Qed.

(** A set that holds the parents of its scopes. *)
Definition up_closed (up : list Ref) w : Prop := ∀ x y, child w x y → y ∈ up → x ∈ up.
(** An edge to a scope that is not above it leaves a forest. *)
Lemma forest_edge w w' q c up :
  forest w → (∀ x y, child w' x y → child w x y ∨ (x = q ∧ y = c)) →
  (∀ x, exists_scope w x → exists_scope w' x) → exists_scope w c →
  up_closed up w → q ∈ up → c ∉ up → forest w'.
Proof.
  intros [rank Hr] Hch Hex Hc Hup Hq Hcu.
  exists (λ x, if decide (x ∈ up) then S (rank x + rank c) else rank x)%nat.
  intros x s y Hs Hy. destruct (Hch x y) as [Hxy|[-> ->]]; [by exists s|..].
  - assert (Hxy' := Hxy). destruct Hxy' as (s0 & Hs0 & Hy0). destruct (Hr x s0 y Hs0 Hy0) as [Hey ?].
    split; [by apply Hex|]. specialize (Hup x y Hxy). destruct (decide (y ∈ up)), (decide (x ∈ up)); lia || tauto.
  - split; [by apply Hex|]. rewrite decide_False by done. rewrite decide_True by done. lia.
Qed.

Definition put_children q (f : list Ref → list Ref) w : Ref → Ref → Prop := λ x y,
  if decide (q = x) then ∃ s, w_scopes w !! q = Some s ∧ y ∈ f (sn_children s) else child w x y.
Lemma changes_children q f w :
  changes (slot w) (scope_state w) (put_children q f w) w (update_scope q (with_children f) w).
Proof.
  split; try done.
  - intros r. unfold scope_state. rewrite lookup_update_scope. case_decide; [|done]. by destruct (w_scopes w !! r).
  - intros x y. unfold put_children, child. rewrite lookup_update_scope. case_decide; [subst x|done].
    destruct (w_scopes w !! q) as [s|]; simpl; naive_solver.
  - intros r. unfold identity_of. rewrite lookup_update_scope. case_decide; [|done]. by destruct (w_scopes w !! r).
  - intros r. unfold gate_of. rewrite lookup_update_scope. case_decide; [|done]. by destruct (w_scopes w !! r).
Qed.
Lemma exists_update_scope r f w x : exists_scope w x → exists_scope (update_scope r f w) x.
Proof. unfold exists_scope. rewrite lookup_update_scope. case_decide; [by rewrite fmap_is_Some|done]. Qed.
Lemma scopes_ok_children w q f new :
  (∀ l y, y ∈ f l → y ∈ l ∨ new = Some y) →
  (∀ c, new = Some c → is_some_and open_state (scope_state w q) = true) →
  scopes_ok w → scopes_ok (update_scope q (with_children f) w).
Proof.
  intros Hf Hnew [Hok1 Hok2]. split.
  - intros r s'. rewrite lookup_update_scope. case_decide; [subst r|by apply Hok1].
    intros (s & Hs & ->)%fmap_Some. destruct (Hok1 q s Hs) as (t & Ht & []). exists t. split; [done|by split].
  - intros r s' y. rewrite !lookup_update_scope. intros Hs' Hrep Hy.
    assert (Hold : ∃ s, w_scopes w !! r = Some s ∧ is_Some (sn_dispose_report s) ∧ y ∈ sn_children s).
    { case_decide; [subst r|by eauto]. apply fmap_Some in Hs' as (s & Hs & ->). exists s.
      split_and!; [done..|]. destruct (Hf _ _ Hy) as [?|Hc]; [done|]. exfalso.
      destruct (Hok1 q s Hs) as (t & _ & Hst). destruct Hrep as [rep Hrep].
      destruct (so_report _ _ Hst rep Hrep) as (_ & Hterm & _). specialize (Hnew y Hc).
      unfold scope_state in Hnew. rewrite Hs in Hnew. simpl in Hnew. rewrite Hterm in Hnew.
      by destruct (sdr_outcome rep). }
    destruct Hold as (s & Hs & Hrep' & Hy'). destruct (Hok2 r s y Hs Hrep' Hy') as (sy & Hsy & ?).
    rewrite Hsy. by destruct (decide (q = y)); [exists (with_children f sy)|exists sy].
Qed.
Lemma tree_ok_building_children w q f : tree_ok w →
  ∀ r t, w_scopes (update_scope q (with_children f) w) !! r = None → w_runtimes w !! r = Some t → rt_routing t = false.
Proof.
  intros [_ _ Hb] r t. rewrite lookup_update_scope. case_decide; [rewrite fmap_None|]; apply Hb.
Qed.

(** Children are taken out... *)
Lemma tree_ok_fewer_children w q f :
  (∀ l y, y ∈ f l → y ∈ l) → tree_ok w → tree_ok (update_scope q (with_children f) w).
Proof.
  intros Hf Hok. split; [|destruct (to_forest _ Hok) as [rank Hr]; exists rank|exact (tree_ok_building_children w q f Hok)].
  - apply (scopes_ok_children _ _ _ None); [by intros l y ?%Hf; left|done|apply Hok].
  - intros x s y Hs Hy.
    assert (Hxy : child w x y).
    { assert (Hxy : child (update_scope q (with_children f) w) x y) by (by exists s).
      apply (ch_child _ _ _ _ _ (changes_children q f w)) in Hxy. unfold put_children in Hxy.
      case_decide; [subst x|done]. destruct Hxy as (s0 & ? & ?%Hf). by exists s0. }
    destruct Hxy as (s0 & Hs0 & Hy0). destruct (Hr x s0 y Hs0 Hy0). split; [by apply exists_update_scope|done].
Qed.
(** ... or one is added to an open scope. *)
Lemma tree_ok_new_child w q f c up :
  (∀ l y, y ∈ f l → y ∈ l ∨ y = c) → is_some_and open_state (scope_state w q) = true → exists_scope w c →
  up_closed up w → q ∈ up → c ∉ up →
  tree_ok w → tree_ok (update_scope q (with_children f) w).
Proof.
  intros Hf Hopen Hc Hup Hq Hcu Hok. split; [| |exact (tree_ok_building_children w q f Hok)].
  - apply (scopes_ok_children _ _ _ (Some c)); [intros l y [?| ->]%Hf; auto|done|apply Hok].
  - eapply (forest_edge w _ q c up); try done; [apply Hok| |by intros x; apply exists_update_scope].
    intros x y Hxy%(ch_child _ _ _ _ _ (changes_children q f w)). unfold put_children in Hxy.
    case_decide; [subst x|by left]. destruct Hxy as (s & Hs & [?| ->]%Hf); [left; by exists s|by right].
Qed.

Lemma elem_of_remove_first x y l : y ∈ remove_first x l → y ∈ l.
Proof.
  unfold remove_first. destruct (list_find (eq x) l) as [[i z]|]; [|done].
  rewrite delete_take_drop, elem_of_app. intros [Hy|Hy]; [by eapply elem_of_take in Hy as (? & ? & _); apply list_elem_of_lookup; eauto|].
  apply list_elem_of_lookup in Hy as [n Hn]. rewrite lookup_drop in Hn. apply list_elem_of_lookup. eauto.
Qed.
Lemma elem_of_remove_first_ne x y l : y ∈ l → y ≠ x → y ∈ remove_first x l.
Proof.
  unfold remove_first. intros Hy Hne. destruct (list_find (eq x) l) as [[i z]|] eqn:Hfind; [|done].
  apply list_find_Some in Hfind as (Hi & <- & _). apply list_elem_of_lookup in Hy as [n Hn].
  rewrite delete_take_drop, elem_of_app. destruct (decide (n < i)%nat).
  - left. apply list_elem_of_lookup. exists n. by rewrite lookup_take_lt.
  - right. apply list_elem_of_lookup. exists (n - S i)%nat. rewrite lookup_drop.
    assert (n ≠ i) by (intros ->; congruence). by replace (S i + (n - S i))%nat with n by lia.
Qed.
(** [replace_child] and [remove_child] on lists. *)
Definition replaced (expected : option Ref) c (l : list Ref) : list Ref :=
  match expected with Some x => remove_first x l | None => l end ++ [c].
Lemma replaced_in expected c l y : y ∈ replaced expected c l → y ∈ l ∨ y = c.
Proof.
  unfold replaced. rewrite elem_of_app, list_elem_of_singleton. intros [Hy|]; [|by right].
  left. destruct expected; [by eapply elem_of_remove_first|done].
Qed.
Lemma in_replaced expected c l y : y ∈ l → Some y ≠ expected → y ∈ replaced expected c l.
Proof.
  unfold replaced. rewrite elem_of_app. intros Hy Hne. left. destruct expected as [x|]; [|done].
  apply elem_of_remove_first_ne; [done|congruence].
Qed.

(** ** The invariant *)

Record manager_core w : Prop := {
  mc_tree : tree_ok w;
  mc_shape : shape_ok (slot w) (scope_state w) (child w) (identity_of w) (w_next_generation w)
}.
Definition manager_ok w : Prop := manager_core w ∧ idle_gates w.

#[global] Instance manager_core_proper : Proper (alike ==> iff) manager_core.
Proof.
  enough (Himpl : ∀ w w', alike w w' → manager_core w → manager_core w').
  { intros w w' Ha. split; [by apply Himpl|apply Himpl; by symmetry]. }
  intros w w' Ha [Ht Hs]. split; [by rewrite <-Ha|]. rewrite (al_generation _ _ Ha).
  eapply shape_ok_ext; [..|exact Hs]; [apply Ha|intros; by rewrite Ha..].
Qed.
Lemma manager_core_changes w w' sl st ch :
  changes sl st ch w w' → tree_ok w' → shape_ok sl st ch (identity_of w) (w_next_generation w) → manager_core w'.
Proof.
  intros [] Ht Hs. split; [done|]. rewrite ch_generation0. by eapply shape_ok_ext.
Qed.

(** No published scope is at or below [r]. *)
Definition spare w r : Prop := ∀ k x, slot w k = Some x → ¬ below w r x.
Lemma spare_unpublished w r : manager_core w → (∀ k, slot w k ≠ Some r) → spare w r.
Proof.
  intros [_ Hs] Hr k x Hk Hx. revert k Hk. enough (Hup : ∀ k, slot w k = Some x → ∃ k', slot w k' = Some r).
  { intros k [k' Hk']%Hup. by destruct (Hr k'). }
  clear Hr. induction Hx as [x|y c x Hyc _ IH]; [eauto|]. intros k [k' Hk']%IH.
  by apply (shape_above _ _ _ _ _ Hs k' c y).
Qed.

Lemma evolves_child F w w' q c : evolves_within F w w' → child w' q c ↔ child w q c.
Proof.
  intros He. unfold child. pose proof (ev_scopes _ _ _ He q) as Hq. inv Hq as [s s' Hse Hsq Hsq'|]; [|done].
  split; intros (? & [= <-] & Hc); [exists s|exists s']; (split; [done|]);
    [by rewrite <-(se_children _ _ Hse)|by rewrite (se_children _ _ Hse)].
Qed.
Lemma evolves_identity F w w' r : evolves_within F w w' → identity_of w' r = identity_of w r.
Proof.
  intros He. unfold identity_of. pose proof (ev_scopes _ _ _ He r) as Hr. inv Hr as [s s' Hse|]; [|done].
  simpl. by rewrite (se_identity _ _ Hse).
Qed.
Lemma evolves_state F w w' r : evolves_within F w w' → option_Forall2 advances (scope_state w r) (scope_state w' r).
Proof.
  intros He. unfold scope_state. pose proof (ev_scopes _ _ _ He r) as Hr. inv Hr as [s s' Hse|]; constructor.
  apply Hse.
Qed.
Lemma evolves_slot F w w' k : evolves_within F w w' → slot w' k = slot w k.
Proof. intros []. by destruct k. Qed.
(** Closing unpublished scopes keeps the invariant. *)
Lemma manager_ok_evolves F w w' :
  (∀ k x, slot w k = Some x → F x) → evolves_within F w w' → manager_ok w → manager_ok w'.
Proof.
  intros HF He [[Ht Hs] Hg]. split; [split|].
  - by eapply tree_ok_evolves.
  - rewrite (ev_generation _ _ _ He). eapply shape_ok_ext; [| |..|apply (shape_closing _ _ _ _ _ Hs (scope_state w'))].
    + intros k. by apply (evolves_slot F).
    + done.
    + intros q c. by apply (evolves_child F).
    + intros r. by apply (evolves_identity F).
    + intros k x Hk. unfold scope_state. by rewrite (ev_frame _ _ _ He x (HF k x Hk)).
    + intros r. by apply (evolves_state F).
  - intros x. rewrite (gate_of_evolves _ _ _ _ He). apply Hg.
Qed.
End invariant.
