(* ===== verification/ManagerSteps.v ===== *)
(** * Publication under the gates

    What happens between the locking of a candidate's gate and its release, when a
    scope or a project with its workspace is published. *)
From stdpp Require Import relations.
From S2P Require Import Prelude Text Errors External Ids Model Broker Async Lifecycle LifecycleProps.
From S2P Require Import Graph Resolver ScopeManager ManagerShape ManagerInvariant.
#[local] Open Scope Z_scope.

Section steps.
Context `{Semver, Petgraph, SerdeToVec, !Tokio World}.
Implicit Types (w : World) (r q c x y : Ref) (D : option Z) (k : Slot).

(** ** The locked part of a publication *)

Lemma wp_lock_gate {A} r (m : async World A) D w (Q : A → World → Prop) (R : World → Prop) :
  gate_of w r = Some false →
  wp (lock_gate r m) D w Q R ↔
  wp m D (update_scope r (with_gate true) w) (λ a w', Q a (update_scope r (with_gate false) w'))
    (λ w', R (update_scope r (with_gate false) w')).
Proof.
  intros Hg. unfold lock_gate. rewrite wp_bind, wp_gets.
  change (sn_dispose_gate <$> w_scopes w !! r) with (gate_of w r). rewrite Hg. apply wp_bracket.
Qed.
Lemma idle_gates_locked r w w' :
  idle_gates w → (∀ x, gate_of w' x = gate_of (update_scope r (with_gate true) w) x) →
  idle_gates (update_scope r (with_gate false) w').
Proof.
  intros Hg Hsame x. rewrite gate_of_update. case_decide; [by destruct (gate_of w' x)|].
  rewrite Hsame, gate_of_update, decide_False by done. apply Hg.
Qed.
Lemma idle_gate w r : idle_gates w → exists_scope w r → gate_of w r = Some false.
Proof.
  intros Hg [s Hs]. specialize (Hg r). unfold gate_of in *. rewrite Hs in *. simpl in *.
  by destruct (sn_dispose_gate s).
Qed.

Lemma compare_and_swap_hit k expected new w :
  slot w k = expected → compare_and_swap k expected new w = (set_slot k new w, expected).
Proof. intros <-. unfold compare_and_swap. by rewrite decide_True. Qed.
Lemma compare_and_swap_miss k expected new w :
  slot w k ≠ expected → compare_and_swap k expected new w = (w, slot w k).
Proof. intros Hne. unfold compare_and_swap. by rewrite decide_False. Qed.

Lemma publish_step_not_ready k expected c on_published w st :
  scope_state w c = Some st → st ≠ ScopeLifecycleState.Ready →
  publish_step k expected c on_published w = (w, NotReady st).
Proof. intros Hst Hne. unfold publish_step. rewrite Hst. by destruct st. Qed.
Lemma publish_step_lost k expected c on_published w :
  scope_state w c = Some ScopeLifecycleState.Ready → slot w k ≠ expected →
  ∃ d, publish_step k expected c on_published w = (log d w, LostRace (slot w k)).
Proof.
  intros Hst Hne. unfold publish_step. rewrite Hst, compare_and_swap_miss by done.
  rewrite bool_decide_eq_false_2 by done. by eexists.
Qed.

(** The scopes that are published. *)
Definition published w : list Ref := omap (slot w) [ApplicationSlot; ProjectSlot; WorkspaceSlot].
Lemma elem_of_published w r : r ∈ published w ↔ ∃ k, slot w k = Some r.
Proof.
  unfold published. rewrite list_elem_of_omap. split; [intros (k & _ & ?); eauto|].
  intros [k ?]. exists k. split; [|done]. destruct k; rewrite !elem_of_cons; auto.
Qed.
Lemma published_closed w : manager_core w → up_closed (published w) w.
Proof.
  intros [_ Hs] x y Hxy. rewrite !elem_of_published. intros [k Hk]. by eapply (shape_above _ _ _ _ _ Hs).
Qed.
Lemma published_active w r : manager_core w → r ∈ published w → scope_state w r = Some ScopeLifecycleState.Active.
Proof. intros [_ Hs] [k Hk]%elem_of_published. by eapply (shape_slot_active _ _ _ _ _ Hs). Qed.

Definition closing (previous : option Ref) (st : Ref → option state) : Ref → option state :=
  λ r, (if decide (previous = Some r) then quiesced else id) <$> st r.
Definition close_previous (previous : option Ref) w : World :=
  match previous with Some p => begin_quiesce p w | None => w end.
Lemma closing_shut previous st p : previous = Some p → is_some_and open_state (closing previous st p) = false.
Proof.
  intros ->. unfold closing. rewrite decide_True by done. destruct (st p) as [v|]; [|done]. simpl.
  unfold quiesced. by destruct v.
Qed.
Lemma close_previous_ok (previous : option Ref) w :
  tree_ok w →
  tree_ok (close_previous previous w) ∧
  changes (slot w) (closing previous (scope_state w)) (child w) w (close_previous previous w).
Proof.
  intros Ht. unfold closing. destruct previous as [p|]; simpl.
  - destruct (tree_ok_begin_quiesce w p Ht) as [Ht' C]. split; [done|]. eapply changes_ext; [exact C|done|..|done].
    intros r. cbn beta. destruct (decide (p = r)), (decide (Some p = Some r)); congruence.
  - split; [done|]. split; try done. intros r. by rewrite option_fmap_id.
Qed.
(** The new edges, when [c] becomes a child of [q] and [previous] may cease to be one. *)
Definition adopted (previous : option Ref) q c (ch ch' : Ref → Ref → Prop) : Prop :=
  (∀ x y, ch' x y → ch x y ∨ (x = q ∧ y = c)) ∧ ch' q c ∧ (∀ x y, ch x y → previous ≠ Some y → ch' x y).
Lemma adopt_ok f previous q c up w :
  (∀ l, f l = replaced previous c l) →
  tree_ok w → is_some_and open_state (scope_state w q) = true → exists_scope w c →
  up_closed up w → q ∈ up → c ∉ up →
  tree_ok (update_scope q (with_children f) w) ∧
  ∃ ch, changes (slot w) (scope_state w) ch w (update_scope q (with_children f) w) ∧
    adopted previous q c (child w) ch.
Proof.
  intros Hf Ht Hopen Hex Hup Hq Hcu. split.
  - apply (tree_ok_new_child _ _ _ c up); try done. intros l y. rewrite Hf. apply replaced_in.
  - eexists. split; [apply changes_children|]. unfold put_children. split_and!.
    + intros x y. case_decide; [subst x|by left]. intros (s & Hs & Hy). rewrite Hf in Hy.
      apply replaced_in in Hy as [Hy| ->]; [left; by exists s|by right].
    + rewrite decide_True by done. unfold scope_state in Hopen.
      destruct (w_scopes w !! q) as [s|]; [|done]. exists s. split; [done|].
      rewrite Hf. unfold replaced. rewrite elem_of_app, list_elem_of_singleton. auto.
    + intros x y Hxy Hy. case_decide; [subst x|done]. destruct Hxy as (s & Hs & Hys).
      exists s. split; [done|]. rewrite Hf. by apply in_replaced.
Qed.

Lemma publish_step_published k q c w :
  manager_core w → publishes (slot w) (identity_of w) k q c →
  scope_state w c = Some ScopeLifecycleState.Ready →
  ∃ w' ch, publish_step k (slot w k) c (replace_child q) w = (w', Published (slot w k)) ∧ manager_core w' ∧
    changes (put_slot k (Some c) w) (closing (slot w k) (put_state c ScopeLifecycleState.Active w)) ch w w'.
Proof.
  intros Hcore Hpub Hc. pose proof Hcore as [Htree Hshape].
  assert (Hq : ∃ k', k ≠ k' ∧ slot w k' = Some q).
  { destruct Hpub as [(-> & ? & _)|(-> & ? & _)]; [by exists ApplicationSlot|by exists ProjectSlot]. }
  destruct Hq as (kq & Hkq & Hq).
  assert (Hpq : slot w k ≠ Some q) by (intros Hk; by eapply Hkq, (shape_slots_distinct _ _ _ _ _ Hshape)).
  assert (Hqst := shape_slot_active _ _ _ _ _ Hshape kq q Hq). assert (Hcq : c ≠ q) by congruence.
  unfold publish_step. rewrite Hc, compare_and_swap_hit by done. rewrite bool_decide_eq_true_2 by done. simpl.
  pose proof (changes_set_slot k (Some c) w) as C1. set (w1 := set_slot k (Some c) w) in *.
  assert (Ht1 : tree_ok w1) by by apply (tree_ok_same w).
  destruct (tree_ok_activate w1 c Hc Ht1) as (w2 & -> & Ht2 & C2).
  set (w3 := scope_diagnostic _ _ _ _ w2).
  assert (C3 : changes (slot w2) (scope_state w2) (child w2) w2 w3) by apply changes_log.
  assert (Ht3 : tree_ok w3) by by apply (tree_ok_same w2).
  assert (C : changes (put_slot k (Some c) w) (put_state c ScopeLifecycleState.Active w) (child w) w w3).
  { eapply changes_trans; [eapply changes_trans; [exact C1|exact C2]|].
    eapply changes_ext; [exact C3|..]; [|apply C2|apply C2].
    intros k'. rewrite (ch_slot _ _ _ _ _ C2). apply C1. }
  destruct (close_previous_ok (slot w k) w3 Ht3) as [Ht4 C4].
  change (match slot w k with Some p => begin_quiesce p w3 | None => w3 end) with (close_previous (slot w k) w3).
  set (w4 := close_previous (slot w k) w3) in *.
  assert (C' : changes (put_slot k (Some c) w) (closing (slot w k) (put_state c ScopeLifecycleState.Active w)) (child w) w w4).
  { eapply changes_trans; [exact C|]. eapply changes_ext; [exact C4|apply C| |apply C].
    intros r. unfold closing. by rewrite (ch_state _ _ _ _ _ C). }
  destruct (adopt_ok (replaced (slot w k) c) (slot w k) q c (published w) w4) as [Ht5 (ch & C5 & Hadopt)].
  - done.
  - done.
  - rewrite (ch_state _ _ _ _ _ C'). unfold closing, put_state. by rewrite !decide_False, option_fmap_id, Hqst.
  - apply (state_exists _ _ ScopeLifecycleState.Active). rewrite (ch_state _ _ _ _ _ C'). unfold closing, put_state.
    rewrite decide_False, decide_True; [done..|]. intros Hk%(shape_slot_active _ _ _ _ _ Hshape). congruence.
  - intros x y Hxy%(ch_child _ _ _ _ _ C'). by apply published_closed.
  - apply elem_of_published. eauto.
  - intros Hp%published_active; [congruence|done].
  - change (replace_child q (slot w k) c w4) with (update_scope q (with_children (replaced (slot w k) c)) w4).
    set (w5 := update_scope q _ w4) in *.
    exists w5, ch.
    assert (C6 : changes (put_slot k (Some c) w) (closing (slot w k) (put_state c ScopeLifecycleState.Active w)) ch w w5).
    { eapply changes_trans; [exact C'|]. eapply changes_ext; [exact C5|apply C'|apply C'|done]. }
    destruct Hadopt as (Hch1 & Hch2 & Hch3).
    split; [done|]. split; [|done]. eapply manager_core_changes; [exact C6|done|].
    apply (shape_publish _ _ _ _ _ Hshape k q c _ _ Hpub Hc).
    + intros r. unfold closing, put_state. destruct (decide (c = r)) as [->|]; [|done].
      rewrite decide_False; [done|]. intros Hk%(shape_slot_active _ _ _ _ _ Hshape). congruence.
    + intros x y [Hxy|?]%Hch1; [left; by apply (ch_child _ _ _ _ _ C')|by right].
    + done.
    + intros x y Hxy. apply Hch3. by apply (ch_child _ _ _ _ _ C').
Qed.

(** ** The locked part of a publication of a tree *)

Definition tree_slots w p x : Slot → option Ref := λ k,
  match k with
  | ApplicationSlot => slot w ApplicationSlot | ProjectSlot => Some p | WorkspaceSlot => Some x
  end.
Definition tree_states w p x : Ref → option state := λ r,
  if decide (r ∈ [p; x]) then Some ScopeLifecycleState.Active else scope_state w r.

Section tree.
Context (w : World) (p x : Ref).
Hypothesis (Hcore : manager_core w) (Hne : p ≠ x).

Lemma tree_step_unfit a expected_project expected_workspace :
  scope_state w p ≠ Some ScopeLifecycleState.Ready ∨ scope_state w x ≠ Some ScopeLifecycleState.Ready ∨
    ¬ names_parent (identity_of w) p x →
  ∃ reason, tree_step a expected_project p expected_workspace x w = (w, TreeRejected reason None None).
Proof.
  intros Hunfit. unfold tree_step. simpl. do 2 (case_bool_decide; simpl; [|by eexists]).
  destruct Hunfit as [?|[?|Hnames]]; [done..|]. unfold names_parent in Hnames.
  rewrite bool_decide_eq_false_2 by done. by eexists.
Qed.

Hypothesis (Hp : scope_state w p = Some ScopeLifecycleState.Ready).
Hypothesis (Hx : scope_state w x = Some ScopeLifecycleState.Ready).
Hypothesis (Hnames : names_parent (identity_of w) p x).

Lemma tree_step_ready a expected_project expected_workspace :
  ∃ w1 ch, tree_ok w1 ∧ changes (slot w) (scope_state w) ch w w1 ∧ adopted None p x (child w) ch ∧
    (∀ r, r ≠ p → w_scopes w1 !! r = w_scopes w !! r) ∧
    tree_step a expected_project p expected_workspace x w
    = (let '(w, previous_project) := compare_and_swap ProjectSlot expected_project (Some p) w1 in
       if negb (bool_decide (previous_project = expected_project)) then
         (w, TreeRejected "project_expected_old_mismatch" (Some previous_project) None)
       else
       let '(w, previous_workspace) := compare_and_swap WorkspaceSlot expected_workspace (Some x) w in
       if negb (bool_decide (previous_workspace = expected_workspace)) then
         ((compare_and_swap ProjectSlot (Some p) previous_project w).1,
          TreeRejected "workspace_expected_old_mismatch" (Some previous_project) (Some previous_workspace))
       else
         (close_previous previous_project
            (replace_child a previous_project p (mark_active x (mark_active p w).1).1),
          TreePublished previous_project previous_workspace)).
Proof.
  pose proof Hcore as [Htree Hshape]. unfold tree_step. rewrite Hp, Hx. simpl.
  unfold names_parent in Hnames. rewrite (bool_decide_eq_true_2 _ Hnames). simpl.
  unfold attach_child. destruct (proj1 (scope_state_Some w p _) Hp) as (sp & Hsp & Hstp).
  destruct (proj1 (scope_state_Some w x _) Hx) as (sx & Hsx & Hstx).
  unfold identity_of in Hnames. rewrite Hsp, Hsx in *. simpl in Hnames. rewrite Hstp. simpl.
  rewrite (bool_decide_eq_true_2 _ Hnames). simpl.
  set (w1 := update_scope p (with_children (λ l, l ++ [x])) w).
  destruct (adopt_ok (λ l, l ++ [x]) None p x [p] w) as [Ht1 (ch & C & Hadopt)].
  - done.
  - done.
  - by rewrite Hp.
  - by exists sx.
  - intros y z Hyz ->%list_elem_of_singleton. by destruct (sh_ready _ _ _ _ _ Hshape p y Hp).
  - by apply list_elem_of_singleton.
  - by intros ->%list_elem_of_singleton.
  - exists w1, ch. split_and!; [done..| |done]. intros r Hr. unfold w1. by rewrite lookup_update_scope, decide_False.
Qed.

(** Another project or workspace than expected is published: both slots stay. *)
Lemma tree_step_mismatch a expected_project expected_workspace :
  slot w ProjectSlot ≠ expected_project ∨ slot w WorkspaceSlot ≠ expected_workspace →
  ∃ w' ch reason found_project found_workspace,
    tree_step a expected_project p expected_workspace x w
      = (w', TreeRejected reason (Some found_project) found_workspace) ∧
    tree_ok w' ∧ changes (slot w) (scope_state w) ch w w' ∧ adopted None p x (child w) ch ∧
    (∀ r, r ≠ p → w_scopes w' !! r = w_scopes w !! r) ∧
    found_project = slot w ProjectSlot ∧ (∀ o, found_workspace = Some o → o = slot w WorkspaceSlot).
Proof.
  intros Hmiss. destruct (tree_step_ready a expected_project expected_workspace) as (w1 & ch & Ht & C & Hadopt & Hsame & Heq).
  rewrite Heq. assert (Hsl : ∀ k, slot w1 k = slot w k) by apply C.
  destruct (decide (slot w ProjectSlot = expected_project)) as [Hep|Hep].
  - rewrite compare_and_swap_hit by (by rewrite Hsl). rewrite bool_decide_eq_true_2 by done. cbn [fst snd negb].
    destruct Hmiss as [?|Hmiss]; [done|].
    rewrite compare_and_swap_miss by (simpl; by rewrite <-(Hsl WorkspaceSlot) in Hmiss).
    rewrite bool_decide_eq_false_2 by (by rewrite <-(Hsl WorkspaceSlot) in Hmiss). cbn [fst snd negb].
    rewrite compare_and_swap_hit by done. cbn [fst snd negb].
    eexists _, ch, _, _, _. split; [done|]. split_and!.
    + by apply (tree_ok_same w1).
    + eapply changes_trans; [exact C|]. eapply changes_ext; [by split|..].
      * intros []; simpl; [apply (Hsl ApplicationSlot)|done|apply (Hsl WorkspaceSlot)].
      * apply C.
      * apply C.
    + done.
    + done.
    + done.
    + intros o [= <-]. apply (Hsl WorkspaceSlot).
  - rewrite compare_and_swap_miss by (by rewrite Hsl). rewrite bool_decide_eq_false_2 by (by rewrite Hsl). cbn [fst snd negb].
    eexists _, ch, _, _, _. split; [done|]. split_and!; [done..|apply (Hsl ProjectSlot)|done].
Qed.

(** Both are as expected: both slots change. *)
Lemma tree_step_published a :
  slot w ApplicationSlot = Some a →
  ∃ w' ch, tree_step a (slot w ProjectSlot) p (slot w WorkspaceSlot) x w
      = (w', TreePublished (slot w ProjectSlot) (slot w WorkspaceSlot)) ∧
    manager_core w' ∧ changes (tree_slots w p x) (closing (slot w ProjectSlot) (tree_states w p x)) ch w w' ∧
    ∀ y z, child w y z → slot w ProjectSlot ≠ Some z → ch y z.
Proof.
  intros Ha. pose proof Hcore as [Htree Hshape].
  destruct (tree_step_ready a (slot w ProjectSlot) (slot w WorkspaceSlot)) as (w1 & ch1 & Ht1 & C1 & Hadopt1 & _ & Heq).
  rewrite Heq. assert (Hsl : ∀ k, slot w1 k = slot w k) by apply C1.
  rewrite compare_and_swap_hit by apply (Hsl ProjectSlot). rewrite bool_decide_eq_true_2 by done. cbn [fst snd negb].
  rewrite compare_and_swap_hit by apply (Hsl WorkspaceSlot). rewrite bool_decide_eq_true_2 by done. cbn [fst snd negb].
  set (w3 := set_slot WorkspaceSlot (Some x) (set_slot ProjectSlot (Some p) w1)).
  set (sl := tree_slots w p x).
  assert (C3 : changes sl (scope_state w) ch1 w w3).
  { eapply changes_trans; [exact C1|]. eapply changes_ext; [by split|..|apply C1|apply C1].
    intros []; simpl; [apply (Hsl ApplicationSlot)|done|done]. }
  assert (Ht3 : tree_ok w3) by by apply (tree_ok_same w1).
  destruct (tree_ok_activate w3 p) as (w4 & -> & Ht4 & C4); [by rewrite (ch_state _ _ _ _ _ C3)|done|]. simpl.
  assert (C4' : changes sl (put_state p ScopeLifecycleState.Active w) ch1 w w4).
  { eapply changes_trans; [exact C3|]. eapply changes_ext; [exact C4|apply C3| |apply C3].
    intros r. unfold put_state. by rewrite (ch_state _ _ _ _ _ C3). }
  destruct (tree_ok_activate w4 x) as (w5 & -> & Ht5 & C5);
    [rewrite (ch_state _ _ _ _ _ C4'); unfold put_state; by rewrite decide_False|done|]. simpl.
  set (st5 := tree_states w p x).
  assert (C5' : changes sl st5 ch1 w w5).
  { eapply changes_trans; [exact C4'|]. eapply changes_ext; [exact C5|apply C4'| |apply C4'].
    intros r. unfold put_state, st5, tree_states. rewrite (ch_state _ _ _ _ _ C4'). unfold put_state.
    destruct (decide (x = r)), (decide (p = r)), (decide (r ∈ [p; x])) as [Hr|Hr]; try done;
      rewrite !elem_of_cons in Hr; set_solver. }
  assert (Hpub : ∀ r, r ∈ published w → r ∉ [p; x]).
  { intros r Hr%published_active; [|done]. intros [-> | ->%list_elem_of_singleton]%elem_of_cons; congruence. }
  assert (Haw : a ∈ published w) by (apply elem_of_published; eauto).
  destruct (adopt_ok (replaced (slot w ProjectSlot) p) (slot w ProjectSlot) a p (published w) w5)
    as [Ht6 (ch6 & C6 & Hadopt6)].
  - done.
  - done.
  - rewrite (ch_state _ _ _ _ _ C5'). unfold st5, tree_states. rewrite decide_False by by apply Hpub.
    by rewrite (published_active w a).
  - apply (state_exists _ _ ScopeLifecycleState.Active). rewrite (ch_state _ _ _ _ _ C5'). unfold st5, tree_states.
    rewrite decide_True; [done|by left].
  - intros y z Hyz%(ch_child _ _ _ _ _ C5') Hz. apply (proj1 Hadopt1) in Hyz as [Hyz|[_ ->]].
    + by eapply published_closed.
    + apply Hpub in Hz. exfalso. apply Hz. right. by left.
  - done.
  - intros Hpp. apply (Hpub p Hpp). by left.
  - set (w6 := update_scope a _ w5) in *. change (replace_child a (slot w ProjectSlot) p w5) with w6.
    destruct (close_previous_ok (slot w ProjectSlot) w6 Ht6) as [Ht7 C7].
    set (w7 := close_previous (slot w ProjectSlot) w6) in *.
    exists w7, ch6.
    assert (C7' : changes sl (closing (slot w ProjectSlot) st5) ch6 w w7).
    { eapply changes_trans; [exact C5'|]. eapply changes_trans; [exact C6|].
      eapply changes_ext; [exact C7|..|apply C6].
      - intros k. rewrite (ch_slot _ _ _ _ _ C6). apply C5'.
      - intros r. unfold closing. by rewrite (ch_state _ _ _ _ _ C6), (ch_state _ _ _ _ _ C5'). }
    destruct Hadopt1 as (Ha1 & Ha2 & Ha3), Hadopt6 as (Hb1 & Hb2 & Hb3).
    assert (Hkeep : ∀ y z, child w y z → slot w ProjectSlot ≠ Some z → ch6 y z).
    { intros y z Hyz Hk. apply Hb3; [|done]. apply (ch_child _ _ _ _ _ C5'). by apply Ha3. }
    split; [done|]. split; [|done]. eapply manager_core_changes; [exact C7'|done|].
    apply (shape_publish_tree _ _ _ _ _ Hshape a p x); try done.
    + intros r. unfold closing, st5, tree_states. destruct (decide (r ∈ [p; x])) as [Hr|]; [|done].
      rewrite decide_False; [done|]. intros Hk. apply (Hpub r); [apply elem_of_published; eauto|done].
    + intros y z [Hyz%(ch_child _ _ _ _ _ C5')|?]%Hb1; [|by right; left].
      destruct (Ha1 y z Hyz); [by left|by right; right].
    + apply Hb3; [by apply (ch_child _ _ _ _ _ C5')|]. intros Hk. apply (Hpub x); [apply elem_of_published; eauto|].
      right. by left.
Qed.
End tree.
End steps.
