(* ===== verification/ManagerPublish.v ===== *)
(** * Publication of candidates

    Publication is a compare-and-swap: a candidate that is accepted takes the slot
    and what was there is closed; one that is refused is closed, and all that is
    published stays as it is.  The same for a project with its workspace. *)
From stdpp Require Import relations.
From S2P Require Import Prelude Text Errors External Ids Model Broker Async Lifecycle LifecycleProps.
From S2P Require Import Graph Resolver ScopeManager ManagerShape ManagerInvariant ManagerSteps.
#[local] Open Scope Z_scope.

Section publication.
Context `{Semver, Petgraph, SerdeToVec, !Tokio World}.
Implicit Types (w : World) (r q c x y : Ref) (D : option Z) (k : Slot).

Context (deadlines : LifecycleDeadlines).
Hypothesis (Hscope : 0 ≤ dl_scope deadlines).

Definition unpublished w r : Prop := ∀ k, slot w k ≠ Some r.
(** A scope outside the manager's slots. *)
Definition candidate w r : Prop := exists_scope w r ∧ unpublished w r.
(** The slots, and all that is in them, stay. *)
Definition untouched w w' : Prop :=
  (∀ k, slot w' k = slot w k) ∧ ∀ k x, slot w k = Some x → scope_view w' x = scope_view w x.
#[global] Instance untouched_preorder : PreOrder untouched.
Proof.
  split; [done|]. intros w1 w2 w3 [Hs1 Hv1] [Hs2 Hv2]. split; [intros k; by rewrite Hs2|].
  intros k x Hk. rewrite (Hv2 k); [by apply (Hv1 k)|by rewrite Hs1].
Qed.
Lemma untouched_alike w w' : alike w w' → untouched w w'.
Proof. intros Ha. split; [apply Ha|intros; apply Ha]. Qed.
(** Dropped before the deadline. *)
Definition dropped_before D (b : Z) : Prop := ∃ drop, D = Some drop ∧ drop < b.

Lemma evolves_exists F w w' r : evolves_within F w w' → exists_scope w r → exists_scope w' r.
Proof. intros He [s Hs]. destruct (evolves_scope _ _ _ _ _ He Hs) as (s' & ? & _). by exists s'. Qed.

Lemma evolves_frameless F w w' : evolves_within F w w' → evolves_within (λ _, False) w w'.
Proof. intros []. by split. Qed.
Lemma reported_shut w r rep : scopes_ok w → reported w r rep → shut w r.
Proof.
  intros Hok (s & Hs & Hr). destruct (ok_scope _ Hok r s Hs) as (t & _ & Hst).
  destruct (so_report _ _ Hst rep Hr) as (_ & Hterm & _).
  unfold shut, scope_state. rewrite Hs. simpl. rewrite Hterm. by destruct (sdr_outcome rep).
Qed.
(** Closing what is not published. *)
Lemma wp_close r D w :
  manager_ok w → candidate w r →
  wp (quiesce_and_dispose r deadlines) D w
    (λ rep w', manager_ok w' ∧ untouched w w' ∧ reported w' r rep ∧ w_now w' ≤ w_now w + dl_scope deadlines ∧
       evolves_within (λ _, False) w w')
    (λ w', manager_ok w' ∧ untouched w w' ∧ shut w' r ∧ dropped_before D (w_now w + dl_scope deadlines) ∧
       evolves_within (λ _, False) w w').
Proof.
  intros Hok [Hex Hun]. pose proof Hok as [[[Hs Hf _] _] Hg].
  assert (Hspare : ∀ k x, slot w k = Some x → outside w r x) by by apply spare_unpublished; [apply Hok|].
  assert (Hkeep : ∀ w', evolves_within (outside w r) w w' → manager_ok w' ∧ untouched w w').
  { intros w' He. split; [by eapply manager_ok_evolves|]. split; [intros k; by apply (evolves_slot _ _ _ _ He)|].
    intros k x Hk. unfold scope_view. by rewrite (ev_frame _ _ _ He x (Hspare k x Hk)). }
  eapply wp_mono; [apply (disposes_quiesce (outside w r) r deadlines D w)|..]; try done.
  - intros Hout. apply Hout. apply rtc_refl.
  - apply outside_closed.
  - intros rep w' [(He & Hn & _) Hrep]. destruct (Hkeep w' He). pose proof (ev_now _ _ _ He).
    split_and!; [done..|lia|by eapply evolves_frameless].
  - intros w' [(He & Hu%unless_dropped_false & _) Hsh]. destruct (Hkeep w' He).
    split_and!; [done..|by eapply evolves_frameless].
Qed.

Lemma wp_the_identity r i D w (Q : ScopeIdentity → World → Prop) (R : World → Prop) :
  identity_of w r = Some i → wp (the_identity r) D w Q R ↔ Q i w.
Proof. intros Hi. unfold the_identity. by rewrite wp_bind, wp_gets, Hi. Qed.
Lemma exists_identity w r : exists_scope w r → ∃ i, identity_of w r = Some i.
Proof. unfold identity_of. intros [s ->]. by eexists. Qed.

(** *** Refusals *)

Definition refused expected c (reason : string) w (error : CandidatePublishError) w' : Prop :=
  manager_ok w' ∧ untouched w w' ∧ reported w' c (pe_rejected_dispose error) ∧ pe_reason error = reason ∧
  Some (pe_rejected error) = identity_of w c ∧ pe_expected error = identity_of_opt w expected ∧
  w_now w' ≤ w_now w + dl_scope deadlines.
Definition refusal_dropped D c w w' : Prop :=
  manager_ok w' ∧ untouched w w' ∧ shut w' c ∧ dropped_before D (w_now w + dl_scope deadlines).
Lemma wp_reject expected c actual reason D w :
  manager_ok w → candidate w c →
  wp (reject expected c deadlines actual reason) D w
    (λ res w', ∃ error, res = Err error ∧ refused expected c reason w error w') (refusal_dropped D c w).
Proof.
  intros Hok Hc. destruct (exists_identity w c (proj1 Hc)) as [i Hi]. unfold reject.
  rewrite wp_bind, (wp_the_identity c i) by done. rewrite wp_bind.
  eapply wp_mono; [by apply wp_close|..]; simpl.
  - intros rep w' (Hok' & Hun & Hrep & Hn & He). rewrite wp_bind, wp_gets, wp_bind, wp_gets, wp_ret.
    eexists. split; [done|]. split_and!; simpl; try done. unfold identity_of_opt.
    destruct expected; simpl; [by apply (evolves_identity _ _ _ _ He)|done].
  - by intros w' (? & ? & ? & ? & _).
Qed.

(** *** Publication *)

(** Why a candidate is not published, if it is not. *)
Definition refusal k expected c w : option string :=
  match scope_state w c with
  | Some ScopeLifecycleState.Ready =>
      if decide (slot w k = expected) then None else Some ("expected_old_mismatch" : string)
  | st => Some (ScopeStateError_display
                  (InvalidTransition ScopeLifecycleState.Ready (default ScopeLifecycleState.Failed st)))
  end.
(** [c] is in the slot and takes calls; what was there takes none. *)
Definition in_place k c w w' : Prop :=
  (∀ k', slot w' k' = put_slot k (Some c) w k') ∧ is_routable w' c = true ∧ ∀ p, slot w k = Some p → shut w' p.
Definition publish_outcome (why : option string) k expected c w
    (res : result CandidatePublishError PublishReport) w' : Prop :=
  match res with
  | Ok report =>
      why = None ∧ slot w k = expected ∧ manager_ok w' ∧ in_place k c w w' ∧
      Some (pr_published report) = identity_of w c ∧ pr_previous report = identity_of_opt w expected ∧
      match expected with
      | Some p => ∃ rep, pr_previous_dispose report = Some rep ∧ reported w' p rep
      | None => pr_previous_dispose report = None
      end ∧ w_now w' ≤ w_now w + dl_scope deadlines
  | Err error => ∃ reason, why = Some reason ∧ refused expected c reason w error w'
  end.
Definition publish_dropped (why : option string) D k c w w' : Prop :=
  match why with
  | None => manager_ok w' ∧ in_place k c w w' ∧ dropped_before D (w_now w + dl_scope deadlines)
  | Some _ => refusal_dropped D c w w'
  end.

Lemma identity_of_opt_alike w w' o : alike w w' → identity_of_opt w' o = identity_of_opt w o.
Proof. intros Ha. destruct o as [r|]; [|done]. simpl. by rewrite Ha. Qed.
Lemma candidate_alike w w' r : alike w w' → candidate w r → candidate w' r.
Proof. intros Ha [Hex Hun]. split; [by rewrite <-Ha|]. intros k. rewrite (al_slot _ _ Ha). apply Hun. Qed.
Lemma wp_reject_alike expected c actual reason D w w2 :
  alike w w2 → idle_gates w2 → w_now w2 = w_now w → manager_ok w → candidate w c →
  wp (reject expected c deadlines actual reason) D w2
    (λ res w', ∃ error, res = Err error ∧ refused expected c reason w error w') (refusal_dropped D c w).
Proof.
  intros Ha Hg Hn [Hcore _] Hc. assert (Hok2 : manager_ok w2) by (split; [by rewrite <-Ha|done]).
  assert (Hun := untouched_alike _ _ Ha).
  eapply wp_mono; [apply wp_reject; [done|by eapply candidate_alike]|..]; simpl.
  - intros res w' (error & -> & Hok' & Hun' & Hrep & Hre & Hid & Hexp & Hn'). exists error. split; [done|].
    split_and!; [done|by etrans|done|done|by rewrite Hid, <-Ha|by rewrite Hexp, (identity_of_opt_alike _ _ _ Ha)|lia].
  - intros w' (Hok' & Hun' & Hsh & Hd). rewrite Hn in Hd. split_and!; [done|by etrans|done|done].
Qed.

(** What follows when the slot has been taken. *)
Lemma wp_published k c (previous : option Ref) D w w2 :
  manager_ok w → manager_ok w2 → candidate w c → previous = slot w k → w_now w2 = w_now w →
  (∀ k', slot w2 k' = put_slot k (Some c) w k') → (∀ x, identity_of w2 x = identity_of w x) →
  (∀ p, previous = Some p → shut w2 p) →
  wp (report ← match previous with
               | Some p => report ← quiesce_and_dispose p deadlines; mret (Some report)
               | None => mret None
               end;
      published ← the_identity c;
      previous ← gets (λ w, identity_of_opt w previous);
      mret (Ok (MkPublishReport published previous report))) D w2
    (publish_outcome None k (slot w k) c w) (publish_dropped None D k c w).
Proof.
  intros Hok Hok2 Hc -> Hn Hslot Hid Hshut. pose proof Hok as [[_ Hshape] _].
  destruct (exists_identity w c (proj1 Hc)) as [i Hi].
  assert (Hin : ∀ w', manager_ok w' → untouched w2 w' → (∀ p, slot w k = Some p → shut w' p) → in_place k c w w').
  { intros w' [[Ht' Hsh'] _] [Hs' Hv'] Hsh. assert (Hslot' : ∀ k', slot w' k' = put_slot k (Some c) w k')
      by (intros k'; by rewrite Hs'). split_and!; [done| |done].
    apply routable_active; [done|]. apply (shape_slot_active _ _ _ _ _ Hsh' k).
    rewrite Hslot'. unfold put_slot. by rewrite decide_True. }
  rewrite wp_bind. destruct (slot w k) as [p|] eqn:Hp.
  - assert (Hcp : candidate w2 p).
    { split.
      - assert (Hex : exists_scope w p) by (by eapply state_exists, (shape_slot_active _ _ _ _ _ Hshape)).
        destruct (exists_identity w p Hex) as [j Hj]. rewrite <-Hid in Hj. unfold identity_of in Hj.
        by apply fmap_Some in Hj as (s & ? & _); exists s.
      - intros k'. rewrite Hslot. unfold put_slot. case_decide as Hk.
        + intros [= ->]. by destruct Hc as [_ Hun]; destruct (Hun k).
        + intros Hk'. by apply Hk, (shape_slots_distinct _ _ _ _ _ Hshape k k' p). }
    rewrite wp_bind. eapply wp_mono; [by apply wp_close|..]; simpl.
    + intros rep w' (Hok' & Hun & Hrep & Hn' & He').
      assert (Hid' : ∀ x, identity_of w' x = identity_of w2 x) by (intros x; by apply (evolves_identity _ _ _ _ He')).
      rewrite wp_ret, wp_bind.
      rewrite (wp_the_identity c i) by (by rewrite Hid', Hid). rewrite wp_bind, wp_gets, wp_ret. simpl.
      assert (Hsh : ∀ p', Some p = Some p' → shut w' p').
      { intros p' [= <-]. eapply reported_shut; [apply Hok'|done]. }
      split_and!; try done.
      * by apply Hin.
      * by rewrite Hid', Hid.
      * by exists rep.
      * lia.
    + intros w' (Hok' & Hun & Hsh & Hd & _). split_and!; [done| |by rewrite Hn in Hd].
      apply Hin; [done..|]. by intros p' [= <-].
  - rewrite wp_ret, wp_bind, (wp_the_identity c i) by (by rewrite Hid).
    rewrite wp_bind, wp_gets, wp_ret. simpl. split_and!; try done.
    + by apply Hin.
    + lia.
Qed.
Lemma wp_publish_with k q expected c D w :
  manager_ok w → candidate w c → publishes (slot w) (identity_of w) k q c →
  wp (publish_with k expected c deadlines (replace_child q)) D w
    (publish_outcome (refusal k expected c w) k expected c w)
    (publish_dropped (refusal k expected c w) D k c w).
Proof.
  intros Hok Hc Hpub. pose proof Hok as [Hcore Hg]. unfold publish_with. rewrite wp_bind.
  rewrite wp_lock_gate by (apply idle_gate; [done|apply Hc]). rewrite wp_call.
  set (wg := update_scope c (with_gate true) w). assert (Hag : alike w wg) by apply alike_gate.
  assert (Hrel : ∀ d, alike w (update_scope c (with_gate false) (log d wg)) ∧
    idle_gates (update_scope c (with_gate false) (log d wg))).
  { intros d. split; [|by eapply idle_gates_locked]. etrans; [exact Hag|]. etrans; [apply alike_log|apply alike_gate]. }
  assert (Hrel' : alike w (update_scope c (with_gate false) wg) ∧ idle_gates (update_scope c (with_gate false) wg)).
  { split; [|by eapply idle_gates_locked]. etrans; [exact Hag|apply alike_gate]. }
  destruct (scope_state w c) as [st|] eqn:Hst; [|by destruct Hc as [[s Hs] _]; unfold scope_state in Hst; rewrite Hs in Hst].
  assert (Hstg : scope_state wg c = Some st) by by rewrite <-Hag.
  unfold refusal. rewrite Hst. destruct (decide (st = ScopeLifecycleState.Ready)) as [->|Hready].
  - destruct (decide (slot w k = expected)) as [Hexp|Hexp].
    + subst expected. assert (Hcg : manager_core wg) by by rewrite <-Hag.
      destruct (publish_step_published k q c wg) as (w1 & ch1 & Hstep & Hcore1 & C); [done| |done|].
      { destruct Hpub as [?|(? & ? & Hnames)]; [by left|right]. unfold names_parent in *. by rewrite <-!Hag. }
      change (slot w k) with (slot wg k). rewrite Hstep. cbn [fst snd].
      set (w2 := update_scope c (with_gate false) w1).
      assert (Ha2 : alike w1 w2) by apply alike_gate.
      assert (Hok2 : manager_ok w2).
      { split; [by rewrite <-Ha2|]. eapply idle_gates_locked; [done|]. intros x. apply (ch_gate _ _ _ _ _ C). }
      assert (Hid2 : ∀ x, identity_of w2 x = identity_of w x).
      { intros x. rewrite <-Ha2, (ch_identity _ _ _ _ _ C). by rewrite <-Hag. }
      assert (Hslot2 : ∀ k', slot w2 k' = put_slot k (Some c) w k') by (intros k'; apply (ch_slot _ _ _ _ _ C)).
      change (slot wg k) with (slot w k). apply (wp_published k c (slot w k) D w w2); try done.
      * apply (ch_now _ _ _ _ _ C).
      * intros p Hp. unfold shut. rewrite <-Ha2, (ch_state _ _ _ _ _ C). by apply closing_shut.
    + destruct (publish_step_lost k expected c (replace_child q) wg Hstg Hexp) as [d ->]. cbn [fst snd].
      destruct (Hrel d) as [Ha Hg2]. eapply wp_mono; [by apply (wp_reject_alike _ _ _ _ _ w)|..].
      * intros res w' (error & -> & Href). eexists. done.
      * done.
  - rewrite (publish_step_not_ready k expected c (replace_child q) wg st Hstg Hready). cbn [fst snd].
    destruct Hrel' as [Ha Hg2]. eapply wp_mono; [by apply (wp_reject_alike _ _ _ _ _ w)|..].
    + intros res w' (error & -> & Href). destruct st; try done; (eexists; split; [reflexivity|exact Href]).
    + intros w' Hd. by destruct st.
Qed.

Definition project_refusal expected c w : option string :=
  if slot w WorkspaceSlot then Some ("workspace_tree_publication_required" : string)
  else refusal ProjectSlot expected c w.
Definition workspace_refusal expected c w : option string :=
  match slot w ProjectSlot with
  | None => Some ("workspace_parent_project_missing" : string)
  | Some p =>
      if decide (names_parent (identity_of w) p c) then refusal WorkspaceSlot expected c w
      else Some (ScopeStateError_display InvalidChildParent)
  end.
Lemma refused_outcome reason k expected c w res w' :
  (∃ error, res = Err error ∧ refused expected c reason w error w') →
  publish_outcome (Some reason) k expected c w res w'.
Proof. intros (error & -> & Href). by exists reason. Qed.

Lemma wp_publish_project expected c D w :
  manager_ok w → candidate w c →
  wp (publish_project deadlines expected c) D w
    (publish_outcome (project_refusal expected c w) ProjectSlot expected c w)
    (publish_dropped (project_refusal expected c w) D ProjectSlot c w).
Proof.
  intros Hok Hc. pose proof Hok as [[_ Hshape] _]. unfold publish_project, project_refusal.
  rewrite wp_bind, wp_gets. change (w_workspace w) with (slot w WorkspaceSlot).
  destruct (slot w WorkspaceSlot) as [x|] eqn:Hx; simpl.
  - eapply wp_mono; [by apply wp_reject| |done]. intros res w'. apply refused_outcome.
  - destruct (sh_application _ _ _ _ _ Hshape) as (a & Ha & _). unfold the_application.
    rewrite wp_bind, wp_bind, wp_gets. change (w_application w) with (slot w ApplicationSlot).
    rewrite Ha, wp_ret. apply wp_publish_with; [done..|]. by left.
Qed.
Lemma wp_publish_workspace expected c D w :
  manager_ok w → candidate w c →
  wp (publish_workspace deadlines expected c) D w
    (publish_outcome (workspace_refusal expected c w) WorkspaceSlot expected c w)
    (publish_dropped (workspace_refusal expected c w) D WorkspaceSlot c w).
Proof.
  intros Hok Hc. pose proof Hok as [[_ Hshape] _]. unfold publish_workspace, workspace_refusal.
  rewrite wp_bind, wp_gets. change (w_project w) with (slot w ProjectSlot).
  destruct (slot w ProjectSlot) as [p|] eqn:Hp.
  - destruct (exists_identity w c (proj1 Hc)) as [i Hi].
    assert (Hex : exists_scope w p) by (by eapply state_exists, (shape_slot_active _ _ _ _ _ Hshape)).
    destruct (exists_identity w p Hex) as [j Hj].
    rewrite wp_bind, (wp_the_identity c i), wp_bind, (wp_the_identity p j) by done.
    assert (Hnames : names_parent (identity_of w) p c ↔ scope_parent_id i = Some (Errors.scope_id j)).
    { unfold names_parent. by rewrite Hi, Hj. }
    destruct (decide (names_parent (identity_of w) p c)) as [Hn|Hn].
    + rewrite bool_decide_eq_true_2 by (by apply Hnames). simpl. apply wp_publish_with; [done..|]. by right.
    + rewrite bool_decide_eq_false_2 by (by rewrite <-Hnames). simpl.
      eapply wp_mono; [by apply wp_reject| |done]. intros res w'. apply refused_outcome.
  - eapply wp_mono; [by apply wp_reject| |done]. intros res w'. apply refused_outcome.
Qed.

(** *** Publication of a tree *)

Definition tree_fits expected_project p expected_workspace x w : Prop :=
  scope_state w p = Some ScopeLifecycleState.Ready ∧ scope_state w x = Some ScopeLifecycleState.Ready ∧
  names_parent (identity_of w) p x ∧ slot w ProjectSlot = expected_project ∧
  slot w WorkspaceSlot = expected_workspace.
(** Both candidates are in their slots and take calls; the project before takes none. *)
Definition tree_in_place p x w w' : Prop :=
  (∀ k, slot w' k = tree_slots w p x k) ∧ is_routable w' p = true ∧ is_routable w' x = true ∧
  ∀ p0, slot w ProjectSlot = Some p0 → shut w' p0.
Definition tree_outcome expected_project p expected_workspace x w
    (res : result ProjectTreePublishError ProjectTreePublishReport) w' : Prop :=
  manager_ok w' ∧
  match res with
  | Ok report =>
      tree_fits expected_project p expected_workspace x w ∧ tree_in_place p x w w' ∧
      (∀ p0, slot w ProjectSlot = Some p0 → ∃ rep, tr_previous_dispose report = Some rep ∧ reported w' p0 rep) ∧
      (∀ k r, k ≠ ApplicationSlot → slot w k = Some r → stopped w' r) ∧
      w_now w' ≤ w_now w + dl_scope deadlines
  | Err error =>
      ¬ tree_fits expected_project p expected_workspace x w ∧ untouched w w' ∧
      reported w' p (te_rejected_dispose error) ∧ reported w' x (te_rejected_workspace_dispose error) ∧
      w_now w' ≤ w_now w + 2 * dl_scope deadlines
  end.
Definition tree_dropped expected_project p expected_workspace x D w w' : Prop :=
  manager_ok w' ∧ dropped_before D (w_now w + 2 * dl_scope deadlines) ∧
  ((tree_fits expected_project p expected_workspace x w ∧ tree_in_place p x w w') ∨
   (¬ tree_fits expected_project p expected_workspace x w ∧ untouched w w' ∧ shut w' x)).

(** What a refused tree leaves: the workspace candidate may hang below the project
    candidate. *)
Record attached p x w w2 : Prop := {
  at_now : w_now w2 = w_now w;
  at_tree : tree_ok w2;
  at_gates : idle_gates w2;
  at_slot k : slot w2 k = slot w k;
  at_state r : scope_state w2 r = scope_state w r;
  at_identity r : identity_of w2 r = identity_of w r;
  at_generation : w_next_generation w2 = w_next_generation w;
  at_child y z : child w2 y z → child w y z ∨ (y = p ∧ z = x);
  at_keep y z : child w y z → child w2 y z;
  at_view r : r ≠ p → scope_view w2 r = scope_view w r
}.
Lemma attached_alike ch p x w wg w1 w2 :
  alike w wg → w_now wg = w_now w → changes (slot wg) (scope_state wg) ch wg w1 → tree_ok w1 →
  (∀ y z, ch y z → child wg y z ∨ (y = p ∧ z = x)) → (∀ y z, child wg y z → ch y z) →
  (∀ r, r ≠ p → w_scopes w1 !! r = w_scopes wg !! r) →
  alike w1 w2 → w_now w2 = w_now w1 → idle_gates w2 → attached p x w w2.
Proof.
  intros Hag Hn C Ht Hch Hkeep Hsame Ha2 Hn2 Hg. split.
  - by rewrite Hn2, (ch_now _ _ _ _ _ C).
  - by rewrite <-Ha2.
  - done.
  - intros k. by rewrite (al_slot _ _ Ha2), (ch_slot _ _ _ _ _ C), (al_slot _ _ Hag).
  - intros r. by rewrite <-Ha2, (ch_state _ _ _ _ _ C), <-Hag.
  - intros r. by rewrite <-Ha2, (ch_identity _ _ _ _ _ C), <-Hag.
  - by rewrite (al_generation _ _ Ha2), (ch_generation _ _ _ _ _ C), (al_generation _ _ Hag).
  - intros y z. rewrite <-Ha2, (ch_child _ _ _ _ _ C), Hag. apply Hch.
  - intros y z. rewrite <-Ha2, (ch_child _ _ _ _ _ C), Hag. apply Hkeep.
  - intros r Hr. rewrite (al_scopes _ _ Ha2), <-(al_scopes _ _ Hag). unfold scope_view. by rewrite Hsame.
Qed.
(** The workspace candidate is closed first. *)
Lemma wp_close_attached p x D w w2 :
  manager_ok w → candidate w p → candidate w x → attached p x w w2 →
  wp (quiesce_and_dispose x deadlines) D w2
    (λ rep w', manager_ok w' ∧ untouched w w' ∧ reported w' x rep ∧ candidate w' p ∧
       w_now w' ≤ w_now w + dl_scope deadlines)
    (λ w', manager_ok w' ∧ untouched w w' ∧ shut w' x ∧ dropped_before D (w_now w + dl_scope deadlines)).
Proof.
  intros Hok Hp Hx [Hn Ht Hg Hsl Hst Hid Hgen Hch1 Hch2 Hview]. pose proof Hok as [[Htw Hshape] _].
  assert (Hun : ∀ k, slot w k ≠ Some x) by apply Hx.
  assert (Hspare : ∀ k r, slot w k = Some r → outside w2 x r).
  { intros k r Hk Hb. enough (Hup : ∀ y, below w2 y r → ∃ k', slot w k' = Some y).
    { destruct (Hup x Hb) as [k' Hk']. by destruct (Hun k'). }
    intros y Hy. clear Hb. induction Hy as [r|y c r Hyc _ IH]; [eauto|]. destruct (IH Hk) as [k' Hk'].
    apply Hch1 in Hyc as [Hyc|[-> ->]]; [by apply (shape_above _ _ _ _ _ Hshape k' c y)|by destruct (Hun k')]. }
  assert (Hkeep : ∀ w', evolves_within (outside w2 x) w2 w' → shut w' x → manager_ok w' ∧ untouched w w').
  { intros w' He Hsh. split; [split; [split|]|split].
    - by eapply tree_ok_evolves.
    - assert (Hs' : shape_ok (slot w) (scope_state w') (child w) (identity_of w) (w_next_generation w)).
      { apply (shape_closing _ _ _ _ _ Hshape).
        - intros k r Hk. rewrite <-(Hst r). unfold scope_state. by rewrite (ev_frame _ _ _ He r (Hspare k r Hk)).
        - intros r. rewrite <-(Hst r). by apply (evolves_state _ _ _ _ He). }
      apply (shape_closed_edge _ _ _ _ _ Hs' x (child w2) Hsh) in Hch2;
        [|intros y z Hyz; destruct (Hch1 y z Hyz) as [?|[_ ?]]; auto].
      rewrite (ev_generation _ _ _ He), Hgen. eapply shape_ok_ext; [..|exact Hch2].
      + intros k. rewrite (evolves_slot _ _ _ _ He). apply Hsl.
      + done.
      + intros q c. by rewrite (evolves_child _ _ _ _ _ He).
      + intros r. rewrite (evolves_identity _ _ _ _ He). apply Hid.
    - intros y. rewrite (gate_of_evolves _ _ _ _ He). apply Hg.
    - intros k. rewrite (evolves_slot _ _ _ _ He). apply Hsl.
    - intros k r Hk. rewrite <-Hview by (intros ->; by destruct (proj2 Hp k)). unfold scope_view. by rewrite (ev_frame _ _ _ He r (Hspare k r Hk)). }
  assert (Hex : ∀ r, exists_scope w r → exists_scope w2 r).
  { intros r Hr. destruct (exists_identity w r Hr) as [i Hi]. rewrite <-Hid in Hi. unfold identity_of in Hi.
    apply fmap_Some in Hi as (s & ? & _). by exists s. }
  rewrite <-Hn. pose proof Ht as [Hs Hf _].
  eapply wp_mono; [apply (disposes_quiesce (outside w2 x) x deadlines D w2)|..]; try done.
  - intros Hout. apply Hout. apply rtc_refl.
  - apply outside_closed.
  - apply Hex, Hx.
  - intros rep w' [(He & Hn' & _) Hrep].
    assert (Hsh : shut w' x) by (eapply reported_shut; [by apply (ev_ok _ _ _ He)|done]).
    destruct (Hkeep w' He Hsh) as [? Hunt]. split_and!; [done..| |lia]. split.
    + eapply evolves_exists; [done|]. apply Hex, Hp.
    + intros k. rewrite (proj1 Hunt). apply Hp.
  - intros w' [(He & Hu%unless_dropped_false & _) Hsh]. destruct (Hkeep w' He Hsh). done.
Qed.

Lemma idle_gates_locked2 p x w w' :
  idle_gates w → p ≠ x →
  (∀ y, gate_of w' y = gate_of (update_scope x (with_gate true) (update_scope p (with_gate true) w)) y) →
  idle_gates (update_scope p (with_gate false) (update_scope x (with_gate false) w')).
Proof.
  intros Hg Hne Hsame y. rewrite !gate_of_update, Hsame, !gate_of_update.
  specialize (Hg y). repeat case_decide; by destruct (gate_of w y) as [[]|].
Qed.

(** Both candidates of a refused tree are closed, the workspace first. *)
Lemma wp_tree_rejected reason expected_project p found_project expected_workspace x found_workspace D w w2 :
  ¬ tree_fits expected_project p expected_workspace x w →
  manager_ok w → candidate w p → candidate w x → attached p x w w2 →
  wp (workspace_report ← quiesce_and_dispose x deadlines;
      project_report ← quiesce_and_dispose p deadlines;
      rejected_project ← the_identity p;
      rejected_workspace ← the_identity x;
      gets (λ w, Err (MkTreeError (identity_of_opt w expected_project)
        (identity_of_opt w (default (w_project w) found_project))
        (identity_of_opt w expected_workspace)
        (identity_of_opt w (default (w_workspace w) found_workspace))
        rejected_project rejected_workspace project_report workspace_report reason))) D w2
    (tree_outcome expected_project p expected_workspace x w)
    (tree_dropped expected_project p expected_workspace x D w).
Proof.
  intros Hfit Hok Hp Hx Hat. rewrite wp_bind.
  eapply wp_mono; [by apply (wp_close_attached p x D w w2)|..]; cbn beta.
  - intros rep w3 (Hok3 & Hun3 & Hrep3 & Hp3 & Hn3). rewrite wp_bind.
    eapply wp_mono; [by apply wp_close|..]; cbn beta.
    + intros rep' w4 (Hok4 & Hun4 & Hrep4 & Hn4 & He4).
      assert (Hrep3' := reported_evolves _ _ _ _ _ He4 Hrep3).
      destruct (exists_identity w4 p) as [i Hi]; [by eapply evolves_exists, Hp3|].
      destruct (exists_identity w4 x) as [j Hj]; [destruct Hrep3' as (s & ? & _); by exists s|].
      rewrite wp_bind, (wp_the_identity p i), wp_bind, (wp_the_identity x j), wp_gets by done.
      split; [done|]. split_and!; [done|by etrans|done..|lia].
    + intros w4 (Hok4 & Hun4 & Hsh4 & (drop & -> & ?) & He4). split; [done|]. split.
      * exists drop. split; [done|lia].
      * right. split_and!; [done|by etrans|]. eapply shut_evolves; [done|]. eapply reported_shut; [apply Hok3|done].
  - intros w3 (Hok3 & Hun3 & Hsh3 & drop & -> & ?). split; [done|]. split.
    + exists drop. split; [done|lia].
    + by right.
Qed.

(** Both candidates are in place; the project before is closed with all below it. *)
Lemma wp_tree_published p x D w w2 :
  manager_ok w → manager_ok w2 → candidate w p → candidate w x → w_now w2 = w_now w →
  tree_fits (slot w ProjectSlot) p (slot w WorkspaceSlot) x w →
  (∀ k, slot w2 k = tree_slots w p x k) → (∀ r, identity_of w2 r = identity_of w r) →
  (∀ p0, slot w ProjectSlot = Some p0 → shut w2 p0) →
  (∀ y z, child w y z → slot w ProjectSlot ≠ Some z → child w2 y z) →
  wp (report ← match slot w ProjectSlot with
               | Some p0 => report ← quiesce_and_dispose p0 deadlines; mret (Some report)
               | None => mret None
               end;
      published_project ← the_identity p;
      published_workspace ← the_identity x;
      gets (λ w', Ok (MkTreeReport published_project published_workspace
        (identity_of_opt w' (slot w ProjectSlot)) (identity_of_opt w' (slot w WorkspaceSlot)) report))) D w2
    (tree_outcome (slot w ProjectSlot) p (slot w WorkspaceSlot) x w)
    (tree_dropped (slot w ProjectSlot) p (slot w WorkspaceSlot) x D w).
Proof.
  intros Hok Hok2 Hp Hx Hn Hfit Hslot Hid Hshut Hkeep. pose proof Hok as [[_ Hshape] _].
  destruct (exists_identity w p (proj1 Hp)) as [i Hi]. destruct (exists_identity w x (proj1 Hx)) as [j Hj].
  assert (Hin : ∀ w', manager_ok w' → untouched w2 w' → (∀ p0, slot w ProjectSlot = Some p0 → shut w' p0) →
    tree_in_place p x w w').
  { intros w' [[Ht' Hsh'] _] [Hs' Hv'] Hsh.
    assert (Hslot' : ∀ k, slot w' k = tree_slots w p x k) by (intros k; by rewrite Hs').
    split_and!; [done| | |done]; apply routable_active; try done.
    - by apply (shape_slot_active _ _ _ _ _ Hsh' ProjectSlot).
    - by apply (shape_slot_active _ _ _ _ _ Hsh' WorkspaceSlot). }
  assert (Hlimit : 0 ≤ dl_scope deadlines) by done.
  rewrite wp_bind. destruct (slot w ProjectSlot) as [p0|] eqn:Hp0.
  - assert (Hcp : candidate w2 p0).
    { split.
      - assert (Hex : exists_scope w p0) by (by eapply state_exists, (shape_slot_active _ _ _ _ _ Hshape)).
        destruct (exists_identity w p0 Hex) as [l Hl]. rewrite <-Hid in Hl. unfold identity_of in Hl.
        by apply fmap_Some in Hl as (s & ? & _); exists s.
      - intros []; rewrite Hslot; simpl.
        + intros Ha. by assert (ProjectSlot = ApplicationSlot) by by eapply (shape_slots_distinct _ _ _ _ _ Hshape).
        + intros [= ->]. by destruct Hp as [_ Hun]; destruct (Hun ProjectSlot).
        + intros [= ->]. by destruct Hx as [_ Hun]; destruct (Hun ProjectSlot). }
    rewrite wp_bind. eapply wp_mono; [by apply wp_close|..]; cbn beta.
    + intros rep w' (Hok' & Hun & Hrep & Hn' & He').
      assert (Hid' : ∀ y, identity_of w' y = identity_of w2 y) by (intros y; by apply (evolves_identity _ _ _ _ He')).
      rewrite wp_ret, wp_bind, (wp_the_identity p i) by (by rewrite Hid', Hid).
      rewrite wp_bind, (wp_the_identity x j), wp_gets by (by rewrite Hid', Hid).
      assert (Hstop : ∀ k r, k ≠ ApplicationSlot → slot w k = Some r → stopped w' r).
      { intros k r Hk Hr. pose proof Hok' as [[[Hs' _ _] _] _]. eapply reported_below; [done..|].
        destruct k; [done|rewrite Hp0 in Hr; injection Hr as <-; apply rtc_refl|]. apply rtc_once.
        change (child w' p0 r). apply (evolves_child _ _ _ _ _ He').
        destruct (sh_workspace _ _ _ _ _ Hshape r Hr) as (_ & p1 & Hp1 & Hch & _). rewrite Hp0 in Hp1.
        injection Hp1 as <-. apply Hkeep; [done|]. intros [= <-].
        by assert (ProjectSlot = WorkspaceSlot) by by eapply (shape_slots_distinct _ _ _ _ _ Hshape). }
      split; [done|]. split_and!; [done| | |done|lia].
      * apply Hin; [done..|]. intros ? [= <-]. eapply reported_shut; [apply Hok'|done].
      * intros p1 Hp1. rewrite Hp0 in Hp1. injection Hp1 as <-. by exists rep.
    + intros w' (Hok' & Hun & Hsh & (drop & -> & ?) & _). split; [done|]. split; [exists drop; split; [done|lia]|].
      left. split; [done|]. apply Hin; [done..|]. by intros ? [= <-].
  - rewrite wp_ret, wp_bind, (wp_the_identity p i), wp_bind, (wp_the_identity x j), wp_gets by (by rewrite Hid).
    split; [done|]. split_and!; [done| | | |lia].
    + by apply Hin.
    + intros p1 Hp1. congruence.
    + intros [] r Hk Hr; [done|congruence|]. destruct (sh_workspace _ _ _ _ _ Hshape r Hr) as (_ & ? & ? & _). congruence.
Qed.

Lemma wp_publish_project_tree expected_project p expected_workspace x D w :
  manager_ok w → candidate w p → candidate w x → p ≠ x →
  wp (publish_project_tree deadlines expected_project p expected_workspace x) D w
    (tree_outcome expected_project p expected_workspace x w)
    (tree_dropped expected_project p expected_workspace x D w).
Proof.
  intros Hok Hp Hx Hne. pose proof Hok as [Hcore Hg]. pose proof Hcore as [_ Hshape].
  destruct (sh_application _ _ _ _ _ Hshape) as (a & Ha & _).
  unfold publish_project_tree, the_application. rewrite wp_bind, wp_bind, wp_gets.
  change (w_application w) with (slot w ApplicationSlot). rewrite Ha, wp_ret, wp_bind.
  rewrite wp_lock_gate by (apply idle_gate; [done|apply Hp]).
  rewrite wp_lock_gate by (rewrite gate_of_update, decide_False by done; apply idle_gate; [done|apply Hx]).
  rewrite wp_call. set (wg := update_scope x (with_gate true) (update_scope p (with_gate true) w)).
  assert (Hag : alike w wg) by (etrans; apply alike_gate).
  assert (Hcg : manager_core wg) by by rewrite <-Hag.
  set (release w1 := update_scope p (with_gate false) (update_scope x (with_gate false) w1)).
  assert (Hrel : ∀ w1, alike w1 (release w1)) by (intros w1; etrans; apply alike_gate).
  assert (Hidle : ∀ w1, (∀ y, gate_of w1 y = gate_of wg y) → idle_gates (release w1))
    by (intros w1; by apply idle_gates_locked2).
  assert (Hfits : Decision (tree_fits expected_project p expected_workspace x w)) by (unfold tree_fits; apply _).
  destruct (decide (tree_fits expected_project p expected_workspace x w)) as [Hfit|Hfit].
  - pose proof Hfit as (Hsp & Hsx & Hnames & <- & <-).
    destruct (tree_step_published wg p x Hcg Hne) with (a := a) as (w1 & ch & Hstep & Hcore1 & C & Hkeep);
      [by rewrite <-Hag..|unfold names_parent in *; by rewrite <-!Hag|done|].
    change (slot wg ProjectSlot) with (slot w ProjectSlot) in Hstep.
    change (slot wg WorkspaceSlot) with (slot w WorkspaceSlot) in Hstep. rewrite Hstep. cbn [fst snd].
    apply (wp_tree_published p x D w (release w1)); try done.
    + split; [by rewrite <-(Hrel w1)|]. apply Hidle. intros y. apply (ch_gate _ _ _ _ _ C).
    + apply (ch_now _ _ _ _ _ C).
    + intros k. rewrite (al_slot _ _ (Hrel w1)), (ch_slot _ _ _ _ _ C). by destruct k.
    + intros r. rewrite <-(Hrel w1), (ch_identity _ _ _ _ _ C). by rewrite <-Hag.
    + intros p0 Hp0. unfold shut. rewrite <-(Hrel w1), (ch_state _ _ _ _ _ C). by apply closing_shut.
    + intros y z Hyz Hz. rewrite <-(Hrel w1). apply (ch_child _ _ _ _ _ C), Hkeep; [by rewrite <-Hag|done].
  - assert (Hat : ∃ reason found_project found_workspace w2,
      (let step := tree_step a expected_project p expected_workspace x wg in
       step.2 = TreeRejected reason found_project found_workspace ∧ release step.1 = w2) ∧ attached p x w w2).
    { assert (Hready : (scope_state wg p = Some ScopeLifecycleState.Ready ∧
          scope_state wg x = Some ScopeLifecycleState.Ready ∧ names_parent (identity_of wg) p x) ∨
        (scope_state wg p ≠ Some ScopeLifecycleState.Ready ∨ scope_state wg x ≠ Some ScopeLifecycleState.Ready ∨
         ¬ names_parent (identity_of wg) p x)).
      { destruct (decide (names_parent (identity_of wg) p x)), (decide (scope_state wg p = Some ScopeLifecycleState.Ready)),
          (decide (scope_state wg x = Some ScopeLifecycleState.Ready)); tauto. }
      destruct Hready as [(Hsp & Hsx & Hnames)|Hunfit].
      - destruct (tree_step_mismatch wg p x Hcg Hne Hsp Hsx Hnames a expected_project expected_workspace)
          as (w1 & ch & reason & found_project & found_workspace & Hstep & Ht & C & Hadopt & Hsame & _).
        { destruct (decide (slot wg ProjectSlot = expected_project)); [right|by left].
          intros Hw. apply Hfit. unfold tree_fits, names_parent in *. rewrite <-!Hag in *. done. }
        exists reason, (Some found_project), found_workspace, (release w1). rewrite Hstep. split; [done|].
        destruct Hadopt as (Hch & _ & Hkeep). apply (attached_alike ch p x w wg w1); try done.
        + intros y z Hyz. by apply Hkeep.
        + apply Hidle. apply C.
      - destruct (tree_step_unfit wg p x a expected_project expected_workspace Hunfit) as [reason Hstep].
        exists reason, None, None, (release wg). rewrite Hstep. split; [done|].
        apply (attached_alike (child wg) p x w wg wg); try done; [by rewrite <-Hag; apply Hcore|by left|by apply Hidle]. }
    destruct Hat as (reason & found_project & found_workspace & w2 & [Hstep <-] & Hat).
    rewrite Hstep. by apply wp_tree_rejected.
Qed.

(** C6: publication is a compare-and-swap.  A candidate is published exactly when
    nothing speaks against it ([project_refusal], [workspace_refusal]): then it is in
    its slot and takes calls, the other slots are as before, and the scope that was
    there takes none and has been disposed of.  A refused candidate has been disposed
    of, with the reason in the error, and everything published is untouched.  Either
    way the call ends within the scope deadline; one that is dropped leaves the
    manager as a finished one would, but for the disposal. *)
Theorem publish_scope_correct expected c D w :
  manager_ok w → candidate w c →
  wp (publish_project deadlines expected c) D w
    (publish_outcome (project_refusal expected c w) ProjectSlot expected c w)
    (publish_dropped (project_refusal expected c w) D ProjectSlot c w) ∧
  wp (publish_workspace deadlines expected c) D w
    (publish_outcome (workspace_refusal expected c w) WorkspaceSlot expected c w)
    (publish_dropped (workspace_refusal expected c w) D WorkspaceSlot c w).
Proof. intros Hok Hc. split; [by apply wp_publish_project|by apply wp_publish_workspace]. Qed.

End publication.
