(* ===== verification/ManagerOperations.v ===== *)
(** * Building and clearing

    The operations of the host that the invariant does not notice, the building of
    candidates, and the clearing of slots. *)
From stdpp Require Import relations.
From S2P Require Import Prelude Text Errors External Ids Model Broker Async Lifecycle LifecycleProps.
From S2P Require Import Graph Resolver ScopeManager ManagerShape ManagerInvariant ManagerSteps ManagerPublish.
#[local] Open Scope Z_scope.

Section operations.
Context `{Semver, Petgraph, SerdeToVec, !Tokio World}.
Context (deadlines : LifecycleDeadlines).
Hypothesis (Hscope : 0 ≤ dl_scope deadlines).
Implicit Types (w : World) (r q c x y : Ref) (D : option Z) (k : Slot).

(** ** Operations that the invariant does not notice *)

Definition calm w w' : Prop := alike w w' ∧ w_scopes w' = w_scopes w.
#[local] Instance calm_preorder : PreOrder calm.
Proof. split; [done|]. intros w1 w2 w3 [? ?] [? ?]. split; [by etrans|congruence]. Qed.
Lemma calm_ok w w' : calm w w' → manager_ok w → manager_ok w'.
Proof. intros [Ha Hs] [Hc Hg]. split; [by rewrite <-Ha|]. intros x. unfold gate_of. rewrite Hs. apply Hg. Qed.
Definition quiet {A} (m : async World A) : Prop := ∀ D w, wp m D w (λ _ w', calm w w') (λ w', calm w w').
Lemma quiet_ret {A} (a : A) : quiet (mret a).
Proof. by intros D w. Qed.
Lemma quiet_gets {A} (f : World → A) : quiet (gets f).
Proof. by intros D w. Qed.
Lemma quiet_bind {A B} (m : async World A) (f : A → async World B) :
  quiet m → (∀ a, quiet (f a)) → quiet (m ≫= f).
Proof.
  intros Hm Hf D w. apply wp_bind. eapply wp_mono; [apply Hm| |done]. intros a w1 Ha.
  eapply wp_mono; [apply Hf|..]; simpl; intros; (etrans; [exact Ha|done]).
Qed.
Lemma quiet_call {A} (f : World → World * A) : (∀ w, calm w (f w).1) → quiet (call f).
Proof. intros Hf D w. apply wp_call, Hf. Qed.
Lemma quiet_modify f : (∀ w, calm w (f w)) → quiet (modify f).
Proof. intros Hf D w. apply wp_modify, Hf. Qed.
Lemma quiet_await (delay : option Z) : quiet (await delay).
Proof.
  intros D w. unfold wp, await, await_until.
  destruct (_ <$> delay) as [time|]; [destruct (unless_dropped _ _)|]; (split; [apply alike_set_now|done]).
Qed.
Lemma quiet_never {A} : quiet (@never World _ A).
Proof. intros D w. unfold wp, never, await_until. by split; [apply alike_set_now|]. Qed.
Lemma quiet_bracket {A} acquire release (m : async World A) :
  (∀ w, calm w (acquire w)) → (∀ w, calm w (release w)) → quiet m → quiet (bracket acquire release m).
Proof.
  intros Ha Hr Hm D w. apply wp_bracket. eapply wp_mono; [apply Hm|..]; simpl.
  - intros _ w' Hw. etrans; [apply Ha|]. etrans; [exact Hw|apply Hr].
  - intros w' Hw. etrans; [apply Ha|]. etrans; [exact Hw|apply Hr].
Qed.
Lemma quiet_fold {A S} (body : S → A → async World S) (l : list A) (s : S) :
  (∀ st e, quiet (body st e)) → quiet (async_fold body s l).
Proof.
  intros Hb. revert s. induction l as [|x l IH]; intros s; [apply quiet_ret|].
  apply quiet_bind; [apply Hb|intros s'; apply IH].
Qed.
Lemma calm_table_insert r i (id : CapabilityId) e w : calm w (update_runtime r (table_insert i id e) w).
Proof. split; [|done]. apply alike_update_runtime. intros t _. by destruct e. Qed.
Lemma calm_register r i (id : CapabilityId) e w : calm w (register r i id e w).1.
Proof. unfold register. case_match; [done|]. apply calm_table_insert. Qed.
Lemma calm_spawn r ends w : calm w (spawn r ends w).1.
Proof.
  unfold spawn. destruct (is_some_and rt_accepting (w_runtimes w !! r)) eqn:Hacc; [|done].
  split; [|done]. apply alike_update_runtime. intros t Ht. rewrite Ht in Hacc. simpl in Hacc. split; [done|].
  unfold switches. simpl. by rewrite Hacc.
Qed.
Lemma calm_leases r f w : calm w (update_runtime r (with_leases f) w).
Proof. split; [|done]. by apply alike_update_runtime. Qed.
Lemma calm_lease r until w : calm w (lease r until w).1.
Proof. unfold lease. case_match; [done|]. apply calm_leases. Qed.
Lemma quiet_emit d : quiet (emit d).
Proof. apply quiet_modify; split; [apply alike_log|done]. Qed.

Lemma quiet_activate r i broker script effects : quiet (activate r i broker script effects).
Proof.
  revert effects. induction script as [o|c e k IH|behaviour k IH|ends k IH|d k IH|req k IH|delay k IH];
    intros effects; simpl.
  - apply quiet_ret.
  - apply quiet_bind; [apply quiet_call; intros w; apply calm_register|intros [g|e']; [|apply IH]].
    unfold push_effect. apply IH.
  - unfold push_effect. apply IH.
  - apply quiet_bind; [apply quiet_call; intros w; apply calm_spawn|intros a; apply IH].
  - apply quiet_bind; [apply quiet_emit|intros []; apply IH].
  - apply quiet_bind; [apply quiet_await|intros []; apply IH].
  - apply quiet_bind; [apply quiet_await|intros []; apply IH].
Qed.
Lemma quiet_activate_plugin r i plugins passive broker acc id :
  quiet (activate_plugin r i plugins passive broker acc id).
Proof.
  unfold activate_plugin. destruct (acc.2); [apply quiet_ret|].
  destruct (plugins !! id) as [plugin|]; [|case_bool_decide; [apply quiet_ret|apply quiet_never]].
  apply quiet_bind; [apply quiet_emit|intros _].
  apply quiet_bind; [apply quiet_activate|intros ended].
  destruct (ended.1) as [[u|error]|]; (apply quiet_bind; [apply quiet_emit|intros _; apply quiet_ret]).
Qed.
Lemma quiet_call_handler r table (id : CapabilityId) request bytes : quiet (call_handler r table id request bytes).
Proof.
  unfold call_handler. apply quiet_bind; [apply quiet_gets|intros routable]. destruct (negb routable); [apply quiet_ret|].
  apply quiet_bracket; [intros w; apply calm_leases|intros w; apply calm_leases|].
  destruct (BoundedJson_generic _) as [request'|]; [|apply quiet_ret].
  apply quiet_bind; [apply quiet_gets|intros runtime].
  destruct (runtime ≫= _) as [[scope entry]|]; [|apply quiet_ret].
  destruct (se_handler entry request') as [delay answer].
  apply quiet_bind; [apply quiet_await|intros _; apply quiet_ret].
Qed.


(** ** Building candidates *)

(** A new scope, ready and without children. *)
Record added (i : ScopeIdentity) w r w' : Prop := {
  ad_fresh : w_scopes w !! r = None;
  ad_scope : ∃ s, w_scopes w' = <[r := s]> (w_scopes w) ∧ sn_identity s = i ∧
    sn_state s = ScopeLifecycleState.Ready ∧ sn_children s = [] ∧ sn_dispose_gate s = false;
  ad_tree : tree_ok w';
  ad_slot k : slot w' k = slot w k;
  ad_generation : w_next_generation w' = w_next_generation w
}.
Definition same_scopes w w' : Prop :=
  w_scopes w' = w_scopes w ∧ (∀ k, slot w' k = slot w k) ∧ w_next_generation w' = w_next_generation w ∧ tree_ok w'.
(** What is left when there is no new scope: none was made, or it has been closed. *)
Definition not_added (i : ScopeIdentity) w w' : Prop :=
  same_scopes w w' ∨ ∃ r w1, added i w r w1 ∧ evolves_within (outside w1 r) w1 w'.
Lemma same_scopes_calm w w1 w2 : same_scopes w w1 → calm w1 w2 → same_scopes w w2.
Proof.
  intros (Hs & Hk & Hn & Ht) [Ha Hs2]. split_and!; [congruence| | |by rewrite <-Ha].
  - intros k. by rewrite (al_slot _ _ Ha).
  - by rewrite (al_generation _ _ Ha).
Qed.

Lemma fresh_ref_fresh w : w_scopes w !! fresh_ref w = None ∧ w_runtimes w !! fresh_ref w = None.
Proof.
  pose proof (is_fresh (dom (w_runtimes w) ∪ dom (w_scopes w))) as Hf. unfold fresh_ref.
  rewrite not_elem_of_union, !not_elem_of_dom in Hf. tauto.
Qed.
Lemma alloc_runtime_ok i w :
  tree_ok w → same_scopes w (alloc_runtime i w).1 ∧
    runtime_view (alloc_runtime i w).1 (fresh_ref w) = Some (i, (false, true, false)).
Proof.
  intros [[Hok1 Hok2] Hf Hb]. destruct (fresh_ref_fresh w) as [Hs Hr]. simpl. split.
  - split_and!; [done|by intros []|done|]. split; [split|exact Hf|].
    + intros r s Hrs. destruct (Hok1 r s Hrs) as (t & Ht & ?). exists t. split; [|done]. simpl.
      rewrite lookup_insert_ne; [done|]. intros <-. simpl in Hrs. congruence.
    + exact Hok2.
    + intros r t Hrs. simpl. destruct (decide (fresh_ref w = r)) as [<-|].
      * rewrite lookup_insert_eq. by intros [= <-].
      * rewrite lookup_insert_ne by done. by apply Hb.
  - unfold runtime_view. simpl. by rewrite lookup_insert_eq.
Qed.
Lemma alloc_scope_ok i plan plugins r w w' :
  tree_ok w → same_scopes w w' → w_scopes w !! r = None →
  runtime_view w' r = Some (i, (false, true, false)) →
  (∀ p, p ∈ plugins → ap_report p = None) →
  added i w r (alloc_scope r (ScopeSnapshot_new_ready i plan plugins) w').
Proof.
  intros Hw (Hs & Hk & Hn & Ht) Hr Hv Hp. split; [done|eexists; split; [simpl; by rewrite Hs|done]| |done|done].
  unfold alloc_scope. set (s := ScopeSnapshot_new_ready i plan plugins).
  pose proof Ht as [[Hok1 Hok2] [rank Hrank] Hb]. rewrite <-Hs in Hr.
  assert (Hother : ∀ x sx c, w_scopes w' !! x = Some sx → c ∈ sn_children sx → c ≠ r).
  { intros x sx c Hx Hc ->. destruct (Hrank x sx r Hx Hc) as [[? ?] _]. congruence. }
  split; [split|exists rank|].
  - intros x sx. simpl. destruct (decide (r = x)) as [<-|].
    + rewrite lookup_insert_eq. intros [= <-]. unfold runtime_view in Hv.
      apply fmap_Some in Hv as (t & Ht' & Heq). injection Heq as Hi Hsw1 Hsw2 Hsw3. exists t. split; [done|].
      split; simpl; try done; [unfold switches; congruence|].
      intros p rep Hp'%Hp Hrep. congruence.
    + rewrite lookup_insert_ne by done. apply Hok1.
  - intros x sx c. simpl. destruct (decide (r = x)) as [<-|].
    + rewrite lookup_insert_eq. intros [= <-] [? ?]. done.
    + rewrite lookup_insert_ne by done. intros Hx Hrep Hc. rewrite lookup_insert_ne.
      * by apply (Hok2 x sx c).
      * by apply not_eq_sym, (Hother x sx).
  - intros x sx c. simpl. destruct (decide (r = x)) as [<-|].
    + rewrite lookup_insert_eq. intros [= <-] Hc. by apply elem_of_nil in Hc.
    + rewrite lookup_insert_ne by done. intros Hx Hc. rewrite lookup_insert_ne; [by apply (Hrank x sx c)|].
      by apply not_eq_sym, (Hother x sx).
  - intros x t. simpl. destruct (decide (r = x)) as [<-|]; [by rewrite lookup_insert_eq|].
    rewrite lookup_insert_ne by done. apply Hb.
Qed.
Lemma idle_gates_added i w r w' : added i w r w' → idle_gates w → idle_gates w'.
Proof.
  intros [_ (s & Hs & _ & _ & _ & Hg) _ _ _] Hidle x. unfold gate_of. rewrite Hs.
  destruct (decide (r = x)) as [<-|]; [rewrite lookup_insert_eq; simpl; congruence|].
  rewrite lookup_insert_ne by done. apply Hidle.
Qed.

Lemma activate_plugin_reports r i plugins passive broker acc id D w :
  (∀ p, p ∈ acc.1 → ap_report p = None) →
  wp (activate_plugin r i plugins passive broker acc id) D w
    (λ acc' _, ∀ p, p ∈ acc'.1 → ap_report p = None) (λ _, True).
Proof.
  intros Hacc. unfold activate_plugin. destruct acc as [acc [e|]]; simpl in *; [done|].
  destruct (plugins !! id) as [plugin|]; [|case_bool_decide].
  - rewrite wp_bind. unfold emit. rewrite wp_modify, wp_bind. unfold wp.
    destruct (activate _ _ _ _ _ _ _) as [[ended|] w']; [|done]. cbn [fst snd].
    destruct (ended.1) as [[u|error]|]; (unfold emit, modify, mret, async_ret, mbind, async_bind; simpl);
      intros p; rewrite elem_of_app, list_elem_of_singleton; intros [?| ->]; auto.
  - apply wp_ret. simpl. intros p; rewrite elem_of_app, list_elem_of_singleton; intros [?| ->]; auto.
  - unfold wp, never. by destruct (await_until _ _ _).
Qed.

Lemma wp_build_scope_candidate i parent_plan plugins passive broker D w :
  tree_ok w → idle_gates w →
  wp (build_scope_candidate_with_passive_descriptors i parent_plan plugins passive broker deadlines) D w
    (λ res w', match res with Ok r => added i w r w' | Err _ => not_added i w w' end) (not_added i w).
Proof.
  intros Ht Hg. unfold build_scope_candidate_with_passive_descriptors.
  assert (Hsame : same_scopes w w) by done.
  destruct (resolve_activation_plan _ _ _ _) as [plan|[error|]].
  2: { apply wp_ret. by left. }
  2: { unfold wp, never, await_until. left. split_and!; [done|by intros []|done|]. by apply (tree_ok_same w). }
  destruct (alloc_runtime_ok i w Ht) as [Hs1 Hv1]. rewrite wp_bind, wp_call, wp_bind.
  set (w1 := (alloc_runtime i w).1) in *. change (alloc_runtime i w).2 with (fresh_ref w).
  set (r := fresh_ref w) in *. assert (Hfresh : w_scopes w !! r = None) by apply fresh_ref_fresh.
  set (body := activate_plugin _ _ _ _ _).
  apply (wp_mono _ _ _ (λ acc w2, calm w1 w2 ∧ ∀ p, p ∈ acc.1 → ap_report p = None) _ (calm w1) _).
  { eapply wp_mono; [apply (wp_and _ _ _ (λ _ w2, calm w1 w2) (λ acc _, ∀ p, p ∈ acc.1 → ap_report p = None)
                             (calm w1) (λ _, True))|done|].
    - apply (quiet_fold body). intros acc id. apply quiet_activate_plugin.
    - apply (wp_fold body _ _ D w1 (λ _ acc _, ∀ p, p ∈ acc.1 → ap_report p = None) (λ _, True)).
      + intros p Hp. by apply elem_of_nil in Hp.
      + intros k id acc w2 _ Hacc. by apply activate_plugin_reports.
    - by intros w2 [? _]. }
  2: { intros w2 Hc. left. by eapply same_scopes_calm. }
  intros acc w2 [Hc Hrep]. rewrite wp_bind, wp_modify.
  assert (Hv2 : runtime_view w2 r = Some (i, (false, true, false))) by (by rewrite (al_runtimes _ _ (proj1 Hc))).
  pose proof (alloc_scope_ok i plan acc.1 r w w2 Ht (same_scopes_calm _ _ _ Hs1 Hc) Hfresh Hv2 Hrep) as Hadd.
  set (w3 := alloc_scope r _ w2) in *. destruct acc as [activated [[plugin_id error]|]]; [|by apply wp_ret].
  cbn [fst snd]. rewrite wp_bind. pose proof (ad_tree _ _ _ _ Hadd) as [Hs3 Hf3 _].
  eapply wp_mono; [apply (disposes_quiesce (outside w3 r) r deadlines D w3)|..]; try done.
  - intros Hout. apply Hout, rtc_refl.
  - apply outside_closed.
  - by eapply idle_gates_added.
  - destruct (ad_scope _ _ _ _ Hadd) as (s & Heq & _). rewrite Heq, lookup_insert_eq. by eexists.
  - intros rep w4 [(He & _ & _) _]. rewrite wp_bind, wp_modify, wp_ret. right. exists r, w3. split; [done|].
    case_bool_decide; [|done]. etrans; [exact He|]. apply evolves_log.
  - intros w4 [(He & _ & _) _]. right. by exists r, w3.
Qed.

Definition fresh_identity (i : ScopeIdentity) w : Prop :=
  generation_get (scope_generation i) < w_next_generation w ∧
  ∀ x, generation_in (identity_of w) x ≠ Some (generation_get (scope_generation i)).
Lemma manager_ok_same w w' : same_scopes w w' → manager_ok w → manager_ok w' ∧ untouched w w'.
Proof.
  intros (Hs & Hk & Hn & Ht) [[_ Hshape] Hg]. split; [split; [split|]|split].
  - done.
  - rewrite Hn. eapply shape_ok_ext; [apply Hk|..|exact Hshape]; intros; unfold scope_state, child, identity_of; by rewrite Hs.
  - intros x. unfold gate_of. rewrite Hs. apply Hg.
  - done.
  - intros k x _. unfold scope_view. by rewrite Hs.
Qed.
Lemma manager_ok_added i w r w' :
  added i w r w' → fresh_identity i w → manager_ok w → manager_ok w' ∧ candidate w' r ∧ untouched w w'.
Proof.
  intros Hadd [Hlt Hfresh] Hok. pose proof Hok as [[Ht Hshape] Hg].
  pose proof Hadd as [Hr (s & Hs & Hi & Hst & Hc & Hgate) Ht' Hk Hn].
  assert (Hnone : scope_state w r = None) by (unfold scope_state; by rewrite Hr).
  assert (Hun : ∀ k, slot w k ≠ Some r).
  { intros k Hk'%(shape_slot_active _ _ _ _ _ Hshape). congruence. }
  split; [split; [split|]|split; [split|split]].
  - done.
  - rewrite Hn. eapply shape_ok_ext with (st := scope_state w') (ids := identity_of w'); [apply Hk|done| |done|].
    2: { apply (shape_new _ _ _ _ _ Hshape r i (scope_state w') (identity_of w')); try done.
      - intros q Hq. apply child_exists in Hq as [[? ?] _]; [congruence|done].
      - intros q (s' & Hs' & _). congruence.
      - intros y. unfold scope_state. rewrite Hs. destruct (decide (r = y)) as [<-|].
        + rewrite lookup_insert_eq. simpl. by rewrite Hst.
        + by rewrite lookup_insert_ne.
      - intros y. unfold identity_of. rewrite Hs. destruct (decide (r = y)) as [<-|].
        + rewrite lookup_insert_eq. simpl. by rewrite Hi.
        + by rewrite lookup_insert_ne. }
    intros q c. unfold child. rewrite Hs. destruct (decide (r = q)) as [<-|].
    + rewrite lookup_insert_eq, Hr. split; [intros (? & [= <-] & Hin); rewrite Hc in Hin; by apply elem_of_nil in Hin|naive_solver].
    + by rewrite lookup_insert_ne.
  - by eapply idle_gates_added.
  - unfold exists_scope. rewrite Hs, lookup_insert_eq. by eexists.
  - intros k. rewrite Hk. apply Hun.
  - done.
  - intros k x Hx. unfold scope_view. rewrite Hs, lookup_insert_ne; [done|]. intros <-. by destruct (Hun k).
Qed.
Lemma manager_ok_not_added i w w' :
  not_added i w w' → fresh_identity i w → manager_ok w → manager_ok w' ∧ untouched w w'.
Proof.
  intros [Hs|(r & w1 & Hadd & He)] Hf Hok; [by apply manager_ok_same|].
  destruct (manager_ok_added i w r w1 Hadd Hf Hok) as (Hok1 & [_ Hun1] & Hunt).
  assert (Hspare : ∀ k x, slot w1 k = Some x → outside w1 r x) by (by apply spare_unpublished; [apply Hok1|]).
  split; [by eapply manager_ok_evolves|]. etrans; [exact Hunt|]. split.
  - intros k. by apply (evolves_slot _ _ _ _ He).
  - intros k x Hk. unfold scope_view. by rewrite (ev_frame _ _ _ He x (Hspare k x Hk)).
Qed.

Lemma next_identity_ok kind id parent w :
  manager_ok w →
  let w' := (next_identity kind id parent w).1 in
  manager_ok w' ∧ untouched w w' ∧ w_scopes w' = w_scopes w ∧
  match (next_identity kind id parent w).2 with
  | Ok i => fresh_identity i w' ∧ scope_parent_id i = Errors.scope_id <$> identity_of_opt w parent
  | Err _ => True
  end.
Proof.
  intros Hok. pose proof Hok as [[Ht Hshape] Hg]. unfold next_identity.
  destruct (checked_add_u64 (w_next_generation w) 1) as [next|] eqn:Hnext; [|done]. cbn [fst snd].
  unfold checked_add_u64 in Hnext. destruct (_ <=? u64_max); [|done]. injection Hnext as <-.
  set (w' := MkWorld _ _ _ _ _ _ _ _).
  split; [split; [split|]|split; [|split]].
  - by apply (tree_ok_same w).
  - apply (shape_next _ _ _ _ (w_next_generation w)); [|simpl; lia].
    eapply shape_ok_ext; [..|exact Hshape]; try done.
  - done.
  - done.
  - done.
  - destruct (ActivationGeneration_new _) as [g|] eqn:Hgen; [|done]. simpl.
    apply ActivationGeneration_new_Ok in Hgen as [_ ->].
    destruct (validate_identity _ _ _) as [[]|]; [|done]. simpl. split; [split|]; simpl; [lia| |].
    + intros x Hx. apply (sh_generation _ _ _ _ _ Hshape) in Hx. lia.
    + by destruct parent.
Qed.

(** Building a candidate leaves everything published alone. *)
Definition built w (res : result CandidateBuildError Ref) w' : Prop :=
  manager_ok w' ∧ untouched w w' ∧
  match res with Ok r => candidate w' r ∧ scope_state w' r = Some ScopeLifecycleState.Ready | Err _ => True end.
Definition unharmed w w' : Prop := manager_ok w' ∧ untouched w w'.
Lemma wp_build_identified parent (plan : World → option ActivationPlan) kind id plugins broker D w :
  manager_ok w →
  wp (identity ← call (next_identity kind id parent);
      match identity with
      | Err error => mret (Err (Resolution error))
      | Ok identity => plan ← gets plan; build_scope_candidate identity plan plugins broker deadlines
      end) D w (built w) (unharmed w).
Proof.
  intros Hok. rewrite wp_bind, wp_call. pose proof (next_identity_ok kind id parent w Hok) as Hn. cbv zeta in Hn.
  set (w1 := (next_identity kind id parent w).1) in *.
  destruct (next_identity kind id parent w).2 as [i|error]; [|by destruct Hn as (? & ? & _); apply wp_ret].
  destruct Hn as (Hok1 & Hun1 & Hs1 & Hfresh & _). rewrite wp_bind, wp_gets. unfold build_scope_candidate.
  pose proof Hok1 as [[Ht1 _] Hg1].
  eapply wp_mono; [by apply wp_build_scope_candidate|..]; cbn beta.
  - intros [r|error] w2 Hres.
    + destruct (manager_ok_added i w1 r w2 Hres Hfresh Hok1) as (Hok2 & Hc & Hun2).
      split_and!; [done|by etrans|done|]. destruct (ad_scope _ _ _ _ Hres) as (s & Heq & _ & Hst & _).
      unfold scope_state. rewrite Heq, lookup_insert_eq. simpl. by rewrite Hst.
    + destruct (manager_ok_not_added i w1 w2 Hres Hfresh Hok1) as [Hok2 Hun2]. split_and!; [done|by etrans|done].
  - intros w2 Hres. destruct (manager_ok_not_added i w1 w2 Hres Hfresh Hok1) as [Hok2 Hun2]. split; [done|by etrans].
Qed.
Lemma wp_build_project_candidate id plugins broker D w :
  manager_ok w → wp (build_project_candidate deadlines id plugins broker) D w (built w) (unharmed w).
Proof.
  intros Hok. pose proof Hok as [[_ Hshape] _]. destruct (sh_application _ _ _ _ _ Hshape) as (a & Ha & _).
  unfold build_project_candidate, the_application. rewrite wp_bind, wp_bind, wp_gets.
  change (w_application w) with (slot w ApplicationSlot). rewrite Ha, wp_ret. by apply wp_build_identified.
Qed.
Lemma wp_build_workspace_candidate parent id plugins broker D w :
  manager_ok w → wp (build_workspace_candidate deadlines parent id plugins broker) D w (built w) (unharmed w).
Proof. intros Hok. by apply wp_build_identified. Qed.

(** ** Clearing *)

Definition detached (q : option Ref) r w : World := match q with Some q => remove_child q r w | None => w end.
Lemma detached_ok (q : option Ref) r w :
  tree_ok w → ∃ ch, tree_ok (detached q r w) ∧ changes (slot w) (scope_state w) ch w (detached q r w) ∧
    (∀ y z, ch y z → child w y z) ∧ (∀ y z, child w y z → z ≠ r → ch y z).
Proof.
  intros Ht. destruct q as [q|]; [|exists (child w); split_and!; try done; by split]. simpl. unfold remove_child.
  set (f := List.filter _). assert (Hf : ∀ l y, y ∈ f l ↔ y ∈ l ∧ y ≠ r).
  { intros l y. unfold f. rewrite !list_elem_of_In, filter_In. case_bool_decide; simpl; naive_solver. }
  exists (put_children q f w). split_and!.
  - apply tree_ok_fewer_children; [|done]. by intros l y [? _]%Hf.
  - apply changes_children.
  - intros y z. unfold put_children. case_decide; [subst y|done]. intros (s & Hs & [? _]%Hf). by exists s.
  - intros y z (s & Hs & Hz) Hne. unfold put_children. case_decide; [subst y|by exists s].
    exists s. split; [done|]. by apply Hf.
Qed.

Definition cleared k w w' : Prop := ∀ k', slot w' k' = put_slot k None w k'.
Lemma clear_world_ok k r (parent : World → option Ref) w :
  manager_ok w → slot w k = Some r → (k = ProjectSlot ∧ slot w WorkspaceSlot = None) ∨ k = WorkspaceSlot →
  let w1 := begin_quiesce r (set_slot k None w) in
  manager_ok (detached (parent w1) r w1) ∧ candidate (detached (parent w1) r w1) r ∧
  cleared k w (detached (parent w1) r w1) ∧ w_now (detached (parent w1) r w1) = w_now w.
Proof.
  intros Hok Hk Hcase. pose proof Hok as [[Ht Hshape] Hg]. intros w1.
  pose proof (changes_set_slot k None w) as C0.
  destruct (tree_ok_begin_quiesce (set_slot k None w) r) as [Ht1 C1]; [by apply (tree_ok_same w)|]. fold w1 in Ht1, C1.
  destruct (detached_ok (parent w1) r w1 Ht1) as (ch & Ht2 & C2 & Hch1 & Hch2). set (w2 := detached (parent w1) r w1) in *.
  set (st := λ x, (if decide (r = x) then quiesced else id) <$> scope_state w x).
  assert (C : changes (put_slot k None w) st ch w w2).
  { eapply changes_trans; [exact C0|]. eapply changes_trans; [exact C1|]. eapply changes_ext; [exact C2|..|done].
    - intros k'. rewrite (ch_slot _ _ _ _ _ C1). apply C0.
    - intros x. by rewrite (ch_state _ _ _ _ _ C1). }
  split; [split|split; [split|]].
  - eapply manager_core_changes; [exact C|done|].
    apply (shape_clear _ _ _ _ _ Hshape k r); try done.
    + intros y z Hyz%Hch1. by apply (ch_child _ _ _ _ _ C1) in Hyz.
    + intros y z Hyz. apply Hch2. by apply (ch_child _ _ _ _ _ C1).
  - intros x. rewrite (ch_gate _ _ _ _ _ C). apply Hg.
  - assert (Hx : is_Some (scope_state w2 r)).
    { rewrite (ch_state _ _ _ _ _ C). unfold st. by rewrite (shape_slot_active _ _ _ _ _ Hshape k r Hk). }
    unfold scope_state in Hx. by rewrite fmap_is_Some in Hx.
  - intros k'. rewrite (ch_slot _ _ _ _ _ C). unfold put_slot. case_decide as Hkk; [done|].
    intros Hk'. by apply Hkk, (shape_slots_distinct _ _ _ _ _ Hshape k k' r).
  - split; [exact (ch_slot _ _ _ _ _ C)|apply C].
Qed.

(** A slot is cleared exactly when it holds the scope that is to go. *)
Definition clear_outcome k r w (res : result StaleGenerationError (option ScopeDisposeReport)) w' : Prop :=
  match res with
  | Ok report => slot w k = Some r ∧ manager_ok w' ∧ cleared k w w' ∧
      (∃ rep, report = Some rep ∧ reported w' r rep) ∧ w_now w' ≤ w_now w + dl_scope deadlines
  | Err stale => (slot w k ≠ Some r ∨ is_Some (slot w WorkspaceSlot)) ∧ w' = w ∧
      Some (stale_completed stale) = identity_of w r
  end.
Definition clear_dropped D k r w w' : Prop :=
  slot w k = Some r ∧ manager_ok w' ∧ cleared k w w' ∧ shut w' r ∧ dropped_before D (w_now w + dl_scope deadlines).
Lemma wp_clear_slot k r (parent : World → option Ref) D w :
  manager_ok w → exists_scope w r → (k = ProjectSlot ∧ slot w WorkspaceSlot = None) ∨ k = WorkspaceSlot →
  wp (clear_slot deadlines k r (λ w, detached (parent w) r w)) D w (clear_outcome k r w) (clear_dropped D k r w).
Proof.
  intros Hok Hr Hcase. unfold clear_slot. rewrite wp_bind, wp_call.
  destruct (decide (slot w k = Some r)) as [Hk|Hk].
  - rewrite compare_and_swap_hit by done. cbn [fst snd]. rewrite bool_decide_eq_true_2 by done. cbn [negb].
    rewrite wp_bind, wp_modify, wp_bind, wp_modify.
    destruct (clear_world_ok k r parent w) as (Hok2 & Hc & Hcl & Hn); [done..|].
    set (w2 := detached _ r _) in *. rewrite wp_bind.
    eapply wp_mono; [by apply wp_close|..]; cbn beta.
    + intros rep w' (Hok' & [Hun _] & Hrep & Hn' & _). rewrite wp_ret.
      split_and!; [done|done| |by exists rep|lia]. intros k'. by rewrite Hun.
    + intros w' (Hok' & [Hun _] & Hsh & (drop & -> & ?) & _). split_and!; [done|done| |done|exists drop; split; [done|lia]].
      intros k'. by rewrite Hun.
  - rewrite compare_and_swap_miss by done. cbn [fst snd]. rewrite bool_decide_eq_false_2 by done. cbn [negb].
    destruct (exists_identity w r Hr) as [i Hi]. rewrite wp_bind, (wp_the_identity r i), wp_gets by done.
    split; [by left|]. done.
Qed.
Lemma wp_clear_project r D w :
  manager_ok w → exists_scope w r →
  wp (clear_project deadlines (Some r)) D w (clear_outcome ProjectSlot r w) (clear_dropped D ProjectSlot r w).
Proof.
  intros Hok Hr. unfold clear_project. rewrite wp_bind, wp_gets. change (w_workspace w) with (slot w WorkspaceSlot).
  destruct (slot w WorkspaceSlot) as [x|] eqn:Hx.
  - destruct (exists_identity w r Hr) as [i Hi]. rewrite wp_bind, (wp_the_identity r i), wp_gets by done.
    split; [right; by eexists|done].
  - apply (wp_clear_slot ProjectSlot r w_application); [done..|by left].
Qed.
Lemma wp_clear_workspace r D w :
  manager_ok w → exists_scope w r →
  wp (clear_workspace deadlines (Some r)) D w (clear_outcome WorkspaceSlot r w) (clear_dropped D WorkspaceSlot r w).
Proof. intros Hok Hr. apply (wp_clear_slot WorkspaceSlot r w_project); [done..|by right]. Qed.
End operations.
