(* ===== verification/ManagerProps.v ===== *)
(** * Properties of the scope manager

    Publication is a compare-and-swap; all that a manager can reach, with callers
    that may drop any operation at any wait, keeps the invariant; a completion is
    accepted exactly for the scope that is published; a shutdown stops everything
    that is published. *)
From stdpp Require Import relations.
From S2P Require Import Prelude Text Errors External Ids Model Broker Async Lifecycle LifecycleProps.
From S2P Require Import Graph Resolver ScopeManager ManagerShape ManagerInvariant ManagerSteps ManagerPublish.
From S2P Require Import ManagerOperations.
#[local] Open Scope Z_scope.

Section props.
Context `{Semver, Petgraph, SerdeToVec, !Tokio World}.
Context (deadlines : LifecycleDeadlines).
Implicit Types (w : World) (r q c x y : Ref) (D : option Z) (k : Slot).

(** ** The start of a host *)

Definition empty_world (time : Z) (l : list ExtensionDiagnostic) : World :=
  MkWorld time ∅ ∅ None None None 1 l.
Lemma tree_ok_empty (time : Z) l : tree_ok (empty_world time l).
Proof. split; [split|exists (λ _, 0%nat)|]; by repeat intro. Qed.

Lemma ScopeManager_new_ok (time : Z) l r w :
  added application_identity (empty_world time l) r w → ∃ w', ScopeManager_new r w = (w', Ok ()) ∧ manager_ok w'.
Proof.
  intros Hadd. pose proof Hadd as [_ (s & Hs & Hi & Hst & Hc & Hg) Ht Hk Hn]. simpl in Hs.
  assert (Hlook : ∀ x, w_scopes w !! x = if decide (r = x) then Some s else None).
  { intros x. rewrite Hs. destruct (decide (r = x)) as [<-|]; [apply lookup_insert_eq|]. by rewrite lookup_insert_ne. }
  assert (Hstate : ∀ x, scope_state w x = if decide (r = x) then Some ScopeLifecycleState.Ready else None).
  { intros x. unfold scope_state. rewrite Hlook. case_decide; [simpl; by rewrite Hst|done]. }
  assert (Hchild : ∀ q c, ¬ child w q c).
  { intros q c (s' & Hs' & Hin). rewrite Hlook in Hs'. case_decide; [|done]. injection Hs' as <-.
    rewrite Hc in Hin. by apply elem_of_nil in Hin. }
  destruct (tree_ok_activate w r) as (w1 & Hact & Ht1 & C); [by rewrite Hstate, decide_True|done|].
  unfold ScopeManager_new. rewrite Hact. eexists. split; [done|].
  set (w2 := MkWorld _ _ _ _ _ _ _ _).
  assert (Hst2 : ∀ x, scope_state w2 x = if decide (r = x) then Some ScopeLifecycleState.Active else None).
  { intros x. change (scope_state w2 x) with (scope_state w1 x). rewrite (ch_state _ _ _ _ _ C). unfold put_state.
    rewrite Hstate. by case_decide. }
  assert (Hch2 : ∀ q c, ¬ child w2 q c).
  { intros q c Hqc. change (child w2 q c) with (child w1 q c) in Hqc. apply (ch_child _ _ _ _ _ C) in Hqc.
    by apply (Hchild q c). }
  assert (Hid2 : ∀ x g, generation_in (identity_of w2) x = Some g → x = r ∧ g = 1).
  { intros x g. unfold generation_in. change (identity_of w2 x) with (identity_of w1 x).
    rewrite (ch_identity _ _ _ _ _ C). unfold identity_of. rewrite Hlook. case_decide; [|done].
    simpl. rewrite Hi. intros [= <-]. done. }
  split; [split|].
  - by apply (tree_ok_same w1).
  - split; simpl; try done.
    + exists r. split; [done|]. split; [by rewrite Hst2, decide_True|]. intros q. apply Hch2.
    + intros x. rewrite Hst2. case_decide; [subst x|done]. intros _. left. by exists ApplicationSlot.
    + intros x g [_ ->]%Hid2. lia.
    + intros x x' g [-> _]%Hid2 [-> _]%Hid2. done.
  - intros x. change (gate_of w2 x) with (gate_of w1 x). rewrite (ch_gate _ _ _ _ _ C). unfold gate_of.
    rewrite Hlook. case_decide; [|done]. simpl. congruence.
Qed.

(** The worlds in which a host has just been made. *)
Inductive host_started : World → Prop :=
| StartedWithPlugins time l host_capabilities plugins broker D w :
    new_with_application_plugins deadlines host_capabilities plugins broker D (empty_world time l) = (Some (Ok ()), w) →
    host_started w
| StartedWithCapabilities time l host_capabilities D w :
    new_with_host_capabilities host_capabilities D (empty_world time l) = (Some (Ok ()), w) →
    host_started w.

Section bounded.
Hypothesis (Hscope : 0 ≤ dl_scope deadlines).

Lemma wp_returned {A} (m : async World A) D w (Q : A → World → Prop) R a w' :
  wp m D w Q R → m D w = (Some a, w') → Q a w'.
Proof. unfold wp. intros Hm Heq. by rewrite Heq in Hm. Qed.
Lemma host_started_ok w : host_started w → manager_ok w.
Proof.
  destruct 1 as [time l caps plugins broker D w Heq|time l caps D w Heq];
    pose proof (tree_ok_empty time l) as Ht; revert Heq.
  - enough (Hwp : wp (new_with_application_plugins deadlines caps plugins broker) D (empty_world time l)
      (λ res w', res = Ok () → manager_ok w') (λ _, True)) by (intros Heq; by apply (wp_returned _ _ _ _ _ _ _ Hwp Heq)).
    unfold new_with_application_plugins. destruct (host_capability_descriptor caps) as [passive|];
      [|by unfold wp, never; destruct (await_until _ _ _)].
    rewrite wp_bind. eapply wp_mono; [by apply wp_build_scope_candidate|..]; cbn beta; [|done].
    intros [r|error] w1 Hadd; [|by rewrite wp_ret]. rewrite wp_call.
    destruct (ScopeManager_new_ok time l r w1 Hadd) as (w2 & -> & ?). done.
  - enough (Hwp : wp (new_with_host_capabilities caps) D (empty_world time l)
      (λ res w', res = Ok () → manager_ok w') (λ _, True)) by (intros Heq; by apply (wp_returned _ _ _ _ _ _ _ Hwp Heq)).
    unfold new_with_host_capabilities. destruct (host_capability_descriptor caps) as [passive|];
      [|by unfold wp, never; destruct (await_until _ _ _)].
    destruct (resolve_activation_plan _ _ _ _) as [plan|[error|]];
      [|by rewrite wp_ret|by unfold wp, never; destruct (await_until _ _ _)].
    destruct (alloc_runtime_ok application_identity _ Ht) as [Hs Hv]. rewrite wp_bind, wp_call, wp_bind, wp_modify, wp_call.
    set (w1 := (alloc_runtime application_identity (empty_world time l)).1) in *.
    destruct (ScopeManager_new_ok time l (fresh_ref (empty_world time l)) (alloc_scope (fresh_ref (empty_world time l))
      (ScopeSnapshot_new_ready application_identity plan
         (if vec_is_empty (plan_activation_order plan) then []
          else [MkActivated (MkInstanceId host_plugin_id application_identity) [] None])) w1)) as (w2 & Hw2 & ?).
    { apply alloc_scope_ok; try done. intros p. case_match; [intros []%elem_of_nil|intros ->%list_elem_of_singleton; done]. }
    change (alloc_runtime application_identity (empty_world time l)).2 with (fresh_ref (empty_world time l)).
    by rewrite Hw2.
Qed.

(** ** What a manager can do

    Before its shutdown: every operation, dropped at any time or not.  Publications
    are of scopes that are not published. *)
Inductive manager_step w : World → Prop :=
| StepBuildProject id plugins broker D :
    manager_step w (build_project_candidate deadlines id plugins broker D w).2
| StepBuildWorkspace parent id plugins broker D :
    manager_step w (build_workspace_candidate deadlines parent id plugins broker D w).2
| StepPublishProject expected c D : candidate w c →
    manager_step w (publish_project deadlines expected c D w).2
| StepPublishWorkspace expected c D : candidate w c →
    manager_step w (publish_workspace deadlines expected c D w).2
| StepPublishTree expected_project p expected_workspace x D : candidate w p → candidate w x → p ≠ x →
    manager_step w (publish_project_tree deadlines expected_project p expected_workspace x D w).2
| StepClearProject r D : exists_scope w r → manager_step w (clear_project deadlines (Some r) D w).2
| StepClearWorkspace r D : exists_scope w r → manager_step w (clear_workspace deadlines (Some r) D w).2
| StepRollback c D : candidate w c → manager_step w (rollback_candidate deadlines c D w).2
| StepLease r until : manager_step w (lease r until w).1
| StepResolveViewer r id until : manager_step w (resolve_project_file_viewer r id until w).1
| StepSpawn r ends : manager_step w (spawn r ends w).1
| StepCallSource r id request D : manager_step w (call_source r id request D w).2
| StepCallTool r id request D : manager_step w (call_workspace_tool r id request D w).2
| StepTime time : w_now w ≤ time → manager_step w (set_now time w).
Definition reachable w : Prop := ∃ w0, host_started w0 ∧ rtc manager_step w0 w.

Lemma wp_snd {A} (m : async World A) D w (Q : A → World → Prop) (R I : World → Prop) :
  wp m D w Q R → (∀ a w', Q a w' → I w') → (∀ w', R w' → I w') → I (m D w).2.
Proof. unfold wp. destruct (m D w) as [[a|] w']; naive_solver. Qed.
Lemma quiet_step {A} (m : async World A) D w : quiet m → manager_ok w → manager_ok (m D w).2.
Proof.
  intros Hm Hok. apply (wp_snd m D w (λ _ w', calm w w') (λ w', calm w w') manager_ok (Hm D w));
    intros; by eapply calm_ok.
Qed.
Lemma publish_outcome_ok why k expected c w res w' :
  publish_outcome deadlines why k expected c w res w' → manager_ok w'.
Proof. destruct res; [by intros (_ & _ & ? & _)|by intros (? & _ & ? & _)]. Qed.
Lemma publish_dropped_ok why D k c w w' : publish_dropped deadlines why D k c w w' → manager_ok w'.
Proof. destruct why; by intros [? _]. Qed.
Lemma clear_outcome_ok k r w res w' : manager_ok w → clear_outcome deadlines k r w res w' → manager_ok w'.
Proof. destruct res; [by intros _ (_ & ? & _)|by intros ? (_ & -> & _)]. Qed.
Lemma clear_dropped_ok D k r w w' : clear_dropped deadlines D k r w w' → manager_ok w'.
Proof. by intros (_ & ? & _). Qed.

Lemma manager_step_ok w w' : manager_step w w' → manager_ok w → manager_ok w'.
Proof.
  intros Hstep Hok. destruct Hstep as [id plugins broker D|parent id plugins broker D|expected c D Hc|expected c D Hc
    |ep p ew x D Hp Hx Hne|r D Hr|r D Hr|c D Hc|r until|r id until|r ends|r id request D|r id request D|time Htime].
  - eapply wp_snd; [by apply wp_build_project_candidate|by intros a w' []|by intros w' []].
  - eapply wp_snd; [by apply wp_build_workspace_candidate|by intros a w' []|by intros w' []].
  - eapply wp_snd; [by apply wp_publish_project|intros a w'; apply publish_outcome_ok|apply publish_dropped_ok].
  - eapply wp_snd; [by apply wp_publish_workspace|intros a w'; apply publish_outcome_ok|apply publish_dropped_ok].
  - eapply wp_snd; [by apply wp_publish_project_tree|by intros a w' []|by intros w' []].
  - eapply wp_snd; [by apply wp_clear_project|intros a w'; by apply clear_outcome_ok|apply clear_dropped_ok].
  - eapply wp_snd; [by apply wp_clear_workspace|intros a w'; by apply clear_outcome_ok|apply clear_dropped_ok].
  - eapply wp_snd; [by apply wp_close|by intros a w' []|by intros w' []].
  - eapply calm_ok; [apply calm_lease|done].
  - unfold resolve_project_file_viewer. pose proof (calm_lease r until w) as Hl.
    destruct (lease r until w) as [w' [u|e]]; [|by eapply calm_ok]. destruct (_ ≫= _) as [[scope entry]|]; [|done].
    by eapply calm_ok.
  - eapply calm_ok; [apply calm_spawn|done].
  - apply quiet_step; [apply quiet_call_handler|done].
  - apply quiet_step; [apply quiet_call_handler|done].
  - eapply calm_ok; [split; [apply alike_set_now|done]|done].
Qed.
Lemma reachable_ok w : reachable w → manager_ok w.
Proof.
  intros (w0 & Hw0%host_started_ok & Hs). induction Hs as [|w w1 w2 Hstep _ IH]; [done|].
  apply IH. by eapply manager_step_ok.
Qed.


(** C9: a completion that comes back with the identity of the scope it was started for
    is accepted exactly while that very scope is published; a refusal names the scope
    that is there now. *)
Theorem stale_completion_refused w r i k :
  reachable w → identity_of w r = Some i →
  (validate_current w k i = Ok () ↔ slot w k = Some r) ∧
  ∀ e, validate_current w k i = Err e → stale_completed e = i ∧ stale_actual e = identity_of_opt w (slot w k).
Proof.
  intros Hok%reachable_ok Hr. pose proof Hok as [[Ht Hshape] _]. unfold validate_current. split.
  - case_bool_decide as Hi; split; try done.
    + intros _. destruct (slot w k) as [x|]; [|done]. simpl in Hi. f_equal.
      apply (sh_distinct _ _ _ _ _ Hshape x r (generation_get (scope_generation i))); unfold generation_in;
        [by rewrite Hi|by rewrite Hr].
    + intros Hk. destruct Hi. by rewrite Hk.
  - intros e. case_bool_decide; [done|]. by intros [= <-].
Qed.

End bounded.
End props.
