(* ===== verification/Reference.v ===== *)
(** * Concrete instances of the external interfaces

    The theorems about the resolver hold for every implementation of the
    interfaces of [External] and [Graph].  This file gives one of each, which
    shows that their laws can hold and lets the examples be evaluated: versions
    are strings, a digest pads or cuts its input, constraints are written as the
    number that codes them, and the strongly connected components are read off Warshall's transitive closure. *)
From stdpp Require Import relations.
From S2P Require Import Prelude Text Errors External Graph Grant.
#[local] Open Scope Z_scope.

#[export] Instance reference_semver : Semver := {|
  Version := string;
  Version_parse s := if str_is_empty s then None else Some s;
  VersionReq_parse s := if str_is_empty s then Err "unexpected end of input" else Ok ()
|}.

#[export] Program Instance reference_sha256 : Sha256 := {|
  sha256 l := resize 32 (ascii_of_nat 0) l
|}.
Next Obligation. intros l. simpl. by rewrite length_resize. Qed.

Definition constraints_tuple (c : PermissionConstraints) :=
  (pc_paths c, pc_operations c, pc_schemes c, pc_hosts c, pc_methods c, pc_max_bytes c,
   pc_max_response_bytes c).
#[global] Instance PermissionConstraints_countable : Countable PermissionConstraints.
Proof.
  refine (inj_countable' constraints_tuple
    (λ '(p, o, s, h, m, b, r), MkConstraints p o s h m b r) _). by intros [].
Defined.
(** Any injective text will do: the bits of the number that codes the constraints. *)
Fixpoint bits (p : positive) : string :=
  match p with
  | xH => ""
  | xO p => String "0" (bits p)
  | xI p => String "1" (bits p)
  end.
#[global] Instance bits_inj : Inj (=) (=) bits.
Proof. intros p. induction p as [p IH|p IH|]; intros [q|q|]; simpl; naive_solver. Qed.
#[export] Program Instance reference_serde : SerdeConstraints := {|
  JsonValue := PermissionConstraints;
  to_value c := Ok c;
  to_string c := Ok (bits (encode c))
|}.
Next Obligation.
  intros c c' v v' s [= <-] [= <-] [= <-] [= Heq]. apply (inj bits) in Heq. by apply (inj encode) in Heq.
Qed.

(** Numbers are integers, and JSON text is written without escapes. *)
#[export] Program Instance reference_number : SerdeNumber := {|
  Number := Z;
  Number_eqb := Z.eqb;
  num_as_i64 z := if (- 2 ^ 63 <=? z) && (z <? 2 ^ 63) then Some z else None;
  num_as_u64 z := if (0 <=? z) && (z <? 2 ^ 64) then Some z else None;
  num_as_f64 z := Some (binary_normalize 53 1024 z 0 false)
|}.
Next Obligation. done. Qed.

Fixpoint render (v : Value) : string :=
  match v with
  | VNull => "null"
  | VBool b => if b then "true" else "false"
  | VNumber n => pretty (n : Z)
  | VString s => quote +:+ s +:+ quote
  | VArray l => "[" +:+ String.concat "," (map render l) +:+ "]"
  | VObject m =>
      "{" +:+ String.concat "," (map (λ kv, quote +:+ kv.1 +:+ quote +:+ ":" +:+ render kv.2) m)
      +:+ "}"
  end.
#[export] Instance reference_to_vec : SerdeToVec := λ v, Ok (str_bytes (render v)).

Section warshall.
Context (g : Graph).

(** [b] is reachable from [a] through intermediate nodes of [ks]. *)
Fixpoint reach (ks : list PluginId) (a b : PluginId) : bool :=
  match ks with
  | [] => bool_decide (a = b) || find_edge g a b
  | k :: ks => if reach ks a b then true else if reach ks a k then reach ks k b else false
  end.

Lemma reach_cons k ks a b :
  reach (k :: ks) a b = true ↔
  reach ks a b = true ∨ (reach ks a k = true ∧ reach ks k b = true).
Proof. simpl. destruct (reach ks a b), (reach ks a k); naive_solver. Qed.

Lemma reach_sound ks a b : reach ks a b = true → rtc (edge g) a b.
Proof.
  revert a b. induction ks as [|k ks IH]; intros a b.
  - simpl. rewrite orb_true_iff, bool_decide_eq_true, find_edge_true.
    intros [->|?]; [done|by apply rtc_once].
  - rewrite reach_cons. intros [?|[??]]; [auto|]. etrans; eauto.
Qed.

Lemma reach_base ks a b : a = b ∨ edge g a b → reach ks a b = true.
Proof.
  intros Hab. induction ks as [|k ks IH]; [|apply reach_cons; by left].
  simpl. by rewrite orb_true_iff, bool_decide_eq_true, find_edge_true.
Qed.

Lemma reach_trans ks a b c :
  c ∈ ks → reach ks a c = true → reach ks c b = true → reach ks a b = true.
Proof.
  revert a b. induction ks as [|k ks IH]; intros a b; [by intros ?%not_elem_of_nil|].
  rewrite elem_of_cons, !reach_cons. intros [->|Hc].
  - intros Ha Hb. right. naive_solver.
  - intros [Ha|[Ha1 Ha2]] [Hb|[Hb1 Hb2]]; eauto 6.
Qed.

Lemma reach_complete a b : graph_wf g → rtc (edge g) a b → reach (node_weights g) a b = true.
Proof.
  intros Hwf. induction 1 as [|a c b Hac _ IH]; [by apply reach_base; left|].
  apply (reach_trans _ _ _ c); [|by apply reach_base; right|done].
  by apply (edge_nodes _ _ _ Hwf Hac).
Qed.

Definition mutual (a b : PluginId) : bool :=
  reach (node_weights g) a b && reach (node_weights g) b a.

(** The classes of mutual reachability, one at a time. *)
Fixpoint classes (fuel : nat) (l : list PluginId) : list (list PluginId) :=
  match fuel, l with
  | S fuel, a :: l =>
      (a :: filter (λ b, mutual a b = true) l)
        :: classes fuel (filter (λ b, ¬ (mutual a b = true)) l)
  | _, _ => []
  end.

Lemma classes_perm fuel l : (length l ≤ fuel)%nat → concat (classes fuel l) ≡ₚ l.
Proof.
  revert l. induction fuel as [|fuel IH]; intros [|a l]; simpl; try done; [lia|].
  intros Hlen. pose proof (length_filter (λ b, ¬ (mutual a b = true)) l).
  rewrite IH by lia. constructor. apply filter_app_complement.
Qed.

Lemma classes_connected fuel l c : c ∈ classes fuel l →
  ∃ a, ∀ b, b ∈ c → rtc (edge g) a b ∧ rtc (edge g) b a.
Proof.
  revert l. induction fuel as [|fuel IH]; intros [|a l]; simpl;
    try by intros ?%not_elem_of_nil.
  intros [->|?]%elem_of_cons; [|eauto]. exists a. intros b [->|Hb]%elem_of_cons; [done|].
  apply list_elem_of_filter in Hb as [Hm _]. unfold mutual in Hm.
  apply andb_true_iff in Hm as [??]. eauto using reach_sound.
Qed.

Lemma classes_maximal fuel l a b :
  (length l ≤ fuel)%nat → graph_wf g → a ∈ l → b ∈ l →
  rtc (edge g) a b → rtc (edge g) b a → ∃ c, c ∈ classes fuel l ∧ a ∈ c ∧ b ∈ c.
Proof.
  intros Hlen Hwf Ha Hb Hab Hba. revert l Hlen Ha Hb.
  induction fuel as [|fuel IH]; intros [|x l]; simpl; try by (intros; exfalso; set_solver || lia).
  intros Hlen Ha Hb. pose proof (length_filter (λ b, ¬ (mutual x b = true)) l).
  assert (Hm : ∀ y, mutual x y = true ↔ rtc (edge g) x y ∧ rtc (edge g) y x).
  { intros y. unfold mutual. rewrite andb_true_iff.
    split; intros [??]; split; eauto using reach_sound, reach_complete. }
  assert (Hself : mutual x x = true) by by apply Hm.
  assert (Hiff : mutual x a = true ↔ mutual x b = true).
  { rewrite !Hm. split; intros [??]; split; etrans; eauto. }
  destruct (decide (mutual x a = true)) as [Hx|Hx].
  - exists (x :: filter (λ b, mutual x b = true) l). split; [by left|].
    rewrite !elem_of_cons, !list_elem_of_filter. set_solver.
  - destruct (IH (filter (λ b, ¬ (mutual x b = true)) l)) as (c & ? & ?); [lia| | |].
    + apply elem_of_cons in Ha as [->|?]; [done|]. by apply list_elem_of_filter.
    + apply elem_of_cons in Hb as [->|?]; [by rewrite Hiff in Hx|].
      apply list_elem_of_filter. by rewrite <-Hiff.
    + exists c. split; [by right|done].
Qed.

Definition reference_scc : list (list PluginId) :=
  classes (length (node_weights g)) (node_weights g).
End warshall.

#[export] Program Instance reference_petgraph : Petgraph := {| kosaraju_scc := reference_scc |}.
Next Obligation. intros g _. by apply classes_perm. Qed.
Next Obligation.
  intros g c a b _ Hc Ha Hb. destruct (classes_connected _ _ _ _ Hc) as [x Hx].
  transitivity x; by apply Hx.
Qed.
Next Obligation.
  intros g a b Hwf Ha Hab Hba. simpl. apply classes_maximal; try done.
  destruct Hab as [|a c b Hac Hcb]; [done|].
  apply (rtc_ind_r (λ y, y ∈ node_weights g)) with (x := c) in Hcb; try done.
  - by apply (edge_nodes _ _ _ Hwf Hac).
  - intros y z _ Hyz _. by apply (edge_nodes _ _ _ Hwf Hyz).
Qed.
