(* ===== verification/ResolverExamples.v ===== *)
(** * The resolver on a concrete host

    An application scope that provides [io.files], and a project scope below it
    whose plugin [viewer] uses [io.files] of the application, [table.read] of
    the plugin [reader], and optionally a capability nobody provides.  The
    theorems of [Model] and [Resolver] are applied here to these inputs. *)
From stdpp Require Import relations.
From S2P Require Import Prelude Text Errors Ids External Model Graph Resolver Reference.
#[local] Open Scope Z_scope.

Definition result_or {E A} (d : A) (r : result E A) : A :=
  match r with Ok a => a | Err _ => d end.

Definition ex_policy : ScopePolicy := result_or (MkPolicy ∅) phase_one.
Definition ex_app : ScopeIdentity :=
  ScopeIdentity_new application_kind (MkIdent "rho") None (MkGeneration 1).
Definition ex_project : ScopeIdentity :=
  ScopeIdentity_new project_kind (MkIdent "p1") (Some (MkIdent "rho")) (MkGeneration 4).
Definition ex_workspace : ScopeIdentity :=
  ScopeIdentity_new workspace_kind (MkIdent "w1") (Some (MkIdent "p1")) (MkGeneration 2).

Definition ex_plugin (i : string) (k : ScopeKindId) (provides : list (string * Z))
    (requires optional : list (string * Z)) : PluginDescriptor :=
  MkDescriptor (MkIdent i) ("1.0.0" : Version) [k]
    ((λ p, CapabilityDeclaration_new (MkIdent p.1) p.2) <$> provides)
    ((λ p, CapabilityRequirement_new (MkIdent p.1) p.2) <$> requires)
    ((λ p, CapabilityRequirement_new (MkIdent p.1) p.2) <$> optional) Eager.

Definition ex_files := ex_plugin "files" application_kind [("io.files", 2)] [] [].
Definition ex_viewer := ex_plugin "viewer" project_kind []
  [("table.read", 1); ("io.files", 2)] [("cloud.sync", 1)].
Definition ex_reader := ex_plugin "reader" project_kind [("table.read", 1)] [] [].
Definition ex_loop := ex_plugin "loop" project_kind [("loop", 1)] [("loop", 1)] [].

Definition ex_no_plan : ActivationPlan := MkPlan ex_app [] ∅ ∅ [].
Definition ex_app_plan : ActivationPlan :=
  result_or ex_no_plan (resolve_activation_plan ex_policy ex_app None [ex_files]).
Definition ex_plan : ActivationPlan :=
  result_or ex_no_plan
    (resolve_activation_plan ex_policy ex_project (Some ex_app_plan) [ex_viewer; ex_reader]).

Lemma ex_app_plan_ok :
  resolve_activation_plan ex_policy ex_app None [ex_files] = Ok ex_app_plan.
Proof. vm_compute. reflexivity. Defined.
Lemma ex_plan_ok :
  resolve_activation_plan ex_policy ex_project (Some ex_app_plan) [ex_viewer; ex_reader] = Ok ex_plan.
Proof. vm_compute. reflexivity. Defined.
Lemma ex_plan_order :
  plan_activation_order ex_plan = [MkIdent "reader"; MkIdent "viewer"] ∧
  (binding_resolution <$> default [] (plan_bindings ex_plan !! (MkIdent "viewer" : PluginId))) =
    [AbsentOptional;
     Provider (MkProvider (MkIdent "files") ex_app (MkMajor 2));
     Provider (MkProvider (MkIdent "reader") ex_project (MkMajor 1))].
Proof. split; vm_compute; reflexivity. Defined.

Lemma ex_policy_ok : from_host_rules phase_one_rules = Ok ex_policy.
Proof. vm_compute. reflexivity. Defined.
Lemma ex_app_plan_resolved p : Some ex_app_plan = Some p → resolved ex_policy p.
Proof.
  intros Hs. refine (eq_rect _ (resolved ex_policy) _ _ (inj Some _ _ Hs)).
  apply (resolved_intro ex_policy ex_app None [ex_files]); [discriminate|].
  exact ex_app_plan_ok.
Defined.

Lemma accepted_chain_bounded_witness :
  accepted_chain ex_policy [ex_workspace; ex_project; ex_app] ∧
  NoDup (scope_kind <$> [ex_workspace; ex_project; ex_app]).
Proof.
  assert (Hch : accepted_chain ex_policy [ex_workspace; ex_project; ex_app])
    by (repeat constructor; vm_compute; reflexivity).
  split; [exact Hch|]. exact (proj1 (accepted_chain_bounded phase_one_rules ex_policy _ ex_policy_ok Hch)).
Defined.

Lemma resolve_topological_witness :
  plan_activation_order ex_plan ≡ₚ desc_id <$> [ex_viewer; ex_reader].
Proof. exact (proj1 (resolve_topological _ _ _ _ _ ex_plan_ok)). Defined.

Lemma resolve_bindings_correct_witness :
  ∃ bs, plan_bindings ex_plan !! desc_id ex_viewer = Some bs ∧
    ((λ b, (binding_requirement b, binding_kind b)) <$> bs) ≡ₚ
      ((λ r, (r, Required)) <$> desc_requires ex_viewer) ++
      ((λ r, (r, Optional)) <$> desc_optional ex_viewer).
Proof.
  destruct (proj2 (resolve_bindings_correct _ _ _ _ _ ex_plan_ok) ex_viewer) as (bs & Hbs & Hp & _);
    [by left|]. exists bs. exact (conj Hbs Hp).
Defined.

Lemma resolve_providers_unique_witness :
  NoDup ([ex_viewer; ex_reader] ≫= λ d, decl_capability <$> desc_provides d).
Proof. exact (proj2 (proj2 (resolve_providers_unique _ _ _ _ _ ex_plan_ok))). Defined.

Lemma resolve_permutation_witness :
  resolve_activation_plan ex_policy ex_project (Some ex_app_plan) [ex_viewer; ex_reader] =
  resolve_activation_plan ex_policy ex_project (Some ex_app_plan) [ex_reader; ex_viewer].
Proof. apply resolve_permutation, Permutation_swap. Defined.


Lemma resolve_complete_witness :
  ∃ plan, resolve_activation_plan ex_policy ex_app None [ex_files] = Ok plan.
Proof.
  apply (resolve_complete phase_one_rules ex_policy ex_app None [ex_files]
    {[ MkIdent "io.files" := MkProvider (MkIdent "files") ex_app (MkMajor 2) ]}).
  - exact ex_policy_ok.
  - discriminate.
  - vm_compute. reflexivity.
  - vm_compute. discriminate.
  - apply NoDup_singleton.
  - intros d ->%list_elem_of_singleton. apply validate_for_scope_normalized. vm_compute. reflexivity.
  - split; [apply NoDup_singleton|]. intros c p _. by rewrite inherited_None.
  - intros c p. rewrite inherited_None. simpl. rewrite list_elem_of_singleton.
    rewrite lookup_singleton. split.
    + case_decide as Hc; [|done]. intros [= <-]. right. by rewrite <-Hc.
    + intros [|[= -> ->]]; [done|]. by rewrite decide_True.
  - split.
    + intros d r ->%list_elem_of_singleton ?%not_elem_of_nil. done.
    + intros d r p ->%list_elem_of_singleton [?%not_elem_of_nil|?%not_elem_of_nil]; done.
    + vm_compute. discriminate.
  - assert (Hd : ∀ a b, ¬ depends [ex_files] a b).
    { intros a b (? & ? & ? & r & _ & ->%list_elem_of_singleton & _ & _ & _ & Hr & _).
      destruct Hr as [?%not_elem_of_nil|?%not_elem_of_nil]; done. }
    intros a Ha. inversion Ha as [? ? Hs|? ? ? Hs _]; subst; by apply Hd in Hs.
Defined.
