(* ===== verification/LifecycleExamples.v ===== *)
(** * The scope lifecycle on a concrete host

    A host with one application plugin that registers, pushes two effects and spawns
    a task; a project and a workspace below it.  [tokio]'s timeout is given by its
    law.  The theorems on disposal, publication and the manager are applied here. *)
From S2P Require Import Prelude Text Errors External Ids Model Broker Async Lifecycle LifecycleProps EffectTimeline.
From S2P Require Import Graph Resolver ScopeManager ManagerShape ManagerInvariant ManagerSteps ManagerPublish.
From S2P Require Import ManagerOperations ManagerProps Reference ResolverExamples.
#[local] Open Scope Z_scope.

Definition reference_timeout {A} (d : Z) (m : async World A) : async World (option A) := λ D w,
  match m (Some (match D with Some t => Z.min t (w_now w + d) | None => w_now w + d end)) w with
  | (Some a, w') => (Some (Some a), w')
  | (None, w') => if unless_dropped D (w_now w + d) then (Some None, w') else (None, w')
  end.
#[export] Instance reference_tokio : Tokio World := {|
  timeout := @reference_timeout;
  timeout_law _ _ _ _ _ := eq_refl
|}.

Definition ex_deadlines : LifecycleDeadlines := LifecycleDeadlines_default.
Definition ex_marker : CapabilityId := MkIdent "io.files".
(** The newer effect never answers; the older one takes a second. *)
Definition ex_activation : Activation :=
  RegisterEntry ex_marker MarkerEntry (λ _,
    PushEffect (λ _, (Some (from_secs 1), Returned (Ok ()))) (λ _,
      PushEffect (λ _, (None, Panicked)) (λ _,
        SpawnTask (Some (from_secs 3)) (λ _, Finish (ActivationReturned (Ok ())))))).
Definition ex_internal : InternalPlugin := MkPlugin ex_files ex_activation.

(** The host, then a project candidate, then a workspace candidate below it. *)
Definition ex_start := new_with_application_plugins ex_deadlines [] [ex_internal] rejecting_facade None (empty_world 0 []).
Definition ex_host : World := ex_start.2.
Definition built_ref (o : option (result CandidateBuildError Ref)) : Ref :=
  match o with Some (Ok r) => r | _ => 0%nat end.
Definition ex_build_project (D : option Z) (w : World) :=
  build_project_candidate ex_deadlines (MkIdent "p1") [] rejecting_facade D w.
Definition ex_w1 : World := (ex_build_project None ex_host).2.
Definition ex_p : Ref := built_ref (ex_build_project None ex_host).1.
Definition ex_build_workspace (D : option Z) (w : World) :=
  build_workspace_candidate ex_deadlines ex_p (MkIdent "w1") [] rejecting_facade D w.
Definition ex_w2 : World := (ex_build_workspace None ex_w1).2.
Definition ex_x : Ref := built_ref (ex_build_workspace None ex_w1).1.
Definition ex_publish := publish_project_tree ex_deadlines None ex_p None ex_x None ex_w2.
Definition ex_w3 : World := ex_publish.2.

Example ex_start_ok : ex_start.1 = Some (Ok ()).
Proof. vm_compute. reflexivity. Qed.
Example ex_slots : (w_application ex_w3, w_project ex_w3, w_workspace ex_w3) = (Some 0%nat, Some ex_p, Some ex_x) ∧
  ex_p = 1%nat ∧ ex_x = 2%nat.
Proof. vm_compute. split_and!; reflexivity. Qed.

(** ** The worlds on the way are reachable *)

Lemma ex_scope_deadline : 0 ≤ dl_scope ex_deadlines.
Proof. by vm_compute. Qed.
Lemma ex_host_started : host_started ex_deadlines ex_host.
Proof.
  apply (StartedWithPlugins ex_deadlines 0 [] [] [ex_internal] rejecting_facade None).
  change (ex_start = (Some (Ok ()), ex_start.2)). rewrite <-ex_start_ok. by destruct ex_start.
Qed.
Lemma ex_w2_reachable : reachable ex_deadlines ex_w2.
Proof.
  exists ex_host. split; [exact ex_host_started|].
  eapply rtc_l; [apply (StepBuildProject ex_deadlines ex_host (MkIdent "p1") [] rejecting_facade None)|].
  apply rtc_once. apply (StepBuildWorkspace ex_deadlines ex_w1 ex_p (MkIdent "w1") [] rejecting_facade None).
Qed.
Lemma ex_candidates : candidate ex_w2 ex_p ∧ candidate ex_w2 ex_x ∧ ex_p ≠ ex_x.
Proof.
  split_and!; [split|split|].
  1,3: apply (bool_decide_eq_true_1 (is_Some _)); vm_compute; reflexivity.
  1,2: intros []; by vm_compute.
  by vm_compute.
Qed.
Lemma ex_w3_reachable : reachable ex_deadlines ex_w3.
Proof.
  destruct ex_w2_reachable as (w0 & Hw0 & Hs). exists w0. split; [done|]. eapply rtc_r; [exact Hs|].
  destruct ex_candidates as (Hp & Hx & Hne).
  exact (StepPublishTree ex_deadlines ex_w2 None ex_p None ex_x None Hp Hx Hne).
Qed.
Lemma ex_w2_ok : manager_ok ex_w2.
Proof. apply (reachable_ok ex_deadlines ex_scope_deadline), ex_w2_reachable. Qed.
Lemma ex_w3_ok : manager_ok ex_w3.
Proof. apply (reachable_ok ex_deadlines ex_scope_deadline), ex_w3_reachable. Qed.

(** ** The theorems *)


Definition ex_effects_plugin : ActivatedPlugin :=
  default (MkActivated (MkInstanceId (MkIdent "none") ex_app) [] None) (the_plugin ex_w3 0%nat 0%nat).

Lemma publish_scope_correct_witness :
  wp (publish_project ex_deadlines None ex_p) None ex_w2
    (publish_outcome ex_deadlines (project_refusal None ex_p ex_w2) ProjectSlot None ex_p ex_w2)
    (publish_dropped ex_deadlines (project_refusal None ex_p ex_w2) None ProjectSlot ex_p ex_w2) ∧
  project_refusal None ex_p ex_w2 = None ∧
  workspace_refusal None ex_p ex_w2 = Some ("workspace_parent_project_missing" : string).
Proof.
  destruct ex_candidates as (Hp & _ & _).
  destruct (publish_scope_correct ex_deadlines ex_scope_deadline None ex_p None ex_w2 ex_w2_ok Hp) as [Hpub _].
  split; [exact Hpub|]. split; vm_compute; reflexivity.
Defined.
Definition ex_project_identity : ScopeIdentity := default ex_app (identity_of ex_w3 ex_p).
(** Before the publication the completion of the project is stale, after it it is not. *)
Lemma stale_completion_refused_witness :
  (validate_current ex_w3 ProjectSlot ex_project_identity = Ok () ↔ slot ex_w3 ProjectSlot = Some ex_p) ∧
  slot ex_w3 ProjectSlot = Some ex_p ∧
  is_ok (validate_current ex_w2 ProjectSlot ex_project_identity) = false.
Proof.
  assert (Hid : identity_of ex_w3 ex_p = Some ex_project_identity) by (vm_compute; reflexivity).
  destruct (stale_completion_refused ex_deadlines ex_scope_deadline ex_w3 ex_p ex_project_identity ProjectSlot
              ex_w3_reachable Hid) as [Hiff _].
  split; [exact Hiff|]. split; vm_compute; reflexivity.
Defined.
(** The effect that never answers makes the report one of failure. *)
Example ex_shutdown_report :
  (λ rep, (sdr_outcome rep, length (sdr_child_reports rep))) <$> (shutdown ex_deadlines None ex_w3).1
  = Some (DisposeOutcome.Failed, 1%nat).
Proof. vm_compute. reflexivity. Qed.

(** A tree publication that is dropped while the old project drains leaves the old
    workspace, no longer published, taking calls. *)
Definition ex_w4 : World := (lease ex_p None ex_w3).1.
Definition ex_w5 : World := (ex_build_project None ex_w4).2.
Definition ex_p' : Ref := built_ref (ex_build_project None ex_w4).1.
Definition ex_workspace' :=
  build_workspace_candidate ex_deadlines ex_p' (MkIdent "w1") [] rejecting_facade None ex_w5.
Definition ex_w6 : World :=
  (publish_project_tree ex_deadlines (Some ex_p) ex_p' (Some ex_x) (built_ref ex_workspace'.1)
     (Some (w_now ex_w5 + 1)) ex_workspace'.2).2.
Example replaced_workspace_left_open :
  slot ex_w6 WorkspaceSlot ≠ Some ex_x ∧ slot ex_w6 ProjectSlot = Some ex_p' ∧
  is_routable ex_w6 ex_x = true ∧ is_routable ex_w6 ex_p = false.
Proof. split_and!; vm_compute; [discriminate|reflexivity..]. Qed.

(** After a shutdown the manager still publishes, and a second shutdown answers with
    the report of the first. *)
Definition ex_down : World := (shutdown ex_deadlines None ex_w2).2.
Definition ex_late : World := (publish_project ex_deadlines None ex_p None ex_down).2.
Example published_after_shutdown :
  is_routable ex_late ex_p = true ∧ is_routable (shutdown ex_deadlines None ex_late).2 ex_p = true.
Proof. split; vm_compute; reflexivity. Qed.
