(* ===== verification/GrantExamples.v ===== *)
(** * The grant store on a concrete session

    An allow-once grant to read the tables below [data], its use, and what the
    theorems of [GrantProps] say about it. *)
From S2P Require Import Prelude Text Errors Ids External Model Digest Permission Glob Host Grant GrantProps Reference.
#[local] Open Scope Z_scope.

Definition ex_constraints : PermissionConstraints :=
  MkConstraints ["data/*.csv"] [] [] [] [] (Some 4096) None.
Definition ex_package : PackageDigest := from_inventory [(str_bytes "a.js", str_bytes "x")].
Definition ex_host : HostInstanceId := MkHostInstanceId "instance.a".

Definition ex_request (source : GrantSource) : GrantRequest :=
  MkGrantRequest "grant.once" "/work/p1" (MkIdent "viewer") ("1.0.0" : Version) Wasm ex_host
    ex_package (MkIdent "p1") (MkIdent "p1") (MkGeneration 1) ProjectFsRead ex_constraints
    match constraints_digest ex_constraints with Ok s => s | Err _ => "" end
    source 1 None 2000.
Definition ex_token : list ascii := replicate 32 "t"%char.
Definition ex_handle : string := handle_of_token ex_token.
Definition ex_use (path : string) : RevalidationRequest :=
  MkRevalidation ex_handle (MkIdent "viewer") ex_host ex_package (MkIdent "p1") (MkIdent "p1")
    (MkGeneration 1) ProjectFsRead (UseProjectFsRead path 100) None.

Definition ex_grant_call : Z * StoreCall := (1000, CallGrant ex_token (ex_request AllowOnce)).
Definition ex_calls : list (Z * StoreCall) :=
  [ex_grant_call; (1100, CallRevalidate (ex_use "data/a.csv"))].
Definition ex_grant (in_flight : bool) : PluginGrant :=
  MkGrant (ex_request AllowOnce) (handle_digest ex_handle) 1000 None false in_flight.

Lemma ex_granted : grants (run empty_store [ex_grant_call]) !! handle_digest ex_handle = Some (ex_grant false).
Proof. vm_compute. reflexivity. Defined.
Lemma ex_reserved : grants (run empty_store ex_calls) !! handle_digest ex_handle = Some (ex_grant true).
Proof. vm_compute. reflexivity. Defined.
Lemma ex_outside_denied :
  (revalidate (run empty_store [ex_grant_call]) 1100 (ex_use "data/../a.csv")).2 =
  Denied ConstraintViolation.
Proof. vm_compute. reflexivity. Defined.
Lemma ex_second_use_denied :
  (revalidate (run empty_store ex_calls) 1200 (ex_use "data/a.csv")).2 = Denied InFlight.
Proof. vm_compute. reflexivity. Defined.

Definition ex_entries : list (list ascii * list ascii) := [(str_bytes "a.js", str_bytes "x")].
Lemma from_inventory_binding_witness :
  PackageDigest_parse (digest_str (from_inventory ex_entries)) = Ok (from_inventory ex_entries).
Proof.
  assert (Hes : Forall u64_entry ex_entries) by (repeat constructor; vm_compute; discriminate).
  exact (proj1 (from_inventory_binding _ _ Hes Hes eq_refl)).
Defined.

Lemma revalidate_correct_witness :
  ∃ g, grants (run empty_store [ex_grant_call]) !! handle_digest ex_handle = Some g ∧
    authorizes g (ex_use "data/a.csv") 1100.
Proof.
  refine (proj1 (proj1 (revalidate_correct (run empty_store [ex_grant_call]) 1100 (ex_use "data/a.csv"))) _).
  vm_compute. reflexivity.
Defined.

Lemma dead_handle_never_admits_witness :
  has_live_handle (run (run empty_store [ex_grant_call; (1100, CallRevoke ex_handle)])
                     [(1200, CallGrant ex_token (ex_request AllowOnce))]) 1200 ex_handle = false.
Proof.
  refine (proj1 (proj2 (dead_handle_never_admits
    (run empty_store [ex_grant_call; (1100, CallRevoke ex_handle)])
    [(1200, CallGrant ex_token (ex_request AllowOnce))] ex_handle
    (set_revoked 1100 (ex_grant false)) _ _) 1200)).
  - vm_compute. reflexivity.
  - left. eexists. reflexivity.
Defined.

Lemma allow_once_balance_witness :
  tally (admits (handle_digest ex_handle)) empty_store ex_calls <=
  tally (ends releases (handle_digest ex_handle)) empty_store ex_calls + 1.
Proof.
  exact (proj1 (proj2 (proj2 (allow_once_balance ex_calls _ (ex_grant true) ex_reserved eq_refl)))).
Defined.

Lemma one_live_handle_witness :
  has_live_durable_grant (run empty_store ex_calls) 1200 "grant.once" = true ↔
  ∃ d g, grants (run empty_store ex_calls) !! d = Some g ∧
    gr_durable_grant_id (grant_request g) = "grant.once" ∧ is_active g 1200 = true.
Proof.
  refine (proj1 (proj2 (one_live_handle ex_calls 1000 1200 "grant.once" _))).
  simpl. lia.
Defined.

Lemma invalidate_correct_witness :
  count_where unrevoked (grants (invalidate_project (run empty_store ex_calls) 1200 "/work/p1").1)
  + (invalidate_project (run empty_store ex_calls) 1200 "/work/p1").2 =
  count_where unrevoked (grants (run empty_store ex_calls)).
Proof.
  exact (proj1 (proj2 (proj1 (invalidate_correct (run empty_store ex_calls) 1200 "/work/p1" ex_host
    (MkWorkspaceIdentity "w" "k" 1 1))))).
Defined.

Lemma admitted_use_within_grant_witness :
  ∃ g, grants (run empty_store [ex_grant_call]) !! handle_digest ex_handle = Some g ∧
    ∃ m, pc_max_bytes (gr_constraints (grant_request g)) = Some m ∧ 100 <= m.
Proof.
  destruct (admitted_use_within_grant [ex_grant_call] 1100 (ex_use "data/a.csv")) as (g & Hg & Hu).
  - vm_compute. reflexivity.
  - exists g. split; [exact Hg|]. exact (proj2 (proj2 Hu)).
Defined.

Definition ex_permission_request : PermissionRequest :=
  MkPermissionRequest "network.fetch" (Some "Load the gene table") [] [] ["https"]
    ["*.example.org"] ["GET"] None (Some 65536).
Lemma manifest_permission_grantable_witness :
  ∃ k c, PermissionKind_parse "network.fetch" = Some k ∧ from_manifest ex_permission_request = Ok c ∧
    validate_constraints k c = Ok () ∧ as_static_str k = "network.fetch".
Proof. apply (manifest_permission_grantable ex_permission_request). vm_compute. reflexivity. Defined.

Lemma constraints_digest_binding_witness :
  ex_constraints = ex_constraints ∨ sha256_collision.
Proof.
  exact (constraints_digest_binding ex_calls _ _ (ex_grant true) (ex_grant true) ex_reserved ex_reserved
    eq_refl).
Defined.
