(* ===== verification/ContributionExamples.v ===== *)
(** * Contributions and schemas on concrete input

    A small schema, two contributions and their publication, evaluated; and the
    witnesses of the theorems about them. *)
From S2P Require Import Prelude Text Errors External JsonSchema JsonSchemaProps Digest Host.
From S2P Require Import Contribution ContributionProps ContributionStore Reference.
#[local] Open Scope Z_scope.

Definition ex_schema : Value := VObject
  [("properties", VObject
     [("n", VObject [("maximum", VNumber 10); ("minimum", VNumber 0); ("type", VString "integer")]);
      ("tags", VObject [("items", VObject [("maxLength", VNumber 3); ("type", VString "string")]);
                        ("type", VString "array")])]);
   ("required", VArray [VString "n"]); ("type", VString "object")].
Definition ex_call : Value :=
  VObject [("n", VNumber 7); ("tags", VArray [VString "ab"; VString "abc"])].

Example ex_schema_valid : is_ok (BoundedJsonSchema_new ex_schema) = true.
Proof. by vm_compute. Qed.
Lemma ex_schema_accepted : BoundedJsonSchema_new ex_schema = Ok (MkSchema ex_schema).
Proof.
  pose proof ex_schema_valid as [s Hs]%is_ok_true. pose proof Hs as [-> _]%schema_new_Ok. exact Hs.
Qed.
Example ex_call_accepted : validate_instance (MkSchema ex_schema) ex_call = Ok ().
Proof. by vm_compute. Qed.
Example ex_call_out_of_bounds :
  validate_instance (MkSchema ex_schema) (VObject [("n", VNumber 11)])
  = Err (invalid "$.n is outside numeric bounds").
Proof. by vm_compute. Qed.
Example ex_call_undeclared :
  validate_instance (MkSchema ex_schema) (VObject [("m", VNull)])
  = Err (invalid "$ contains undeclared property m").
Proof. by vm_compute. Qed.

Lemma validate_instance_correct_witness : conforms ex_schema ex_call.
Proof. exact (validate_instance_correct ex_schema ex_call (MkSchema ex_schema) ex_schema_accepted). Defined.

(** ** Publication *)

Definition ex_identity (plugin : string) (generation : Z) : ContributionInstanceIdentity :=
  MkIdentity (MkIdent "project-a") (MkIdent plugin) (MkPackageDigest "digest")
    (MkGeneration generation) (MkHostInstanceId "host").
Definition ex_tool (id : string) : ContributionDeclaration :=
  MkDeclaration (MkIdent id) ContributionKind.Tool 1 "Row counter" "Counts the rows of a table"
    (Some (MkSchema ex_schema)) (Some (MkSchema ex_schema)) [] None None.
Definition ex_declarations : list ContributionDeclaration := [ex_tool "tool.count"; ex_tool "tool.sum"].
Definition ex_candidate : ContributionCandidate :=
  MkCandidate (ex_identity "p" 1) (contribution_of <$> ex_declarations).

Example ex_stage_succeeds : is_ok (stage (ex_identity "p" 1) ex_declarations) = true.
Proof. by vm_compute. Qed.
Lemma ex_staged : stage (ex_identity "p" 1) ex_declarations = Ok ex_candidate.
Proof.
  pose proof ex_stage_succeeds as [cand Hc]%is_ok_true.
  pose proof Hc as (_ & _ & _ & ->)%stage_Ok. exact Hc.
Qed.
Example ex_spoofing_refused :
  validate_shape (MkDeclaration (MkIdent "tool.x") ContributionKind.Tool 1 "Password reset" "x"
    (Some (MkSchema ex_schema)) (Some (MkSchema ex_schema)) [] None None)
  = Err "contribution label uses reserved trusted-surface terminology".
Proof. by vm_compute. Qed.

Definition ex_store : ContributionStore := (publish ContributionStore_new ex_candidate None).1.
Lemma ex_published : publish ContributionStore_new ex_candidate None = (ex_store, Ok None).
Proof. apply pair_result. by vm_compute. Qed.
Example ex_removal_stale :
  (remove ex_store (MkIdent "project-a") (MkIdent "tool.sum") (MkIdent "p")
    (MkPackageDigest "digest") (MkGeneration 2) (MkHostInstanceId "host")).2
  = Err ContributionError.StaleGeneration.
Proof. by vm_compute. Qed.
Lemma ex_candidate_staged : staged ex_candidate.
Proof. exact (proj1 (stage_staged _ _ _ ex_staged)). Qed.

Lemma publish_correct_witness :
  current_identity ContributionStore_new (MkIdent "project-a") (MkIdent "p") = Ok None.
Proof.
  exact (proj1 (proj2 (publish_correct ContributionStore_new ex_candidate None ex_store (Ok None)
    store_ok_empty ex_candidate_staged ex_published))).
Defined.
Lemma publish_unpublish_witness :
  unpublish ex_store (ex_identity "p" 1) = (ContributionStore_new, Ok ()).
Proof.
  exact (publish_unpublish ContributionStore_new ex_candidate ex_store store_ok_empty
    ex_candidate_staged ltac:(discriminate) ex_published).
Defined.
Lemma remove_correct_witness :
  ∃ r, records ex_store !! (MkIdent "project-a", MkIdent "tool.sum") = Some r ∧
    r_plugin_id r = MkIdent "p" ∧ r_package_digest r = MkPackageDigest "digest" ∧
    r_activation_generation r ≠ MkGeneration 2.
Proof.
  exact (proj2 (remove_correct ex_store (MkIdent "project-a") (MkIdent "tool.sum") (MkIdent "p")
    (MkPackageDigest "digest") (MkGeneration 2) (MkHostInstanceId "host") _
    (Err ContributionError.StaleGeneration) (pair_result _ _ ex_removal_stale))).
Defined.
Lemma store_invariant_witness :
  coherent (foldl run_call ContributionStore_new [CallPublish ex_candidate None]).
Proof.
  exact (proj1 (proj2 (store_invariant [CallPublish ex_candidate None])
    ltac:(by repeat constructor))).
Defined.
Lemma project_isolation_witness :
  get (run_call ex_store (CallClearProject (MkIdent "project-b"))) (MkIdent "project-a")
    (MkIdent "tool.sum") = get ex_store (MkIdent "project-a") (MkIdent "tool.sum").
Proof.
  exact (project_isolation ex_store (CallClearProject (MkIdent "project-b")) (MkIdent "project-a")
    (MkIdent "tool.sum") ltac:(discriminate)).
Defined.
