(* ===== verification/WasmExamples.v ===== *)
(** * The Wasm host and contribution calls on a concrete guest

    A guest with two kilobytes of memory that echoes its input, asks for one file
    when a call begins, and completes the call when it is resumed; a host that runs
    it and a published contribution that calls it.  The laws asked of [wasmtime] are
    shown for it, and the theorems on the host and on contribution calls applied. *)
From S2P Require Import Prelude Text Errors External Ids Digest Host Stateful WasmHost WasmHostProps.
From S2P Require Import WasmHostInvariant JsonSchema JsonSchemaProps Contribution ContributionStore.
From S2P Require Import Reference ContributionExamples ContributionCall ContributionCallProps.
#[local] Open Scope Z_scope.

Definition toy_memory : list ascii := replicate 2000 "000"%char ++ ["R"; "D"]%char ++ replicate 46 "000"%char.
Definition toy_export (name : string) : option (Extern () string) :=
  if bool_decide (name = "memory") then Some (ExternMemory ())
  else if bool_decide (name = "rho_activate") then Some (ExternFunc [I32] [I32] name)
  else if bool_decide (name ∈ ["rho_heartbeat"; "rho_quiesce"; "rho_dispose"]) then Some (ExternFunc [] [I32] name)
  else if bool_decide (name ∈ ["rho_echo"; "rho_begin"; "rho_resume"]) then Some (ExternFunc [I32; I32] [I64] name)
  else if bool_decide (name = "rho_cancel") then Some (ExternFunc [I32; I32] [I32] name)
  else None.
Definition toy_call (name : string) (args : list Z) : Z :=
  if bool_decide (name = "rho_echo") then
    match args with [pointer; len] => Z.shiftl pointer 32 + len | _ => 0 end
  else if bool_decide (name = "rho_begin") then Z.shiftl 2000 32 + 1
  else if bool_decide (name = "rho_resume") then Z.shiftl 2001 32 + 1
  else 0.
Definition toy_read (s : list ascii) (offset len : Z) : option (list ascii) :=
  if offset + len <=? vec_len s then Some (take (Z.to_nat len) (drop (Z.to_nat offset) s)) else None.
Definition toy_write (s : list ascii) (offset : Z) (bytes : list ascii) : option (list ascii) :=
  if offset + vec_len bytes <=? vec_len s
  then Some (take (Z.to_nat offset) s ++ bytes ++ drop (Z.to_nat offset + length bytes) s) else None.

#[export] Program Instance toy_wasmtime : Wasmtime := {|
  Engine := ();
  Module := ();
  Store := list ascii;
  Instance := ();
  Memory := ();
  Func := string;
  Engine_new _ := Some ();
  Module_new _ _ := Completed (Some ());
  module_imports _ := [];
  Store_new _ _ := toy_memory;
  set_fuel s _ := Some s;
  set_epoch_deadline s _ := s;
  instantiate s _ := Completed (Ok (s, ()));
  get_export _ _ name := toy_export name;
  call_func s interrupted f args :=
    Completed (s, if interrupted : bool then Err (TrapError Interrupt) else Ok (toy_call f args));
  data_size s _ := vec_len s;
  memory_read s _ := toy_read s;
  memory_write s _ := toy_write s
|}.
Next Obligation.
  intros s [] offset len Ho Hl. unfold toy_read. destruct (_ <=? _) eqn:He; [|done].
  apply Z.leb_le in He. unfold vec_len in He. eexists. split; [done|].
  rewrite length_take, length_drop. lia.
Qed.
Next Obligation.
  intros s [] offset bytes Ho. unfold toy_write, vec_len. destruct (_ <=? _) eqn:He; [|done].
  apply Z.leb_le in He. eexists. split; [done|]. unfold toy_read, vec_len.
  assert (Z.to_nat offset ≤ length s)%nat as Hlen by lia.
  rewrite !length_app, length_take, length_drop, (proj2 (Z.leb_le _ _)) by lia. f_equal.
  rewrite drop_app_ge by (rewrite length_take; lia). rewrite length_take.
  replace (Z.to_nat offset - Z.to_nat offset `min` length s)%nat with 0%nat by lia.
  rewrite drop_0, Nat2Z.id. by apply take_app_length.
Qed.

Definition toy_handle : string := "handle." +:+ of_bytes (replicate 64 "a"%char).
Definition toy_result : Value := VObject [("n", VNumber 7)].
#[export] Instance toy_steps : GuestStepJson := λ s,
  if bool_decide (s = "R") then
    Some (BrokerRequestStep (call_id_of 42) toy_handle "project.fs.read" "project.fs.read" (VObject []))
  else if bool_decide (s = "D") then Some (CompleteStep (call_id_of 42) toy_result) else None.
#[export] Program Instance reference_from_u64 : SerdeFromU64 := {| num_from_u64 n := n |}.
Next Obligation. intros n Hn. cbn. by rewrite (proj2 (Z.leb_le _ _)), (proj2 (Z.ltb_lt _ _)) by lia. Qed.
#[export] Instance reference_to_vec_total : SerdeToVecTotal.
Proof. intros v. by eexists. Qed.

(** ** The host *)

Definition toy_identity : WasmHostIdentity :=
  MkHostIdentity (MkIdent "project-a") (MkIdent "p") (MkPackageDigest "digest") (MkGeneration 1)
    (MkHostInstanceId "host").
Definition frame_for (m : HostMessage) : HostFrame := MkFrame (MkHostInstanceId "host") m.
Definition ex_request : HostRequestId := MkHostRequestId "request.a".
Definition ex_other : HostRequestId := MkHostRequestId "request.b".
Definition ok_of {E A} (d : A) (r : result E A) : A := match r with Ok a => a | Err _ => d end.

Definition toy_created : option WasmPluginHost :=
  match from_bytes toy_identity [] with Ok h => Some h | Err _ => None end.
Definition after (h : option WasmPluginHost) {A} (op : stateful WasmPluginHost HostProtocolError A) : option WasmPluginHost :=
  (λ h, (op h).1) <$> h.
Definition toy_active : option WasmPluginHost :=
  after (after toy_created (handle_frame undisturbed (frame_for (Hello 1))))
    (handle_frame undisturbed (frame_for Activate)).
Definition answer {E A} (h : option WasmPluginHost) (op : stateful WasmPluginHost E A) : option (result E A) :=
  (λ h, (op h).2) <$> h.

Example toy_active_state : wh_state <$> toy_active = Some HostInstanceState.Active.
Proof. by vm_compute. Qed.
Example toy_echo :
  answer toy_active (handle_frame undisturbed (frame_for (Echo ex_request "Rho")))
  = Some (Ok (Some (EchoResult ex_request "Rho"))).
Proof. by vm_compute. Qed.
Example toy_echo_again_created :
  answer toy_created (handle_frame undisturbed (frame_for (Echo ex_request "Rho")))
  = Some (Err (invalid_state HostInstanceState.Created)).
Proof. by vm_compute. Qed.
(** Cancelled while the guest runs. *)
Example toy_interrupted :
  (λ h, wh_state h) <$> after toy_active
    (handle_frame (MkInterrupts [] [] [ex_request]) (frame_for (Echo ex_request "Rho")))
  = Some HostInstanceState.Quarantined.
Proof. by vm_compute. Qed.

(** What is looked at in a result: its error, or the step. *)
Definition error_of {E A} (r : result E A) : option E := match r with Ok _ => None | Err e => Some e end.
Definition completes {E} (r : result E GuestStep) : bool :=
  match r with Ok step => step_is_terminal step | Err _ => false end.
Lemma ok_pair {S E A} (d : A) (p : S * result E A) :
  is_ok p.2 = true → p = (p.1, Ok (ok_of d p.2)).
Proof. by destruct p as [s [a|e]]. Qed.

(** ** Witnesses for the host *)

Definition dead_host : WasmPluginHost :=
  MkWasmHost toy_identity (MkPackageDigest "") None HostInstanceState.Created None 1 None CancellationState_new.
Definition created : WasmPluginHost := ok_of dead_host (from_bytes toy_identity []).
Definition ready : WasmPluginHost := (handle_frame undisturbed (frame_for (Hello 1)) created).1.
Definition active : WasmPluginHost := (handle_frame undisturbed (frame_for Activate) ready).1.
Definition begin_toy (id : HostRequestId) :=
  begin_broker_call_bounded undisturbed 42 id VNull MAX_GUEST_STEP_BYTES MAX_GUEST_STEP_BYTES.
Definition no_step : GuestStep := ErrorStep "" "".
Definition asked : WasmPluginHost := (begin_toy ex_request active).1.
Definition asked_step : GuestStep := ok_of no_step (begin_toy ex_request active).2.
Definition toy_answers (n : nat) (step : GuestStep) : BrokerAnswer := MkAnswer undisturbed VNull 10.

Lemma toy_answers_raw n step : 0 <= an_raw (toy_answers n step).
Proof. cbn. lia. Qed.
Lemma created_new : from_bytes toy_identity [] = Ok created.
Proof.
  assert (is_ok (from_bytes toy_identity []) = true) as Hok by by vm_compute.
  unfold created. by destruct (from_bytes toy_identity []).
Qed.
Lemma active_reached : rtc host_step created active.
Proof.
  eapply rtc_l; [apply (FrameStep undisturbed (frame_for (Hello 1)))|].
  apply rtc_once, (FrameStep undisturbed (frame_for Activate)).
Qed.
Lemma active_ok : host_ok active.
Proof. apply (host_steps created); [exact (from_bytes_ok _ _ _ created_new)|exact active_reached]. Qed.
Lemma asked_begun : begin_toy ex_request active = (asked, Ok asked_step).
Proof.
  assert (is_ok (begin_toy ex_request active).2 = true) as Hok by (vm_compute; reflexivity).
  exact (ok_pair no_step (begin_toy ex_request active) Hok).
Qed.
Lemma runtime_active : is_some (wh_runtime active) = true.
Proof. by vm_compute. Qed.

Lemma host_invariant_witness : host_ok active ∧ wh_identity active = toy_identity.
Proof.
  pose proof (host_invariant toy_identity [] created active created_new active_reached) as (Hok & Hid & _).
  split; [exact Hok|exact Hid].
Defined.
Lemma handle_frame_correct_witness :
  match handle_frame undisturbed (frame_for (Echo ex_request "Rho")) active with
  | (h', Ok r) => takes_on active (frame_for (Echo ex_request "Rho"))
                  ∧ frame_effect active (Echo ex_request "Rho") r h'
  | (_, Err _) => False
  end.
Proof.
  pose proof (handle_frame_correct undisturbed (frame_for (Echo ex_request "Rho")) active active_ok) as Hf.
  assert (is_ok (handle_frame undisturbed (frame_for (Echo ex_request "Rho")) active).2 = true) as Hok
    by (vm_compute; reflexivity).
  destruct (handle_frame undisturbed (frame_for (Echo ex_request "Rho")) active) as [h' [r|e]];
    [exact Hf|discriminate Hok].
Defined.
Lemma broker_call_ends_witness :
  match drive 8 toy_answers ex_request MAX_GUEST_STEP_BYTES asked_step asked with
  | (h', Ok step') =>
      step_is_terminal step' = true ∧ step_call_id step' = call_id_of 42 ∧ call_over h' ∧ host_ok h'
  | (h', Err _) => h' = quarantined asked
  end.
Proof.
  exact (broker_call_ends undisturbed 42 ex_request VNull MAX_GUEST_STEP_BYTES MAX_GUEST_STEP_BYTES
    active asked asked_step toy_answers active_ok toy_answers_raw asked_begun).
Defined.
Definition no_runtime : WasmRuntime := MkRuntime [] () "" "" "" "" "" None.
Definition active_runtime : WasmRuntime := default no_runtime (wh_runtime active).
Lemma active_has_runtime : wh_runtime active = Some active_runtime.
Proof.
  pose proof runtime_active as Hr. unfold active_runtime. by destruct (wh_runtime active).
Qed.
Lemma read_guest_utf8_correct_witness :
  ∃ r, read_guest_utf8 (Z.shiftl 2000 32 + 1) 16 active = (active, r).
Proof.
  destruct (read_guest_utf8_correct (Z.shiftl 2000 32 + 1) 16 active active_runtime active_has_runtime)
    as (pointer & length & r & _ & Hr & _).
  exists r. exact Hr.
Defined.

(** ** A cancellation that is lost

    The request in flight is cancelled while its guest waits for the broker.  The
    next call of the guest would stop; an [Echo] in between, which is refused, resets
    the flag, and the cancelled call goes on. *)
Definition cancelled_host : WasmPluginHost := on_cancellation (λ c, (cancel_inflight ex_request c).1) asked.
Definition resume_toy : stateful WasmPluginHost HostProtocolError GuestStep :=
  resume_broker_call undisturbed ex_request VNull 0.
Example cancelled_call_stops :
  host_error_code <$> error_of (resume_toy cancelled_host).2 = Some Cancelled.
Proof. by vm_compute. Qed.
Example cancellation_lost :
  let '(h, r) := handle_frame undisturbed (frame_for (Echo ex_other "")) cancelled_host in
  host_error_code <$> error_of r = Some Cancelled ∧ completes (resume_toy h).2 = true.
Proof. by vm_compute. Qed.

(** ** A contribution call *)

Definition toy_call_request : ContributionCallRequest :=
  MkCallRequest (MkIdent "project-a") (MkIdent "tool.count") AgentTool ex_call
    {["project.fs.read" := toy_handle]}.
Definition begin_call (id : HostRequestId) (now : Z) :=
  begin undisturbed undisturbed 42 id ex_store toy_call_request now.
Definition no_session : ContributionCallSession :=
  MkSession ex_request "" (ex_identity "p" 1) (MkIdent "") 0 ContributionKind.Tool (MkSchema VNull) AgentTool 0 ∅ 0
    false true.
Definition begun_call (id : HostRequestId) (now : Z) (h : WasmPluginHost)
    : ContributionCallSession * WasmPluginHost :=
  ((ok_of (no_session, no_step) (begin_call id now h).2).1, (begin_call id now h).1).
Definition resume_call (now : Z) := resume undisturbed undisturbed ex_store VNull 10 now.
Definition toy_complete : GuestStep := CompleteStep (call_id_of 42) toy_result.
Definition call_a : ContributionCallSession * WasmPluginHost := begun_call ex_request 100 active.
(** The broker steps an outcome counts, if it is a result. *)
Definition steps_of {E} (r : result E ContributionCallOutcome) : option Z :=
  match r with Ok (CallCompleted _ p) => Some (cp_broker_steps p) | _ => None end.

Example toy_call_completes :
  steps_of (finish undisturbed ex_store toy_complete 300 (resume_call 200 call_a).1).2 = Some 1.
Proof. by vm_compute. Qed.
Example toy_call_late :
  (λ e, match e with Failed e => Some (cce_code e) | Panic => None end)
    <$> error_of (finish undisturbed ex_store toy_complete 30100 (resume_call 200 call_a).1).2
  = Some (Some ContributionCallErrorCode.DeadlineExceeded).
Proof. by vm_compute. Qed.

(** ** A late session takes the next one with it

    The first call has come to its terminal step but is not yet finished; the second
    is under way at the same host.  When the first is finished after its deadline,
    it cancels "its" request at the host, which answers a mismatch by quarantining
    the host: the second call is lost. *)
Definition call_a_completed : ContributionCallSession * WasmPluginHost := (resume_call 200 call_a).1.
Definition call_b : ContributionCallSession * WasmPluginHost := begun_call ex_other 20000 call_a_completed.2.
Example late_session_kills_host :
  wh_state call_b.2 = HostInstanceState.Active ∧ ccs_waiting_for_broker call_b.1 = true
  ∧ wh_state (finish undisturbed ex_store toy_complete 30100 (call_a_completed.1, call_b.2)).1.2
    = HostInstanceState.Quarantined.
Proof. by vm_compute. Qed.

(** A terminal step handed to [finish] while the guest waits for the broker is taken
    for the outcome; the host's call stays in flight, and the next call quarantines
    the host. *)
Example finished_while_waiting :
  let '(sh, r) := finish undisturbed ex_store toy_complete 200 call_a in
  is_ok r = true ∧ is_some (wh_broker_call sh.2) = true
  ∧ wh_state (begin_call ex_other 300 sh.2).1 = HostInstanceState.Quarantined.
Proof. by vm_compute. Qed.

(** ** Witnesses for contribution calls *)

Definition accepted_schema (schema : option BoundedJsonSchema) : bool :=
  match schema with Some s => is_ok (BoundedJsonSchema_new (schema_value s)) | None => true end.
Lemma accepted_schema_ok schema s :
  accepted_schema schema = true → schema = Some s → schema_ok 8 (schema_value s).
Proof. intros Ha ->. apply is_ok_true in Ha as [s' (_ & _ & Hok & _)%schema_new_Ok]. exact Hok. Qed.
Lemma ex_store_schemas :
  forallb (λ r, accepted_schema (c_input_schema (r_contribution r))
                && accepted_schema (c_output_schema (r_contribution r))) (btree_values (records ex_store)) = true.
Proof. by vm_compute. Qed.
Lemma ex_schemas_ok : schemas_ok ex_store.
Proof.
  intros p c record schema Hget Hs.
  assert (record ∈ btree_values (records ex_store)) as Hin by (apply elem_of_btree_values; by eexists).
  pose proof (proj1 (forallb_forall _ _) ex_store_schemas record ltac:(by apply list_elem_of_In)) as [Hi Ho]%andb_prop.
  destruct Hs as [Hs|Hs]; [exact (accepted_schema_ok _ _ Hi Hs)|exact (accepted_schema_ok _ _ Ho Hs)].
Qed.
Definition call_a_step : GuestStep := (ok_of (no_session, no_step) (begin_call ex_request 100 active).2).2.
Lemma call_a_begun : begin_call ex_request 100 active = (call_a.2, Ok (call_a.1, call_a_step)).
Proof.
  assert (is_ok (begin_call ex_request 100 active).2 = true) as Hok by (vm_compute; reflexivity).
  rewrite (ok_pair (no_session, no_step) _ Hok) at 1. unfold call_a, begun_call, call_a_step. cbn [fst snd].
  by destruct (ok_of _ _).
Qed.
Definition toy_round (n : nat) (step : GuestStep) : Round :=
  MkRound undisturbed undisturbed ex_store 200 VNull 10.
Lemma toy_round_raw n step : 0 <= rd_raw (toy_round n step).
Proof. cbn. lia. Qed.
Lemma call_a_ok : call_ok call_a.1 call_a.2.
Proof.
  destruct (post_Ok _ _ _ _ _ _ call_a_begun (begin_post undisturbed undisturbed 42 ex_request ex_store
    toy_call_request 100 active active_ok ex_schemas_ok)) as (admitted & _ & _ & _ & Hok). exact Hok.
Qed.

Lemma begin_correct_witness : call_ok call_a.1 call_a.2.
Proof.
  pose proof (begin_correct undisturbed undisturbed 42 ex_request ex_store toy_call_request 100 active
    active_ok ex_schemas_ok) as Hb.
  change (begin undisturbed undisturbed 42 ex_request ex_store toy_call_request 100 active)
    with (begin_call ex_request 100 active) in Hb.
  rewrite call_a_begun in Hb. destruct Hb as (admitted & _ & _ & _ & Hok). exact Hok.
Defined.
Lemma finish_correct_witness :
  match finish undisturbed ex_store toy_complete 200 call_a with
  | (sh, Ok _) => sh = (terminated call_a.1, call_a.2)
  | (_, Err _) => False
  end.
Proof.
  pose proof (finish_correct undisturbed ex_store toy_complete 200 call_a.1 call_a.2 call_a_ok) as Hf.
  rewrite <-(surjective_pairing call_a) in Hf.
  assert (is_ok (finish undisturbed ex_store toy_complete 200 call_a).2 = true) as Hok by (vm_compute; reflexivity).
  destruct (finish undisturbed ex_store toy_complete 200 call_a) as [sh [outcome|e]]; [|discriminate Hok].
  destruct Hf as (_ & _ & _ & Hsh & _). exact Hsh.
Defined.
Lemma contribution_call_ends_witness :
  match complete_call 10 toy_round call_a_step call_a with
  | (sh, Ok (Some outcome)) => outcome_of call_a.1 outcome ∧ ccs_terminal sh.1 = true
  | (_, Ok None) => False
  | (_, Err _) => False
  end.
Proof.
  pose proof (contribution_call_ends undisturbed undisturbed 42 ex_request ex_store toy_call_request 100 active
    call_a.2 call_a.1 call_a_step toy_round active_ok ex_schemas_ok toy_round_raw call_a_begun) as He.
  rewrite <-(surjective_pairing call_a) in He.
  assert (is_ok (complete_call 10 toy_round call_a_step call_a).2 = true) as Hok by (vm_compute; reflexivity).
  change (Z.to_nat MAX_GUEST_BROKER_STEPS + 2)%nat with 10%nat in He.
  destruct (complete_call 10 toy_round call_a_step call_a) as [sh [[outcome|]|e]];
    [exact He|exact He|discriminate Hok].
Defined.
