(* ===== verification/ObservationExamples.v ===== *)
(** * Observation and viewer documents on concrete input

    The scenarios of the tests in [observation.rs], evaluated, and the witness of the
    theorem on exclusion. *)
From S2P Require Import Prelude Text Errors External Ids Stateful Evolution Observation ObservationProps.
From S2P Require Import ViewerDocument Reference.
#[local] Open Scope Z_scope.

Definition ex_project_a : ScopeId := MkIdent "scope.project.a".
Definition ex_project_b : ScopeId := MkIdent "scope.project.b".
Definition ex_trace (project : ScopeId) (id : string) : ExperienceTraceRef :=
  MkTrace id project None None [] ["subset"] Success (MkRedaction true true false false false) false None.
Definition ex_pattern (ids : list string) : PatternObservation :=
  MkPattern "p1" ex_project_a ids "These traces repeat".
Definition ex_recipe (refs : list string) : Recipe :=
  MkRecipe "r1" ex_project_a "Enrichment" "csv" [] ["read"] "table" refs 1.
Definition ex_skill : SkillSuggestion := MkSkill "skill.1" ex_project_a "r1" "Use the bounded recipe".

(** Two projects, each with a trace. *)
Definition ex_observed : ObservationModel :=
  observe_all [CallEnable ex_project_a; CallEnable ex_project_b; CallAddTrace (ex_trace ex_project_a "t1") 0;
    CallAddTrace (ex_trace ex_project_b "t2") 0; CallAddRecipe (ex_recipe ["t1"]) 0] ObservationModel_new.

Example ex_disabled_by_default :
  (observe (CallAddTrace (ex_trace ex_project_a "t1") 0) ObservationModel_new).2 = Err Disabled.
Proof. by vm_compute. Qed.
Example ex_pattern_recorded : (observe (CallAddPattern (ex_pattern ["t1"]) 0) ex_observed).2 = Ok ().
Proof. by vm_compute. Qed.
Example ex_pattern_across_projects :
  (observe (CallAddPattern (ex_pattern ["t1"; "t2"]) 0) ex_observed).2 = Err CrossProject.
Proof. by vm_compute. Qed.
Example ex_skill_accepted : (observe (CallAddSkill ex_skill 0) ex_observed).2 = Ok ().
Proof. by vm_compute. Qed.
Example ex_exclusion_blocks_skill :
  (observe (CallAddSkill ex_skill 0) (observe (CallExclude ex_project_a "t1") ex_observed).1).2 = Err Ineligible.
Proof. by vm_compute. Qed.
Example ex_recipe_needs_provenance :
  (observe (CallAddRecipe (ex_recipe []) 0) ex_observed).2 = Err Ineligible.
Proof. by vm_compute. Qed.

(** After the exclusion of [t1] a pattern over a second trace is recorded; it does not
    contain the excluded one. *)
Lemma exclusion_permanent_witness : "t1" ∉ ["t3"].
Proof.
  destruct (exclusion_permanent ex_project_a "t1" ex_observed [CallAddTrace (ex_trace ex_project_a "t3") 0])
    as (_ & Hpattern & _); [by vm_compute|].
  exact (Hpattern (ex_pattern ["t3"]) 0 eq_refl (ltac:(by vm_compute))).
Defined.

(** ** Viewer documents

    The document of the tests in [viewer_document.rs] is well formed as far as the
    block checks go; the ones with a path for an artifact, an uneven table and a
    reversed title are not. *)
Definition ex_document (title : string) (blocks : list ViewerBlockV1) : ViewerDocumentV1 :=
  MkDocument PLUGIN_VIEWER_DOCUMENT_CONTRACT title blocks.
#[local] Instance ex_viewer_serde : ViewerSerde := {|
  document_from_value v := match v with
    | VString title => Some (ex_document title [ArtifactImageRef "artifact_1" "image/png" "Plot"])
    | _ => None
    end;
  document_to_vec d := Some (str_bytes (vd_title d));
  command_result_from_value v := match v with VString message => Some (Notification message) | _ => None end |}.
Example ex_blocks_accepted : forallb (λ b, is_ok (validate_block b))
  [Text "Bounded project data"; Code "summary(data)" (Some "r"); KeyValue [MkItem "Rows" "2"];
   Table ["a"; "b"] [["1"; "2"]]; Notice ViewerNoticeToneV1.Info "Untrusted plugin output";
   ArtifactImageRef "artifact_1" "image/png" "Plot"] = true.
Proof. by vm_compute. Qed.
Example ex_blocks_refused : existsb (λ b, is_ok (validate_block b))
  [Code "x" (Some "R"); Table ["a"; "b"] [["1"]]; Table [] [];
   ArtifactImageRef "../plot.png" "image/png" "Plot"; ArtifactImageRef "artifact_1" "image/svg+xml" "Plot"] = false.
Proof. by vm_compute. Qed.
Example ex_document_parsed : is_ok (parse_document (VString "CSV metadata")) = true.
Proof. by vm_compute. Qed.
Example ex_document_titles : (is_ok (parse_document (VString "Security Alert")), is_ok (parse_document (VString " x")))
  = (false, false).
Proof. by vm_compute. Qed.
