(* ===== verification/BrokerServiceExamples.v ===== *)
(** * Network fetches and inspections on concrete input

    A fetch over one redirect with a toy reading of URLs, the hosts and addresses of the
    tests in [plugin_network.rs], and a registry with one object of
    [plugin_workspace.rs]; the theorems on both are applied here. *)
From S2P Require Import Prelude Text Errors External Digest Stateful Glob PluginNetwork PluginNetworkProps.
From S2P Require Import ProjectRoot WorkspaceInspection WorkspaceInspectionProps Reference.
#[local] Open Scope Z_scope.

(** ** Addresses and hosts *)

Example ex_refused_addresses : existsb is_public_ip
  [V4 127 0 0 1; V4 10 1 2 3; V4 169 254 169 254; V4 192 168 0 1; V4 100 64 0 1; V4 224 0 0 1; V6 0 0 0 0 0 0 0 1;
   V6 0 0 0 0 0 65535 32512 1; V6 64512 0 0 0 0 0 0 1; V6 65152 0 0 0 0 0 0 1; V6 8193 3512 0 0 0 0 0 1] = false.
Proof. by vm_compute. Qed.
Example ex_hosts : (host_matches "*.example.org" "data.example.org", host_matches "*.example.org" "example.org",
    host_matches "*.example.org" "evil-example.org", host_matches "example.org" "example.org",
    is_ipv4_literal "127.0.0.1", is_ipv4_literal "127.0.0.01")
  = (true, false, false, true, true, false).
Proof. by vm_compute. Qed.

(** ** A fetch *)

(** A URL is a scheme, a host and a path, and nothing else. *)
Definition toy_parse (s : string) : option (string * string * string) :=
  '(scheme, rest) ← split_once ":" s;
  rest ← strip_prefix "//" rest;
  '(host, path) ← split_once "/" rest;
  Some (scheme, host, path).
#[local] Instance toy_libraries : NetworkLibraries := {|
  Url := string * string * string;
  url_parse := toy_parse;
  url_scheme u := u.1.1;
  url_username _ := "";
  url_password _ := None;
  url_fragment _ := None;
  url_port_or_known_default u := if str_eq u.1.1 "https" then Some 443 else None;
  url_host_str u := Some u.1.2;
  url_join u location := match toy_parse location with Some v => Some v | None => Some (u.1, location) end;
  url_to_string u := u.1.1 +:+ "://" +:+ u.1.2 +:+ "/" +:+ u.2;
  status_is_valid s := (100 <=? s) && (s <? 1000);
  base64_encode := of_bytes
|}.
Definition ex_fetch (url : string) : NetworkFetchRequest := MkFetch url "GET" 64 7.
Definition ex_policy : NetworkFetchPolicy := MkPolicy ["*.example.org"] ["GET"] 1024 7.
(** The host [old] redirects to [new]; the address of [inner] is private; at most
    [allowed] authorizations are given. *)
Definition ex_world (allowed : nat) : NetworkWorld := {|
  world_authorize history _ :=
    if decide (length history < allowed)%nat then Ok () else Err (fetch_error NetworkFetchErrorCode.AuthorizationDenied);
  world_resolve _ host := Some (Ok [if str_eq host "inner.example.org" then V4 10 0 0 1 else V4 93 184 216 34]);
  world_send _ hop _ :=
    if str_eq (nh_host hop) "slow.example.org" then None
    else if str_eq (nh_host hop) "old.example.org"
    then Some (Ok (MkTransportResponse 302 ∅ (Some "https://new.example.org/data") []))
    else Some (Ok (MkTransportResponse 200 (<["etag" := "1"]> (<["set-cookie" := "x"]> ∅)) None (str_bytes "hello")))
|}.
Definition ex_outcome (allowed : nat) (url : string) :=
  match (fetch (ex_world allowed) (ex_fetch url) ex_policy).2 with
  | Some (Ok r) => inl (fr_status r, fr_content r, fr_redirect_count r, size (fr_headers r))
  | Some (Err e) => inr (Some (fe_code e, fe_completion_uncertain e))
  | None => inr None
  end.
Example ex_redirected : ex_outcome 20 "https://old.example.org/data" = inl (200, "hello", 1, 1%nat).
Proof. by vm_compute. Qed.
Example ex_private : ex_outcome 20 "https://inner.example.org/x" = inr (Some (NetworkFetchErrorCode.NonPublicAddress, false)).
Proof. by vm_compute. Qed.
Example ex_foreign : ex_outcome 20 "https://example.com/x" = inr (Some (NetworkFetchErrorCode.HostNotAllowed, false)).
Proof. by vm_compute. Qed.
Example ex_slow : ex_outcome 20 "https://slow.example.org/x" = inr (Some (NetworkFetchErrorCode.Timeout, true)).
Proof. by vm_compute. Qed.
Example ex_revoked_meanwhile : ex_outcome 5 "https://old.example.org/data"
  = inr (Some (NetworkFetchErrorCode.AuthorizationDenied, true)).
Proof. by vm_compute. Qed.

(** ** An inspection *)

Definition ex_workspace : WorkspaceIdentity := MkWorkspace "w1" "kernel_1" 3 4 5.
#[local] Instance toy_identity : IdentityFromValue := λ v,
  match v with VString s => Some (MkWorkspace s "kernel_1" 9 4 5) | _ => None end.
Definition ex_context : WorkspaceInspectionContext := MkContext "/home/p" ex_workspace.
Definition ex_object : list (string * Value) :=
  [("name", VString "df"); ("classes", VArray [VString "data.frame"]); ("typeof", VString "list");
   ("preview_kind", VString "table")].
Definition ex_snapshot : Value :=
  VObject [("workspace", VString "w1"); ("objects", VArray [VObject ex_object])].
Definition ex_answer (workspace : string) : Value :=
  VObject [("workspace", VString workspace);
           ("execution", VObject (ex_object ++ [("preview", VArray [VString "1"]); ("secret", VString "x")]))].
Definition ex_calls : list RegistryCall := [CallIssue ex_context ex_snapshot [str_bytes "a"] [17]].
Definition ex_inspect : WorkspaceInspectRequest := MkInspect "object.61" Preview.
Definition ex_inspection (calls : list RegistryCall) (workspace : string) : result WorkspaceInspectErrorCode.t Value :=
  prepared ← prepare (registry_calls calls) ex_context ex_inspect;
  finish ex_context prepared (ex_answer workspace).
Example ex_inspections :
  (is_ok (ex_inspection ex_calls "w1"), is_ok (ex_inspection ex_calls "w2"),
   is_ok (ex_inspection (ex_calls ++ [CallInvalidateProject "/home/p"]) "w1")) = (true, false, false).
Proof. by vm_compute. Qed.
