(* ===== verification/StoreExamples.v ===== *)
(** * The lifecycle store on concrete input

    Histories as in the tests of [plugin_lifecycle.rs], with a toy reading of JSON in
    which every text of an object stands for the empty one; the theorem on replacements
    is applied to one of them. *)
From S2P Require Import Prelude Text External Stateful ProjectRoot LifecycleRecords LifecycleDatabase StoreLifecycle.
From S2P Require Import StoreInvariant StoreProps StoreReplacement Reference.
#[local] Open Scope Z_scope.
Import PluginLifecycleMutationOutcome.

#[local] Instance toy_store : StoreLibraries := {|
  json_from_str := λ text, if starts_with_char "{" text then Some (VObject []) else None;
  json_text := render;
  sqlite_json_valid := starts_with_char "{";
  to_rfc3339 := λ time, of_bytes [byte_of (Z.max 0 time)];
  parse_from_rfc3339 := λ text, code <$> head (str_bytes text)
|}.
#[local] Program Instance toy_u64 : SerdeFromU64 := {| num_from_u64 n := n |}.
Next Obligation.
  intros n Hn. cbn. by rewrite (proj2 (Z.leb_le _ _)), (proj2 (Z.ltb_lt _ _)) by lia.
Qed.

Definition project : string := "D:/projects/A".
Definition plugin : string := "org.example.plugin".
Definition digest_of (c : ascii) : string := of_bytes (repeat c 64).
Definition ex_discovered (version : string) (c : ascii) : StoreCall :=
  CallUpsert (MkDiscovered project plugin "example" version "wasm" (digest_of c)).
Definition ex_request (id kind desired : string) (expected candidate : option ascii) (key : option string) : StoreCall :=
  CallRequest (MkTransitionDraft id project plugin kind "user_requested" desired (digest_of <$> expected)
    (digest_of <$> candidate) None key).
Definition ex_advance (id from to status observed : string) (accepted : option ascii) (clear : bool) : StoreCall :=
  CallAdvance (MkAdvance project id from to status observed (digest_of <$> accepted) None None clear
    (Some "session.1") None None "preflight" "completed" "{}").
(** A call alone, in which no statement fails. *)
Definition calm_run (now : Z) (call : StoreCall) : Run := MkRun now call [pretty now] [] [].
Definition calm_runs (calls : list StoreCall) : list Run := imap (λ n call, calm_run (65 + Z.of_nat n) call) calls.
Definition outcome_after (calls : list StoreCall) (call : StoreCall) : option outcome :=
  match (run_call 120 call (MkConnection (store_after (calm_runs calls)) ["last"] [] [])).2 with
  | Ok o => Some o
  | Err _ => None
  end.

(** ** An upgrade *)

Definition ex_enabled : list StoreCall :=
  [ex_discovered "1.0.0" "a"; ex_request "transition.1" "enable" "enabled" None (Some "a"%char) None;
   ex_advance "transition.1" "requested" "completed" "completed" "active" (Some "a"%char) true].
Definition ex_upgrade : list StoreCall :=
  ex_enabled ++
  [ex_discovered "2.0.0" "b"; ex_request "transition.2" "upgrade" "enabled" (Some "a"%char) (Some "b"%char) None;
   ex_advance "transition.2" "requested" "pointer_swapped" "running" "activating" None false].
Definition ex_replace : StoreCall := CallReplacement project "transition.2" "session.2".
Example ex_replaced : outcome_after ex_upgrade ex_replace = Some Applied.
Proof. by vm_compute. Qed.
Example ex_replaced_twice : outcome_after (ex_upgrade ++ [ex_replace]) ex_replace = Some Unchanged.
Proof. by vm_compute. Qed.
Example ex_accepted_now : (s ← find_state project plugin (store_after (calm_runs (ex_upgrade ++ [ex_replace])));
    Some (ws_accepted_digest s, ws_rollback_digest s, ws_observed_state s))
  = Some (Some (digest_of "b"), Some (digest_of "a"), "active").
Proof. by vm_compute. Qed.
(** Too early, and while another transition is on its way. *)
Example ex_replaced_early : outcome_after (take 5 ex_upgrade) ex_replace = Some Stale.
Proof. by vm_compute. Qed.
Example ex_second_request : outcome_after (take 5 ex_upgrade)
    (ex_request "transition.3" "disable" "disabled" (Some "a"%char) None None) = Some Conflict.
Proof. by vm_compute. Qed.
(** A failing statement: the journal entry of the replacement does not go in. *)
Example ex_journal_fails :
  let db := store_after (calm_runs ex_upgrade) in
  let '(c, r) := run_call 120 ex_replace (MkConnection db ["last"] [false; false; false; false; false; true] []) in
  is_ok r = false ∧ option_map ws_accepted_digest (find_state project plugin (cn_database c)) = Some (Some (digest_of "a")).
Proof. by vm_compute. Qed.

Definition ex_transition : WorkspacePluginTransition :=
  default (MkTransition "" "" "" "" None None None "" "" "" "" None None None)
    (find_transition project "transition.2" (store_after (calm_runs ex_upgrade))).

(** ** The trash *)

Definition ex_uninstall (id key : string) : StoreCall := ex_request id "uninstall" "uninstalled" (Some "a"%char) None (Some key).
Definition ex_tombstone (id key : string) : WorkspacePluginTombstoneDraft :=
  MkTombstoneDraft id project plugin (digest_of "a") key "example" "recoverable" "user_uninstall".
Definition ex_uninstalled : list StoreCall :=
  ex_enabled ++
  [ex_uninstall "transition.2" "trash.1";
   ex_advance "transition.2" "requested" "package_moved" "running" "disposing" None false;
   CallUninstall "transition.2" (ex_tombstone "tombstone.1" "trash.1")].
Definition stage_after (calls : list StoreCall) : option trash_stage :=
  find_tombstone project "tombstone.1" (store_after (calm_runs calls)) ≫= stage_of.
Definition ex_purge : WorkspacePluginPurgeDraft :=
  MkPurgeDraft project "tombstone.1" plugin (digest_of "a") "trash.1" "example".
Example ex_stages :
  (stage_after ex_uninstalled, stage_after (ex_uninstalled ++ [CallRestore project "tombstone.1"]),
   stage_after (ex_uninstalled ++ [CallExpire project "z" 10]),
   stage_after (ex_uninstalled ++ [CallExpire project "z" 10; CallRequestPurge ex_purge]),
   stage_after (ex_uninstalled ++ [CallExpire project "z" 10; CallRequestPurge ex_purge; CallCompletePurge ex_purge]))
  = (Some Recoverable, Some Restored, Some Expired, Some PurgePending, Some Deleted).
Proof. by vm_compute. Qed.
(** An uninstall may be requested of an uninstalled plugin, and a restore does not look
    whether a transition is on its way: the plugin is back, in no transition, and no
    request is admitted while the one left behind is open; it cannot be completed as the
    uninstall that it is. *)
Example restore_leaves_transition :
  let calls := ex_uninstalled ++ [ex_uninstall "transition.3" "trash.2"; CallRestore project "tombstone.1"] in
  option_map ws_transition_id (find_state project plugin (store_after (calm_runs calls))) = Some None
  ∧ option_map is_active (find_transition project "transition.3" (store_after (calm_runs calls))) = Some true
  ∧ outcome_after calls (ex_request "transition.4" "enable" "enabled" None (Some "a"%char) None) = Some Conflict
  ∧ outcome_after (calls ++ [ex_advance "transition.3" "requested" "package_moved" "running" "disposing" None false])
      (CallUninstall "transition.3" (ex_tombstone "tombstone.2" "trash.2")) = None.
Proof. by vm_compute. Qed.

(** A repeated request is not compared by the state it desires. *)
Example repeated_request_other_intent :
  let request desired := ex_request "transition.2" "shutdown" desired (Some "a"%char) None None in
  outcome_after (ex_enabled ++ [request "enabled"]) (request "disabled") = Some Unchanged
  ∧ option_map ws_desired_state (find_state project plugin
      (store_after (calm_runs (ex_enabled ++ [request "enabled"; request "disabled"])))) = Some "enabled".
Proof. by vm_compute. Qed.

(** ** Crashes *)

Definition ex_crash : StoreCall := CallCrash project plugin (digest_of "a") "session.1" "trap".
(** The third crash within ten minutes blocks a plugin. *)
Example ex_crash_loop :
  let observed n := option_map ws_observed_state (find_state project plugin (store_after (calm_runs (ex_enabled ++ repeat ex_crash n)))) in
  (observed 1%nat, observed 2%nat, observed 3%nat) = (Some "crashed", Some "crashed", Some "blocked").
Proof. by vm_compute. Qed.
