(* ===== verification/PluginExamples.v ===== *)
(** * Manifests and evolution on concrete input

    A manifest, a sealed plan with its evidence and promotion, a staged
    candidate and a broker exchange, evaluated; a length-prefixed encoding of
    plans shows that the laws asked of [serde_json] can hold. *)
From S2P Require Import Prelude Text Errors External Ids Model Permission JsonSchema Digest Host.
From S2P Require Import Contribution ContributionProps ContributionStore Manifest ManifestProps.
From S2P Require Import Evolution EvolutionProps Broker Graph Grant Reference ContributionExamples.
#[local] Open Scope Z_scope.

(** ** Manifests *)

Definition ex_manifest : WorkspacePluginManifest :=
  MkManifest 2 (MkIdent "table-tools") "Table tools" ("1.0.0" : string) "^1" 
    (MkRuntime Wasm "dist/plugin.wasm" (MkIdent "project")) ["onCapability:tool.count"]
    [MkProvide (MkIdent "tool.count") 1 None; MkProvide (MkIdent "tool.sum") 1 None]
    [MkManifestRequire (MkIdent "core.tables") 1] [MkManifestRequire (MkIdent "core.plots") 2]
    [MkPermissionRequest "project.fs.read" (Some "Read the tables") ["data/**/*.csv"] [] [] [] []
       (Some 4096) None]
    ex_declarations None.

Example ex_manifest_valid : validate_manifest ex_manifest = Ok ().
Proof. by vm_compute. Qed.
Example ex_major_text : deserialize_contract_major (TokStr "+007") = Ok 7.
Proof. by vm_compute. Qed.
Example ex_major_overflow :
  deserialize_contract_major (TokStr "18446744073709551616")
  = Err "contract major must be a positive integer".
Proof. by vm_compute. Qed.

Lemma manifest_contributions_stage_witness :
  stage (ex_identity "p" 1) ex_declarations = Ok ex_candidate.
Proof. exact (manifest_contributions_stage ex_manifest (ex_identity "p" 1) ex_manifest_valid). Defined.
Lemma manifest_descriptor_witness :
  validate_for_scope (normalize (to_descriptor ex_manifest)) (MkIdent "project") = Ok ().
Proof.
  apply (manifest_descriptor ex_manifest (MkIdent "project") ex_manifest_valid). split; [done|].
  unfold requirements_distinct. simpl. split_and!; [by apply NoDup_singleton|by apply NoDup_singleton|].
  intros r o ->%list_elem_of_singleton ->%list_elem_of_singleton. discriminate.
Defined.

(** A manifest may name one requirement twice: it parses, but its descriptor is
    refused at activation. *)
Definition ex_repeating_manifest : WorkspacePluginManifest :=
  MkManifest 1 (MkIdent "table-tools") "Table tools" ("1.0.0" : string) "^1"
    (MkRuntime Wasm "dist/plugin.wasm" (MkIdent "project")) [] []
    [MkManifestRequire (MkIdent "core.tables") 1; MkManifestRequire (MkIdent "core.tables") 1]
    [] [] [] None.
Example repeated_requirement_refused_late :
  validate_manifest ex_repeating_manifest = Ok () ∧
  is_ok (validate_for_scope (normalize (to_descriptor ex_repeating_manifest)) (MkIdent "project")) = false.
Proof. by vm_compute. Qed.

(** ** An encoding of plans *)

Definition pack (l : list (list ascii)) : list ascii := l ≫= hash_bytes.
Lemma pack_cons x l : pack (x :: l) = hash_bytes x ++ pack l.
Proof. done. Qed.
Lemma pack_inj l k : Forall u64_len l → Forall u64_len k → pack l = pack k → l = k.
Proof.
  intros Hl. revert k. induction Hl as [|x l Hx _ IH]; intros k Hk; destruct Hk as [|y k Hy Hk]; try done.
  rewrite !pack_cons. intros Heq. apply hash_bytes_app_inj in Heq as [-> Heq]; [|done..].
  f_equal. by apply IH.
Qed.
Lemma pack_u64 l : u64_len (pack l) → Forall u64_len l.
Proof.
  unfold u64_len. induction l as [|x l IH]; [by constructor|].
  rewrite pack_cons, length_app. unfold hash_bytes. rewrite length_app. intros Hlen. constructor; [lia|].
  apply IH. lia.
Qed.
Definition pack_strings (l : list string) : list ascii := pack (str_bytes <$> l).
Lemma pack_strings_inj l k :
  u64_len (pack_strings l) → u64_len (pack_strings k) → pack_strings l = pack_strings k → l = k.
Proof.
  intros Hl%pack_u64 Hk%pack_u64 Heq%pack_inj; [|done..]. by apply (inj (fmap str_bytes)).
Qed.

Definition plan_fields (p : EvaluationPlan) : list (list ascii) :=
  [str_bytes (ep_plan_id p); str_bytes (as_str (ep_project_id p)); str_bytes (ep_lineage_id p);
   str_bytes (as_str (ep_plugin_id p)); str_bytes (digest_str (ep_baseline_digest p));
   str_bytes (digest_str (ep_candidate_digest p));
   str_bytes (digest_str (ep_protected_fixture_set_digest p));
   pack_strings (ep_mandatory_cases p); pack_strings (ep_required_layers p);
   pack_strings (match ep_minimum_improvement_rule p with Some r => [r] | None => [] end);
   pack_strings (ep_rejection_conditions p)].
#[export] Program Instance reference_plan : SerdePlan := {|
  plan_to_vec p :=
    if Z.of_nat (length (pack (plan_fields p))) <=? u64_max then Ok (pack (plan_fields p))
    else Err "plan does not fit"
|}.
Next Obligation.
  intros p q v. cbv beta. destruct (Z.leb_spec (Z.of_nat (length (pack (plan_fields p)))) u64_max) as [Hp|]; [|done].
  destruct (Z.leb_spec (Z.of_nat (length (pack (plan_fields q)))) u64_max) as [Hq|]; [|done].
  intros Hv Hw. assert (pack (plan_fields p) = pack (plan_fields q)) as Heq by congruence.
  apply pack_u64 in Hp, Hq. apply pack_inj in Heq; [|done..].
  unfold plan_fields in *. rewrite !Forall_cons in Hp, Hq. destruct_and!.
  injection Heq as E1 E2 E3 E4 E5 E6 E7 E8 E9 E10 E11.
  apply (inj str_bytes) in E1, E2, E3, E4, E5, E6, E7. apply (inj as_str) in E2, E4.
  apply (inj digest_str) in E5, E6, E7. apply pack_strings_inj in E8, E9, E10, E11; [|done..].
  destruct p as [????????? [] ?], q as [????????? [] ?]; simpl in *; congruence.
Qed.
Next Obligation.
  intros p v. cbv beta. destruct (Z.leb_spec (Z.of_nat (length (pack (plan_fields p)))) u64_max); [|done].
  by intros [= <-].
Qed.

(** ** Evolution *)

Definition ex_digest (s : string) : PackageDigest := MkPackageDigest s.
Definition ex_plan (baseline candidate : string) : EvaluationPlan :=
  MkPlan "plan" (MkIdent "project-a") "lineage" (MkIdent "p") (ex_digest baseline) (ex_digest candidate)
    (ex_digest "fixtures") ["case-1"] ["contract"] None ["data-loss"].
Definition ex_seal (p : EvaluationPlan) : SealedEvaluationPlan :=
  MkSealed p (from_inventory [(seal_tag, pack (plan_fields p))]).
Definition ex_evidence (p : EvaluationPlan) (passed : bool) : EvaluationEvidence :=
  MkEvidence "evidence" "plan" (se_seal_digest (ex_seal p)) (ep_candidate_digest p)
    [MkLayer "contract" true []] [MkCase "case-1" passed "ok"] [] true false.

Example ex_sealed : seal (ex_plan "d0" "d1") = Ok (ex_seal (ex_plan "d0" "d1")).
Proof. by vm_compute. Qed.
Example ex_accepted :
  evidence_decide (ex_evidence (ex_plan "d0" "d1") true) (ex_seal (ex_plan "d0" "d1"))
  = Ok EvaluationDecision.Accept.
Proof. by vm_compute. Qed.
Example ex_regression :
  evidence_decide (ex_evidence (ex_plan "d0" "d1") false) (ex_seal (ex_plan "d0" "d1"))
  = Err EvaluationError.MandatoryRegressionFailed.
Proof. by vm_compute. Qed.


Definition ex_promotion : ManualPromotion :=
  MkPromotion (ex_digest "d1") (ex_digest "d0") (ex_digest "d0") "evidence"
    (se_seal_digest (ex_seal (ex_plan "d0" "d1"))) (MkIdent "project-a") "lineage" (MkIdent "p").
Lemma ex_promotion_authorized : authorized ex_promotion.
Proof.
  exists (ex_plan "d0" "d1"), (ex_seal (ex_plan "d0" "d1")), (ex_evidence (ex_plan "d0" "d1") true),
    (ex_digest "d0"), (ex_digest "d0"). split; [apply ex_sealed|by vm_compute].
Qed.
Lemma lineage_history_witness :
  ∃ d, pl_accepted_digest (foldl run_publish (PluginLineage_new "lineage" (MkIdent "project-a")
         (MkIdent "p") (Some (ex_digest "d0"))) [(ex_digest "d0", ex_promotion)]) = Some d ∧
    rtc (promoted (MkIdent "project-a") "lineage" (MkIdent "p")) (ex_digest "d0") d.
Proof.
  destruct (lineage_history "lineage" (MkIdent "project-a") (MkIdent "p") (ex_digest "d0")
    [(ex_digest "d0", ex_promotion)]) as (d & Hd & Hr & _).
  - constructor; [apply ex_promotion_authorized|constructor].
  - by exists d.
Defined.

Definition ex_envelopes : EvolutionEnvelopes := MkEnvelopes ["tool."] ["project.fs.read"] ["wasm"] ["tables"].
Definition ex_policy_standing : StandingPolicy :=
  StandingPolicy_new "policy" 1 (MkIdent "project-a") "lineage" A3Draft ex_envelopes.
Definition ex_staged_candidate : StagedCandidate :=
  MkStaged (MkProfile "c1" (MkIdent "project-a") "lineage" (MkIdent "p") (ex_digest "d1") (ex_digest "d0") A3Draft)
    (MkProvenance (ex_digest "s") (ex_digest "m") (ex_digest "l") (ex_digest "b") "agent" ["rustc"] ["src/lib.rs"])
    ValidationPass.
Lemma ex_stage_candidate :
  stage_candidate StagingLedger_new ex_policy_standing ex_envelopes ex_staged_candidate
  = ((stage_candidate StagingLedger_new ex_policy_standing ex_envelopes ex_staged_candidate).1, Ok ()).
Proof. apply pair_result. by vm_compute. Qed.
Lemma stage_candidate_correct_witness : cp_package_digest (sc_profile ex_staged_candidate) ≠ ex_digest "d0".
Proof.
  pose proof (stage_candidate_correct _ _ _ _ _ _ ex_stage_candidate) as (_ & _ & _ & _ & _ & _ & Hne & _).
  exact Hne.
Defined.

(** ** The broker *)

Definition ex_request : BrokerRequest :=
  MkRequest (MkIdent "op") (MkBounded (VString "ping") 6) WorkspaceSnapshot.
Definition ex_response : BrokerResponse := MkResponse (MkBounded (VString "pong") 6).
Lemma ex_request_made : BrokerRequest_new (MkIdent "op") (VString "ping") WorkspaceSnapshot = Ok ex_request.
Proof. reflexivity. Qed.
Lemma ex_response_made : BrokerResponse_new (VString "pong") ex_request = Ok ex_response.
Proof. reflexivity. Qed.
Lemma exchange_bounded_witness : bj_value (resp_payload ex_response) = VString "pong".
Proof.
  exact (proj1 (proj2 (proj2 (proj2 (proj2 (exchange_bounded _ _ _ _ _ _ ex_request_made ex_response_made)))))).
Defined.
